(* ===== verification/_CoqProject ===== *)
-Q . S2P
Prelude.v
Protos.v
RaftCommon.v
KVStore.v
KVStoreSpec.v
KVStoreFlag.v
Sim.v
Snapshots.v
KVStoreProps.v
Membership.v
Shard.v
ShardWorld.v
Redistribution.v
Pending.v
Answers.v
Stable.v
StableCalls.v
Completion.v
Serving.v
SimNet.v
Joining.v
ShardLoops.v
ShardProps.v
System.v
Sweep.v
SystemInv.v
SystemStore.v
SystemProps.v
RedistributeGuard.v
SystemOrder.v
SystemKept.v
Kube.v
Controller.v
ControllerTrace.v
ControllerSpec.v
ControllerCalls.v
ControllerRun.v
ControllerProgress.v
SimKube.v
Webhook.v
ControllerProps.v
ConfigNames.v
ControllerInv.v
Joint.v
JointProps.v
JointLive.v
JointScale.v
JointLate.v
JointCollect.v
Grpc.v
GrpcProps.v
Client.v
ClientLive.v
Manager.v
Scheme.v
IpRegex.v
Capture.v
CaptureProps.v
DeepCopy.v
