(* ===== verification/Prelude.v ===== *)
(** * Verification of a sharded key-value store

    The program keeps a map from strings to strings on a set of shards. A shard is a
    group of replica processes that agree on a log through Raft; keys are placed on
    shards by consistent hashing. A Kubernetes controller creates the shards of a
    resource of kind KVStore and, when the number of shards changes, walks the resource
    through a sequence of phases in which the shards stop writes, move keys, and
    resume. This development models the Go code of the program and proves what
    makes its parts correct, and, where the code does not do what it means to,
    what it does instead.

    ** Parts, and the files that model them

    - This file: Go errors ([error], [res], [gerror]), the monad [M] of stateful
      code (a run returns, panics or exits ([Crash]), or exhausts a bound ([Hang])),
      loops, [deferred], Hoare triples for all three outcomes, strings and int32.
    - Protos: the messages and accessors of src/internal/protos/*.pb.go; protobuf
      encoding is the class [Proto] with the laws [ProtoLaws].
    - RaftCommon: src/internal/raft/common.go. hashicorp/raft is the class [Raft]
      over an arbitrary type of environments; a call returns, with its answer, the
      FSM callbacks that the library makes meanwhile.
    - KVStore: src/internal/raft/kvstore/kvstore.go, every method of KVStore, KVFsm
      and fsmSnapshot. Maps live in a heap, since KVStore, KVFsm and snapshots share
      them; locks are flags.
    - Shard: src/cmd/shard/shard.go: a [World] of processes, the handlers of the
      three services, [RedistributeKeys], [ReloadConfig], the maps of clients, the
      start and the shutdown. Consistent hashing, gRPC routing and the operating
      system are the classes [ConsistentHash], [Net] and [OS].
    - Grpc: the generated stubs, handlers and service tables of
      src/internal/protos/*_grpc.pb.go. The library is a parameter: a connection ([Conn]),
      and what is documented of connections to a server ([connected]).
    - Kube, Controller, Webhook: the resource (src/kvctl/api/v1), the reconciler
      (src/kvctl/internal/controller) and the admission checks
      (src/kvctl/internal/webhook). The API server is the class [Kube]; a run leaves
      the list of the calls that it made.
    - Scheme, Manager: the initialisation of the packages of the controller's process, with
      the registration of the types of src/kvctl/api/v1, and its start
      (src/kvctl/cmd/main.go). The libraries are the classes [SchemeLib] and [Runtime].
    - Client: the command line client (src/cmd/client/client.go).
    - IpRegex, Capture: the packet capture of src/internal/capture.go, with the pattern
      and the matcher of Go's regexp package apart. libpcap, gopacket, the resolver,
      msgpack and the types of hashicorp/raft are the class [Capture].
    - DeepCopy: the generated copies of src/kvctl/api/v1/zz_generated.deepcopy.go, over a
      heap in which the references of the resource are explicit.
    - System: the processes of Shard as a transition system. A turn is a request at an
      address, a step of a goroutine, one round of a redistribution, callbacks of the
      Raft library, a move of the environment, the start or the stop of a process.
    - RedistributeGuard: the goroutines of [RedistributeKeys] at one process, statement by
      statement through the guard with its mutex, at the same time.
    - Joint: the controller and the processes together. The class [Kube] that the
      controller is written against gets an instance whose calls of shards are calls of
      the handlers of Shard. When a shard has no stateful set, the cluster may remove its
      processes with all that they store ([JCollect]), as the retention policy of the sets
      demands.

    Definitions carry the names of the source; the methods of a type carry the type
    as a prefix, as in [shardRpcServer_Put]. A definition with the name of a function
    is the whole function, apart from log output.

    ** Specifications and theorems

    - The store (KVStoreSpec, Snapshots, KVStoreFlag; KVStoreProps). [KVSpec] is a
      finite map with a flag and [spec_apply] the effect of a log entry. The FSM
      refines it; writes are read back; a snapshot that is persisted late, or while entries
      are applied, so that it has each key as of another moment ([torn]), can be replayed
      from. Restoring a
      snapshot cuts reads off from later writes, an empty snapshot makes the next
      write panic, and the flag that pauses writes never reaches the struct that is
      asked for it.
    - The members of a group (Membership, Joining). At a leader ([Membership], which speaks
      of changes of other servers than the leader itself only) a replica
      that joins replaces whatever stood under its name or address, and names and addresses
      stay unique; a replica that starts in a group with a leader ([SteadyGroup]) finds it
      and joins, and one that is stopped, a leader that hands over ([Handover]) included, leaves
      without its vote. One that was stopped and comes
      back at its old address has no vote.
    - The shards (ShardWorld, Redistribution, Pending, Stable, StableCalls, Completion,
      Serving; ShardProps). Redistribution loses no entry, whatever fails on the way; it
      completes in a cluster that keeps working ([StableCluster]); the number of
      pending keys is exact; what a client writes
      or deletes is what clients then read; a configuration is adopted only when it
      announces no new shards. Answers inverts successful calls, and ShardLoops shows that
      dialling ends and that looking for a leader need not. RedistributeGuard shows that at
      most one goroutine is in the body of a redistribution, however their statements
      interleave, and that none of them waits for ever.
    - The deployment (SystemInv, SystemStore; SystemProps, SystemOrder, SystemKept).
      [ProcsInv] lists what a property of the processes has to be closed under to hold
      along every run ([FlagFree] adds the assignments of the guard). Three instances:
      processes stay in good order, an entry that no
      client writes stays stored however it is moved and whichever processes start, and
      the flag that would pause writes is never set, so that pausing pauses nothing and a
      put that is forwarded to a leader is always refused.
    - Controller and deployment (ControllerInv, Joint; JointProps). [KubeInv] lists what a
      property of the cluster has to be closed under to hold along every reconciliation.
      What a reconciliation does to the processes is a sequence of turns of System, so
      the invariants of runs hold when the controller takes part. When the controller goes on
      to delete shards, it has either failed to list them, or asked each one that it listed,
      and each of these had, by the configuration that it read at that moment, no entry left
      to move. A whole scaling operation of both halves is run.
    - Scaling from end to end (Sweep, JointLive, JointScale). When the goroutines that
      redistribute keys have run at all shards, every entry is where the new ring locates it.
      The processes are an instance of the interface [CooperativeServer] against which the
      progress of the controller is proved, so a scaling operation of both halves comes to
      an end: the resource is back to normal, surplus shards are gone, entries are where the
      new ring locates them, replicas use this ring, and clients read what was stored.
    - Deleted shards (JointCollect). When after a scaling operation, up or down, the cluster
      removes the processes and the volumes of the shards without a stateful set, every entry
      is still stored by the leader of its shard, and clients read it.
    - Writes while scaling (JointLate). A put that a client sends after the last key has moved
      and before the new ring is adopted is acknowledged, and never read again.
    - Names (ConfigNames). The configuration that the controller writes names shards and
      replicas by labels, and the addresses that the shards build from the names are
      unambiguous. The theorems on the shards assume such names of the files that are read
      ([ConfigLabels]); the assumption is derived where the controller has written them.
    - Clients and shards (ClientLive). To its clients a cluster that keeps working is a map:
      the answers to any sequence of requests at any processes are those of [map_ops]. The
      command line client runs against it, and its dummy data is read back.
    - gRPC (GrpcProps): the tables are well named, and over any connection to a server every
      stub reaches the method of its name, if the request can be sent.
    - The controller (ControllerTrace, ControllerSpec, ControllerCalls,
      ControllerRun, ControllerProgress; ControllerProps). [transition] is the phase
      machine; whatever the cluster answers, the statuses that a run writes follow
      it and every call of a run is one that its phase permits; the numbers of shards
      stay consistent along the life of a resource, in which users act under the webhook and
      the controller runs; new shards get sets of their own names; only sets whose label
      names a surplus shard are deleted, which are those of surplus shards unless the
      resource itself has a label group; keys are
      redistributed after every listed shard has paused and shards finalized when no
      listed shard has pending keys; in a cluster that cooperates ([Cooperative]) a
      scaling operation ends. Failed listings, missing shards and a label named
      group are shown to defeat parts of this.
    - The processes around it (Manager, Scheme, Client): a start-up call that fails ends the
      process, and the manager is started with everything registered, that
      the types are registered before, the protocols of the servers, what the client
      sends and to whom.
    - The packet capture (IpRegex, CaptureProps): the matcher finds the longest dotted
      address, texts are cut at these from left to right, the resolver is asked once for
      an address in whatever order goroutines take turns, and the goroutine of a
      stream ends with the stream.
    - Deep copies (DeepCopy): the generated copies keep the interface [DeepCopier] that they
      ask of the library, so a copy shares no reference with its original.

    Sim, SimNet and SimKube are concrete instances of the classes, on which the
    theorems are run; they show that the assumptions can be met together.

    ** Bounds

    Loops that retry until a connection is made, a leader found or logs received
    take a bound [fuel] on the number of rounds; a loop that exceeds it ends in
    [Hang]. Safety theorems hold for every bound and for every outcome, [Hang]
    included. The theorems that a run returns (that redistribution completes, that
    a new configuration is adopted, that a replica joins, that a scaling operation ends)
    are stated for every positive bound, which is enough since in the clusters they speak of the first
    attempt succeeds. That dialling ends is stated for every bound above the number of
    failed attempts, and that a stream is read to its end for every bound above the number
    of bytes on it. All other loops run over
    lists and are structural. Counts are integers without bound but the one that the
    code cuts down to an int32.

    ** What is not modelled

    - A turn runs to its end before the next one: a handler, a goroutine or a round of
      a redistribution is interrupted only by the calls to other processes that it makes
      itself and by the moves of the environment that the classes allow at each library
      call. The mutexes of the store are kept as flags, and taking a lock that is held
      hangs. Only the guard of [RedistributeKeys] is taken apart further
      (RedistributeGuard), and what a snapshot that is marshalled while entries are applied
      can hold is a relation ([torn]). The data races below this, on the host names of the
      packet capture and on the map that Persist marshals without a lock, at which Go can
      end the process, are not shown.
    - Timeouts and contexts: a call may fail at any time, for any reason.
    - Log output but that of the packet capture, and rand.Seed.
    - The controller's own copy of the protos; the parts of generated messages that the
      protobuf runtime uses; tests; deployment files.

    ** Limits of the theorems

    The end-to-end theorem speaks of clusters in which leaders do not change during the
    operation. Nothing but the phases of the resource and the loss of no entry is shown of
    operations in which they do. Of the shutdown of a leader that finds nobody to hand over to,
    only the invariants of runs are shown.

    [RaftSerial], on which the theorems about the loss of entries rest, says that while a
    process waits in a call of Apply for its own entry, the library gives its FSM no other one.
    Entries that other processes propose arrive between turns (the callbacks of System), but
    two proposals of one process that overlap are not covered. *)

From stdpp Require Export base tactics strings pretty list gmap fin_maps relations.
From stdpp Require Export numbers list_numbers sorting.

#[export] Set Default Goal Selector "!".

(** ** Go errors *)

(** The errors the code creates, compares or forwards. [ErrNotLeader] and
    [ErrNothingNewToSnapshot] are the sentinel values of hashicorp/raft that the
    code compares with [==]; [Errorf] is an error made by [fmt.Errorf];
    [StatusErr] is what a gRPC client receives; [LibErr] is any other error that
    a library hands out. *)
Inductive error : Type :=
| ErrNotLeader
| ErrNothingNewToSnapshot
| KeyNotFound
| ErrWritesDisabled
| Errorf (msg : string)
| StatusErr (code desc : string)
| NotFoundErr (msg : string)
| LibErr (msg : string).

#[export] Instance error_eq_dec : EqDecision error.
Proof. solve_decision. Defined.

(** The [Error()] method of each of them. *)
Definition Error (e : error) : string :=
  match e with
  | ErrNotLeader => "node is not the leader"
  | ErrNothingNewToSnapshot => "nothing new to snapshot"
  | KeyNotFound => "Key not found"
  | ErrWritesDisabled => "Writes disabled. Please try again later."
  | Errorf msg => msg
  | StatusErr code desc => "rpc error: code = " +:+ code +:+ " desc = " +:+ desc
  | NotFoundErr msg => msg
  | LibErr msg => msg
  end.

(** A Go function that returns [(T, error)]: exactly one of the two. *)
Inductive res (A : Type) : Type :=
| Ok (a : A)
| Err (e : error).
Arguments Ok {A} a.
Arguments Err {A} e.

#[export] Instance res_eq_dec {A} `{EqDecision A} : EqDecision (res A).
Proof. solve_decision. Defined.

Definition is_ok {A} (r : res A) : bool :=
  match r with Ok _ => true | Err _ => false end.

(** A Go function that returns only an [error]: [None] is [nil]. *)
Abbreviation gerror := (option error).

(** ** Stateful computations

    [Ret] is a normal return, [Crash] a panic or a call of [log.Fatalf] (the
    process stops), [Hang] a loop whose bound was used up. The state reached is
    kept in all three cases: what was written before a crash stays written. *)
Inductive outcome (A : Type) : Type :=
| Ret (a : A)
| Crash (why : string)
| Hang.
Arguments Ret {A} a.
Arguments Crash {A} why.
Arguments Hang {A}.

Definition M (W A : Type) : Type := W -> W * outcome A.

Definition ret {W A} (a : A) : M W A := fun w => (w, Ret a).

Definition bind {W A B} (m : M W A) (f : A -> M W B) : M W B := fun w =>
  match m w with
  | (w', Ret a) => f a w'
  | (w', Crash why) => (w', Crash why)
  | (w', Hang) => (w', Hang)
  end.

Definition crash {W A} (why : string) : M W A := fun w => (w, Crash why).
Definition hang {W A} : M W A := fun w => (w, Hang).
Definition get {W} : M W W := fun w => (w, Ret w).
Definition modify {W} (f : W -> W) : M W unit := fun w => (f w, Ret tt).

(** A call into the environment: it yields a value and a new environment. *)
Definition gets {W A} (f : W -> W * A) : M W A := fun w =>
  let (w', a) := f w in (w', Ret a).

Declare Scope go_scope.
Delimit Scope go_scope with go.
Open Scope go_scope.

Notation "x <- m ;; k" := (bind m (fun x => k))
  (at level 60, m at next level, right associativity) : go_scope.
Notation "m ;;; k" := (bind m (fun _ => k))
  (at level 60, right associativity) : go_scope.

(** [for _, x := range l { ... }] whose body has no early return. *)
Fixpoint for_each {W A} (l : list A) (body : A -> M W unit) : M W unit :=
  match l with
  | [] => ret tt
  | x :: l' => body x ;;; for_each l' body
  end.

(** [for _, x := range l { ... }] whose body may leave the function early: it
    returns [Some r] for [return r] and [None] to go on with the next element. *)
Fixpoint for_return {W A R} (l : list A) (body : A -> M W (option R))
    : M W (option R) :=
  match l with
  | [] => ret None
  | x :: l' =>
      o <- body x ;;
      match o with
      | Some r => ret (Some r)
      | None => for_return l' body
      end
  end.

(** A [for] loop with a loop variable [acc], bounded by the length of [l]. *)
Fixpoint for_acc {W A S} (l : list A) (acc : S) (body : S -> A -> M W S) : M W S :=
  match l with
  | [] => ret acc
  | x :: l' => acc' <- body acc x ;; for_acc l' acc' body
  end.

(** [for { ... }] that ends when its body returns [Some]; at most [fuel] rounds. *)
Fixpoint loop {W A} (fuel : nat) (body : M W (option A)) : M W A :=
  match fuel with
  | O => hang
  | S fuel' =>
      o <- body ;;
      match o with
      | Some a => ret a
      | None => loop fuel' body
      end
  end.

(** [defer cleanup()] in front of [m]: the cleanup runs on a return and on a
    panic; a computation that never ends does not reach it. *)
Definition deferred {W A} (cleanup : W -> W) (m : M W A) : M W A := fun w =>
  match m w with
  | (w', Hang) => (w', Hang)
  | (w', o) => (cleanup w', o)
  end.

(** ** Hoare triples

    [triple P m Q C]: from a state in [P], [m] either returns [a] in a state of
    [Q a], or crashes or hangs in a state of [C]. *)
Definition triple {W A} (P : W -> Prop) (m : M W A) (Q : A -> W -> Prop)
    (C : W -> Prop) : Prop :=
  forall w, P w ->
  match m w with
  | (w', Ret a) => Q a w'
  | (w', _) => C w'
  end.

(** [m] keeps [P] whatever its outcome is. *)
Definition preserves {W A} (P : W -> Prop) (m : M W A) : Prop :=
  triple P m (fun _ => P) P.

(** ** Machine integers and decimal numbers *)

(** The conversion [int32(x)] of Go: the low 32 bits as a signed number. *)
Definition int32 (z : Z) : Z := ((z + 2 ^ 31) `mod` 2 ^ 32 - 2 ^ 31)%Z.

(** [strconv.Itoa] and the verb [%d]. *)
Definition itoa (z : Z) : string := pretty z.

(** [for i := a; i < b; i++]: the values of the loop variable. *)
Definition zrange (a b : Z) : list Z := seqZ a (b - a).

(** ** The monad and its triples *)

Section monad.
Context {W : Type}.
Implicit Types (P C : W -> Prop).

Lemma bind_Ret_inv {A B} (m : M W A) (f : A -> M W B) w w' b :
  bind m f w = (w', Ret b) ->
  exists w1 a, m w = (w1, Ret a) /\ f a w1 = (w', Ret b).
Proof. unfold bind. destruct (m w) as [w1 [a|why|]]; naive_solver. Qed.

Lemma bind_Ret {A B} (m : M W A) (f : A -> M W B) w w1 a :
  m w = (w1, Ret a) -> bind m f w = f a w1.
Proof. unfold bind. by intros ->. Qed.

Lemma triple_bind {A B} P (m : M W A) (f : A -> M W B) R Q C :
  triple P m R C -> (forall a, triple (R a) (f a) Q C) ->
  triple P (bind m f) Q C.
Proof.
  intros Hm Hf w Hw. specialize (Hm w Hw). unfold bind.
  destruct (m w) as [w1 [a|why|]]; [by apply Hf|done|done].
Qed.

(** Reading a triple off at one run. *)
Lemma triple_run {A} P (m : M W A) Q C w w' o :
  triple P m Q C -> P w -> m w = (w', o) ->
  match o with Ret a => Q a w' | _ => C w' end.
Proof. intros Hm Hw Hrun. specialize (Hm w Hw). rewrite Hrun in Hm. by destruct o. Qed.

Lemma preserves_ret {A} P (a : A) : preserves P (ret a).
Proof. by intros w Hw. Qed.

Lemma preserves_crash {A} P why : preserves P (crash (A := A) why).
Proof. by intros w Hw. Qed.

Lemma preserves_hang {A} P : preserves P (hang (A := A)).
Proof. by intros w Hw. Qed.

Lemma preserves_get P : preserves P get.
Proof. by intros w Hw. Qed.

Lemma preserves_bind {A B} P (m : M W A) (f : A -> M W B) :
  preserves P m -> (forall a, preserves P (f a)) -> preserves P (bind m f).
Proof. intros Hm Hf. eapply triple_bind; [apply Hm|apply Hf]. Qed.

Lemma preserves_run {A} P (m : M W A) w w' o :
  preserves P m -> P w -> m w = (w', o) -> P w'.
Proof. intros Hm Hw Hrun. pose proof (triple_run _ _ _ _ _ _ _ Hm Hw Hrun). by destruct o. Qed.

Lemma preserves_modify P f : (forall w, P w -> P (f w)) -> preserves P (modify f).
Proof. intros Hf w Hw. by apply Hf. Qed.

Lemma preserves_gets {A} P (f : W -> W * A) :
  (forall w, P w -> P (f w).1) -> preserves P (gets f).
Proof. intros Hf w Hw. specialize (Hf w Hw). unfold gets. by destruct (f w). Qed.

Lemma preserves_deferred {A} P cleanup (m : M W A) :
  (forall w, P w -> P (cleanup w)) -> preserves P m -> preserves P (deferred cleanup m).
Proof.
  intros Hc Hm w Hw. specialize (Hm w Hw). unfold deferred.
  destruct (m w) as [w1 [a|why|]]; auto.
Qed.

Lemma preserves_for_each {A} P (l : list A) body :
  (forall x, x ∈ l -> preserves P (body x)) -> preserves P (for_each l body).
Proof.
  induction l as [|x l IH]; intros Hb; simpl; [by apply preserves_ret|].
  apply preserves_bind; [apply Hb; set_solver|].
  intros _. apply IH. set_solver.
Qed.

Lemma preserves_for_return {A R} P (l : list A) (body : A -> M W (option R)) :
  (forall x, x ∈ l -> preserves P (body x)) -> preserves P (for_return l body).
Proof.
  induction l as [|x l IH]; intros Hb; simpl; [by apply preserves_ret|].
  apply preserves_bind; [apply Hb; set_solver|].
  intros [r|]; [by apply preserves_ret|]. apply IH. set_solver.
Qed.

Lemma preserves_for_acc {A S} P (l : list A) (s : S) body :
  (forall s x, x ∈ l -> preserves P (body s x)) -> preserves P (for_acc l s body).
Proof.
  revert s. induction l as [|x l IH]; intros s Hb; simpl; [by apply preserves_ret|].
  apply preserves_bind; [apply Hb; set_solver|].
  intros s'. apply IH. set_solver.
Qed.

Lemma preserves_loop {A} P n (body : M W (option A)) :
  preserves P body -> preserves P (loop n body).
Proof.
  intros Hb. induction n as [|n IH]; simpl; [by apply preserves_hang|].
  apply preserves_bind; [done|]. intros [a|]; [by apply preserves_ret|done].
Qed.

End monad.

Create HintDb go.
#[export] Hint Resolve preserves_ret preserves_crash preserves_hang preserves_get : go.
#[export] Hint Resolve preserves_bind preserves_for_each preserves_for_return : go.
#[export] Hint Resolve preserves_for_acc preserves_loop preserves_modify preserves_gets : go.
#[export] Hint Resolve preserves_deferred : go.

(** Case analysis on every [match] and [let] of the goal that is a [preserves]. *)
Ltac go_cases :=
  repeat match goal with
  | |- preserves _ (match ?x with _ => _ end) => destruct x
  end.

(** Runs through a handler with the [go] hints. *)
Ltac go_preserves :=
  repeat first
    [ progress go_cases
    | match goal with
      | |- preserves _ (bind _ _) => apply preserves_bind; [|intros ?]
      end
    | solve [eauto with go] ].

(** Inverts a run [bind m f w = (w', Ret b)] one step. *)
Tactic Notation "run_inv" hyp(H) "as" simple_intropattern(pat) :=
  apply bind_Ret_inv in H as pat.

(** ** Strings *)

Lemma string_app_assoc (a b c : string) : (a +:+ b) +:+ c = a +:+ (b +:+ c).
Proof. induction a as [|x a IH]; [done|]. exact (f_equal (String x) IH). Qed.

Lemma string_app_inj_l (s a b : string) : s +:+ a = s +:+ b -> a = b.
Proof. intros H. by apply (inj (String.append s)) in H. Qed.

Lemma string_length_app (s t : string) :
  String.length (s +:+ t) = String.length s + String.length t.
Proof. induction s as [|c s IH]; [done|]. exact (f_equal S IH). Qed.

Lemma string_app_inj_r (a b s : string) : a +:+ s = b +:+ s -> a = b.
Proof.
  revert b. induction a as [|x a IH]; intros [|y b] Heq; [done|..].
  - apply (f_equal String.length) in Heq. rewrite !string_length_app in Heq. simpl in Heq. lia.
  - apply (f_equal String.length) in Heq. rewrite !string_length_app in Heq. simpl in Heq. lia.
  - injection Heq as -> Heq. f_equal. by apply IH.
Qed.

Lemma itoa_inj a b : itoa a = itoa b -> a = b.
Proof. apply pretty_Z_inj. Qed.

(** ** Integers *)

Lemma int32_id z : (- 2 ^ 31 <= z < 2 ^ 31)%Z -> int32 z = z.
Proof. intros ?. unfold int32. rewrite Z.mod_small; lia. Qed.

Lemma elem_of_zrange a b i : i ∈ zrange a b <-> (a <= i < b)%Z.
Proof. unfold zrange. rewrite elem_of_seqZ. lia. Qed.

Lemma NoDup_zrange a b : NoDup (zrange a b).
Proof. apply NoDup_seqZ. Qed.

Lemma length_zrange a b : (a <= b)%Z -> Z.of_nat (length (zrange a b)) = (b - a)%Z.
Proof. intros ?. unfold zrange. rewrite length_seqZ. lia. Qed.

(** ** Lists *)

Lemma omap_nil_iff {A B} (f : A -> option B) (l : list A) :
  omap f l = [] <-> Forall (fun x => f x = None) l.
Proof.
  induction l as [|x l IH]; simpl; [by split|].
  destruct (f x) eqn:Hf; split; intros H.
  - done.
  - inversion H; simplify_eq.
  - constructor; [done|by apply IH].
  - inversion H; simplify_eq. by apply IH.
Qed.

(** A filter that everything passes. *)
Lemma list_filter_iff_in {A} (P Q : A -> Prop) `{!forall x, Decision (P x)}
    `{!forall x, Decision (Q x)} (l : list A) :
  (forall x, x ∈ l -> P x <-> Q x) -> filter P l = filter Q l.
Proof.
  induction l as [|x l IH]; intros Hl; [done|]. rewrite !filter_cons.
  rewrite IH by (intros y Hy; apply Hl; by right).
  assert (Hx : P x <-> Q x) by (apply Hl; by left). repeat case_decide; tauto.
Qed.

Lemma list_filter_all {A} (P : A -> Prop) `{!forall x, Decision (P x)} (l : list A) :
  (forall x, x ∈ l -> P x) -> filter P l = l.
Proof.
  induction l as [|x l IH]; intros Hall; [done|].
  rewrite filter_cons_True by (apply Hall; by left). f_equal. apply IH. intros y Hy.
  apply Hall. by right.
Qed.
