(* ===== verification/Protos.v ===== *)
(** * Protobuf messages

    The message structs and accessors of src/internal/protos/*.pb.go (package
    [internal], imported as [pb]). A message is a record with the fields of the
    Go struct; the three bookkeeping fields of protoimpl are left out. An
    accessor [GetX] has a pointer receiver and is defined on [nil] too, so it
    takes an [option]; a pointer field ([*string], [*bool], proto3 [optional])
    is an [option]. A map field is an [option] of a finite map, [None] being the
    [nil] map. Serialisation is done by google.golang.org/protobuf, which is not
    part of the repository: it is the class [Proto] below. *)

From S2P Require Import Prelude.

(** ** fsm.proto *)

Record KVFSMLogEntry := {
  le_Operation : Z;
  le_Key : option string;
  le_Value : option string;
  le_WritesEnabled : option bool
}.

Record KVFSMSnapshot := {
  sn_KvStore : option (gmap string string);
  sn_WritesEnabled : bool
}.

Definition KVFSMLogEntry_GetOperation (x : option KVFSMLogEntry) : Z :=
  match x with Some x => le_Operation x | None => 0 end.
Definition KVFSMLogEntry_GetKey (x : option KVFSMLogEntry) : string :=
  match x with Some {| le_Key := Some s |} => s | _ => "" end.
Definition KVFSMLogEntry_GetValue (x : option KVFSMLogEntry) : string :=
  match x with Some {| le_Value := Some s |} => s | _ => "" end.
Definition KVFSMLogEntry_GetWritesEnabled (x : option KVFSMLogEntry) : bool :=
  match x with Some {| le_WritesEnabled := Some b |} => b | _ => false end.
Definition KVFSMSnapshot_GetKvStore (x : option KVFSMSnapshot)
    : option (gmap string string) :=
  match x with Some x => sn_KvStore x | None => None end.
Definition KVFSMSnapshot_GetWritesEnabled (x : option KVFSMSnapshot) : bool :=
  match x with Some x => sn_WritesEnabled x | None => false end.

(** ** kv.proto *)

Record GetRequest := { get_Key : string }.
Record GetResponse := { get_Value : string }.
Record PutRequest := { put_Key : string; put_Value : string }.
Record PutResponse := mkPutResponse {}.
Record DeleteRequest := { del_Key : string }.
Record DeleteResponse := mkDeleteResponse {}.

Definition GetRequest_GetKey (x : option GetRequest) : string :=
  match x with Some x => get_Key x | None => "" end.
Definition GetResponse_GetValue (x : option GetResponse) : string :=
  match x with Some x => get_Value x | None => "" end.
Definition PutRequest_GetKey (x : option PutRequest) : string :=
  match x with Some x => put_Key x | None => "" end.
Definition PutRequest_GetValue (x : option PutRequest) : string :=
  match x with Some x => put_Value x | None => "" end.
Definition DeleteRequest_GetKey (x : option DeleteRequest) : string :=
  match x with Some x => del_Key x | None => "" end.

(** ** shard.proto *)

Record PauseWritesRequest := mkPauseWritesRequest {}.
Record PauseWritesResponse := { pw_IsPaused : bool }.
Record RedistributeKeysRequest := mkRedistributeKeysRequest {}.
Record RedistributeKeysResponse := { rk_PendingKeys : Z }.
Record ResumeWritesRequest := mkResumeWritesRequest {}.
Record ResumeWritesResponse := { rw_IsResumed : bool }.
Record InternalPutRequest := {
  ip_Key : string;
  ip_Value : string;
  ip_IsRedistribution : bool
}.

Definition PauseWritesResponse_GetIsPaused (x : option PauseWritesResponse) : bool :=
  match x with Some x => pw_IsPaused x | None => false end.
Definition RedistributeKeysResponse_GetPendingKeys
    (x : option RedistributeKeysResponse) : Z :=
  match x with Some x => rk_PendingKeys x | None => 0 end.
Definition ResumeWritesResponse_GetIsResumed (x : option ResumeWritesResponse) : bool :=
  match x with Some x => rw_IsResumed x | None => false end.
Definition InternalPutRequest_GetKey (x : option InternalPutRequest) : string :=
  match x with Some x => ip_Key x | None => "" end.
Definition InternalPutRequest_GetValue (x : option InternalPutRequest) : string :=
  match x with Some x => ip_Value x | None => "" end.
Definition InternalPutRequest_GetIsRedistribution (x : option InternalPutRequest)
    : bool :=
  match x with Some x => ip_IsRedistribution x | None => false end.

(** ** replica.proto *)

Record JoinRequest := { jn_Replica : string; jn_Address : string }.
Record JoinResponse := mkJoinResponse {}.
Record LeaderRequest := mkLeaderRequest {}.
Record LeaderResponse := { ld_Leader : string }.
Record DemoteVoterRequest := { dv_Replica : string; dv_Address : string }.
Record DemoteVoterResponse := mkDemoteVoterResponse {}.
Record ReloadConfigRequest := mkReloadConfigRequest {}.
Record ReloadConfigResponse := { rc_ReloadSuccessful : bool }.

Definition JoinRequest_GetReplica (x : option JoinRequest) : string :=
  match x with Some x => jn_Replica x | None => "" end.
Definition JoinRequest_GetAddress (x : option JoinRequest) : string :=
  match x with Some x => jn_Address x | None => "" end.
Definition LeaderResponse_GetLeader (x : option LeaderResponse) : string :=
  match x with Some x => ld_Leader x | None => "" end.
Definition DemoteVoterRequest_GetReplica (x : option DemoteVoterRequest) : string :=
  match x with Some x => dv_Replica x | None => "" end.
Definition DemoteVoterRequest_GetAddress (x : option DemoteVoterRequest) : string :=
  match x with Some x => dv_Address x | None => "" end.
Definition ReloadConfigResponse_GetReloadSuccessful (x : option ReloadConfigResponse)
    : bool :=
  match x with Some x => rc_ReloadSuccessful x | None => false end.

(** ** Serialisation

    [proto.Marshal] and [proto.Unmarshal] at the two messages that the code
    serialises itself. *)
Class Proto := {
  bytes : Type;
  Marshal_KVFSMLogEntry : KVFSMLogEntry -> res bytes;
  Unmarshal_KVFSMLogEntry : bytes -> res KVFSMLogEntry;
  Marshal_KVFSMSnapshot : KVFSMSnapshot -> res bytes;
  Unmarshal_KVFSMSnapshot : bytes -> res KVFSMSnapshot
}.

(** proto3 does not record the presence of a map: an empty map and a [nil] map
    have the same encoding, which decodes to [nil]. *)
Definition decoded_map (m : option (gmap string string)) : option (gmap string string) :=
  match m with
  | Some m => if decide (m = ∅) then None else Some m
  | None => None
  end.

(** What the code relies on: decoding inverts encoding, up to [decoded_map]. *)
Class ProtoLaws `{!Proto} : Prop := {
  Unmarshal_Marshal_KVFSMLogEntry : forall e b,
    Marshal_KVFSMLogEntry e = Ok b -> Unmarshal_KVFSMLogEntry b = Ok e;
  Unmarshal_Marshal_KVFSMSnapshot : forall s b,
    Marshal_KVFSMSnapshot s = Ok b ->
    Unmarshal_KVFSMSnapshot b =
      Ok {| sn_KvStore := decoded_map (sn_KvStore s);
            sn_WritesEnabled := sn_WritesEnabled s |}
}.
