(* ===== verification/RaftCommon.v ===== *)
(** * The Raft library and src/internal/raft/common.go

    hashicorp/raft, raft-boltdb and the network are not part of the repository.
    They are the classes [Raft] and [RaftSetup] over a type [E] of environments:
    every call may move the environment on, so two calls in a row need not see
    the same leader. The FSM callbacks that the library makes while a call is
    in progress are part of the call's result, a list of [fsm_event]s, and the
    model runs them against the FSM that was handed to [NewRaft]. *)

From Stdlib Require Import Ascii.
From S2P Require Import Prelude Protos.

(** ** Data *)

Inductive RaftState := Follower | Candidate | Leader | Shutdown.

#[export] Instance RaftState_eq_dec : EqDecision RaftState.
Proof. solve_decision. Defined.

Record Server := { srv_ID : string; srv_Address : string }.

(** The fields of [raft.Config] that the code sets, times in seconds; the others
    keep the values of [raft.DefaultConfig()]. *)
Record RaftConfig := {
  cfg_LocalID : string;
  cfg_LogLevel : string;
  cfg_HeartbeatTimeout : Z;
  cfg_ElectionTimeout : Z;
  cfg_LeaderLeaseTimeout : Z
}.

Record TransportConfig := { tc_MaxPool : Z; tc_Timeout : Z }.

(** A callback of the library into the FSM: [Apply] of a committed log entry, or
    [Restore] of a snapshot, given by what reading the snapshot yields. *)
Inductive fsm_event `{!Proto} : Type :=
| EvApply (data : bytes)
| EvRestore (snapshot : res bytes).

(** [raft.FSM], the interface the code implements; [St] is the memory it works on. *)
Record FSM `{!Proto} (St : Type) := {
  FSM_Apply : bytes -> M St gerror;
  FSM_Restore : res bytes -> M St gerror
}.
Arguments FSM_Apply {_ St} _ _.
Arguments FSM_Restore {_ St} _ _.

(** ** The library *)

Class Raft `{!Proto} (E : Type) := {
  raft_State : string -> E -> E * RaftState;
  raft_LeaderWithID : string -> E -> E * (string * string);
  raft_Apply : string -> bytes -> Z -> E -> E * (gerror * list fsm_event);
  raft_GetConfiguration : string -> E -> E * res (list Server);
  raft_RemoveServer : string -> string -> E -> E * gerror;
  raft_AddVoter : string -> string -> string -> E -> E * gerror;
  raft_DemoteVoter : string -> string -> E -> E * gerror;
  raft_AppliedIndex : string -> E -> E * Z;
  raft_LastIndex : string -> E -> E * Z;
  raft_LeadershipTransfer : string -> E -> E * gerror;
  (** [Snapshot()] asks the FSM for a snapshot, whose persisted bytes are the
      first argument; the future yields its error, or what [Open()] yields: the
      index of the snapshot and what reading it gives. *)
  raft_Snapshot : string -> res bytes -> E -> E * res (res (Z * res bytes))
}.

Class RaftSetup `{!Proto} (E : Type) := {
  NewBoltStore : string -> E -> E * gerror;
  NewFileSnapshotStore : string -> Z -> E -> E * gerror;
  ResolveTCPAddr : string -> E -> E * res string;
  (** Yields the transport's [LocalAddr()]. *)
  NewTCPTransportWithConfig : string -> string -> TransportConfig -> E -> E * res string;
  (** Yields the FSM callbacks made before it returns. *)
  NewRaft : RaftConfig -> E -> E * (gerror * list fsm_event);
  BootstrapCluster : string -> list Server -> E -> E * gerror
}.

(** ** Running library calls in the memory of a process

    A process state is its memory together with the environment. *)

Section lift.
Context `{!Proto} {St E : Type}.

(** A call into the environment. *)
Definition env_call {A} (f : E -> E * A) : M (St * E) A := fun w =>
  let (e', a) := f w.2 in ((w.1, e'), Ret a).

(** A computation on the memory alone. *)
Definition on_mem {A} (m : M St A) : M (St * E) A := fun w =>
  let (s', o) := m w.1 in ((s', w.2), o).

Definition run_event (fsm : FSM St) (ev : fsm_event) : M St gerror :=
  match ev with
  | EvApply data => FSM_Apply fsm data
  | EvRestore snapshot => FSM_Restore fsm snapshot
  end.

(** The library calls the FSM; a panic in a callback ends the process. *)
Definition deliver (fsm : FSM St) (evs : list fsm_event) : M St unit :=
  for_each evs (fun ev => run_event fsm ev ;;; ret tt).

End lift.

(** ** path.Join of the Go standard library *)

Fixpoint split_slash (acc s : string) : list string :=
  match s with
  | EmptyString => [acc]
  | String c s' =>
      if decide (c = "/"%char) then acc :: split_slash "" s'
      else split_slash (acc +:+ String c "") s'
  end.

Definition path_rooted (s : string) : bool :=
  match s with String "/" _ => true | _ => false end.

(** The elements of a cleaned path, last one first. *)
Fixpoint clean_elems (rooted : bool) (out comps : list string) : list string :=
  match comps with
  | [] => out
  | c :: comps' =>
      if decide (c = "" \/ c = ".") then clean_elems rooted out comps'
      else if decide (c = "..") then
        match out with
        | top :: out' =>
            if decide (top = "..") then clean_elems rooted (".." :: out) comps'
            else clean_elems rooted out' comps'
        | [] => clean_elems rooted (if rooted then [] else [".."]) comps'
        end
      else clean_elems rooted (c :: out) comps'
  end.

Definition path_Clean (s : string) : string :=
  let rooted := path_rooted s in
  let elems := rev (clean_elems rooted [] (split_slash "" s)) in
  let body := String.concat "/" elems in
  if rooted then "/" +:+ body else if decide (body = "") then "." else body.

Definition path_Join (dir file : string) : string :=
  match filter (fun e => e <> "") [dir; file] with
  | [] => ""
  | elems => path_Clean (String.concat "/" elems)
  end.

(** ** common.go *)

Section common.
Context `{!Proto} {St E : Type} `{!Raft E, !RaftSetup E}.

Definition raftTimeout : Z := 10.

(** [serverAddressProvider.ServerAddr] *)
Definition ServerAddr (id : string) : M (St * E) (res string) :=
  tcpAddr <- env_call (ResolveTCPAddr id) ;;
  match tcpAddr with
  | Err err => ret (Err err)
  | Ok a => ret (Ok a)
  end.

Definition SetupRaft (dir id address : string) (shouldBootstrap : bool)
    (fsm : FSM St) : M (St * E) gerror :=
  err <- env_call (NewBoltStore (path_Join dir "bolt")) ;;
  match err with
  | Some err => ret (Some (Errorf ("could not create bolt store: " +:+ Error err)))
  | None =>
  err <- env_call (NewFileSnapshotStore (path_Join dir "snapshot") 2) ;;
  match err with
  | Some err => ret (Some (Errorf ("could not create snapshot store: " +:+ Error err)))
  | None =>
  addr <- env_call (ResolveTCPAddr address) ;;
  match addr with
  | Err err => ret (Some (Errorf ("could not resolve address: " +:+ Error err)))
  | Ok tcpAddr =>
  transport <- env_call (NewTCPTransportWithConfig address tcpAddr
    {| tc_MaxPool := 10; tc_Timeout := raftTimeout |}) ;;
  match transport with
  | Err err => ret (Some (Errorf ("could not create tcp transport: " +:+ Error err)))
  | Ok localAddr =>
  let config := {| cfg_LocalID := id;
                   cfg_LogLevel := "DEBUG";
                   cfg_HeartbeatTimeout := 5;
                   cfg_ElectionTimeout := 5;
                   cfg_LeaderLeaseTimeout := 1 |} in
  r <- env_call (NewRaft config) ;;
  on_mem (deliver fsm r.2) ;;;
  match r.1 with
  | Some err => ret (Some (Errorf ("could not create raft instance: " +:+ Error err)))
  | None =>
  if shouldBootstrap then
    err <- env_call (BootstrapCluster id
      [{| srv_ID := id; srv_Address := localAddr |}]) ;;
    match err with
    | Some err => ret (Some (Errorf ("could not bootstrap cluster: " +:+ Error err)))
    | None => ret None
    end
  else ret None
  end end end end end.

(** [r.Snapshot()] with the bytes that the FSM's snapshot persists. *)
Definition ShutdownRaft (r : string) (persisted : M (St * E) (res bytes))
    : M (St * E) gerror :=
  state <- env_call (raft_State r) ;;
  if decide (state = Leader) then
    err <- env_call (raft_LeadershipTransfer r) ;;
    match err with
    | Some err => ret (Some (Errorf ("could not demote leader: " +:+ Error err)))
    | None =>
        b <- persisted ;;
        snap <- env_call (raft_Snapshot r b) ;;
        match snap with
        | Err err => ret (Some (Errorf ("could not snapshot: " +:+ Error err)))
        | Ok _ => ret None
        end
    end
  else ret None.

Definition JoinReplica (r id address : string) : M (St * E) gerror :=
  state <- env_call (raft_State r) ;;
  if decide (state <> Leader) then ret None
  else
    err <- env_call (raft_AddVoter r id address) ;;
    match err with
    | Some err => ret (Some (Errorf ("could not add voter: " +:+ Error err)))
    | None => ret None
    end.

End common.

(** ** Lemmas shared by the components *)

Section lift_lemmas.
Context `{!Proto} {St E : Type}.

Lemma preserves_env_call {A} (P : St * E -> Prop) (f : E -> E * A) :
  (forall s e, P (s, e) -> P (s, (f e).1)) -> preserves P (env_call f).
Proof.
  intros Hf [s e] Hw. unfold env_call. simpl. specialize (Hf s e Hw).
  by destruct (f e).
Qed.

Lemma preserves_on_mem {A} (P : St -> Prop) (m : M St A) :
  preserves P m -> preserves (fun w : St * E => P w.1) (on_mem m).
Proof.
  intros Hm [s e] Hw. unfold on_mem. simpl in *. specialize (Hm s Hw).
  destruct (m s) as [s' [a|why|]]; done.
Qed.

Lemma preserves_env_call_mem {A} (P : St -> Prop) (f : E -> E * A) :
  preserves (fun w : St * E => P w.1) (env_call f).
Proof. by apply preserves_env_call. Qed.

Lemma preserves_deliver (P : St -> Prop) (fsm : FSM St) evs :
  (forall ev, ev ∈ evs -> preserves P (run_event fsm ev)) -> preserves P (deliver fsm evs).
Proof.
  intros Hev. apply preserves_for_each. intros ev ?.
  apply preserves_bind; [by apply Hev|intros _; apply preserves_ret].
Qed.

End lift_lemmas.

#[export] Hint Resolve preserves_env_call_mem preserves_on_mem preserves_deliver : go.

Example path_Join_data : path_Join "/data" "bolt" = "/data/bolt".
Proof. reflexivity. Qed.
Example path_Join_slash : path_Join "data//x/../" "bolt" = "data/bolt".
Proof. reflexivity. Qed.
