(* ===== verification/KVStore.v ===== *)
(** * The replicated store of one process: src/internal/raft/kvstore/kvstore.go

    A Go [map] is a reference. The model keeps the maps of a process in a heap
    and the structs hold references to them, because the code shares one map
    between the [KVStore] that serves reads and the [KVFsm] that applies the
    log, and because a snapshot shares the FSM's map. The field
    [store *map[string]string] points to a variable that holds such a reference;
    no code assigns to the variable through the pointer, so the field is
    modelled by the reference itself. [None] is the [nil] map. *)

From S2P Require Import Prelude Protos RaftCommon.

(** ** Go maps *)

Abbreviation mapref := (option nat).
Abbreviation heap := (gmap nat (gmap string string)).

(** [r[key]] with the [ok] flag; a [nil] map has no entries. *)
Definition map_get (h : heap) (r : mapref) (key : string) : option string :=
  match r with
  | Some l => m ← h !! l; m !! key
  | None => None
  end.

(** The entries of a map. *)
Definition map_entries (h : heap) (r : mapref) : gmap string string :=
  match r with
  | Some l => default ∅ (h !! l)
  | None => ∅
  end.

(** [r[key] = value]; assigning to an entry of a [nil] map panics. *)
Definition map_set (h : heap) (r : mapref) (key value : string) : option heap :=
  match r with
  | Some l => Some (<[l := <[key := value]> (map_entries h r)]> h)
  | None => None
  end.

(** [delete(r, key)]; a no-op on a [nil] map. *)
Definition map_delete (h : heap) (r : mapref) (key : string) : heap :=
  match r with
  | Some l => <[l := delete key (map_entries h r)]> h
  | None => h
  end.

(** A map literal, or the map that decoding a message allocates. *)
Definition map_alloc (h : heap) (m : gmap string string) : heap * mapref :=
  let l := fresh (dom h) in (<[l := m]> h, Some l).

(** ** The structs *)

Definition SET : Z := 0.
Definition DELETE : Z := 1.
Definition TOGGLE : Z := 2.

(** [k_raft] is the local ID of the Raft instance, [None] for the [nil] pointer
    that the field holds before [Open]; [k_snapshots] says whether the snapshot
    store is set; [k_mutex] whether the mutex is held. *)
Record KVStore := {
  k_raft : option string;
  k_snapshots : bool;
  k_lastSnapshotIndex : Z;
  k_mutex : bool;
  k_store : mapref;
  k_writesEnabled : bool
}.

(** [type KVFsm KVStore]: the same fields, a separate struct. *)
Abbreviation KVFsm := KVStore.

Record fsmSnapshot := {
  fs_store : mapref;
  fs_writesEnabled : bool
}.

(** The memory of a process: its maps, the [KVStore] and the [KVFsm]. Before
    [Open] there is no FSM and the zero struct stands in its place. *)
Record Mem := {
  m_heap : heap;
  m_kv : KVStore;
  m_fsm : KVFsm
}.

Definition zero_KVStore : KVStore :=
  {| k_raft := None; k_snapshots := false; k_lastSnapshotIndex := 0;
     k_mutex := false; k_store := None; k_writesEnabled := false |}.

Definition set_k_raft (r : option string) (s : bool) (k : KVStore) : KVStore :=
  {| k_raft := r; k_snapshots := s; k_lastSnapshotIndex := k_lastSnapshotIndex k;
     k_mutex := k_mutex k; k_store := k_store k; k_writesEnabled := k_writesEnabled k |}.
Definition set_k_lastSnapshotIndex (i : Z) (k : KVStore) : KVStore :=
  {| k_raft := k_raft k; k_snapshots := k_snapshots k; k_lastSnapshotIndex := i;
     k_mutex := k_mutex k; k_store := k_store k; k_writesEnabled := k_writesEnabled k |}.
Definition set_k_mutex (b : bool) (k : KVStore) : KVStore :=
  {| k_raft := k_raft k; k_snapshots := k_snapshots k;
     k_lastSnapshotIndex := k_lastSnapshotIndex k;
     k_mutex := b; k_store := k_store k; k_writesEnabled := k_writesEnabled k |}.
Definition set_k_store (r : mapref) (k : KVStore) : KVStore :=
  {| k_raft := k_raft k; k_snapshots := k_snapshots k;
     k_lastSnapshotIndex := k_lastSnapshotIndex k;
     k_mutex := k_mutex k; k_store := r; k_writesEnabled := k_writesEnabled k |}.
Definition set_k_writesEnabled (b : bool) (k : KVStore) : KVStore :=
  {| k_raft := k_raft k; k_snapshots := k_snapshots k;
     k_lastSnapshotIndex := k_lastSnapshotIndex k;
     k_mutex := k_mutex k; k_store := k_store k; k_writesEnabled := b |}.

Definition set_heap (h : heap) (m : Mem) : Mem :=
  {| m_heap := h; m_kv := m_kv m; m_fsm := m_fsm m |}.
Definition upd_kv (f : KVStore -> KVStore) (m : Mem) : Mem :=
  {| m_heap := m_heap m; m_kv := f (m_kv m); m_fsm := m_fsm m |}.
Definition upd_fsm (f : KVFsm -> KVFsm) (m : Mem) : Mem :=
  {| m_heap := m_heap m; m_kv := m_kv m; m_fsm := f (m_fsm m) |}.

(** ** The two mutexes: [x.mutex.Lock(); defer x.mutex.Unlock()]

    Locking a mutex that the same call chain already holds blocks forever. *)
Definition kv_locked {A} (body : M Mem A) : M Mem A :=
  m <- get ;;
  if k_mutex (m_kv m) then hang
  else
    modify (upd_kv (set_k_mutex true)) ;;;
    deferred (upd_kv (set_k_mutex false)) body.

Definition fsm_locked {A} (body : M Mem A) : M Mem A :=
  m <- get ;;
  if k_mutex (m_fsm m) then hang
  else
    modify (upd_fsm (set_k_mutex true)) ;;;
    deferred (upd_fsm (set_k_mutex false)) body.

(** ** The finite state machine *)

Section fsm.
Context `{!Proto}.

Definition NewKVFsm (store : mapref) : KVFsm :=
  {| k_raft := None; k_snapshots := false; k_lastSnapshotIndex := 0;
     k_mutex := false; k_store := store; k_writesEnabled := true |}.

Definition KVFsm_Apply (data : bytes) : M Mem gerror :=
  match Unmarshal_KVFSMLogEntry data with
  | Err err => ret (Some err)
  | Ok entry =>
      fsm_locked (
        m <- get ;;
        let f := m_fsm m in
        let key := KVFSMLogEntry_GetKey (Some entry) in
        (if decide (le_Operation entry = SET) then
           match map_set (m_heap m) (k_store f) key
                   (KVFSMLogEntry_GetValue (Some entry)) with
           | Some h => modify (set_heap h)
           | None => crash "assignment to entry in nil map"
           end
         else if decide (le_Operation entry = DELETE) then
           modify (set_heap (map_delete (m_heap m) (k_store f) key))
         else if decide (le_Operation entry = TOGGLE) then
           modify (upd_fsm (set_k_writesEnabled
             (KVFSMLogEntry_GetWritesEnabled (Some entry))))
         else ret tt) ;;;
        ret None)
  end.

(** The snapshot holds the FSM's map itself, not a copy of it. *)
Definition KVFsm_Snapshot : M Mem fsmSnapshot :=
  m <- get ;;
  ret {| fs_store := k_store (m_fsm m);
         fs_writesEnabled := k_writesEnabled (m_fsm m) |}.

(** [snapshot] is what [io.ReadAll] yields on the reader. The decoded map is a
    new one, or [nil]. *)
Definition KVFsm_Restore (snapshot : res bytes) : M Mem gerror :=
  match snapshot with
  | Err err => ret (Some err)
  | Ok snapshotData =>
      match Unmarshal_KVFSMSnapshot snapshotData with
      | Err err => ret (Some err)
      | Ok snapshotObj =>
          m <- get ;;
          match sn_KvStore snapshotObj with
          | Some kvs =>
              let (h, r) := map_alloc (m_heap m) kvs in
              modify (set_heap h) ;;;
              modify (upd_fsm (set_k_store r)) ;;;
              ret None
          | None =>
              modify (upd_fsm (set_k_store None)) ;;;
              ret None
          end
      end
  end.

Definition KVFsm_FSM : FSM Mem :=
  {| FSM_Apply := KVFsm_Apply; FSM_Restore := KVFsm_Restore |}.

(** The message that [Persist] marshals: the contents the map has by then. *)
Definition snapshot_message (fs : fsmSnapshot) (h : heap) : KVFSMSnapshot :=
  {| sn_KvStore := match fs_store fs with
                   | Some l => Some (default ∅ (h !! l))
                   | None => None
                   end;
     sn_WritesEnabled := fs_writesEnabled fs |}.

End fsm.

(** [raft.SnapshotSink] *)
Class SnapshotSink `{!Proto} (E : Type) := {
  sink_Write : bytes -> E -> E * gerror;
  sink_Close : E -> E * gerror;
  sink_Cancel : E -> E * gerror
}.

Definition fsmSnapshot_Persist `{!Proto} {E} `{!SnapshotSink E} (fs : fsmSnapshot)
    : M (Mem * E) gerror :=
  w <- get ;;
  match Marshal_KVFSMSnapshot (snapshot_message fs (m_heap w.1)) with
  | Err err => env_call sink_Cancel ;;; ret (Some err)
  | Ok storeBytes =>
      err <- env_call (sink_Write storeBytes) ;;
      match err with
      | Some err => env_call sink_Cancel ;;; ret (Some err)
      | None => env_call sink_Close
      end
  end.

Definition fsmSnapshot_Release (fs : fsmSnapshot) : M Mem unit := ret tt.

(** ** The store *)

(** The memory of a process right after [NewKVStore()]. *)
Definition NewKVStore : Mem :=
  let (h, r) := map_alloc ∅ ∅ in
  {| m_heap := h; m_kv := set_k_store r zero_KVStore; m_fsm := zero_KVStore |}.

(** [fmt.Sprintf("%s.%s:%d", replica, shard, port)] and
    [fmt.Sprintf("%s:%d", host, port)] *)
Definition replica_addr (replica shard : string) (port : Z) : string :=
  replica +:+ "." +:+ shard +:+ ":" +:+ itoa port.
Definition host_addr (host : string) (port : Z) : string :=
  host +:+ ":" +:+ itoa port.

Section kvstore.
Context `{!Proto} {E : Type} `{!Raft E, !RaftSetup E}.

Definition KVStore_Get (key : string) : M (Mem * E) (res string) :=
  on_mem (kv_locked (
    m <- get ;;
    ret (match map_get (m_heap m) (k_store (m_kv m)) key with
         | Some value => Ok value
         | None => Err KeyNotFound
         end))).

(** [maps.Keys] is lazy: what [Keys] returns is an iterator over the live map. *)
Definition KVStore_Keys : M (Mem * E) mapref :=
  on_mem (kv_locked (m <- get ;; ret (k_store (m_kv m)))).

Definition KVStore_GetWritesEnabled : M (Mem * E) bool :=
  on_mem (kv_locked (m <- get ;; ret (k_writesEnabled (m_kv m)))).

(** Using the [raft] field; a method call on the [nil] pointer panics. *)
Definition with_raft {A} (body : string -> M (Mem * E) A) : M (Mem * E) A :=
  w <- get ;;
  match k_raft (m_kv w.1) with
  | Some r => body r
  | None => crash "invalid memory address or nil pointer dereference"
  end.

(** [k.raft.Apply(data, timeout).Error()], with the callbacks made meanwhile. *)
Definition apply_entry (r : string) (data : bytes) (timeout : Z) : M (Mem * E) gerror :=
  x <- env_call (raft_Apply r data timeout) ;;
  on_mem (deliver KVFsm_FSM x.2) ;;;
  ret x.1.

(** [k.mutex.Lock(); defer k.mutex.Unlock()] around a body that also calls Raft. *)
Definition kv_locked_env {A} (body : M (Mem * E) A) : M (Mem * E) A :=
  w <- get ;;
  if k_mutex (m_kv w.1) then hang
  else
    on_mem (modify (upd_kv (set_k_mutex true))) ;;;
    deferred (fun w => (upd_kv (set_k_mutex false) w.1, w.2)) body.

Definition KVStore_SetWritesEnabled (writesEnabled : bool) : M (Mem * E) gerror :=
  kv_locked_env (
    w <- get ;;
    if Bool.eqb (k_writesEnabled (m_kv w.1)) writesEnabled then ret None
    else
      match Marshal_KVFSMLogEntry {| le_Operation := TOGGLE; le_Key := None;
              le_Value := None; le_WritesEnabled := Some writesEnabled |} with
      | Err err => ret (Some err)
      | Ok newEntry => with_raft (fun r => apply_entry r newEntry 10)
      end).

Definition KVStore_Set (key value : string) : M (Mem * E) gerror :=
  with_raft (fun r =>
    state <- env_call (raft_State r) ;;
    if decide (state <> Leader) then ret (Some ErrNotLeader)
    else
      match Marshal_KVFSMLogEntry {| le_Operation := SET; le_Key := Some key;
              le_Value := Some value; le_WritesEnabled := None |} with
      | Err err => ret (Some err)
      | Ok newEntry => apply_entry r newEntry 10
      end).

Definition KVStore_Delete (key : string) : M (Mem * E) gerror :=
  with_raft (fun r =>
    state <- env_call (raft_State r) ;;
    if decide (state <> Leader) then ret (Some ErrNotLeader)
    else
      match Marshal_KVFSMLogEntry {| le_Operation := DELETE; le_Key := Some key;
              le_Value := None; le_WritesEnabled := None |} with
      | Err err => ret (Some err)
      | Ok newEntry => apply_entry r newEntry 10
      end).

Definition KVStore_Open (dir ip : string) (raftPort : Z) (shard replica : string)
    (shouldBootstrap : bool) : M (Mem * E) gerror :=
  w <- get ;;
  on_mem (modify (upd_fsm (fun _ => NewKVFsm (k_store (m_kv w.1))))) ;;;
  let id := replica_addr replica shard raftPort in
  let address := host_addr ip raftPort in
  err <- SetupRaft dir id address shouldBootstrap KVFsm_FSM ;;
  match err with
  | Some err => ret (Some err)
  | None =>
      on_mem (modify (upd_kv (set_k_raft (Some id) true))) ;;;
      ret None
  end.

(** The bytes that [Persist] hands to the sink when the library asks the FSM for
    a snapshot. *)
Definition persisted_snapshot : M (Mem * E) (res bytes) :=
  fs <- on_mem KVFsm_Snapshot ;;
  w <- get ;;
  ret (Marshal_KVFSMSnapshot (snapshot_message fs (m_heap w.1))).

(** The three inner error messages print [future.Error()], which is [nil] there,
    with the verb [%s]. *)
Definition nil_error_text : string := "%!s(<nil>)".

Definition KVStore_Snapshot
    : M (Mem * E) (option (gmap string string) * gerror) :=
  with_raft (fun r =>
    b <- persisted_snapshot ;;
    future <- env_call (raft_Snapshot r b) ;;
    match future with
    | Err err =>
        if decide (err = ErrNothingNewToSnapshot) then ret (Some ∅, None)
        else ret (Some ∅, Some (Errorf ("could not perform snapshot: " +:+ Error err)))
    | Ok (Err _) =>
        ret (Some ∅, Some (Errorf ("could not open snapshot: " +:+ nil_error_text)))
    | Ok (Ok (_, Err _)) =>
        ret (Some ∅, Some (Errorf ("could not read snapshot: " +:+ nil_error_text)))
    | Ok (Ok (index, Ok bs)) =>
        match Unmarshal_KVFSMSnapshot bs with
        | Err _ =>
            ret (Some ∅, Some (Errorf ("could not parse snapshot: " +:+ nil_error_text)))
        | Ok kvFsmSnapshot =>
            on_mem (modify (upd_kv (set_k_lastSnapshotIndex index))) ;;;
            ret (sn_KvStore kvFsmSnapshot, None)
        end
    end).

Definition KVStore_Close : M (Mem * E) gerror :=
  with_raft (fun r => ShutdownRaft r persisted_snapshot).

Definition KVStore_Join (ip : string) (raftPort : Z) (shard replica : string)
    : M (Mem * E) gerror :=
  let id := replica_addr replica shard raftPort in
  let address := host_addr ip raftPort in
  with_raft (fun r =>
    state <- env_call (raft_State r) ;;
    if decide (state <> Leader) then ret None
    else
      configFuture <- env_call (raft_GetConfiguration r) ;;
      match configFuture with
      | Err err =>
          ret (Some (Errorf ("failed to get raft configuration: " +:+ Error err)))
      | Ok servers =>
          early <- for_return servers (fun member =>
            if decide (srv_ID member = id \/ srv_Address member = address) then
              if decide (srv_ID member = id /\ srv_Address member = address) then
                ret (Some None)
              else
                err <- env_call (raft_RemoveServer r (srv_ID member)) ;;
                match err with
                | Some err =>
                    ret (Some (Some (Errorf ("failed to remove existing replica "
                      +:+ id +:+ ": " +:+ Error err))))
                | None => ret None
                end
            else ret None) ;;
          match early with
          | Some result => ret result
          | None => JoinReplica r id address
          end
      end).

Definition KVStore_DemoteVoter (ip : string) (raftPort : Z) (shard replica : string)
    : M (Mem * E) gerror :=
  let id := replica_addr replica shard raftPort in
  with_raft (fun r =>
    state <- env_call (raft_State r) ;;
    if decide (state <> Leader) then ret None
    else env_call (raft_DemoteVoter r id)).

Definition KVStore_HasLatestLogs : M (Mem * E) bool :=
  with_raft (fun r =>
    applied <- env_call (raft_AppliedIndex r) ;;
    last <- env_call (raft_LastIndex r) ;;
    ret (Z.eqb applied last)).

Definition KVStore_Leader : M (Mem * E) string :=
  with_raft (fun r =>
    l <- env_call (raft_LeaderWithID r) ;;
    ret l.2).

End kvstore.
