(* ===== verification/KVStoreSpec.v ===== *)
(** * What the store promises, and that kvstore.go keeps it

    [KVSpec] is the abstract state: a finite map and the flag that allows
    writes. [spec_apply] says what one log entry does to it. The relation
    [fsm_abs] ties the memory of a process to an abstract state, and [node_ok]
    adds that reads are served from the map the FSM writes to. *)

From S2P Require Import Prelude Protos RaftCommon KVStore.

(** ** The specification *)

Record KVSpec := { sp_map : gmap string string; sp_writes : bool }.

Definition spec_set (k v : string) (s : KVSpec) : KVSpec :=
  {| sp_map := <[k := v]> (sp_map s); sp_writes := sp_writes s |}.
Definition spec_delete (k : string) (s : KVSpec) : KVSpec :=
  {| sp_map := delete k (sp_map s); sp_writes := sp_writes s |}.
Definition spec_toggle (b : bool) (s : KVSpec) : KVSpec :=
  {| sp_map := sp_map s; sp_writes := b |}.

Definition spec_apply (s : KVSpec) (e : KVFSMLogEntry) : KVSpec :=
  if decide (le_Operation e = SET) then
    spec_set (KVFSMLogEntry_GetKey (Some e)) (KVFSMLogEntry_GetValue (Some e)) s
  else if decide (le_Operation e = DELETE) then
    spec_delete (KVFSMLogEntry_GetKey (Some e)) s
  else if decide (le_Operation e = TOGGLE) then
    spec_toggle (KVFSMLogEntry_GetWritesEnabled (Some e)) s
  else s.

Definition replay (es : list KVFSMLogEntry) (s : KVSpec) : KVSpec :=
  foldl spec_apply s es.

(** What a read of the abstract state answers. *)
Definition spec_get (s : KVSpec) (k : string) : res string :=
  match sp_map s !! k with Some v => Ok v | None => Err KeyNotFound end.

(** ** Abstraction relation *)

Definition fsm_abs (m : Mem) (s : KVSpec) : Prop :=
  exists l, k_store (m_fsm m) = Some l /\ m_heap m !! l = Some (sp_map s) /\
    k_writesEnabled (m_fsm m) = sp_writes s /\ k_mutex (m_fsm m) = false.

Definition node_ok (m : Mem) (s : KVSpec) : Prop :=
  fsm_abs m s /\ k_store (m_kv m) = k_store (m_fsm m) /\ k_mutex (m_kv m) = false.

(** The serving struct and the FSM look at different maps, and the serving map
    has the entries [mp]. *)
Definition detached (mp : gmap string string) (m : Mem) : Prop :=
  exists l, k_store (m_kv m) = Some l /\ m_heap m !! l = Some mp /\
    k_store (m_fsm m) <> Some l /\ k_mutex (m_kv m) = false.

(** ** What the code relies on *)

(** No other proposer is active: while [Apply] is in progress nothing but its
    own entry reaches the local FSM, and it has been applied there when [Apply]
    reports success. *)
Class RaftSerial `{!Proto} (E : Type) `{!Raft E} : Prop := {
  raft_Apply_serial : forall r d t e e' err evs,
    raft_Apply r d t e = (e', (err, evs)) ->
    (evs = [] /\ err <> None) \/ evs = [EvApply d]
}.

(** A log entry without operands always has an encoding, and so has one whose
    strings are valid UTF-8; [encodable] says so of a key and its value. *)
Definition encodable `{!Proto} (e : KVFSMLogEntry) : Prop :=
  is_ok (Marshal_KVFSMLogEntry e) = true.

(** ** The heap *)

Lemma map_alloc_spec (h : heap) mp :
  exists l, map_alloc h mp = (<[l := mp]> h, Some l) /\ h !! l = None.
Proof.
  exists (fresh (dom h)). split; [done|]. apply not_elem_of_dom, is_fresh.
Qed.

(** ** Records *)

Lemma kv_lock_unlock (m : Mem) :
  k_mutex (m_kv m) = false ->
  upd_kv (set_k_mutex false) (upd_kv (set_k_mutex true) m) = m.
Proof. destruct m as [h [] f]; simpl. by intros ->. Qed.

(** A body that returns under the lock returns without it. *)
Lemma kv_locked_run {A} (body : M Mem A) m m' a :
  k_mutex (m_kv m) = false ->
  body (upd_kv (set_k_mutex true) m) = (m', Ret a) ->
  kv_locked body m = (upd_kv (set_k_mutex false) m', Ret a).
Proof.
  intros Hm Hb. unfold kv_locked, bind, get, modify. rewrite Hm.
  unfold deferred. by rewrite Hb.
Qed.

Lemma fsm_locked_run {A} (body : M Mem A) m m' a :
  k_mutex (m_fsm m) = false ->
  body (upd_fsm (set_k_mutex true) m) = (m', Ret a) ->
  fsm_locked body m = (upd_fsm (set_k_mutex false) m', Ret a).
Proof.
  intros Hm Hb. unfold fsm_locked, bind, get, modify. rewrite Hm.
  unfold deferred. by rewrite Hb.
Qed.

(** ** The FSM implements the specification *)

Section fsm.
Context `{!Proto}.

(** The memory after an entry: the map and the flag of the FSM. *)
Definition mem_apply (m : Mem) (l : nat) (s : KVSpec) : Mem :=
  upd_fsm (set_k_writesEnabled (sp_writes s)) (set_heap (<[l := sp_map s]> (m_heap m)) m).

Lemma KVFsm_Apply_run data e m s :
  fsm_abs m s -> Unmarshal_KVFSMLogEntry data = Ok e ->
  exists l, k_store (m_fsm m) = Some l /\
    KVFsm_Apply data m = (mem_apply m l (spec_apply s e), Ret None).
Proof.
  intros (l & Hl & Hh & Hw & Hmx) He. exists l. split; [done|].
  unfold KVFsm_Apply. rewrite He.
  assert (Heta : set_heap (m_heap m) m = m) by (by destruct m).
  assert (Hid : mem_apply m l s = m).
  { unfold mem_apply. rewrite insert_id by done. rewrite Heta.
    destruct m as [h k []]; simpl in *; simplify_eq. done. }
  assert (Hent : map_entries (m_heap m) (Some l) = sp_map s) by (simpl; by rewrite Hh).
  destruct m as [h k [r sn i mx st we]]; simpl in *; simplify_eq.
  unfold spec_apply. repeat case_decide; simpl.
  - erewrite fsm_locked_run; [|done|unfold bind, get, modify, ret; simpl; by rewrite Hh].
    done.
  - erewrite fsm_locked_run; [|done|unfold bind, get, modify, ret; simpl; by rewrite Hh].
    done.
  - erewrite fsm_locked_run; [|done|reflexivity].
    unfold mem_apply, set_heap, upd_fsm; simpl. by rewrite insert_id by done.
  - erewrite fsm_locked_run; [|done|reflexivity]. by rewrite Hid.
Qed.

Lemma fsm_abs_mem_apply m l s s' :
  fsm_abs m s -> k_store (m_fsm m) = Some l -> fsm_abs (mem_apply m l s') s'.
Proof.
  intros (l' & Hl & Hh & Hw & Hmx) Hl'. exists l. unfold mem_apply; simpl.
  by rewrite lookup_insert_eq.
Qed.

(** Delivering decoded entries to the FSM replays them on the abstract state. *)
Lemma deliver_replay datas es m s :
  fsm_abs m s -> Forall2 (fun d e => Unmarshal_KVFSMLogEntry d = Ok e) datas es ->
  exists l, k_store (m_fsm m) = Some l /\
    deliver KVFsm_FSM (map EvApply datas) m = (mem_apply m l (replay es s), Ret tt).
Proof.
  intros Habs Hall. destruct Habs as (l & Hl & Hh & Hw & Hmx).
  exists l. split; [done|]. revert m s Hl Hh Hw Hmx.
  induction Hall as [|d e datas es Hd Hall IH]; intros m s Hl Hh Hw Hmx; simpl.
  - unfold deliver; simpl. unfold ret. f_equal. unfold mem_apply.
    rewrite insert_id by done. destruct m as [h k []]; simpl in *; by simplify_eq.
  - assert (Habs : fsm_abs m s) by (exists l; eauto).
    destruct (KVFsm_Apply_run d e m s Habs Hd) as (l' & Hl' & Hrun). simplify_eq.
    unfold deliver in *; simpl. unfold bind at 1. simpl.
    unfold bind at 1. rewrite Hrun. simpl.
    rewrite (IH _ (spec_apply s e)); unfold mem_apply; simpl; try done.
    + f_equal. unfold upd_fsm, set_heap; simpl. by rewrite insert_insert_eq.
    + by rewrite lookup_insert_eq.
Qed.

End fsm.

(** ** Entries the store proposes *)

Definition set_entry (k v : string) : KVFSMLogEntry :=
  {| le_Operation := SET; le_Key := Some k; le_Value := Some v; le_WritesEnabled := None |}.
Definition delete_entry (k : string) : KVFSMLogEntry :=
  {| le_Operation := DELETE; le_Key := Some k; le_Value := None; le_WritesEnabled := None |}.
Definition toggle_entry (b : bool) : KVFSMLogEntry :=
  {| le_Operation := TOGGLE; le_Key := None; le_Value := None; le_WritesEnabled := Some b |}.

(** ** Operations on a process whose two structs share the map *)

(** The fields of the serving struct that no operation on entries changes. *)
Definition same_handles (m m' : Mem) : Prop :=
  k_raft (m_kv m') = k_raft (m_kv m) /\
  k_store (m_kv m') = k_store (m_kv m) /\ k_store (m_fsm m') = k_store (m_fsm m).

Section ops.
Context `{!Proto} {E : Type} `{!Raft E, !RaftSetup E}.

Lemma KVStore_Get_run k m s (e : E) :
  node_ok m s -> KVStore_Get k (m, e) = ((m, e), Ret (spec_get s k)).
Proof.
  intros ((l & Hl & Hh & _) & Hst & Hmx).
  unfold KVStore_Get, on_mem; simpl.
  erewrite kv_locked_run; [|done|reflexivity]. rewrite kv_lock_unlock by done.
  simpl. rewrite Hst, Hl. simpl. rewrite Hh. reflexivity.
Qed.

Lemma KVStore_GetWritesEnabled_run m (e : E) :
  k_mutex (m_kv m) = false ->
  KVStore_GetWritesEnabled (m, e) = ((m, e), Ret (k_writesEnabled (m_kv m))).
Proof.
  intros Hmx. unfold KVStore_GetWritesEnabled, on_mem; simpl.
  erewrite kv_locked_run; [|done|reflexivity]. by rewrite kv_lock_unlock.
Qed.

Lemma KVStore_Keys_run m (e : E) :
  k_mutex (m_kv m) = false ->
  KVStore_Keys (m, e) = ((m, e), Ret (k_store (m_kv m))).
Proof.
  intros Hmx. unfold KVStore_Keys, on_mem; simpl.
  erewrite kv_locked_run; [|done|reflexivity]. by rewrite kv_lock_unlock.
Qed.

(** Setting the flag to the value it has proposes nothing. *)
Lemma SetWritesEnabled_same b m (e : E) :
  k_mutex (m_kv m) = false -> k_writesEnabled (m_kv m) = b ->
  KVStore_SetWritesEnabled b (m, e) = ((m, e), Ret None).
Proof.
  intros Hmx Hb. unfold KVStore_SetWritesEnabled, kv_locked_env, bind, get. simpl.
  rewrite Hmx. unfold on_mem, modify, deferred. simpl. rewrite Hb, eqb_reflx.
  unfold ret. simpl. by rewrite kv_lock_unlock.
Qed.

Context `{!ProtoLaws, !RaftSerial E}.

Lemma node_ok_mem_apply m l s s' :
  node_ok m s -> k_store (m_fsm m) = Some l -> node_ok (mem_apply m l s') s'.
Proof.
  intros (Habs & Hst & Hmx) Hl. split; [by eapply fsm_abs_mem_apply|done].
Qed.

(** Proposing an entry: the call returns; its effect is that of the entry, or
    nothing if it reports an error. *)
Lemma apply_entry_run r d en t m s e :
  fsm_abs m s -> Unmarshal_KVFSMLogEntry d = Ok en ->
  exists e' err m' s', apply_entry (E := E) r d t (m, e) = ((m', e'), Ret err) /\
    (m' = m /\ s' = s /\ err <> None \/
     exists l, k_store (m_fsm m) = Some l /\ m' = mem_apply m l s' /\ s' = spec_apply s en).
Proof.
  intros Habs Hd. unfold apply_entry, bind, env_call; simpl.
  destruct (raft_Apply r d t e) as [e' [err evs]] eqn:Happ; simpl.
  destruct (raft_Apply_serial _ _ _ _ _ _ _ Happ) as [[-> Herr]| ->].
  - exists e', err, m, s. split; [done|left; done].
  - destruct (deliver_replay [d] [en] m s Habs) as (l & Hl & Hrun); [by constructor|].
    simpl in Hrun. unfold on_mem; simpl. rewrite Hrun. simpl.
    eexists e', err, _, (spec_apply s en). split; [done|]. right. by exists l.
Qed.

(** Lifting that to a process in good order. *)
Lemma apply_entry_ok r d en t m s e :
  node_ok m s -> Unmarshal_KVFSMLogEntry d = Ok en ->
  exists e' err m' s', apply_entry (E := E) r d t (m, e) = ((m', e'), Ret err) /\
    node_ok m' s' /\ same_handles m m' /\
    (s' = s /\ err <> None \/ s' = spec_apply s en) /\ m_kv m' = m_kv m.
Proof.
  intros Hok Hd.
  destruct (apply_entry_run r d en t m s e (proj1 Hok) Hd)
    as (e' & err & m' & s' & Hrun & Hcase).
  exists e', err, m', s'. split; [done|].
  destruct Hcase as [(-> & -> & Herr)|(l & Hl & -> & ->)].
  - split; [done|]. split; [done|]. split; [by left|done].
  - split; [by eapply node_ok_mem_apply|]. split; [done|]. split; [by right|done].
Qed.

(** [Set] always returns; without an error the entry is written, with an error
    it is written or nothing has changed. *)
Lemma KVStore_Set_run k v m s e r :
  node_ok m s -> k_raft (m_kv m) = Some r ->
  exists e' err m' s', KVStore_Set (E := E) k v (m, e) = ((m', e'), Ret err) /\
    node_ok m' s' /\ same_handles m m' /\
    (s' = s /\ err <> None \/ s' = spec_set k v s) /\ m_kv m' = m_kv m.
Proof.
  intros Hok Hr. unfold KVStore_Set, with_raft, bind, get; simpl. rewrite Hr.
  unfold env_call; simpl. destruct (raft_State r e) as [e1 st]; simpl.
  case_decide as Hst.
  { exists e1, (Some ErrNotLeader), m, s. split_and!; try done. by left. }
  destruct (Marshal_KVFSMLogEntry _) as [b|err] eqn:Hb.
  2:{ exists e1, (Some err), m, s. split_and!; try done. by left. }
  apply Unmarshal_Marshal_KVFSMLogEntry in Hb.
  exact (apply_entry_ok r b _ 10 m s e1 Hok Hb).
Qed.

Lemma KVStore_Delete_run k m s e r :
  node_ok m s -> k_raft (m_kv m) = Some r ->
  exists e' err m' s', KVStore_Delete (E := E) k (m, e) = ((m', e'), Ret err) /\
    node_ok m' s' /\ same_handles m m' /\
    (s' = s /\ err <> None \/ s' = spec_delete k s) /\ m_kv m' = m_kv m.
Proof.
  intros Hok Hr. unfold KVStore_Delete, with_raft, bind, get; simpl. rewrite Hr.
  unfold env_call; simpl. destruct (raft_State r e) as [e1 st]; simpl.
  case_decide as Hst.
  { exists e1, (Some ErrNotLeader), m, s. split_and!; try done. by left. }
  destruct (Marshal_KVFSMLogEntry _) as [b|err] eqn:Hb.
  2:{ exists e1, (Some err), m, s. split_and!; try done. by left. }
  apply Unmarshal_Marshal_KVFSMLogEntry in Hb.
  exact (apply_entry_ok r b _ 10 m s e1 Hok Hb).
Qed.

End ops.
