(* ===== verification/KVStoreFlag.v ===== *)
(** * The flag that pauses writes

    [KVStore] and [KVFsm] are separate structs, and [Apply] writes to the flag
    of the second one only. This file shows what follows for the first one: the
    flag that [GetWritesEnabled] reads keeps the value it has after
    [NewKVStore()], whatever the process does. *)

From S2P Require Import Prelude Protos RaftCommon KVStore.

(** ** The operations of a process and what they can lead to *)

Section steps.
Context `{!Proto} {E : Type} `{!Raft E, !RaftSetup E}.

(** The methods of [KVStore]. *)
Inductive kv_operation : forall A, M (Mem * E) A -> Prop :=
| op_Get key : kv_operation _ (KVStore_Get key)
| op_Keys : kv_operation _ KVStore_Keys
| op_GetWritesEnabled : kv_operation _ KVStore_GetWritesEnabled
| op_SetWritesEnabled b : kv_operation _ (KVStore_SetWritesEnabled b)
| op_Set key value : kv_operation _ (KVStore_Set key value)
| op_Delete key : kv_operation _ (KVStore_Delete key)
| op_Open dir ip port shard replica b :
    kv_operation _ (KVStore_Open dir ip port shard replica b)
| op_Snapshot : kv_operation _ KVStore_Snapshot
| op_Close : kv_operation _ KVStore_Close
| op_Join ip port shard replica : kv_operation _ (KVStore_Join ip port shard replica)
| op_DemoteVoter ip port shard replica :
    kv_operation _ (KVStore_DemoteVoter ip port shard replica)
| op_HasLatestLogs : kv_operation _ KVStore_HasLatestLogs
| op_Leader : kv_operation _ KVStore_Leader.

(** A step of a process: a method call, a callback of the library (as a follower
    the process gets entries and snapshots that it did not ask for), or a move
    of the environment. *)
Inductive kv_step : Mem * E -> Mem * E -> Prop :=
| step_op A (op : M (Mem * E) A) w w' o :
    kv_operation A op -> op w = (w', o) -> kv_step w w'
| step_event ev w w' o :
    on_mem (run_event KVFsm_FSM ev) w = (w', o) -> kv_step w w'
| step_env m e e' : kv_step (m, e) (m, e').

End steps.

(** ** Preservation *)

(** A property of the memory that looks only at the flag of the serving struct. *)
Definition serving_flag (b : bool) (m : Mem) : Prop := k_writesEnabled (m_kv m) = b.

Section preserve.
Context `{!Proto} (b : bool).

Lemma flag_kv_locked {A} (body : M Mem A) :
  preserves (serving_flag b) body -> preserves (serving_flag b) (kv_locked body).
Proof. intros Hb. unfold kv_locked. go_preserves. Qed.

Lemma flag_fsm_locked {A} (body : M Mem A) :
  preserves (serving_flag b) body -> preserves (serving_flag b) (fsm_locked body).
Proof. intros Hb. unfold fsm_locked. go_preserves. Qed.

Lemma flag_KVFsm_Apply data : preserves (serving_flag b) (KVFsm_Apply data).
Proof.
  unfold KVFsm_Apply. go_cases; [|by apply preserves_ret].
  apply flag_fsm_locked. go_preserves.
Qed.

Lemma flag_KVFsm_Restore snapshot : preserves (serving_flag b) (KVFsm_Restore snapshot).
Proof. unfold KVFsm_Restore. go_preserves. Qed.

Lemma flag_event ev : preserves (serving_flag b) (run_event KVFsm_FSM ev).
Proof. destruct ev; [apply flag_KVFsm_Apply|apply flag_KVFsm_Restore]. Qed.

End preserve.

#[export] Hint Resolve flag_kv_locked flag_fsm_locked flag_event : go.

Section preserve_ops.
Context `{!Proto} {E : Type} `{!Raft E, !RaftSetup E} (b : bool).

Definition serving_flag_env (w : Mem * E) : Prop := serving_flag b w.1.

Lemma flag_env_call {A} (f : E -> E * A) : preserves serving_flag_env (env_call f).
Proof. apply preserves_env_call_mem. Qed.

Lemma flag_on_mem {A} (m : M Mem A) :
  preserves (serving_flag b) m -> preserves serving_flag_env (on_mem m).
Proof. apply preserves_on_mem. Qed.

Lemma flag_deliver evs : preserves (serving_flag b) (deliver KVFsm_FSM evs).
Proof. apply preserves_deliver. intros; apply flag_event. Qed.

#[local] Hint Resolve flag_env_call flag_on_mem flag_deliver : go.

Lemma flag_with_raft {A} (body : string -> M (Mem * E) A) :
  (forall r, preserves serving_flag_env (body r)) ->
  preserves serving_flag_env (with_raft body).
Proof. intros Hb. unfold with_raft. go_preserves. Qed.

Lemma flag_apply_entry r data t : preserves serving_flag_env (apply_entry r data t).
Proof. unfold apply_entry. go_preserves. Qed.

#[local] Hint Resolve flag_with_raft flag_apply_entry : go.

Lemma flag_kv_locked_env {A} (body : M (Mem * E) A) :
  preserves serving_flag_env body -> preserves serving_flag_env (kv_locked_env body).
Proof. intros Hb. unfold kv_locked_env. go_preserves. Qed.

#[local] Hint Resolve flag_kv_locked_env : go.

Lemma flag_persisted_snapshot : preserves serving_flag_env persisted_snapshot.
Proof. unfold persisted_snapshot, KVFsm_Snapshot. go_preserves. Qed.

#[local] Hint Resolve flag_persisted_snapshot : go.

Lemma flag_SetupRaft dir id address boot :
  preserves serving_flag_env (SetupRaft dir id address boot KVFsm_FSM).
Proof. unfold SetupRaft. go_preserves. Qed.

Lemma flag_ShutdownRaft r : preserves serving_flag_env (ShutdownRaft r persisted_snapshot).
Proof. unfold ShutdownRaft. go_preserves. Qed.

Lemma flag_JoinReplica r id address : preserves serving_flag_env (JoinReplica r id address).
Proof. unfold JoinReplica. go_preserves. Qed.

#[local] Hint Resolve flag_SetupRaft flag_ShutdownRaft flag_JoinReplica : go.

(** No method of [KVStore] changes the flag of the serving struct. *)
Lemma flag_operation A (op : M (Mem * E) A) :
  kv_operation A op -> preserves serving_flag_env op.
Proof.
  destruct 1;
    [ unfold KVStore_Get | unfold KVStore_Keys | unfold KVStore_GetWritesEnabled
    | unfold KVStore_SetWritesEnabled | unfold KVStore_Set | unfold KVStore_Delete
    | unfold KVStore_Open | unfold KVStore_Snapshot | unfold KVStore_Close
    | unfold KVStore_Join | unfold KVStore_DemoteVoter | unfold KVStore_HasLatestLogs
    | unfold KVStore_Leader ];
    repeat first
      [ progress go_preserves
      | apply flag_with_raft; intros ?
      | apply flag_kv_locked_env
      | apply flag_on_mem
      | apply flag_kv_locked
      | apply preserves_for_return; intros ? _ ].
Qed.

Lemma flag_step (w w' : Mem * E) :
  kv_step w w' -> serving_flag_env w -> serving_flag_env w'.
Proof.
  intros Hstep Hw. destruct Hstep as [A op w w' o Hop Hrun|ev w w' o Hrun|m e e'].
  - eapply preserves_run; [by apply flag_operation|done|done].
  - eapply preserves_run; [apply flag_on_mem, flag_event|done|done].
  - done.
Qed.

Lemma flag_reachable (w w' : Mem * E) :
  rtc kv_step w w' -> serving_flag_env w -> serving_flag_env w'.
Proof. induction 1; eauto using flag_step. Qed.

End preserve_ops.
