(* ===== verification/Sim.v ===== *)
(** * Concrete libraries

    Small executable stand-ins for the libraries the code calls, used to run the
    definitions on concrete inputs and to show that the assumptions made about
    the libraries can be met. *)

From S2P Require Import Prelude Protos RaftCommon KVStore KVStoreSpec KVStoreFlag.

(** ** Serialisation: a message is its own encoding *)

#[export] Instance sim_proto : Proto := {|
  bytes := KVFSMLogEntry + KVFSMSnapshot;
  Marshal_KVFSMLogEntry e := Ok (inl e);
  Unmarshal_KVFSMLogEntry b :=
    match b with inl e => Ok e | inr _ => Err (LibErr "cannot parse") end;
  Marshal_KVFSMSnapshot s :=
    Ok (inr {| sn_KvStore := decoded_map (sn_KvStore s);
               sn_WritesEnabled := sn_WritesEnabled s |});
  Unmarshal_KVFSMSnapshot b :=
    match b with inr s => Ok s | inl _ => Err (LibErr "cannot parse") end
|}.

#[export] Instance sim_proto_laws : ProtoLaws.
Proof. split; simpl; intros; by simplify_eq. Qed.

(** The encodings of messages. *)
Definition sim_entry (e : KVFSMLogEntry) : bytes := inl e.
Definition sim_snapshot (s : KVFSMSnapshot) : bytes := inr s.

(** ** Raft: the leaders are fixed, and a leader commits at once *)

(** The instances that are leaders, the leader that the others know of, the
    configuration of the group and the calls that changed it. *)
Record SimEnv := {
  sim_leaders : list string;
  sim_leader : string;
  sim_servers : list Server;
  sim_calls : list string;
  sim_file : string
}.

Definition sim_call (c : string) (e : SimEnv) : SimEnv :=
  {| sim_leaders := sim_leaders e; sim_leader := sim_leader e;
     sim_servers := sim_servers e; sim_calls := sim_calls e ++ [c];
     sim_file := sim_file e |}.

#[export] Instance sim_raft : Raft SimEnv := {|
  raft_State r e := (e, if decide (r ∈ sim_leaders e) then Leader else Follower);
  raft_LeaderWithID r e :=
    (e, ("", if decide (r ∈ sim_leaders e) then r else sim_leader e));
  raft_Apply r d t e :=
    if decide (r ∈ sim_leaders e) then (e, (None, [EvApply d]))
    else (e, (Some ErrNotLeader, []));
  raft_GetConfiguration r e := (e, Ok (sim_servers e));
  raft_RemoveServer r id e := (sim_call ("remove " +:+ id) e, None);
  raft_AddVoter r id a e := (sim_call ("add " +:+ id +:+ " " +:+ a) e, None);
  raft_DemoteVoter r id e := (sim_call ("demote " +:+ id) e, None);
  raft_AppliedIndex r e := (e, 0%Z);
  raft_LastIndex r e := (e, 0%Z);
  raft_LeadershipTransfer r e := (e, None);
  raft_Snapshot r b e := (e, Ok (Ok (1%Z, b)))
|}.

#[export] Instance sim_raft_serial : RaftSerial SimEnv.
Proof.
  split. simpl. intros r d t e e' err evs.
  destruct (decide (r ∈ sim_leaders e)); intros [= <- <- <-]; [by right|by left].
Qed.

(** The library finds no snapshot on disk when it starts. *)
#[export] Instance sim_setup : RaftSetup SimEnv := {|
  NewBoltStore p e := (e, None);
  NewFileSnapshotStore p n e := (e, None);
  ResolveTCPAddr a e := (e, Ok a);
  NewTCPTransportWithConfig a t c e := (e, Ok t);
  NewRaft c e := (e, (None, []));
  BootstrapCluster id servers e := (e, None)
|}.

Definition sim_env (leaders : list string) : SimEnv :=
  {| sim_leaders := leaders; sim_leader := default "" (head leaders);
     sim_servers := []; sim_calls := []; sim_file := "" |}.

(** A sink that keeps the last write and never fails. *)
#[export] Instance sim_sink : SnapshotSink (list bytes) := {|
  sink_Write b e := (e ++ [b], None);
  sink_Close e := (e, None);
  sink_Cancel e := ([], None)
|}.

(** ** Memories *)

(** The memory of an opened store with Raft ID [r] and the entries [mp]. *)
Definition sim_mem (r : string) (mp : gmap string string) : Mem :=
  {| m_heap := {[ 0 := mp ]};
     m_kv := set_k_raft (Some r) true (set_k_store (Some 0) zero_KVStore);
     m_fsm := NewKVFsm (Some 0) |}.

Lemma sim_mem_ok r mp : node_ok (sim_mem r mp) {| sp_map := mp; sp_writes := true |}.
Proof. split; [|done]. exists 0. simpl. by rewrite lookup_singleton_eq. Qed.

(** A store that was opened, and then asked to enable writes. *)
Definition sim_opened : Mem * SimEnv :=
  (KVStore_Open "/data" "10.0.0.1" 8082 "s" "r" true
     (NewKVStore, sim_env ["r.s:8082"])).1.
Definition sim_enabled : Mem * SimEnv := (KVStore_SetWritesEnabled true sim_opened).1.

Lemma sim_enabled_reachable : rtc kv_step (NewKVStore, sim_env ["r.s:8082"]) sim_enabled.
Proof.
  eapply rtc_l; [|eapply rtc_l; [|apply rtc_refl]].
  - eapply (step_op _ (KVStore_Open "/data" "10.0.0.1" 8082 "s" "r" true)
      _ sim_opened); [apply op_Open|]. apply surjective_pairing.
  - eapply (step_op _ (KVStore_SetWritesEnabled true) sim_opened sim_enabled);
      [apply op_SetWritesEnabled|]. apply surjective_pairing.
Qed.
