(* ===== verification/Snapshots.v ===== *)
(** * Snapshots of the store

    [KVFsm.Snapshot] hands out the live map, so [Persist], which runs later and while
    entries are applied, writes the entries of later moments, of a different one for
    each key in the worst case ([torn]). The lemmas here relate what is written
    then, what [Restore] makes of it, and what replaying the log on top gives. *)

From S2P Require Import Prelude Protos RaftCommon KVStore KVStoreSpec.

(** ** The last write to a key in a list of log entries *)

(** What an entry does to key [k]: nothing, or a write of a value or of its
    absence. *)
Definition entry_effect (e : KVFSMLogEntry) (k : string) : option (option string) :=
  if decide (KVFSMLogEntry_GetKey (Some e) = k) then
    if decide (le_Operation e = SET) then Some (Some (KVFSMLogEntry_GetValue (Some e)))
    else if decide (le_Operation e = DELETE) then Some None
    else None
  else None.

Definition last_write (k : string) (es : list KVFSMLogEntry) : option (option string) :=
  foldl (fun acc e => match entry_effect e k with Some x => Some x | None => acc end)
    None es.

Lemma spec_apply_lookup s e k :
  sp_map (spec_apply s e) !! k =
  match entry_effect e k with Some o => o | None => sp_map s !! k end.
Proof.
  unfold spec_apply, entry_effect.
  repeat case_decide; simplify_eq; simpl; try done; try lia.
  - by rewrite lookup_insert_eq.
  - by rewrite lookup_insert_ne.
  - by rewrite lookup_delete_eq.
  - by rewrite lookup_delete_ne.
Qed.

Lemma replay_lookup es s k :
  sp_map (replay es s) !! k =
  match last_write k es with Some o => o | None => sp_map s !! k end.
Proof.
  induction es as [|e es IH] using rev_ind; [done|].
  unfold replay, last_write in *. rewrite !foldl_app. simpl.
  rewrite spec_apply_lookup, IH. by destruct (entry_effect e k).
Qed.

Lemma last_write_app k es1 es2 :
  last_write k (es1 ++ es2) =
  match last_write k es2 with Some o => Some o | None => last_write k es1 end.
Proof.
  unfold last_write. rewrite foldl_app. generalize (foldl (fun acc e =>
    match entry_effect e k with Some x => Some x | None => acc end) None es1) as a.
  induction es2 as [|e es2 IH] using rev_ind; intros a; [done|].
  rewrite !foldl_app. simpl. rewrite IH. by destruct (entry_effect e k).
Qed.

(** What can be read of a map while the entries [es] are applied to it: every key is read at
    a moment of its own. *)
Definition torn (s : KVSpec) (es : list KVFSMLogEntry) (mp : gmap string string) : Prop :=
  forall k, exists n, mp !! k = sp_map (replay (take n es) s) !! k.

Lemma torn_late s es : torn s es (sp_map (replay es s)).
Proof. intros k. exists (length es). by rewrite firstn_all. Qed.

(** Replaying entries some of whose first ones had an effect already. *)
Lemma replay_torn es1 es2 s s' :
  torn s es1 (sp_map s') ->
  sp_map (replay (es1 ++ es2) s') = sp_map (replay (es1 ++ es2) s).
Proof.
  intros Hs'. apply map_eq. intros k. rewrite !replay_lookup.
  destruct (last_write k (es1 ++ es2)) as [o|] eqn:Hlast; [done|].
  destruct (Hs' k) as [n ->]. rewrite replay_lookup.
  rewrite last_write_app in Hlast. destruct (last_write k es2); [done|].
  rewrite <- (take_drop n es1), last_write_app in Hlast.
  destruct (last_write k (drop n es1)); [done|]. by rewrite Hlast.
Qed.

(** ** Restoring *)

Section restore.
Context `{!Proto}.

Lemma KVFsm_Restore_run b sn mp m :
  Unmarshal_KVFSMSnapshot b = Ok sn -> sn_KvStore sn = Some mp ->
  exists l, m_heap m !! l = None /\
    KVFsm_Restore (Ok b) m =
      (upd_fsm (set_k_store (Some l)) (set_heap (<[l := mp]> (m_heap m)) m), Ret None).
Proof.
  intros Hb Hmp. destruct (map_alloc_spec (m_heap m) mp) as (l & Hl & Hfresh).
  exists l. split; [done|]. unfold KVFsm_Restore. rewrite Hb.
  unfold bind, get. rewrite Hmp. rewrite Hl. done.
Qed.

(** The FSM that restored a snapshot is in the state of the snapshot, except for
    the flag, which it keeps. *)
Lemma fsm_abs_restored m l mp :
  m_heap m !! l = None -> k_mutex (m_fsm m) = false ->
  fsm_abs (upd_fsm (set_k_store (Some l)) (set_heap (<[l := mp]> (m_heap m)) m))
    {| sp_map := mp; sp_writes := k_writesEnabled (m_fsm m) |}.
Proof. intros Hl Hmx. exists l. simpl. by rewrite lookup_insert_eq. Qed.

(** ** Persisting *)

Lemma snapshot_message_abs m s fs :
  fsm_abs m s -> fs_store fs = k_store (m_fsm m) ->
  snapshot_message fs (m_heap m) =
    {| sn_KvStore := Some (sp_map s); sn_WritesEnabled := fs_writesEnabled fs |}.
Proof.
  intros (l & Hl & Hh & _) Hfs. unfold snapshot_message. rewrite Hfs, Hl. by rewrite Hh.
Qed.

(** A [Persist] that succeeds has written the map as it was then. *)
Lemma fsmSnapshot_Persist_writes {E} `{!SnapshotSink E} fs m s (e : E) w' :
  fsm_abs m s -> fs_store fs = k_store (m_fsm m) ->
  fsmSnapshot_Persist fs (m, e) = (w', Ret None) ->
  exists b, (sink_Write b e).2 = None /\
    Marshal_KVFSMSnapshot
      {| sn_KvStore := Some (sp_map s); sn_WritesEnabled := fs_writesEnabled fs |} = Ok b.
Proof.
  intros Habs Hfs. unfold fsmSnapshot_Persist, bind at 1, get. cbn [fst].
  rewrite (snapshot_message_abs m s fs Habs Hfs).
  destruct (Marshal_KVFSMSnapshot _) as [b|err]; unfold bind, env_call, ret; cbn [fst snd].
  - destruct (sink_Write b e) as [e1 [err|]] eqn:Hw; cbn [fst snd].
    + by destruct (sink_Cancel e1).
    + intros _. exists b. by rewrite Hw.
  - by destruct (sink_Cancel e).
Qed.

Lemma decoded_map_nonempty mp : mp <> ∅ -> decoded_map (Some mp) = Some mp.
Proof. intros Hne. unfold decoded_map. by rewrite decide_False. Qed.

End restore.

(** ** A serving struct cut off from its FSM *)

Section detach.
Context `{!Proto}.

(** The map a new one is allocated next to. *)
Lemma detached_alloc m mp l l' mp' :
  m_heap m !! l' = None -> k_store (m_kv m) = Some l -> m_heap m !! l = Some mp ->
  k_mutex (m_kv m) = false ->
  detached mp (upd_fsm (set_k_store (Some l')) (set_heap (<[l' := mp']> (m_heap m)) m)).
Proof.
  intros Hl' Hl Hmp Hmx. assert (l' <> l) by congruence.
  exists l. simpl. rewrite lookup_insert_ne by done. split_and!; try done. congruence.
Qed.

(** A restored snapshot cuts the serving struct off. *)
Lemma Restore_detaches b sn m s :
  node_ok m s -> Unmarshal_KVFSMSnapshot b = Ok sn ->
  exists m', KVFsm_Restore (Ok b) m = (m', Ret None) /\ detached (sp_map s) m'.
Proof.
  intros ((l & Hl & Hh & _) & Hst & Hmx) Hb. rewrite Hl in Hst.
  destruct (sn_KvStore sn) as [mp|] eqn:Hmp.
  - destruct (KVFsm_Restore_run b sn mp m Hb Hmp) as (l' & Hl' & Hrun).
    eexists. split; [exact Hrun|]. by eapply detached_alloc.
  - unfold KVFsm_Restore. rewrite Hb. unfold bind, get. rewrite Hmp.
    eexists. split; [reflexivity|]. exists l. simpl. done.
Qed.

(** Once cut off, it stays so, and its map stays the same, under any callback. *)
Lemma detached_write m mp l' h :
  detached mp m -> k_store (m_fsm m) = Some l' -> (exists mp', h = <[l' := mp']> (m_heap m)) ->
  detached mp (set_heap h m).
Proof.
  intros (l & Hl & Hh & Hne & Hmx) Hl' (mp' & ->). exists l. simpl.
  rewrite lookup_insert_ne by congruence. done.
Qed.

Lemma detached_fsm m mp f :
  (forall x, k_store (f x) = k_store x) -> detached mp m -> detached mp (upd_fsm f m).
Proof. intros Hf (l & Hl & Hh & Hne & Hmx). exists l. simpl. by rewrite Hf. Qed.

Lemma detached_Apply mp data : preserves (detached mp) (KVFsm_Apply data).
Proof.
  intros m Hm. unfold KVFsm_Apply. destruct (Unmarshal_KVFSMLogEntry data) as [e|]; [|done].
  unfold fsm_locked, bind, get. destruct (k_mutex (m_fsm m)); [done|].
  unfold modify, deferred. set (m1 := upd_fsm (set_k_mutex true) m).
  assert (Hm1 : detached mp m1) by (by apply detached_fsm).
  repeat case_decide; simpl.
  - destruct (k_store (m_fsm m)) as [l'|] eqn:Hl'; simpl.
    + apply detached_fsm; [done|]. eapply detached_write; eauto.
    + by apply detached_fsm.
  - apply detached_fsm; [done|]. unfold map_delete.
    destruct (k_store (m_fsm m)) as [l'|] eqn:Hl'; simpl; [|exact Hm1].
    eapply detached_write; eauto.
  - apply detached_fsm; [done|]. by apply detached_fsm.
  - by apply detached_fsm.
Qed.

Lemma detached_Restore mp snapshot : preserves (detached mp) (KVFsm_Restore snapshot).
Proof.
  intros m (l & Hl & Hh & Hne & Hmx). destruct snapshot as [b|err].
  2:{ by exists l. }
  destruct (Unmarshal_KVFSMSnapshot b) as [sn|err] eqn:Hb.
  2:{ unfold KVFsm_Restore. rewrite Hb. by exists l. }
  destruct (sn_KvStore sn) as [mp'|] eqn:Hmp.
  - destruct (KVFsm_Restore_run b sn mp' m Hb Hmp) as (l' & Hl' & ->).
    by eapply detached_alloc.
  - unfold KVFsm_Restore. rewrite Hb. unfold bind, get. rewrite Hmp.
    exists l. simpl. done.
Qed.

Lemma detached_deliver mp evs : preserves (detached mp) (deliver KVFsm_FSM evs).
Proof.
  apply preserves_deliver. intros [data|snapshot] _;
    [apply detached_Apply|apply detached_Restore].
Qed.

Lemma detached_Get {E} mp k m (e : E) :
  detached mp m ->
  KVStore_Get k (m, e) =
    ((m, e), Ret (spec_get {| sp_map := mp; sp_writes := true |} k)).
Proof.
  intros (l & Hl & Hh & _ & Hmx). unfold KVStore_Get, on_mem; simpl.
  erewrite kv_locked_run; [|done|reflexivity]. rewrite kv_lock_unlock by done.
  simpl. rewrite Hl. simpl. by rewrite Hh.
Qed.

End detach.
