(* ===== verification/KVStoreProps.v ===== *)
(** * Properties of the replicated store (kvstore.go)

    The main theorems about the store; each follows from the
    lemmas of KVStoreSpec, KVStoreFlag and Snapshots. *)

From S2P Require Import Prelude Protos RaftCommon KVStore KVStoreSpec KVStoreFlag.
From S2P Require Import Sim Snapshots.

Section props.
Context `{!Proto} {E : Type} `{!Raft E, !RaftSetup E}.

(** C6: the FSM implements the specification. If the FSM of a process in good
    order gets committed entries delivered, it returns from every callback, and
    afterwards a read of any key answers what replaying the entries on the
    abstract state answers. *)
Theorem fsm_refines_spec datas es m s (e : E) :
  node_ok m s ->
  Forall2 (fun d en => Unmarshal_KVFSMLogEntry d = Ok en) datas es ->
  exists m', deliver KVFsm_FSM (map EvApply datas) m = (m', Ret tt) /\
    node_ok m' (replay es s) /\
    forall k, KVStore_Get k (m', e) = ((m', e), Ret (spec_get (replay es s) k)).
Proof.
  intros Hok Hall. destruct (deliver_replay datas es m s (proj1 Hok) Hall) as (l & Hl & Hrun).
  eexists. split; [exact Hrun|].
  assert (Hok' : node_ok (mem_apply m l (replay es s)) (replay es s))
    by (by eapply node_ok_mem_apply).
  split; [done|]. intros k. by apply KVStore_Get_run.
Qed.

Section writes.
Context `{!ProtoLaws, !RaftSerial E}.

(** A [Set] that succeeds is read back. [Set] always returns; when it reports
    no error, [Get] of the key yields the value and [Get] of any other key
    yields what it did before; when it reports an error, either that holds too
    (the entry was committed although the call failed) or nothing changed. *)
Theorem Set_then_Get key value m s e r :
  node_ok m s -> k_raft (m_kv m) = Some r ->
  exists m' e' err, KVStore_Set key value (m, e) = ((m', e'), Ret err) /\
    ((forall k, KVStore_Get k (m', e') =
        ((m', e'), Ret (if decide (k = key) then Ok value else spec_get s k))) \/
     err <> None /\
     forall k, KVStore_Get k (m', e') = ((m', e'), Ret (spec_get s k))).
Proof.
  intros Hok Hr.
  destruct (KVStore_Set_run key value m s e r Hok Hr)
    as (e' & err & m' & s' & Hrun & Hok' & _ & Hcase & _).
  exists m', e', err. split; [done|]. destruct Hcase as [[-> Herr]| ->].
  - right. split; [done|]. intros k. by apply KVStore_Get_run.
  - left. intros k. rewrite (KVStore_Get_run k _ _ _ Hok'). unfold spec_get. simpl.
    case_decide as Hk; [subst; by rewrite lookup_insert_eq|].
    by rewrite lookup_insert_ne.
Qed.

(** A [Delete] that succeeds removes the key and nothing else; one that fails
    has removed it or changed nothing. *)
Theorem Delete_then_Get key m s e r :
  node_ok m s -> k_raft (m_kv m) = Some r ->
  exists m' e' err, KVStore_Delete key (m, e) = ((m', e'), Ret err) /\
    ((forall k, KVStore_Get k (m', e') =
        ((m', e'), Ret (if decide (k = key) then Err KeyNotFound else spec_get s k))) \/
     err <> None /\
     forall k, KVStore_Get k (m', e') = ((m', e'), Ret (spec_get s k))).
Proof.
  intros Hok Hr.
  destruct (KVStore_Delete_run key m s e r Hok Hr)
    as (e' & err & m' & s' & Hrun & Hok' & _ & Hcase & _).
  exists m', e', err. split; [done|]. destruct Hcase as [[-> Herr]| ->].
  - right. split; [done|]. intros k. by apply KVStore_Get_run.
  - left. intros k. rewrite (KVStore_Get_run k _ _ _ Hok'). unfold spec_get. simpl.
    case_decide as Hk; [subst; by rewrite lookup_delete_eq|].
    by rewrite lookup_delete_ne.
Qed.

End writes.

(** A replica that is not the leader refuses writes with [ErrNotLeader] and
    leaves its memory as it is, whatever the entry. *)
Theorem not_leader_refuses key value m e e' r :
  k_raft (m_kv m) = Some r -> (exists st, raft_State r e = (e', st) /\ st <> Leader) ->
  KVStore_Set key value (m, e) = ((m, e'), Ret (Some ErrNotLeader)) /\
  KVStore_Delete key (m, e) = ((m, e'), Ret (Some ErrNotLeader)).
Proof.
  intros Hr (st & Hst & Hne).
  unfold KVStore_Set, KVStore_Delete, with_raft, bind, get, env_call; simpl.
  rewrite Hr; simpl. rewrite Hst. split; by rewrite decide_True.
Qed.

(** The pause flag that is read is never set. In every state that a process
    can reach from [NewKVStore()], through any sequence of method calls, FSM
    callbacks and moves of the environment, [GetWritesEnabled] that returns
    returns [false]: committed TOGGLE entries change the flag of the FSM struct
    only. *)
Theorem GetWritesEnabled_always_false (e0 : E) w w' b :
  rtc kv_step (NewKVStore, e0) w ->
  KVStore_GetWritesEnabled w = (w', Ret b) -> b = false.
Proof.
  intros Hreach Hrun.
  assert (Hflag : serving_flag_env false w) by (by eapply flag_reachable).
  unfold KVStore_GetWritesEnabled, on_mem, kv_locked, bind, get in Hrun. simpl in Hrun.
  destruct (k_mutex (m_kv w.1)); [done|]. simpl in Hrun. injection Hrun as _ <-.
  exact Hflag.
Qed.

(** Pausing does nothing. In every reachable state [SetWritesEnabled(false)],
    if it returns, reports success without proposing an entry: the memory and the
    environment are the same as before. *)
Theorem SetWritesEnabled_false_is_noop (e0 : E) m e :
  rtc kv_step (NewKVStore, e0) (m, e) -> k_mutex (m_kv m) = false ->
  KVStore_SetWritesEnabled false (m, e) = ((m, e), Ret None).
Proof.
  intros Hreach Hmx.
  assert (Hflag : serving_flag_env false (m, e)) by (by eapply flag_reachable).
  by apply SetWritesEnabled_same.
Qed.

(** C29: after a snapshot has been restored, reads are stale for good. [Restore]
    gives the FSM a new map; the serving struct keeps the old one, so whatever
    entries and snapshots arrive later, [Get] answers as before the restore. *)
Theorem Restore_makes_reads_stale b sn m s m1 evs m2 o k (e : E) :
  node_ok m s -> Unmarshal_KVFSMSnapshot b = Ok sn ->
  KVFsm_Restore (Ok b) m = (m1, Ret None) ->
  deliver KVFsm_FSM evs m1 = (m2, o) ->
  KVStore_Get k (m2, e) = ((m2, e), Ret (spec_get s k)).
Proof.
  intros Hok Hb Hrun Hdel. destruct (Restore_detaches b sn m s Hok Hb) as (m' & Hrun' & Hdet).
  rewrite Hrun in Hrun'. injection Hrun' as <-.
  assert (Hdet2 : detached (sp_map s) m2).
  { by eapply preserves_run; [apply detached_deliver| |]. }
  by rewrite (detached_Get _ _ _ _ Hdet2).
Qed.

(** C30: a snapshot of an empty store cannot be continued from. Restoring it leaves
    the FSM with a [nil] map, and the next SET entry panics. *)
Theorem Restore_empty_then_Set_panics `{!ProtoLaws} fs m b m1 data key value :
  Marshal_KVFSMSnapshot {| sn_KvStore := Some ∅; sn_WritesEnabled := fs |} = Ok b ->
  k_mutex (m_fsm m) = false ->
  KVFsm_Restore (Ok b) m = (m1, Ret None) ->
  Unmarshal_KVFSMLogEntry data = Ok (set_entry key value) ->
  exists m2, KVFsm_Apply data m1 = (m2, Crash "assignment to entry in nil map").
Proof.
  intros Hb Hmx Hrun Hd. apply Unmarshal_Marshal_KVFSMSnapshot in Hb.
  unfold KVFsm_Restore in Hrun. rewrite Hb in Hrun. injection Hrun as <-.
  unfold KVFsm_Apply. rewrite Hd. destruct m as [h kv [r sn i mx st we]].
  simpl in Hmx. subst mx. eexists. reflexivity.
Qed.

(** C14: a late and torn snapshot can be replayed. [Snapshot] hands out the live map, and
    the library calls [Persist] while it goes on to apply entries: when [Persist] runs after
    the entries [es1], what it has written if it succeeds is the map with their effects,
    which the snapshot's index does not cover. More generally, let every key be read
    with the effects of some of the first of these entries, of a different number for each
    key. A process that restores such a map, unless it is empty, and then replays the log
    from the snapshot's index on, [es1] included, ends with the entries of the
    process that never stopped. *)
Theorem fuzzy_snapshot_is_replayable `{!ProtoLaws} {Sink} `{!SnapshotSink Sink}
    m s fs m1 (e : Sink) w' d1 d2 es1 es2 :
  fsm_abs m s -> KVFsm_Snapshot m = (m, Ret fs) ->
  Forall2 (fun d en => Unmarshal_KVFSMLogEntry d = Ok en) d1 es1 ->
  Forall2 (fun d en => Unmarshal_KVFSMLogEntry d = Ok en) d2 es2 ->
  deliver KVFsm_FSM (map EvApply d1) m = (m1, Ret tt) ->
  fsmSnapshot_Persist fs (m1, e) = (w', Ret None) ->
  (exists b mp, (sink_Write b e).2 = None /\ torn s es1 mp /\ mp = sp_map (replay es1 s) /\
     Unmarshal_KVFSMSnapshot b = Ok {| sn_KvStore := decoded_map (Some mp);
                                       sn_WritesEnabled := k_writesEnabled (m_fsm m) |}) /\
  forall b mp flag mr, torn s es1 mp -> mp <> ∅ -> k_mutex (m_fsm mr) = false ->
    Unmarshal_KVFSMSnapshot b = Ok {| sn_KvStore := decoded_map (Some mp);
                                      sn_WritesEnabled := flag |} ->
    exists mr' mr'' s'', KVFsm_Restore (Ok b) mr = (mr', Ret None) /\
      deliver KVFsm_FSM (map EvApply (d1 ++ d2)) mr' = (mr'', Ret tt) /\
      fsm_abs mr'' s'' /\ sp_map s'' = sp_map (replay (es1 ++ es2) s).
Proof.
  intros Habs Hsnap Hd1 Hd2 Hdel Hper. split.
  - destruct (deliver_replay d1 es1 m s Habs Hd1) as (l & Hl & Hrun).
    rewrite Hrun in Hdel. injection Hdel as <-. injection Hsnap as <-.
    apply (fsmSnapshot_Persist_writes _ _ (replay es1 s)) in Hper as (b & Hw & Hb);
      [|by eapply fsm_abs_mem_apply|done].
    exists b, (sp_map (replay es1 s)). split_and!; [done|apply torn_late|done|].
    apply Unmarshal_Marshal_KVFSMSnapshot in Hb. exact Hb.
  - intros b mp flag mr Ht Hne Hmx Hb. rewrite (decoded_map_nonempty mp Hne) in Hb.
    destruct (KVFsm_Restore_run b _ mp mr Hb eq_refl) as (lr & Hlr & Hrr).
    pose proof (fsm_abs_restored mr lr mp Hlr Hmx) as Habs'.
    destruct (deliver_replay (d1 ++ d2) (es1 ++ es2) _ _ Habs') as (l2 & Hl2 & Hrun2).
    { by apply Forall2_app. }
    eexists _, _, _. split; [exact Hrr|]. split; [exact Hrun2|].
    split; [by eapply fsm_abs_mem_apply|]. by apply replay_torn.
Qed.

End props.

(** ** Witnesses *)

Definition ex_env : SimEnv := sim_env ["r"].
Definition ex_mem : Mem := sim_mem "r" {[ "a" := "1" ]}.
Definition ex_spec : KVSpec := {| sp_map := {[ "a" := "1" ]}; sp_writes := true |}.

Lemma ex_mem_ok : node_ok ex_mem ex_spec.
Proof. apply sim_mem_ok. Qed.

Lemma fsm_refines_spec_witness :
  exists m', deliver KVFsm_FSM (map EvApply [sim_entry (set_entry "b" "2"); sim_entry (delete_entry "a")])
    ex_mem = (m', Ret tt) /\ (KVStore_Get "b" (m', ex_env)).2 = Ret (Ok "2").
Proof.
  destruct (fsm_refines_spec [sim_entry (set_entry "b" "2"); sim_entry (delete_entry "a")]
    [set_entry "b" "2"; delete_entry "a"] ex_mem ex_spec ex_env ex_mem_ok)
    as (m' & Hrun & _ & Hget).
  - repeat constructor.
  - exists m'. split; [exact Hrun|]. rewrite Hget. vm_compute. reflexivity.
Defined.

(** The same store laid out at another place of the heap. *)
Definition ex_mem2 : Mem :=
  {| m_heap := {[ 0 := ∅; 7 := {[ "a" := "1" ]} ]};
     m_kv := set_k_raft (Some "q") true (set_k_store (Some 7) zero_KVStore);
     m_fsm := NewKVFsm (Some 7) |}.

Lemma ex_mem2_ok : node_ok ex_mem2 ex_spec.
Proof. split; [|done]. exists 7. by vm_compute. Qed.

Definition delivered (d : list KVFSMLogEntry) (m : Mem) : Mem :=
  (deliver KVFsm_FSM (map EvApply (map sim_entry d)) m).1.

Lemma Set_then_Get_witness :
  exists m' e' err, KVStore_Set "b" "2" (ex_mem, ex_env) = ((m', e'), Ret err) /\
    ((forall k, KVStore_Get k (m', e') =
        ((m', e'), Ret (if decide (k = "b") then Ok "2" else spec_get ex_spec k))) \/
     err <> None /\
     forall k, KVStore_Get k (m', e') = ((m', e'), Ret (spec_get ex_spec k))).
Proof. apply (Set_then_Get "b" "2" ex_mem ex_spec ex_env "r"); [apply ex_mem_ok|done]. Defined.

Lemma Delete_then_Get_witness :
  exists m' e' err, KVStore_Delete "a" (ex_mem, ex_env) = ((m', e'), Ret err) /\
    ((forall k, KVStore_Get k (m', e') =
        ((m', e'), Ret (if decide (k = "a") then Err KeyNotFound else spec_get ex_spec k))) \/
     err <> None /\
     forall k, KVStore_Get k (m', e') = ((m', e'), Ret (spec_get ex_spec k))).
Proof. apply (Delete_then_Get "a" ex_mem ex_spec ex_env "r"); [apply ex_mem_ok|done]. Defined.

Lemma not_leader_refuses_witness :
  KVStore_Set "b" "2" (ex_mem, sim_env ["other"]) =
    ((ex_mem, sim_env ["other"]), Ret (Some ErrNotLeader)) /\
  KVStore_Delete "b" (ex_mem, sim_env ["other"]) =
    ((ex_mem, sim_env ["other"]), Ret (Some ErrNotLeader)).
Proof.
  apply (not_leader_refuses "b" "2" ex_mem (sim_env ["other"]) (sim_env ["other"]) "r").
  - reflexivity.
  - exists Follower. split; [vm_compute; reflexivity|discriminate].
Defined.

(** The toggle was committed and applied, and is not seen. *)
Lemma GetWritesEnabled_always_false_witness :
  k_writesEnabled (m_fsm sim_enabled.1) = true /\
  exists b, (KVStore_GetWritesEnabled sim_enabled).2 = Ret b /\ b = false.
Proof.
  split; [vm_compute; reflexivity|]. exists false. split; [vm_compute; reflexivity|].
  apply (GetWritesEnabled_always_false (sim_env ["r.s:8082"]) sim_enabled
    (KVStore_GetWritesEnabled sim_enabled).1); [apply sim_enabled_reachable|].
  vm_compute. reflexivity.
Defined.

Lemma SetWritesEnabled_false_is_noop_witness :
  KVStore_SetWritesEnabled false sim_enabled = (sim_enabled, Ret None).
Proof.
  apply (SetWritesEnabled_false_is_noop (sim_env ["r.s:8082"]) sim_enabled.1 sim_enabled.2);
    [apply sim_enabled_reachable|]. vm_compute. reflexivity.
Defined.

Definition ex_snapshot : KVFSMSnapshot :=
  {| sn_KvStore := Some {[ "z" := "9" ]}; sn_WritesEnabled := true |}.

Lemma Restore_makes_reads_stale_witness :
  (KVStore_Get "b" (delivered [set_entry "b" "2"]
     (KVFsm_Restore (Ok (sim_snapshot ex_snapshot)) ex_mem).1, ex_env)).2 = Ret (Err KeyNotFound).
Proof.
  rewrite (Restore_makes_reads_stale (sim_snapshot ex_snapshot) ex_snapshot ex_mem ex_spec
    (KVFsm_Restore (Ok (sim_snapshot ex_snapshot)) ex_mem).1 [EvApply (sim_entry (set_entry "b" "2"))]
    _ (Ret tt) "b" ex_env ex_mem_ok eq_refl); vm_compute; reflexivity.
Defined.

Lemma Restore_empty_then_Set_panics_witness :
  exists m2, KVFsm_Apply (sim_entry (set_entry "b" "2"))
    (KVFsm_Restore (Ok (sim_snapshot {| sn_KvStore := None; sn_WritesEnabled := true |})) ex_mem).1
    = (m2, Crash "assignment to entry in nil map").
Proof.
  apply (Restore_empty_then_Set_panics true ex_mem
    (sim_snapshot {| sn_KvStore := None; sn_WritesEnabled := true |}) _ _ "b" "2");
    vm_compute; reflexivity.
Defined.

(** Of the keys that were written after the snapshot was taken, [a] is persisted as it was
    before and [b] as it is after. *)
Definition ex_torn : KVFSMSnapshot :=
  {| sn_KvStore := Some {[ "a" := "1"; "b" := "2" ]}; sn_WritesEnabled := true |}.

Lemma fuzzy_snapshot_is_replayable_witness :
  exists mr' mr'' s'', KVFsm_Restore (Ok (sim_snapshot ex_torn)) ex_mem2 = (mr', Ret None) /\
    deliver KVFsm_FSM (map EvApply (map sim_entry
      [delete_entry "a"; set_entry "b" "2"; set_entry "c" "3"])) mr' = (mr'', Ret tt) /\
    fsm_abs mr'' s'' /\ sp_map s'' = {[ "b" := "2"; "c" := "3" ]}.
Proof.
  destruct (fuzzy_snapshot_is_replayable (Sink := list bytes) ex_mem ex_spec
    {| fs_store := Some 0; fs_writesEnabled := true |}
    (delivered [delete_entry "a"; set_entry "b" "2"] ex_mem) []
    (fsmSnapshot_Persist {| fs_store := Some 0; fs_writesEnabled := true |}
      (delivered [delete_entry "a"; set_entry "b" "2"] ex_mem, [])).1
    (map sim_entry [delete_entry "a"; set_entry "b" "2"]) (map sim_entry [set_entry "c" "3"])
    [delete_entry "a"; set_entry "b" "2"] [set_entry "c" "3"]) as (_ & Hall).
  - apply ex_mem_ok.
  - reflexivity.
  - repeat constructor.
  - repeat constructor.
  - vm_compute. reflexivity.
  - vm_compute. reflexivity.
  - destruct (Hall (sim_snapshot ex_torn) {[ "a" := "1"; "b" := "2" ]} true ex_mem2)
      as (mr' & mr'' & s'' & Hres & Hrun & Habs & Hmap).
    + intros k. destruct (decide (k = "a")) as [->|Hk]; [by exists 0|]. exists 2.
      destruct (decide (k = "b")) as [->|Hk']; [done|].
      simpl. rewrite !lookup_insert_ne, lookup_delete_ne by done.
      by rewrite !lookup_singleton_ne by done.
    + vm_compute. discriminate.
    + reflexivity.
    + vm_compute. reflexivity.
    + exists mr', mr'', s''. split; [exact Hres|]. split; [exact Hrun|]. split; [exact Habs|].
      rewrite Hmap. vm_compute. reflexivity.
Defined.
