(* ===== verification/Membership.v ===== *)
(** * The members of a Raft group

    A replica that starts asks the leader of its shard to let it join, and one that is
    stopped asks it to take away its vote. This file shows what becomes of the group's
    configuration: [KVStore_Join] replaces whatever stood under the replica's name or
    address, and keeps names and addresses unique. *)

From S2P Require Import Prelude Protos RaftCommon KVStore KVStoreSpec Sim.

#[export] Instance Server_eq_dec : EqDecision Server.
Proof. solve_decision. Defined.

(** A server of the configuration, and whether it has a vote. *)
Record Member := { mb_Server : Server; mb_Voter : bool }.

Abbreviation mb_ID m := (srv_ID (mb_Server m)).
Abbreviation mb_Address m := (srv_Address (mb_Server m)).

(** What the documentation of the library says of a leader's calls that change the
    configuration: [RemoveServer] removes a server, [AddVoter] adds one with a vote, or
    changes the address of the one with this name, and [DemoteVoter] takes away a vote. *)
Definition removed (id : string) (ms : list Member) : list Member :=
  filter (fun x => mb_ID x <> id) ms.
Definition added (id address : string) (ms : list Member) : list Member :=
  let new := {| mb_Server := {| srv_ID := id; srv_Address := address |}; mb_Voter := true |} in
  if decide (id ∈ map (fun x => mb_ID x) ms)
  then map (fun x => if decide (mb_ID x = id) then new else x) ms
  else ms ++ [new].
Definition demoted (id : string) (ms : list Member) : list Member :=
  map (fun x => if decide (mb_ID x = id)
                then {| mb_Server := mb_Server x; mb_Voter := false |} else x) ms.

(** While the environment is [steady], [r] leads, as a member with a vote, its calls that
    concern other servers succeed, and nobody else changes the configuration. Nothing is said
    of calls that remove or demote [r] itself, after which the library elects
    another leader, nor of adding a server at an address that is taken, which it refuses. *)
Class Membership `{!Proto} (E : Type) `{!Raft E} (r : string) := {
  steady : E -> Prop;
  members : E -> list Member;
  steady_State : forall e, steady e ->
    exists e', raft_State r e = (e', Leader) /\ steady e' /\ members e' = members e;
  steady_GetConfiguration : forall e, steady e ->
    exists e', raft_GetConfiguration r e = (e', Ok (map mb_Server (members e))) /\
      steady e' /\ members e' = members e;
  steady_leader : forall e, steady e ->
    exists x, x ∈ members e /\ mb_ID x = r /\ mb_Voter x = true;
  steady_RemoveServer : forall id e, steady e -> id <> r ->
    exists e', raft_RemoveServer r id e = (e', None) /\ steady e' /\
      members e' = removed id (members e);
  steady_AddVoter : forall id address e, steady e -> id <> r ->
    (forall x, x ∈ members e -> mb_Address x = address -> mb_ID x = id) ->
    exists e', raft_AddVoter r id address e = (e', None) /\ steady e' /\
      members e' = added id address (members e);
  steady_DemoteVoter : forall id e, steady e -> id <> r ->
    exists e', raft_DemoteVoter r id e = (e', None) /\ steady e' /\
      members e' = demoted id (members e)
}.

(** No two servers have the same name or the same address. *)
Definition distinct (ms : list Member) : Prop :=
  NoDup (map (fun x => mb_ID x) ms) /\ NoDup (map (fun x => mb_Address x) ms).

(** ** What joining amounts to *)

Definition conflicts (id address : string) (x : Member) : Prop :=
  mb_ID x = id \/ mb_Address x = address.

#[export] Instance conflicts_dec id address x : Decision (conflicts id address x).
Proof. unfold conflicts. apply _. Defined.

(** The server that joins takes nothing away from the server [r]: it has neither its name nor
    its address, unless it is [r] itself, back under both. *)
Definition spares (r id address : string) (ms : list Member) : Prop :=
  forall x, x ∈ ms -> mb_ID x = r -> conflicts id address x ->
    mb_Server x = {| srv_ID := id; srv_Address := address |}.

Definition joined (id address : string) (ms : list Member) : list Member :=
  if decide ({| srv_ID := id; srv_Address := address |} ∈ map mb_Server ms) then ms
  else filter (fun x => ~ conflicts id address x) ms ++
       [{| mb_Server := {| srv_ID := id; srv_Address := address |}; mb_Voter := true |}].

Section members.
Context (id address : string).
Implicit Types (ms : list Member) (x : Member).
Abbreviation me := {| srv_ID := id; srv_Address := address |}.

(** A server that conflicts is the one that joins only if both name and address agree. *)
Lemma same_server x : mb_ID x = id -> mb_Address x = address -> mb_Server x = me.
Proof. by destruct x as [[] ?]; simpl; intros -> ->. Qed.

Lemma distinct_same ms x y :
  distinct ms -> x ∈ ms -> y ∈ ms -> mb_ID x = mb_ID y \/ mb_Address x = mb_Address y -> x = y.
Proof.
  intros [Hi Ha] Hx Hy Hxy. induction ms as [|z ms IH]; [by apply elem_of_nil in Hx|].
  cbn [map] in Hi, Ha. apply NoDup_cons in Hi as [Hzi Hi], Ha as [Hza Ha].
  assert (Hout : forall u, u ∈ ms -> mb_ID u <> mb_ID z /\ mb_Address u <> mb_Address z).
  { intros u Hu. split; [intros He; apply Hzi|intros He; apply Hza];
      apply list_elem_of_fmap; by exists u. }
  apply elem_of_cons in Hx as [->|Hx], Hy as [->|Hy]; [done| | |by apply IH].
  - destruct (Hout y Hy). naive_solver.
  - destruct (Hout x Hx). naive_solver.
Qed.

Lemma distinct_filter (P : Member -> Prop) `{!forall x, Decision (P x)} ms :
  distinct ms -> distinct (filter P ms).
Proof.
  intros [Hi Ha]. split; eapply sublist_NoDup; [| |exact Ha|..]; try exact Hi;
    apply fmap_sublist, sublist_filter.
Qed.

(** Joining keeps names and addresses unique. *)
Lemma distinct_joined ms : distinct ms -> distinct (joined id address ms).
Proof.
  intros Hd. unfold joined. case_decide; [done|].
  pose proof (distinct_filter (fun x => ~ conflicts id address x) ms Hd) as [Hi Ha].
  split; rewrite map_app; apply NoDup_app; (split; [done|]); (split; [|apply NoDup_singleton]);
    intros u (x & -> & [Hno _]%list_elem_of_filter)%list_elem_of_fmap Hu%list_elem_of_singleton;
    apply Hno; [by left|by right].
Qed.

(** The names of the servers of [l] that the joining one replaces. *)
Definition replaced_ids (l : list Server) : list string :=
  map srv_ID (filter (fun y => srv_ID y = id \/ srv_Address y = address) l).

Lemma replaced_filter ms :
  distinct ms ->
  filter (fun x => mb_ID x ∉ replaced_ids (map mb_Server ms)) ms =
  filter (fun x => ~ conflicts id address x) ms.
Proof.
  intros Hd. apply list_filter_iff_in. intros x Hx. apply not_iff_compat.
  unfold replaced_ids. rewrite list_elem_of_fmap. split.
  - intros (y & Hid & Hy). apply list_elem_of_filter in Hy as [Hc Hy].
    apply list_elem_of_fmap in Hy as (z & -> & Hz).
    by rewrite (distinct_same ms x z Hd Hx Hz (or_introl Hid)).
  - intros Hc. exists (mb_Server x). split; [done|]. apply list_elem_of_filter. split; [exact Hc|].
    apply list_elem_of_fmap. by exists x.
Qed.

(** ** The calls *)

Context `{!Proto} {E : Type} `{!Raft E} (r : string) `{!Membership E r}.
Implicit Types (m : Mem) (e : E).

(** The body of the loop over the servers. *)
Definition join_body (member : Server) : M (Mem * E) (option gerror) :=
  if decide (srv_ID member = id \/ srv_Address member = address) then
    if decide (srv_ID member = id /\ srv_Address member = address) then ret (Some None)
    else
      err <- env_call (raft_RemoveServer r (srv_ID member)) ;;
      match err with
      | Some err => ret (Some (Some (Errorf ("failed to remove existing replica "
                      +:+ id +:+ ": " +:+ Error err))))
      | None => ret None
      end
  else ret None.

Lemma join_loop l m e :
  steady e -> me ∉ l ->
  (forall y, y ∈ l -> srv_ID y = r -> srv_ID y = id \/ srv_Address y = address -> y = me) ->
  exists e', for_return l join_body (m, e) = ((m, e'), Ret None) /\ steady e' /\
    members e' = filter (fun x => mb_ID x ∉ replaced_ids l) (members e).
Proof.
  revert e. induction l as [|y l IH]; intros e He Hl Hr.
  { exists e. split; [done|]. split; [done|]. symmetry. apply list_filter_all.
    intros x _. apply not_elem_of_nil. }
  apply not_elem_of_cons in Hl as [Hy Hl]. cbn [for_return].
  assert (Hr' : forall z, z ∈ l -> srv_ID z = r -> srv_ID z = id \/ srv_Address z = address ->
    z = me) by (intros z Hz; apply Hr; by right).
  unfold join_body at 1. unfold replaced_ids. rewrite filter_cons. case_decide as Hc.
  - rewrite decide_False by (intros [??]; destruct Hy; by destruct y; simpl in *; subst).
    assert (Hne : srv_ID y <> r) by (intros Heq; apply Hy; symmetry; apply Hr; [left|done..]).
    destruct (steady_RemoveServer (srv_ID y) e He Hne) as (e1 & Hrun & He1 & Hm1).
    destruct (IH e1 He1 Hl Hr') as (e' & Hloop & He' & Hm'). exists e'. split; [|split; [done|]].
    + unfold bind at 1 2, env_call at 1. simpl. by rewrite Hrun.
    + rewrite Hm', Hm1. unfold removed. rewrite list_filter_filter. apply list_filter_iff.
      intros x. rewrite fmap_cons, not_elem_of_cons. fold (replaced_ids l). tauto.
  - destruct (IH e He Hl Hr') as (e' & Hloop & He' & Hm'). by exists e'.
Qed.

Lemma join_stops l1 l2 (m : Mem) e :
  Forall (fun y => ~ (srv_ID y = id \/ srv_Address y = address)) l1 ->
  for_return (l1 ++ me :: l2) join_body (m, e) = ((m, e), Ret (Some None)).
Proof.
  induction 1 as [|y l1 Hy _ IH]; simpl.
  - unfold join_body at 1. by rewrite !decide_True by auto.
  - unfold join_body at 1. rewrite decide_False by done. exact IH.
Qed.

(** The loop, with what it leaves to [JoinReplica]. *)
Lemma join_all (m : Mem) e :
  steady e -> distinct (members e) -> spares r id address (members e) ->
  exists e', (early <- for_return (map mb_Server (members e)) join_body ;;
    match early with
    | Some result => ret result
    | None => JoinReplica r id address
    end) (m, e) = ((m, e'), Ret None) /\ steady e' /\ members e' = joined id address (members e).
Proof.
  intros He Hd Hsp. unfold joined. destruct (decide (me ∈ map mb_Server (members e))) as [Hin|Hout].
  - exists e. split; [|done]. apply list_elem_of_fmap in Hin as (x & Hx & Hin).
    apply list_elem_of_split in Hin as (l1 & l2 & Hms).
    assert (Hstop : for_return (map mb_Server (members e)) join_body (m, e) =
      ((m, e), Ret (Some None))); [|by rewrite (bind_Ret _ _ _ _ _ Hstop)].
    rewrite Hms, map_app. cbn [map]. rewrite <- Hx.
    apply join_stops, Forall_map, Forall_forall. intros y Hy Hc.
    assert (y = x) as ->.
    { apply (distinct_same (members e)); [done|rewrite Hms; set_solver..|]. by rewrite <- Hx. }
    destruct Hd as [Hi _]. rewrite Hms, map_app in Hi. apply NoDup_app in Hi as (_ & Hno & _).
    apply (Hno (mb_ID x)); [apply list_elem_of_fmap; by exists x|by left].
  - destruct (join_loop (map mb_Server (members e)) m e He Hout) as (e1 & Hrun & He1 & Hm1).
    { intros y (x & -> & Hx)%list_elem_of_fmap Hy Hc. by apply Hsp. }
    rewrite (replaced_filter _ Hd) in Hm1. rewrite (bind_Ret _ _ _ _ _ Hrun).
    destruct (steady_State e1 He1) as (e2 & Hst & He2 & Hm2).
    assert (Hno : forall x, x ∈ members e2 -> ~ conflicts id address x).
    { intros x. rewrite Hm2, Hm1. by intros [? _]%list_elem_of_filter. }
    destruct (steady_AddVoter id address e2 He2) as (e3 & Hadd & He3 & Hm3).
    { intros ->. destruct (steady_leader e2 He2) as (x & Hx & Hid & _).
      apply (Hno x Hx). by left. }
    { intros x Hx Ha. destruct (Hno x Hx). by right. }
    exists e3. split; [|split; [done|]].
    + unfold JoinReplica, bind, env_call. simpl. rewrite Hst. simpl. by rewrite Hadd.
    + rewrite Hm3, Hm2, Hm1. unfold added. rewrite decide_False; [done|].
      intros (x & -> & [Hx _]%list_elem_of_filter)%list_elem_of_fmap. apply Hx. by left.
Qed.

End members.

Section join.
Context `{!Proto} {E : Type} `{!Raft E} (r : string) `{!Membership E r}.
Implicit Types (m : Mem) (e : E).

(** A replica joins its group. At a leader whose calls of the library succeed, another
    replica that joins under its name and address ends up in the configuration: if it was there
    under both, nothing changes; else every server that stood under its name or its address
    is removed, the others stay as they are, and it is added with a vote. Names and
    addresses stay unique, so the group never counts a replica twice. *)
Theorem Join_replaces ip port shard replica m e :
  k_raft (m_kv m) = Some r -> steady e -> distinct (members e) ->
  spares r (replica_addr replica shard port) (host_addr ip port) (members e) ->
  exists e', KVStore_Join ip port shard replica (m, e) = ((m, e'), Ret None) /\ steady e' /\
    members e' = joined (replica_addr replica shard port) (host_addr ip port) (members e) /\
    distinct (members e').
Proof.
  intros Hr He Hd Hsp. destruct (steady_State e He) as (e1 & Hst & He1 & Hm1).
  destruct (steady_GetConfiguration e1 He1) as (e2 & Hget & He2 & Hm2).
  rewrite <- Hm1, <- Hm2 in Hd, Hsp |- *.
  destruct (join_all (replica_addr replica shard port) (host_addr ip port) r m e2 He2 Hd Hsp)
    as (e' & Hrun & He' & Hm').
  exists e'. split_and!; [|done|done|rewrite Hm'; by apply distinct_joined].
  unfold KVStore_Join, with_raft, bind at 1, get. simpl. rewrite Hr.
  unfold bind at 1, env_call at 1. simpl. rewrite Hst, decide_False by auto.
  unfold bind at 1, env_call at 1. simpl. rewrite Hget, <- Hm2. exact Hrun.
Qed.

Lemma demoted_servers id ms : map mb_Server (demoted id ms) = map mb_Server ms.
Proof.
  unfold demoted. rewrite map_map. apply map_ext. intros x. by case_decide.
Qed.

Lemma demoted_distinct id ms : distinct ms -> distinct (demoted id ms).
Proof.
  unfold distinct. rewrite <- !(map_map mb_Server). by rewrite demoted_servers.
Qed.

Lemma DemoteVoter_run ip port shard replica m e :
  k_raft (m_kv m) = Some r -> steady e -> replica_addr replica shard port <> r ->
  exists e', KVStore_DemoteVoter ip port shard replica (m, e) = ((m, e'), Ret None) /\ steady e' /\
    members e' = demoted (replica_addr replica shard port) (members e).
Proof.
  intros Hr He Hne. destruct (steady_State e He) as (e1 & Hst & He1 & Hm1).
  destruct (steady_DemoteVoter (replica_addr replica shard port) e1 He1 Hne) as (e2 & Hd & He2 & Hm2).
  exists e2. rewrite Hm2, Hm1. split; [|done].
  unfold KVStore_DemoteVoter, with_raft, bind at 1, get. simpl. rewrite Hr.
  unfold bind at 1, env_call at 1. simpl. rewrite Hst, decide_False by auto.
  unfold env_call. simpl. by rewrite Hd.
Qed.

(** C31: a replica that is stopped and comes back. On its way out the leader, another replica,
    takes away its vote, and when it is up again it joins, at an address that is not the
    leader's. It is then in the configuration, under the address
    that it has now, and it has a vote exactly if this is not the address that it
    had before: one that comes back at its old address is taken for a member already and
    stays without a vote. *)
Theorem rejoin_votes_iff_moved ip0 ip port shard replica m e x :
  let id := replica_addr replica shard port in
  k_raft (m_kv m) = Some r -> steady e -> distinct (members e) ->
  x ∈ members e -> mb_ID x = id -> id <> r ->
  (forall y, y ∈ members e -> mb_ID y = r -> mb_Address y <> host_addr ip port) ->
  exists e', (KVStore_DemoteVoter ip0 port shard replica ;;;
              KVStore_Join ip port shard replica) (m, e) = ((m, e'), Ret None) /\
    exists y, y ∈ members e' /\ mb_ID y = id /\ mb_Address y = host_addr ip port /\
      (forall z, z ∈ members e' -> mb_ID z = id -> z = y) /\
      (mb_Voter y = true <-> mb_Address x <> host_addr ip port).
Proof.
  intros id Hr He Hd Hx Hid Hne Haddr.
  destruct (DemoteVoter_run ip0 port shard replica m e Hr He Hne) as (e1 & Hrun1 & He1 & Hm1).
  fold id in Hm1. assert (Hd1 : distinct (members e1)) by (rewrite Hm1; by apply demoted_distinct).
  assert (Hsp : spares r id (host_addr ip port) (members e1)).
  { rewrite Hm1. intros y (z & -> & Hz)%list_elem_of_fmap Hy Hc. exfalso.
    assert (Hs : mb_Server (if decide (mb_ID z = id)
      then {| mb_Server := mb_Server z; mb_Voter := false |} else z) = mb_Server z)
      by (by case_decide). unfold conflicts in Hc. rewrite Hs in Hy, Hc.
    destruct Hc as [Hc|Hc]; [congruence|by apply (Haddr z)]. }
  destruct (Join_replaces ip port shard replica m e1 Hr He1 Hd1 Hsp) as (e' & Hrun & He' & Hm' & Hd').
  fold id in Hm'. exists e'. rewrite (bind_Ret _ _ _ _ _ Hrun1). split; [done|].
  set (x' := {| mb_Server := mb_Server x; mb_Voter := false |}).
  assert (Hx' : x' ∈ members e1).
  { rewrite Hm1. apply list_elem_of_fmap. exists x. by rewrite decide_True. }
  assert (Huniq : forall y z, y ∈ members e' -> mb_ID y = id -> z ∈ members e' -> mb_ID z = id ->
    z = y).
  { intros y z Hy Hyi Hz Hzi. apply (distinct_same (members e')); [done..|]. left. congruence. }
  unfold joined in Hm'. destruct (decide (_ ∈ _)) as [Hin|Hout].
  - apply list_elem_of_fmap in Hin as (y & Hy & Hin).
    assert (y = x') as ->.
    { apply (distinct_same (members e1)); [done..|]. left. by rewrite <- Hy. }
    exists x'. rewrite Hm' in *.
    assert (Hs : mb_Server x = {| srv_ID := id; srv_Address := host_addr ip port |})
      by done.
    split_and!; try done; [by simpl; rewrite Hs|intros z Hz Hzi; by apply Huniq|].
    simpl. rewrite Hs. simpl. split; [done|]. by intros [].
  - exists {| mb_Server := {| srv_ID := id; srv_Address := host_addr ip port |}; mb_Voter := true |}.
    assert (Hy : {| mb_Server := {| srv_ID := id; srv_Address := host_addr ip port |};
      mb_Voter := true |} ∈ members e') by (rewrite Hm'; set_solver).
    split_and!; try done; [intros z Hz Hzi; by apply Huniq|]. simpl. split; [|done]. intros _ Ha.
    apply Hout, list_elem_of_fmap. exists x'. split; [|done]. symmetry. by apply same_server.
Qed.

End join.

(** ** A library that keeps the configuration

    The second replica knows of no leader, the others know of the first one. Who leads hands
    over to the first one. *)

Record Group := { g_leader : string; g_members : list Member }.

Definition regroup (f : list Member -> list Member) (g : Group) : Group :=
  {| g_leader := g_leader g; g_members := f (g_members g) |}.

#[local] Instance members_raft : Raft Group := {|
  raft_State r g := (g, if decide (r = g_leader g) then Leader else Follower);
  raft_LeaderWithID r g := (g, ("", if decide (r = "r1.s:8082") then "" else "r0.s:8082"));
  raft_Apply r d t g := (g, (None, [EvApply d]));
  raft_GetConfiguration r g := (g, Ok (map mb_Server (g_members g)));
  raft_RemoveServer r id g := (regroup (removed id) g, None);
  raft_AddVoter r id a g := (regroup (added id a) g, None);
  raft_DemoteVoter r id g := (regroup (demoted id) g, None);
  raft_AppliedIndex r g := (g, 0%Z);
  raft_LastIndex r g := (g, 0%Z);
  raft_LeadershipTransfer r g := ({| g_leader := "r0.s:8082"; g_members := g_members g |}, None);
  raft_Snapshot r b g := (g, Ok (Ok (1%Z, b)))
|}.

(** [r] is a member with a vote. *)
Definition led_by (r : string) (ms : list Member) : Prop :=
  exists x, x ∈ ms /\ mb_ID x = r /\ mb_Voter x = true.

Lemma led_removed r id ms : id <> r -> led_by r ms -> led_by r (removed id ms).
Proof.
  intros Hne (x & Hx & Hid & Hv). exists x. split; [|done]. apply list_elem_of_filter.
  split; [congruence|done].
Qed.

Lemma led_added r id address ms : id <> r -> led_by r ms -> led_by r (added id address ms).
Proof.
  intros Hne (x & Hx & Hid & Hv). exists x. split; [|done]. unfold added. case_decide.
  - apply list_elem_of_fmap. exists x. rewrite decide_False; [done|congruence].
  - apply elem_of_app. by left.
Qed.

Lemma led_demoted r id ms : id <> r -> led_by r ms -> led_by r (demoted id ms).
Proof.
  intros Hne (x & Hx & Hid & Hv). exists x. split; [|done].
  apply list_elem_of_fmap. exists x. rewrite decide_False; [done|congruence].
Qed.

#[local] Instance members_membership : Membership Group "r0.s:8082".
Proof.
  refine {| steady g := g_leader g = "r0.s:8082" /\ led_by "r0.s:8082" (g_members g);
            members := g_members |}.
  - intros e [Hl Hv]. exists e. simpl. rewrite Hl. by rewrite decide_True.
  - intros e He. by exists e.
  - by intros e [_ He].
  - intros id e [Hl Hv] Hne. eexists. split_and!; [done|done| |done]. by apply led_removed.
  - intros id address e [Hl Hv] Hne _. eexists. split_and!; [done|done| |done]. by apply led_added.
  - intros id e [Hl Hv] Hne. eexists. split_and!; [done|done| |done]. by apply led_demoted.
Defined.

(** The second replica of a shard has moved to the address that a third one had. *)
Definition ex_voter (id address : string) : Member :=
  {| mb_Server := {| srv_ID := id; srv_Address := address |}; mb_Voter := true |}.
Definition ex_members : list Member :=
  [ex_voter "r0.s:8082" "10.0.0.1:8082"; ex_voter "r1.s:8082" "10.0.0.2:8082";
   ex_voter "r2.s:8082" "10.0.0.3:8082"].

Definition ex_led (ms : list Member) : Group := {| g_leader := "r0.s:8082"; g_members := ms |}.

Lemma ex_distinct : distinct ex_members.
Proof. split; by apply (bool_decide_unpack _); vm_compute. Qed.

Lemma ex_steady : steady (ex_led ex_members).
Proof. split; [done|]. exists (ex_voter "r0.s:8082" "10.0.0.1:8082"). split; [left|done]. Qed.

Lemma ex_spares id address :
  id <> "r0.s:8082" -> address <> "10.0.0.1:8082" -> spares "r0.s:8082" id address ex_members.
Proof.
  intros Hid Ha x Hx Hr Hc. exfalso.
  repeat (apply elem_of_cons in Hx as [->|Hx]; [by destruct Hc; simpl in *; congruence|]).
  by apply elem_of_nil in Hx.
Qed.

Lemma ex_Join_replaces :
  KVStore_Join "10.0.0.3" 8082 "s" "r1" (sim_mem "r0.s:8082" ∅, ex_led ex_members) =
    ((sim_mem "r0.s:8082" ∅, ex_led [ex_voter "r0.s:8082" "10.0.0.1:8082";
                              ex_voter "r1.s:8082" "10.0.0.3:8082"]), Ret None).
Proof.
  destruct (Join_replaces "r0.s:8082" "10.0.0.3" 8082 "s" "r1" (sim_mem "r0.s:8082" ∅)
    (ex_led ex_members)) as (e' & Hrun & [He _] & Hm & _);
    [reflexivity|exact ex_steady|exact ex_distinct|by apply ex_spares|].
  destruct e' as [l ms]. simpl in He, Hm. subst l ms. exact Hrun.
Defined.

Lemma rejoin_votes_iff_moved_witness :
  exists e', (KVStore_DemoteVoter "10.0.0.2" 8082 "s" "r1" ;;;
              KVStore_Join "10.0.0.2" 8082 "s" "r1") (sim_mem "r0.s:8082" ∅, ex_led ex_members) =
      ((sim_mem "r0.s:8082" ∅, e'), Ret None) /\
    exists y, y ∈ g_members e' /\ mb_ID y = "r1.s:8082" /\ mb_Voter y <> true.
Proof.
  destruct (rejoin_votes_iff_moved "r0.s:8082" "10.0.0.2" "10.0.0.2" 8082 "s" "r1"
    (sim_mem "r0.s:8082" ∅) (ex_led ex_members) (ex_voter "r1.s:8082" "10.0.0.2:8082"))
    as (e' & Hrun & y & Hy & Hid & _ & _ & Hv);
    [reflexivity|exact ex_steady|exact ex_distinct|right; left|reflexivity|done| |].
  - intros y Hy Hr Ha. change (y ∈ ex_members) in Hy.
    repeat (apply elem_of_cons in Hy as [->|Hy]; [by vm_compute in Hr, Ha|]).
    by apply elem_of_nil in Hy.
  - exists e'. split; [exact Hrun|]. exists y. split; [exact Hy|]. split; [exact Hid|].
    intros Ht. apply Hv in Ht. apply Ht. reflexivity.
Defined.
