(* ===== verification/Shard.v ===== *)
(** * The replica process: src/cmd/shard/shard.go

    A [World] holds every replica process of a deployment. A process is the
    record of the package variables of shard.go and the memory of its store. A
    handler runs at one process, [self]; a call on a gRPC client is routed by
    the environment to a process, at which the handler of the same name runs
    (GrpcProps shows that client stubs and service tables fit together). *)

From Stdlib Require QArith_base.
From S2P Require Import Prelude Protos RaftCommon KVStore.

(** ** Configuration file *)

Record KVStoreShard := { ks_Name : string; ks_Replicas : list string }.

Record KVStoreConfig := {
  kc_Shards : list KVStoreShard;
  kc_NewShards : list KVStoreShard
}.

#[export] Instance KVStoreShard_eq_dec : EqDecision KVStoreShard.
Proof. solve_decision. Defined.
#[export] Instance KVStoreConfig_eq_dec : EqDecision KVStoreConfig.
Proof. solve_decision. Defined.

(** ** Libraries *)

(** buraksezer/consistent and cespare/xxhash. [consistent_New] may panic
    ([None]); [LocateKey] may yield a [nil] member ([None]). *)
Record ConsistentConfig := {
  cc_PartitionCount : Z;
  cc_ReplicationFactor : Z;
  cc_Load : QArith_base.Q;
  cc_Hasher : string -> Z
}.

Class ConsistentHash := {
  ring : Type;
  zero_ring : ring;  (** [consistent.Consistent{}] *)
  DefaultPartitionCount : Z;
  DefaultReplicationFactor : Z;
  DefaultLoad : QArith_base.Q;
  xxhash_Sum64 : string -> Z;
  consistent_New : list string -> ConsistentConfig -> option ring;
  LocateKey : ring -> string -> option string
}.

(** What the documentation says: a key is located at one of the members. *)
Class ConsistentLaws `{!ConsistentHash} : Prop := {
  LocateKey_member : forall members cfg r key m,
    consistent_New members cfg = Some r -> LocateKey r key = Some m -> m ∈ members
}.

(** Where the network takes a request: nowhere, with the status the caller gets,
    or to a process; then the answer may still be lost on the way back. *)
Inductive route :=
| Unreachable (code desc : string)
| Reach (node : string) (lost : option (string * string)).

(** gRPC and the network. A connection is the address it was dialled with. *)
Class Net (E : Type) := {
  grpc_Dial : string -> E -> E * gerror;
  net_route : string -> E -> E * route;
  net_Listen : string -> string -> E -> E * gerror;
  (** Serving the named service at a process on an address. *)
  grpc_Serve : string -> string -> string -> E -> E * unit
}.

(** The operating system, the YAML library and Go's runtime. [range_order] is
    the order in which a [range] over a map with these keys visits keys. *)
Class OS (E : Type) := {
  os_ReadFile : string -> string -> E -> E * res string;
  os_Stat_IsNotExist : string -> string -> E -> E * bool;
  yaml_Unmarshal : string -> res KVStoreConfig;
  time_Sleep : Z -> E -> E * unit;
  range_order : list string -> E -> E * list string
}.

(** The Go specification on [range] over a map: every entry that is there from
    beginning to end is visited once, an entry that is added meanwhile may be
    visited, and an entry that has been removed is not (see [range_map]). *)
Class OSLaws (E : Type) `{!OS E} : Prop := {
  range_order_keys : forall keys e e' l,
    range_order keys e = (e', l) -> NoDup l /\ forall k, k ∈ keys -> k ∈ l
}.

(** ** Processes *)

Record Flags := {
  f_address : string;
  f_kvPort : Z;
  f_shardPort : Z;
  f_raftPort : Z;
  f_replicaPort : Z;
  f_shard : string;
  f_replica : string;
  f_folder : string;
  f_configFile : string;
  f_shouldBootstrap : bool
}.

(** The defaults that the flags are declared with. *)
Definition default_flags : Flags := {|
  f_address := "localhost";
  f_kvPort := 8080;
  f_shardPort := 8081;
  f_raftPort := 8082;
  f_replicaPort := 8083;
  f_shard := "shard-0";
  f_replica := "shard-0-replica-0";
  f_folder := "/data";
  f_configFile := "/etc/config/config.yaml";
  f_shouldBootstrap := false
|}.

(** Goroutines that a handler starts. *)
Inductive task :=
| Go_RedistributeKeys
| Go_PopulateShardClients (shards : list KVStoreShard)
| Go_PopulateReplicaClients (kvConfig : KVStoreConfig)
| Go_StartShardRPCServer
| Go_StartReplicaRPCServer
| Go_StartKVRPCServer.

Section shard.
Context `{!Proto, !ConsistentHash} {E : Type} `{!Raft E, !RaftSetup E, !Net E, !OS E}.

(** [hasher.Sum64] and [consistentHashCfg] *)
Definition hasher_Sum64 (data : string) : Z := xxhash_Sum64 data.
Definition consistentHashCfg : ConsistentConfig := {|
  cc_PartitionCount := DefaultPartitionCount;
  cc_ReplicationFactor := DefaultReplicationFactor;
  cc_Load := DefaultLoad;
  cc_Hasher := hasher_Sum64
|}.

(** The package variables of shard.go. [p_crashed] says that the process has
    stopped; what it has stored is kept, as its log and snapshots are on disk. *)
Record Proc := {
  p_flags : Flags;
  p_ch : ring;
  p_shardClients : gmap string string;
  p_replicaClients : gmap string string;
  p_mem : Mem;
  p_isRestart : bool;
  p_redistributingKeys : bool;
  p_crashed : bool
}.

Record World := {
  w_procs : gmap string Proc;
  w_env : E;
  w_go : list (string * task)
}.

Definition set_p_ch (c : ring) (p : Proc) : Proc :=
  {| p_flags := p_flags p; p_ch := c; p_shardClients := p_shardClients p;
     p_replicaClients := p_replicaClients p; p_mem := p_mem p;
     p_isRestart := p_isRestart p;
     p_redistributingKeys := p_redistributingKeys p; p_crashed := p_crashed p |}.
Definition set_p_shardClients (c : gmap string string) (p : Proc) : Proc :=
  {| p_flags := p_flags p; p_ch := p_ch p; p_shardClients := c;
     p_replicaClients := p_replicaClients p; p_mem := p_mem p;
     p_isRestart := p_isRestart p;
     p_redistributingKeys := p_redistributingKeys p; p_crashed := p_crashed p |}.
Definition set_p_replicaClients (c : gmap string string) (p : Proc) : Proc :=
  {| p_flags := p_flags p; p_ch := p_ch p; p_shardClients := p_shardClients p;
     p_replicaClients := c; p_mem := p_mem p; p_isRestart := p_isRestart p;
     p_redistributingKeys := p_redistributingKeys p; p_crashed := p_crashed p |}.
Definition set_p_mem (m : Mem) (p : Proc) : Proc :=
  {| p_flags := p_flags p; p_ch := p_ch p; p_shardClients := p_shardClients p;
     p_replicaClients := p_replicaClients p; p_mem := m; p_isRestart := p_isRestart p;
     p_redistributingKeys := p_redistributingKeys p; p_crashed := p_crashed p |}.
Definition set_p_isRestart (b : bool) (p : Proc) : Proc :=
  {| p_flags := p_flags p; p_ch := p_ch p; p_shardClients := p_shardClients p;
     p_replicaClients := p_replicaClients p; p_mem := p_mem p; p_isRestart := b;
     p_redistributingKeys := p_redistributingKeys p; p_crashed := p_crashed p |}.
Definition set_p_redistributingKeys (b : bool) (p : Proc) : Proc :=
  {| p_flags := p_flags p; p_ch := p_ch p; p_shardClients := p_shardClients p;
     p_replicaClients := p_replicaClients p; p_mem := p_mem p;
     p_isRestart := p_isRestart p; p_redistributingKeys := b; p_crashed := p_crashed p |}.
Definition set_p_crashed (b : bool) (p : Proc) : Proc :=
  {| p_flags := p_flags p; p_ch := p_ch p; p_shardClients := p_shardClients p;
     p_replicaClients := p_replicaClients p; p_mem := p_mem p;
     p_isRestart := p_isRestart p;
     p_redistributingKeys := p_redistributingKeys p; p_crashed := b |}.

(** ** Running code at a process *)

Definition upd_world (self : string) (f : Proc -> Proc) (w : World) : World :=
  {| w_procs := alter f self (w_procs w); w_env := w_env w; w_go := w_go w |}.

Definition upd_proc (self : string) (f : Proc -> Proc) : M World unit :=
  modify (upd_world self f).

(** Reading the package variables; a stopped process executes nothing. *)
Definition proc (self : string) : M World Proc := fun w =>
  match w_procs w !! self with
  | Some p => if p_crashed p then (w, Crash "process has stopped") else (w, Ret p)
  | None => (w, Crash "no such process")
  end.

Definition spawn (self : string) (t : task) : M World unit :=
  modify (fun w => {| w_procs := w_procs w; w_env := w_env w;
                      w_go := w_go w ++ [(self, t)] |}).

Definition envc {A} (f : E -> E * A) : M World A := fun w =>
  let (e', a) := f (w_env w) in
  ({| w_procs := w_procs w; w_env := e'; w_go := w_go w |}, Ret a).

(** A method of the process's [kvStore]. *)
Definition kv {A} (self : string) (op : M (Mem * E) A) : M World A :=
  p <- proc self ;;
  fun w =>
    match op (p_mem p, w_env w) with
    | ((m', e'), o) =>
        ({| w_procs := <[self := set_p_mem m' p]> (w_procs w);
            w_env := e'; w_go := w_go w |}, o)
    end.

(** What a client receives for an error that a handler returned: a status error
    passes unchanged, any other error becomes status Unknown with its text. *)
Definition to_status {A} (r : res A) : res A :=
  match r with
  | Ok a => Ok a
  | Err (StatusErr c d) => Err (StatusErr c d)
  | Err e => Err (StatusErr "Unknown" (Error e))
  end.

Definition alive (w : World) (node : string) : bool :=
  match w_procs w !! node with
  | Some p => negb (p_crashed p)
  | None => false
  end.

(** A unary RPC on the connection [target]: the handler runs at the process that
    the request reaches. A handler that panics takes its process down. *)
Definition rpc {A} (target : string) (handler : string -> M World (res A))
    : M World (res A) :=
  r <- envc (net_route target) ;;
  match r with
  | Unreachable code desc => ret (Err (StatusErr code desc))
  | Reach node lost =>
      w <- get ;;
      if alive w node then
        fun w =>
          match handler node w with
          | (w', Ret a) =>
              (w', Ret (match lost with
                        | Some (code, desc) => Err (StatusErr code desc)
                        | None => to_status a
                        end))
          | (w', Crash _) =>
              (upd_world node (set_p_crashed true) w',
               Ret (Err (StatusErr "Unavailable" "error reading from server: EOF")))
          | (w', Hang) => (w', Hang)
          end
      else ret (Err (StatusErr "Unavailable" "connection refused"))
  end.

(** Calling a method on the client stored under [key] of a map of clients; the
    zero value of an absent client is [nil], on which a call panics. *)
Definition with_client {A} (clients : gmap string string) (key : string)
    (call : string -> M World A) : M World A :=
  match clients !! key with
  | Some target => call target
  | None => crash "invalid memory address or nil pointer dereference"
  end.

(** [ch.LocateKey([]byte(key)).String()]; a [nil] member panics. *)
Definition locate (c : ring) (key : string) : M World string :=
  match LocateKey c key with
  | Some member => ret member
  | None => crash "invalid memory address or nil pointer dereference"
  end.

(** [consistent.New(members, consistentHashCfg)] on the names of the shards *)
Definition new_ring (shards : list KVStoreShard) : M World ring :=
  match consistent_New (map ks_Name shards) consistentHashCfg with
  | Some r => ret r
  | None => crash "not enough room to distribute partitions"
  end.

(** [for k := range m] over a map that the body may change: the keys in the
    order the runtime picks, each visited if it is in the map by then. *)
Definition range_map {S} (keys : World -> list string) (present : World -> string -> bool)
    (acc : S) (body : S -> string -> M World S) : M World S :=
  w <- get ;;
  order <- envc (range_order (keys w)) ;;
  for_acc order acc (fun acc k =>
    w <- get ;;
    if present w k then body acc k else ret acc).

(** The entries of the map [r] in the heap of a process. *)
Definition proc_entries (self : string) (r : mapref) (w : World) : gmap string string :=
  match w_procs w !! self with
  | Some p => map_entries (m_heap (p_mem p)) r
  | None => ∅
  end.

(** [for key := range kvStore.Keys()] *)
Definition range_keys {S} (self : string) (acc : S) (body : S -> string -> M World S)
    : M World S :=
  r <- kv self KVStore_Keys ;;
  range_map (fun w => (map_to_list (proc_entries self r w)).*1)
    (fun w k => bool_decide (is_Some (proc_entries self r w !! k))) acc body.

Definition proc_replicaClients (self : string) (w : World) : gmap string string :=
  match w_procs w !! self with Some p => p_replicaClients p | None => ∅ end.

(** [for replica, replicaClient := range replicaClients] *)
Definition range_replicaClients {S} (self : string) (acc : S)
    (body : S -> string -> M World S) : M World S :=
  range_map (fun w => (map_to_list (proc_replicaClients self w)).*1)
    (fun w k => bool_decide (is_Some (proc_replicaClients self w !! k))) acc body.

(** ** Configuration *)

(** A configuration that cannot be read or parsed ends the process. *)
Definition ReadConfig (self : string) : M World KVStoreConfig :=
  p <- proc self ;;
  let configFile := f_configFile (p_flags p) in
  buf <- envc (os_ReadFile self configFile) ;;
  match buf with
  | Err _ => crash ("Unable to read config file at " +:+ configFile)
  | Ok buf =>
      match yaml_Unmarshal buf with
      | Err _ => crash ("Unable to parse config file at " +:+ configFile)
      | Ok kvConfig => ret kvConfig
      end
  end.

(** The bound on the number of rounds of a retry loop. *)
Context (fuel : nat).

Definition PopulateShardClients (self : string) (shards : list KVStoreShard)
    : M World unit :=
  for_each shards (fun destinationShard =>
    loop fuel (
      p <- proc self ;;
      if decide (is_Some (p_shardClients p !! ks_Name destinationShard)) then ret (Some tt)
      else
        let target := host_addr (ks_Name destinationShard) (f_shardPort (p_flags p)) in
        err <- envc (grpc_Dial target) ;;
        match err with
        | Some _ => envc (time_Sleep 1) ;;; ret None
        | None =>
            upd_proc self (fun p => set_p_shardClients
              (<[ks_Name destinationShard := target]> (p_shardClients p)) p) ;;;
            ret (Some tt)
        end)).

Definition ReloadConfig (self : string) : M World bool :=
  kvConfig <- ReadConfig self ;;
  if decide (length (kc_NewShards kvConfig) <> 0%nat) then ret false
  else
    c <- new_ring (kc_Shards kvConfig) ;;
    upd_proc self (set_p_ch c) ;;;
    PopulateShardClients self (kc_Shards kvConfig) ;;;
    ret true.

(** ** ReplicaRPC: calls between the replicas of a shard *)

Definition replicaRpcServer_Put (self : string) (i : InternalPutRequest)
    : M World (res PutResponse) :=
  blocked <- (if ip_IsRedistribution i then ret false
              else enabled <- kv self KVStore_GetWritesEnabled ;; ret (negb enabled)) ;;
  if (blocked : bool) then ret (Err ErrWritesDisabled)
  else
    err <- kv self (KVStore_Set (ip_Key i) (ip_Value i)) ;;
    match err with
    | Some err => ret (Err err)
    | None => ret (Ok mkPutResponse)
    end.

Definition replicaRpcServer_Delete (self : string) (i : DeleteRequest)
    : M World (res DeleteResponse) :=
  err <- kv self (KVStore_Delete (del_Key i)) ;;
  match err with
  | Some err => ret (Err err)
  | None => ret (Ok mkDeleteResponse)
  end.

Definition replicaRpcServer_PauseWrites (self : string) (i : PauseWritesRequest)
    : M World (res PauseWritesResponse) :=
  kvConfig <- ReadConfig self ;;
  if decide (length (kc_NewShards kvConfig) = 0%nat) then
    ret (Ok {| pw_IsPaused := false |})
  else
    err <- kv self (KVStore_SetWritesEnabled false) ;;
    match err with
    | Some err => ret (Err err)
    | None => ret (Ok {| pw_IsPaused := true |})
    end.

Definition replicaRpcServer_ReloadConfig (self : string) (i : ReloadConfigRequest)
    : M World (res ReloadConfigResponse) :=
  reloadSuccessful <- ReloadConfig self ;;
  ret (Ok {| rc_ReloadSuccessful := reloadSuccessful |}).

Definition replicaRpcServer_Join (self : string) (i : JoinRequest)
    : M World (res JoinResponse) :=
  p <- proc self ;;
  err <- kv self (KVStore_Join (jn_Address i) (f_raftPort (p_flags p))
                    (f_shard (p_flags p)) (jn_Replica i)) ;;
  match err with
  | Some err => ret (Err err)
  | None => ret (Ok mkJoinResponse)
  end.

Definition replicaRpcServer_Leader (self : string) (i : LeaderRequest)
    : M World (res LeaderResponse) :=
  leader <- kv self KVStore_Leader ;;
  if decide (leader = "") then ret (Err (Errorf "no leader found"))
  else ret (Ok {| ld_Leader := leader |}).

Definition replicaRpcServer_DemoteVoter (self : string) (i : DemoteVoterRequest)
    : M World (res DemoteVoterResponse) :=
  p <- proc self ;;
  err <- kv self (KVStore_DemoteVoter (dv_Address i) (f_raftPort (p_flags p))
                    (f_shard (p_flags p)) (dv_Replica i)) ;;
  match err with
  | Some err => ret (Err err)
  | None => ret (Ok mkDemoteVoterResponse)
  end.

(** The loop over [replicaClients] leaves the function at the first replica that
    cannot be asked; otherwise it notes whether one has not reloaded yet. *)
Definition replicaRpcServer_ResumeWrites (self : string) (i : ResumeWritesRequest)
    : M World (res ResumeWritesResponse) :=
  kvConfig <- ReadConfig self ;;
  if decide (length (kc_NewShards kvConfig) <> 0%nat) then
    ret (Ok {| rw_IsResumed := false |})
  else
    st <- range_replicaClients self (Ok true) (fun st replica =>
      match st with
      | Err e => ret (Err e)
      | Ok reloadSuccessful =>
          p <- proc self ;;
          with_client (p_replicaClients p) replica (fun target =>
            r <- rpc target (fun node =>
                   replicaRpcServer_ReloadConfig node mkReloadConfigRequest) ;;
            match r with
            | Err e => ret (Err e)
            | Ok resp =>
                ret (Ok (if rc_ReloadSuccessful resp then reloadSuccessful else false))
            end)
      end) ;;
    match st with
    | Err _ => ret (Ok {| rw_IsResumed := false |})
    | Ok reloadSuccessful =>
        if reloadSuccessful then
          err <- kv self (KVStore_SetWritesEnabled true) ;;
          match err with
          | Some err => ret (Err err)
          | None => ret (Ok {| rw_IsResumed := true |})
          end
        else ret (Ok {| rw_IsResumed := reloadSuccessful |})
    end.

(** [oldLocation != newLocation && oldLocation == *shard] *)
Definition must_move (self_shard oldLocation newLocation : string) : bool :=
  bool_decide (oldLocation <> newLocation) && bool_decide (oldLocation = self_shard).

Definition replicaRpcServer_RedistributeKeys (self : string) (i : RedistributeKeysRequest)
    : M World (res RedistributeKeysResponse) :=
  spawn self Go_RedistributeKeys ;;;
  kvConfig <- ReadConfig self ;;
  newCh <- new_ring (kc_NewShards kvConfig) ;;
  pendingKeys <- range_keys self 0%Z (fun pendingKeys key =>
    p <- proc self ;;
    oldLocation <- locate (p_ch p) key ;;
    newLocation <- locate newCh key ;;
    if must_move (f_shard (p_flags p)) oldLocation newLocation
    then ret (pendingKeys + 1)%Z else ret pendingKeys) ;;
  ret (Ok {| rk_PendingKeys := int32 pendingKeys |}).

(** ** ShardRPC: calls between shards and from the controller *)

(** A call on the client of the leader, if there is one. *)
Definition at_leader {A} (self : string) (call : string -> M World (res A))
    : M World (res A) :=
  leader <- kv self KVStore_Leader ;;
  if decide (leader = "") then ret (Err (Errorf "no leader found"))
  else
    p <- proc self ;;
    with_client (p_replicaClients p) leader call.

Definition shardRpcServer_Get (self : string) (i : GetRequest)
    : M World (res GetResponse) :=
  r <- kv self (KVStore_Get (get_Key i)) ;;
  match r with
  | Err err => ret (Err err)
  | Ok value => ret (Ok {| get_Value := value |})
  end.

Definition shardRpcServer_Put (self : string) (i : InternalPutRequest)
    : M World (res PutResponse) :=
  err <- kv self (KVStore_Set (ip_Key i) (ip_Value i)) ;;
  match err with
  | Some ErrNotLeader =>
      at_leader self (fun target => rpc target (fun node => replicaRpcServer_Put node i))
  | Some err => ret (Err err)
  | None => ret (Ok mkPutResponse)
  end.

Definition shardRpcServer_Delete (self : string) (i : DeleteRequest)
    : M World (res DeleteResponse) :=
  err <- kv self (KVStore_Delete (del_Key i)) ;;
  match err with
  | Some ErrNotLeader =>
      at_leader self (fun target => rpc target (fun node => replicaRpcServer_Delete node i))
  | Some err => ret (Err err)
  | None => ret (Ok mkDeleteResponse)
  end.

Definition shardRpcServer_PauseWrites (self : string) (i : PauseWritesRequest)
    : M World (res PauseWritesResponse) :=
  at_leader self (fun target => rpc target (fun node => replicaRpcServer_PauseWrites node i)).

Definition shardRpcServer_RedistributeKeys (self : string) (i : RedistributeKeysRequest)
    : M World (res RedistributeKeysResponse) :=
  at_leader self (fun target =>
    rpc target (fun node => replicaRpcServer_RedistributeKeys node i)).

(** Every replica is asked to reload; only the answer of the leader counts. *)
Definition shardRpcServer_ResumeWrites (self : string) (i : ResumeWritesRequest)
    : M World (res ResumeWritesResponse) :=
  leader <- kv self KVStore_Leader ;;
  if decide (leader = "") then ret (Err (Errorf "no leader found"))
  else
    range_replicaClients self tt (fun _ replica =>
      p <- proc self ;;
      with_client (p_replicaClients p) replica (fun target =>
        rpc target (fun node => replicaRpcServer_ReloadConfig node mkReloadConfigRequest) ;;;
        ret tt)) ;;;
    p <- proc self ;;
    with_client (p_replicaClients p) leader (fun target =>
      rpc target (fun node => replicaRpcServer_ResumeWrites node i)).

(** ** Redistribution of keys *)

(** One round of the loop in [RedistributeKeys]. *)
Definition relocate_key (self : string) (newCh : ring) (key : string) : M World unit :=
  p <- proc self ;;
  oldLocation <- locate (p_ch p) key ;;
  newLocation <- locate newCh key ;;
  if decide (oldLocation <> newLocation) then
    if decide (oldLocation = f_shard (p_flags p)) then
      r <- kv self (KVStore_Get key) ;;
      match r with
      | Err _ => ret tt
      | Ok value =>
          p <- proc self ;;
          with_client (p_shardClients p) newLocation (fun target =>
            r <- rpc target (fun node => shardRpcServer_Put node
                   {| ip_Key := key; ip_Value := value; ip_IsRedistribution := true |}) ;;
            match r with
            | Err _ => ret tt
            | Ok _ => kv self (KVStore_Delete key) ;;; ret tt
            end)
      end
    else ret tt
  else ret tt.

(** The flag admits one run at a time. The mutex is held around single statements of the
    guard only; RedistributeGuard takes these apart. *)
Definition RedistributeKeys (self : string) : M World unit :=
  p <- proc self ;;
  if p_redistributingKeys p then ret tt
  else
    upd_proc self (set_p_redistributingKeys true) ;;;
    deferred (upd_world self (set_p_redistributingKeys false)) (
      kvConfig <- ReadConfig self ;;
      if decide (length (kc_NewShards kvConfig) = 0%nat) then ret tt
      else
        PopulateShardClients self (kc_NewShards kvConfig) ;;;
        newCh <- new_ring (kc_NewShards kvConfig) ;;
        range_keys self tt (fun _ key => relocate_key self newCh key)).

(** ** KV: calls from clients *)

Definition kvServer_Get (self : string) (i : GetRequest) : M World (res GetResponse) :=
  p <- proc self ;;
  member <- locate (p_ch p) (get_Key i) ;;
  with_client (p_shardClients p) member (fun target =>
    rpc target (fun node => shardRpcServer_Get node {| get_Key := get_Key i |})).

Definition kvServer_Put (self : string) (i : PutRequest) : M World (res PutResponse) :=
  p <- proc self ;;
  member <- locate (p_ch p) (put_Key i) ;;
  with_client (p_shardClients p) member (fun target =>
    rpc target (fun node => shardRpcServer_Put node
      {| ip_Key := put_Key i; ip_Value := put_Value i; ip_IsRedistribution := false |})).

Definition kvServer_Delete (self : string) (i : DeleteRequest)
    : M World (res DeleteResponse) :=
  p <- proc self ;;
  member <- locate (p_ch p) (del_Key i) ;;
  with_client (p_shardClients p) member (fun target =>
    rpc target (fun node => shardRpcServer_Delete node {| del_Key := del_Key i |})).

(** ** Start and shutdown *)

(** The client of a replica is stored under its Raft ID and dialled at its
    replica port. *)
Definition replica_client_key (p : Proc) (destinationReplica : string) : string :=
  replica_addr destinationReplica (f_shard (p_flags p)) (f_raftPort (p_flags p)).

Definition JoinCluster (self : string) (replicas : list string) : M World unit :=
  leader <- kv self KVStore_Leader ;;
  leader <- (if decide (leader <> "") then ret leader
             else loop fuel (
               for_return replicas (fun destinationReplica =>
                 p <- proc self ;;
                 with_client (p_replicaClients p) (replica_client_key p destinationReplica)
                   (fun target =>
                   resp <- rpc target (fun node =>
                             replicaRpcServer_Leader node mkLeaderRequest) ;;
                   match resp with
                   | Err _ => envc (time_Sleep 1) ;;; ret None
                   | Ok resp =>
                       if decide (ld_Leader resp <> "") then ret (Some (ld_Leader resp))
                       else ret None
                   end)))) ;;
  loop fuel (
    latest <- kv self KVStore_HasLatestLogs ;;
    if (latest : bool) then ret (Some tt)
    else envc (time_Sleep 1) ;;; ret None) ;;;
  p <- proc self ;;
  with_client (p_replicaClients p) leader (fun target =>
    rpc target (fun node => replicaRpcServer_Join node
      {| jn_Replica := f_replica (p_flags p); jn_Address := f_address (p_flags p) |}) ;;;
    ret tt).

(** The replicas of the process's own shard, from both lists of shards. *)
Definition own_replicas (shard : string) (kvConfig : KVStoreConfig) : list string :=
  concat (map ks_Replicas
    (filter (fun s => ks_Name s = shard) (kc_Shards kvConfig ++ kc_NewShards kvConfig))).

Definition PopulateReplicaClients (self : string) (kvConfig : KVStoreConfig)
    : M World unit :=
  p <- proc self ;;
  let replicas := own_replicas (f_shard (p_flags p)) kvConfig in
  for_each replicas (fun destinationReplica =>
    loop fuel (
      p <- proc self ;;
      if decide (is_Some (p_replicaClients p !! replica_client_key p destinationReplica))
      then ret (Some tt)
      else
        let target := replica_addr destinationReplica (f_shard (p_flags p))
                        (f_replicaPort (p_flags p)) in
        err <- envc (grpc_Dial target) ;;
        match err with
        | Some _ => envc (time_Sleep 1) ;;; ret None
        | None =>
            upd_proc self (fun p => set_p_replicaClients
              (<[replica_client_key p destinationReplica := target]>
                 (p_replicaClients p)) p) ;;;
            ret (Some tt)
        end)) ;;;
  JoinCluster self replicas.

(** Listening on a port and serving a service there. *)
Definition serve_on (self : string) (port : Flags -> Z) (service : string) : M World unit :=
  p <- proc self ;;
  let addr := host_addr "" (port (p_flags p)) in
  err <- envc (net_Listen self addr) ;;
  match err with
  | Some err => crash (Error err)
  | None => envc (grpc_Serve self addr service)
  end.

Definition StartShardRPCServer (self : string) : M World unit :=
  serve_on self f_shardPort "protos.ShardRPC".
Definition StartReplicaRPCServer (self : string) : M World unit :=
  serve_on self f_replicaPort "protos.ReplicaRPC".
Definition StartKVRPCServer (self : string) : M World unit :=
  serve_on self f_kvPort "protos.KV".

(** The body of a goroutine. *)
Definition run_task (self : string) (t : task) : M World unit :=
  match t with
  | Go_RedistributeKeys => RedistributeKeys self
  | Go_PopulateShardClients shards => PopulateShardClients self shards
  | Go_PopulateReplicaClients kvConfig => PopulateReplicaClients self kvConfig
  | Go_StartShardRPCServer => StartShardRPCServer self
  | Go_StartReplicaRPCServer => StartReplicaRPCServer self
  | Go_StartKVRPCServer => StartKVRPCServer self
  end.

(** The package variables when [main] starts, with the flags parsed. *)
Definition initial_proc (flags : Flags) : Proc := {|
  p_flags := flags;
  p_ch := zero_ring;
  p_shardClients := ∅;
  p_replicaClients := ∅;
  p_mem := {| m_heap := ∅; m_kv := zero_KVStore; m_fsm := zero_KVStore |};
  p_isRestart := false;
  p_redistributingKeys := false;
  p_crashed := false
|}.

(** [main] up to the wait for a signal. *)
Definition main_start (self : string) (flags : Flags) : M World unit :=
  modify (fun w => {| w_procs := <[self := initial_proc flags]> (w_procs w);
                      w_env := w_env w; w_go := w_go w |}) ;;;
  kvConfig <- ReadConfig self ;;
  missing <- envc (os_Stat_IsNotExist self (path_Join (f_folder flags) "bolt")) ;;
  upd_proc self (set_p_isRestart (negb missing)) ;;;
  c <- new_ring (kc_Shards kvConfig) ;;
  upd_proc self (set_p_ch c) ;;;
  upd_proc self (set_p_mem NewKVStore) ;;;
  p <- proc self ;;
  err <- kv self (KVStore_Open (f_folder flags) (f_address flags) (f_raftPort flags)
           (f_shard flags) (f_replica flags)
           (negb (p_isRestart p) && f_shouldBootstrap flags)) ;;
  match err with
  | Some err => crash (Error err)
  | None =>
      spawn self (Go_PopulateShardClients (kc_Shards kvConfig ++ kc_NewShards kvConfig)) ;;;
      spawn self (Go_PopulateReplicaClients kvConfig) ;;;
      spawn self Go_StartShardRPCServer ;;;
      spawn self Go_StartReplicaRPCServer ;;;
      spawn self Go_StartKVRPCServer
  end.

(** [main] from the signal on; errors are only logged. *)
Definition main_shutdown (self : string) : M World unit :=
  kv self KVStore_Close ;;;
  leader <- kv self KVStore_Leader ;;
  (if decide (leader = "") then ret tt
   else
     p <- proc self ;;
     with_client (p_replicaClients p) leader (fun target =>
       rpc target (fun node => replicaRpcServer_DemoteVoter node
         {| dv_Replica := f_replica (p_flags p); dv_Address := f_address (p_flags p) |}) ;;;
       ret tt)) ;;;
  envc (time_Sleep 10).

End shard.

Arguments World {_} E.
