(* ===== verification/ShardWorld.v ===== *)
(** * How handlers change a world

    The frame reasoning shared by the theorems on the handlers of shard.go. A
    world is in good order ([world_inv]) when every process has opened its store
    and serves reads from the map its FSM writes to, and when the clients of a
    process are dialled at the addresses of the shards and replicas they stand
    for. [evolves R w w'] says that from [w] to [w'] only the stores and the
    clients of processes changed, and the store of process [n] from [s] to [s']
    with [R n s s']. *)

From Stdlib Require Import Ascii.
From S2P Require Import Prelude Protos RaftCommon KVStore KVStoreSpec Shard.

(** ** Names *)

(** A DNS label has neither a dot nor a colon. *)
Definition is_label (s : string) : bool :=
  forallb (fun c => negb (Ascii.eqb c ".") && negb (Ascii.eqb c ":"))%char
    (String.list_ascii_of_string s).

(** Kubernetes resolves the name of a headless service to the pods of its shard,
    and the name of a pod under the service of a shard to that pod. *)
Class Topology (E : Type) `{!Net E} := {
  node_shard : string -> string;
  route_service : forall s port e e' node lost,
    is_label s = true ->
    net_route (host_addr s port) e = (e', Reach node lost) -> node_shard node = s;
  route_pod : forall r n port e e' node lost,
    is_label r = true -> is_label (node_shard n) = true ->
    net_route (replica_addr r (node_shard n) port) e = (e', Reach node lost) ->
    node_shard node = node_shard n
}.

(** A text that some process reads from a file at some time. *)
Definition read_text (E : Type) `{!OS E} (buf : string) : Prop :=
  exists (n f : string) (e e' : E), os_ReadFile n f e = (e', Ok buf).

(** The shards of a configuration that is mounted have labels as names, and so have
    their replicas. Nothing is assumed of texts that no process reads; what the
    controller writes into the file has such names ([ConfigNames.v]). *)
Class ConfigLabels (E : Type) `{!OS E} : Prop := {
  config_labels : forall buf c s, read_text E buf ->
    yaml_Unmarshal buf = Ok c -> s ∈ kc_Shards c ++ kc_NewShards c ->
    is_label (ks_Name s) = true;
  config_replica_labels : forall buf c s, read_text E buf ->
    yaml_Unmarshal buf = Ok c -> s ∈ kc_Shards c ++ kc_NewShards c ->
    Forall (fun r => is_label r = true) (ks_Replicas s)
}.

Section world.
Context `{!Proto, !ConsistentHash} {E : Type} `{!Raft E, !RaftSetup E, !Net E, !OS E}.
Context `{!Topology E}.
Implicit Types (w : World E) (p : Proc).

Lemma envc_read_text self f w w' buf :
  envc (os_ReadFile self f) w = (w', Ret (Ok buf)) -> read_text E buf.
Proof.
  unfold envc. destruct (os_ReadFile self f (w_env w)) as [e' r] eqn:Hread.
  intros [= <- ->]. by repeat eexists.
Qed.

Definition clients_ok (n : string) (p : Proc) : Prop :=
  f_shard (p_flags p) = node_shard n /\
  (forall name t, p_shardClients p !! name = Some t ->
     is_label name = true /\ exists port, t = host_addr name port) /\
  (forall key t, p_replicaClients p !! key = Some t ->
     exists r port, is_label r = true /\ is_label (f_shard (p_flags p)) = true /\
       t = replica_addr r (f_shard (p_flags p)) port).

Definition store_ok (p : Proc) : Prop :=
  (exists s, node_ok (p_mem p) s) /\ is_Some (k_raft (m_kv (p_mem p))).

Definition world_inv (w : World E) : Prop :=
  forall n p, w_procs w !! n = Some p -> clients_ok n p /\ store_ok p.

(** The abstract store of a process. *)
Definition holds (w : World E) (n : string) (s : KVSpec) : Prop :=
  exists p, w_procs w !! n = Some p /\ node_ok (p_mem p) s.

(** Process [n] serves value [v] for key [k]. *)
Definition stored (w : World E) (n k v : string) : Prop :=
  exists s, holds w n s /\ sp_map s !! k = Some v.

Definition proc_evolves (R : KVSpec -> KVSpec -> Prop) (p p' : Proc) : Prop :=
  p_flags p' = p_flags p /\ p_ch p' = p_ch p /\
  p_replicaClients p' = p_replicaClients p /\
  p_shardClients p ⊆ p_shardClients p' /\
  (forall name t, p_shardClients p' !! name = Some t ->
     p_shardClients p !! name = Some t \/
     (is_label name = true /\ exists port, t = host_addr name port)) /\
  k_raft (m_kv (p_mem p')) = k_raft (m_kv (p_mem p)) /\
  (forall s, node_ok (p_mem p) s -> exists s', node_ok (p_mem p') s' /\ R s s').

Definition evolves (R : string -> KVSpec -> KVSpec -> Prop) (w w' : World E) : Prop :=
  forall n, match w_procs w !! n, w_procs w' !! n with
  | Some p, Some p' => proc_evolves (R n) p p'
  | None, None => True
  | _, _ => False
  end.

(** ** Basic facts *)

Lemma node_ok_fun m s s' : node_ok m s -> node_ok m s' -> s = s'.
Proof.
  intros ((l & Hl & Hh & Hw & _) & _) ((l' & Hl' & Hh' & Hw' & _) & _).
  destruct s, s'; simpl in *. congruence.
Qed.

(** What the store of a process in order holds. *)
Lemma node_ok_entries m s : node_ok m s -> map_entries (m_heap m) (k_store (m_kv m)) = sp_map s.
Proof. intros ((l & Hl & Hh & _) & Hst & _). rewrite Hst, Hl. simpl. by rewrite Hh. Qed.

Lemma holds_fun w n s s' : holds w n s -> holds w n s' -> s = s'.
Proof. intros (p & Hp & Hs) (p' & Hp' & Hs'). simplify_eq. by eapply node_ok_fun. Qed.

Lemma proc_evolves_refl (R : KVSpec -> KVSpec -> Prop) p :
  (forall s, R s s) -> proc_evolves R p p.
Proof. intros HR. unfold proc_evolves. split_and!; eauto. Qed.

Lemma evolves_refl R w : (forall n s, R n s s) -> evolves R w w.
Proof.
  intros HR n. destruct (w_procs w !! n); [by apply proc_evolves_refl|done].
Qed.

Lemma proc_evolves_trans (R1 R2 R3 : KVSpec -> KVSpec -> Prop) p1 p2 p3 :
  (forall a b c, R1 a b -> R2 b c -> R3 a c) ->
  proc_evolves R1 p1 p2 -> proc_evolves R2 p2 p3 -> proc_evolves R3 p1 p3.
Proof.
  intros HR (Hf1 & Hc1 & Hr1 & Hsub1 & Hn1 & Hk1 & Hs1)
    (Hf2 & Hc2 & Hr2 & Hsub2 & Hn2 & Hk2 & Hs2).
  unfold proc_evolves. split_and!; try congruence.
  - by trans (p_shardClients p2).
  - intros name t Ht. destruct (Hn2 _ _ Ht); eauto.
  - intros s Hs. destruct (Hs1 _ Hs) as (s2 & Hs2' & ?).
    destruct (Hs2 _ Hs2') as (s3 & ? & ?). eauto.
Qed.

Lemma evolves_trans R1 R2 R3 w1 w2 w3 :
  (forall n a b c, R1 n a b -> R2 n b c -> R3 n a c) ->
  evolves R1 w1 w2 -> evolves R2 w2 w3 -> evolves R3 w1 w3.
Proof.
  intros HR H1 H2 n. specialize (H1 n). specialize (H2 n).
  destruct (w_procs w1 !! n), (w_procs w2 !! n), (w_procs w3 !! n); try done.
  by eapply proc_evolves_trans; eauto.
Qed.

Lemma evolves_weaken (R R' : string -> KVSpec -> KVSpec -> Prop) w w' :
  (forall n s s', R n s s' -> R' n s s') -> evolves R w w' -> evolves R' w w'.
Proof.
  intros HR Hw n. specialize (Hw n).
  destruct (w_procs w !! n), (w_procs w' !! n); try done.
  destruct Hw as (? & ? & ? & ? & ? & ? & Hs). split_and!; try done.
  intros s Hs'. destruct (Hs _ Hs') as (s' & ? & ?). eauto.
Qed.

Lemma evolves_proc R w w' n p :
  evolves R w w' -> w_procs w !! n = Some p ->
  exists p', w_procs w' !! n = Some p' /\ proc_evolves (R n) p p'.
Proof.
  intros Hw Hp. specialize (Hw n). rewrite Hp in Hw.
  destruct (w_procs w' !! n); [eauto|done].
Qed.

Lemma evolves_holds R w w' n s :
  evolves R w w' -> holds w n s -> exists s', holds w' n s' /\ R n s s'.
Proof.
  intros Hw (p & Hp & Hs). destruct (evolves_proc _ _ _ _ _ Hw Hp) as (p' & Hp' & Hev).
  destruct Hev as (? & ? & ? & ? & ? & ? & Hs'). destruct (Hs' _ Hs) as (s' & ? & ?).
  exists s'. split; [|done]. by exists p'.
Qed.

Lemma evolves_holds_inv R w w' n s' :
  world_inv w -> evolves R w w' -> holds w' n s' -> exists s, holds w n s /\ R n s s'.
Proof.
  intros Hinv Hev Hs'. destruct (Hs') as (p' & Hp' & Hok').
  pose proof (Hev n) as Hn. rewrite Hp' in Hn.
  destruct (w_procs w !! n) as [p|] eqn:Hp; [|done].
  destruct (Hinv _ _ Hp) as (_ & (s & Hs) & _).
  assert (Hh : holds w n s) by (by exists p).
  destruct (evolves_holds _ _ _ _ _ Hev Hh) as (s'' & Hs'' & HR).
  rewrite (holds_fun _ _ _ _ Hs' Hs''). eauto.
Qed.

Lemma evolves_inv R w w' : world_inv w -> evolves R w w' -> world_inv w'.
Proof.
  intros Hinv Hw n p' Hp'. specialize (Hw n). rewrite Hp' in Hw.
  destruct (w_procs w !! n) as [p|] eqn:Hp; [|done].
  destruct (Hinv n p Hp) as ((Hsh & Hsc & Hrc) & (s & Hs) & Hr).
  destruct Hw as (Hf & Hch & Hrep & Hsub & Hnew & Hraft & Hst).
  split.
  - split_and!.
    + by rewrite Hf.
    + intros name t Ht. destruct (Hnew _ _ Ht); eauto.
    + rewrite Hf, Hrep. eauto.
  - split.
    + destruct (Hst _ Hs) as (s' & ? & ?). eauto.
    + by rewrite Hraft.
Qed.

(** ** Building blocks of handlers *)

(** Changing the environment or the goroutines moves no process. *)
Lemma evolves_same_procs R w w' :
  (forall n s, R n s s) -> w_procs w' = w_procs w -> evolves R w w'.
Proof.
  intros HR Heq n. rewrite Heq. by apply (evolves_refl R w).
Qed.

Lemma envc_run {A} (f : E -> E * A) w w' o :
  envc f w = (w', o) -> w_procs w' = w_procs w /\ exists a, o = Ret a.
Proof. unfold envc. destruct (f (w_env w)). intros; simplify_eq. eauto. Qed.

Lemma proc_run self w w' (o : outcome Proc) :
  proc self w = (w', o) ->
  w' = w /\ (forall p, o = Ret p -> w_procs w !! self = Some p /\ p_crashed p = false).
Proof.
  unfold proc. destruct (w_procs w !! self) as [p|]; [destruct (p_crashed p) eqn:?|];
    intros; simplify_eq; split; naive_solver.
Qed.

(** Stopping a process does not touch its store. *)
Lemma evolves_crashed R w n :
  (forall n s, R n s s) -> evolves R w (upd_world n (set_p_crashed true) w).
Proof.
  intros HR n'. unfold upd_world; simpl.
  destruct (w_procs w !! n') as [p|] eqn:Hp.
  - destruct (decide (n = n')) as [<-|Hne].
    + rewrite lookup_alter_eq, Hp. simpl.
      unfold proc_evolves; simpl. split_and!; eauto.
    + rewrite lookup_alter_ne, Hp by done. by apply proc_evolves_refl.
  - destruct (decide (n = n')) as [<-|Hne].
    + by rewrite lookup_alter_eq, Hp.
    + by rewrite lookup_alter_ne, Hp.
Qed.

(** Adding a client for a shard that had none. *)
Lemma evolves_add_shard_client R w self p name port :
  (forall n s, R n s s) -> w_procs w !! self = Some p ->
  p_shardClients p !! name = None -> is_label name = true ->
  evolves R w (upd_world self (fun p => set_p_shardClients
    (<[name := host_addr name port]> (p_shardClients p)) p) w).
Proof.
  intros HR Hp Hnone Hl n. unfold upd_world; simpl.
  destruct (decide (self = n)) as [<-|Hne].
  - rewrite lookup_alter_eq, Hp. simpl. unfold proc_evolves; simpl. split_and!; eauto.
    + by apply insert_subseteq.
    + intros name' t. destruct (decide (name = name')) as [<-|Hne'].
      * rewrite lookup_insert_eq. intros [= <-]. eauto.
      * rewrite lookup_insert_ne by done. auto.
  - rewrite lookup_alter_ne by done.
    destruct (w_procs w !! n); [by apply proc_evolves_refl|done].
Qed.

(** The flag that admits one redistribution at a time. *)
Lemma evolves_redistributing R w self b :
  (forall n s, R n s s) -> evolves R w (upd_world self (set_p_redistributingKeys b) w).
Proof.
  intros HR n. unfold upd_world; simpl.
  destruct (decide (self = n)) as [<-|Hne].
  - rewrite lookup_alter_eq. destruct (w_procs w !! self); simpl; [|done].
    unfold proc_evolves; simpl. split_and!; eauto.
  - rewrite lookup_alter_ne by done.
    destruct (w_procs w !! n); [by apply proc_evolves_refl|done].
Qed.

(** A method of the store of process [self]. *)
Lemma kv_run {A} self (op : M (Mem * E) A) (R : string -> KVSpec -> KVSpec -> Prop)
    (Q : A -> KVSpec -> KVSpec -> Prop) w w' o :
  (forall n s, R n s s) ->
  (forall m s e r, node_ok m s -> k_raft (m_kv m) = Some r ->
     exists e' a m' s', op (m, e) = ((m', e'), Ret a) /\ node_ok m' s' /\
       same_handles m m' /\ R self s s' /\ Q a s s') ->
  world_inv w -> kv self op w = (w', o) ->
  evolves R w w' /\
  (forall a, o = Ret a -> exists s s', holds w self s /\ holds w' self s' /\ Q a s s').
Proof.
  intros HR Hop Hinv Hrun. unfold kv in Hrun.
  destruct (proc self w) as [w1 o1] eqn:Hp. unfold bind in Hrun. rewrite Hp in Hrun.
  apply proc_run in Hp as [-> Hp]. destruct o1 as [p|why|]; simplify_eq.
  2-3: split; [by apply evolves_refl|done].
  destruct (Hp p eq_refl) as [Hself _].
  destruct (Hinv _ _ Hself) as (_ & (s & Hs) & (r & Hr)).
  destruct (Hop _ _ (w_env w) _ Hs Hr) as (e' & a & m' & s' & Hrun' & Hs' & Hsame & HRs & HQ).
  rewrite Hrun' in Hrun. simplify_eq. split.
  - intros n. simpl. destruct (decide (n = self)) as [->|Hne].
    + rewrite lookup_insert_eq, Hself. destruct Hsame as (Hra & _ & _).
      unfold proc_evolves; simpl. split_and!; eauto.
      intros s0 Hs0. rewrite (node_ok_fun _ _ _ Hs0 Hs). eauto.
    + rewrite lookup_insert_ne by done.
      destruct (w_procs w !! n); [by apply proc_evolves_refl|done].
  - intros a0 [= <-]. exists s, s'. split_and!; [by exists p| |done].
    exists (set_p_mem m' p). simpl. by rewrite lookup_insert_eq.
Qed.

(** A remote call, given what the handler does at every process it may reach. *)
Lemma rpc_run {A} target (handler : string -> M (World E) (res A))
    (R : string -> KVSpec -> KVSpec -> Prop) (Q : A -> World E -> Prop) w w' o :
  (forall n s, R n s s) ->
  (forall n a b c, R n a b -> R n b c -> R n a c) ->
  (forall e e' node lost w1 w2 o1,
     net_route target e = (e', Reach node lost) ->
     world_inv w1 -> handler node w1 = (w2, o1) ->
     evolves R w1 w2 /\ (forall a, o1 = Ret (Ok a) -> Q a w2)) ->
  world_inv w -> rpc target handler w = (w', o) ->
  evolves R w w' /\ (forall a, o = Ret (Ok a) -> Q a w').
Proof.
  intros HR HT Hh Hinv Hrun. unfold rpc, bind, envc in Hrun.
  destruct (net_route target (w_env w)) as [e' r] eqn:Hroute. simpl in Hrun.
  set (w1 := {| w_procs := w_procs w; w_env := e'; w_go := w_go w |}) in *.
  assert (Hev1 : evolves R w w1) by (by apply evolves_same_procs).
  assert (Hinv1 : world_inv w1) by (by eapply evolves_inv).
  destruct r as [code desc|node lost].
  { injection Hrun as <- <-. split; [done|]. intros ? [=]. }
  simpl in Hrun. destruct (alive w1 node).
  2:{ injection Hrun as <- <-. split; [done|]. intros ? [=]. }
  destruct (handler node w1) as [w2 o2] eqn:Hrun2.
  destruct (Hh _ _ _ _ _ _ _ Hroute Hinv1 Hrun2) as [Hev2 HQ].
  assert (Hev : evolves R w w2) by exact (evolves_trans R R R _ _ _ HT Hev1 Hev2).
  destruct o2 as [a|why|]; injection Hrun as <- <-.
  - split; [done|]. intros a' [= Ha].
    destruct lost as [[]|]; [done|]. apply HQ. f_equal.
    destruct a as [a|[]]; simpl in *; congruence.
  - split; [|done]. eapply (evolves_trans R R R); [exact HT|exact Hev|].
    by apply evolves_crashed.
  - done.
Qed.

(** ** A triple for handlers

    From a world in good order that satisfies [P], [m] changes stores by [R]
    only, whatever its outcome, and if it returns [a] then [Q a] holds. *)
Definition moves {A} (R : string -> KVSpec -> KVSpec -> Prop) (P : World E -> Prop)
    (m : M (World E) A) (Q : A -> World E -> Prop) : Prop :=
  forall w w' o, world_inv w -> P w -> m w = (w', o) ->
  evolves R w w' /\ (forall a, o = Ret a -> Q a w').

Class Preord (R : string -> KVSpec -> KVSpec -> Prop) : Prop := {
  preord_refl : forall n s, R n s s;
  preord_trans : forall n a b c, R n a b -> R n b c -> R n a c
}.

Section moves.
Context (R : string -> KVSpec -> KVSpec -> Prop) `{!Preord R}.

Lemma moves_ret {A} (P : World E -> Prop) (a : A) (Q : A -> World E -> Prop) :
  (forall w, P w -> Q a w) -> moves R P (ret a) Q.
Proof.
  intros HQ w w' o Hinv HP Hrun. injection Hrun as <- <-.
  split; [apply evolves_refl, preord_refl|]. intros ? [= <-]. auto.
Qed.

Lemma moves_crash {A} P why (Q : A -> World E -> Prop) : moves R P (crash why) Q.
Proof.
  intros w w' o Hinv HP Hrun. injection Hrun as <- <-.
  split; [apply evolves_refl, preord_refl|]. intros ? [=].
Qed.

Lemma moves_bind {A B} P (m : M (World E) A) (f : A -> M (World E) B) Q1 Q2 :
  moves R P m Q1 -> (forall a, moves R (Q1 a) (f a) Q2) -> moves R P (bind m f) Q2.
Proof.
  intros Hm Hf w w' o Hinv HP Hrun. unfold bind in Hrun.
  destruct (m w) as [w1 o1] eqn:Hm1. destruct (Hm _ _ _ Hinv HP Hm1) as [Hev HQ].
  destruct o1 as [a|why|].
  - destruct (Hf a w1 w' o) as [Hev' HQ']; [by eapply evolves_inv|by apply HQ|done|].
    split; [|done]. by eapply (evolves_trans R R R); [apply preord_trans|exact Hev|].
  - injection Hrun as <- <-. split; [done|]. intros ? [=].
  - injection Hrun as <- <-. split; [done|]. intros ? [=].
Qed.

(** Reading the variables of a process, with a fact about them. *)
Lemma moves_proc P self (Q : Proc -> World E -> Prop) :
  (forall w p, P w -> world_inv w -> w_procs w !! self = Some p -> Q p w) ->
  moves R P (proc self) Q.
Proof.
  intros HQ w w' o Hinv HP Hrun. apply proc_run in Hrun as [-> Hp].
  split; [apply evolves_refl, preord_refl|].
  intros p ->. destruct (Hp p eq_refl). eauto.
Qed.

Lemma moves_rpc {A} P target (handler : string -> M (World E) (res A))
    (Q : A -> World E -> Prop) :
  (forall e e' node lost, net_route target e = (e', Reach node lost) ->
     moves R (fun _ => True) (handler node) (fun r w => forall a, r = Ok a -> Q a w)) ->
  moves R P (rpc target handler) (fun r w => forall a, r = Ok a -> Q a w).
Proof.
  intros Hh w w' o Hinv _ Hrun.
  destruct (rpc_run target handler R Q w w' o) as [Hev HQ]; try done.
  - apply preord_refl.
  - apply preord_trans.
  - intros e e' node lost w1 w2 o1 Hroute Hinv1 Hrun1.
    destruct (Hh _ _ _ _ Hroute w1 w2 o1 Hinv1 I Hrun1) as [? HQ1].
    split; [done|]. intros a ->. by apply (HQ1 (Ok a)).
  - split; [done|]. intros r Hr a ->. by apply HQ.
Qed.

End moves.

End world.
