(* ===== verification/Redistribution.v ===== *)
(** * Moving keys between shards

    The frame lemmas of the handlers that write entries, and the invariant of the
    loop in [RedistributeKeys]: whatever fails on the way, an entry that the
    process held is held by it, or by a process of the shard that the new ring
    locates its key at. *)

From S2P Require Import Prelude Protos RaftCommon KVStore KVStoreSpec Shard ShardWorld.

Section redistribution.
Context `{!Proto, !ConsistentHash} {E : Type} `{!Raft E, !RaftSetup E, !Net E, !OS E}.
Context `{!Topology E, !ProtoLaws, !RaftSerial E}.
Implicit Types (w : World E) (n k v : string) (s : KVSpec).

(** ** How stores change *)

Definition unchanged (n : string) (s s' : KVSpec) : Prop := s' = s.

(** Only processes of shard [S] may have got the entry. *)
Definition put_at (k v S : string) (n : string) (s s' : KVSpec) : Prop :=
  s' = s \/ node_shard n = S /\ s' = spec_set k v s.

(** Only process [self] may have lost the entry. *)
Definition deleted_at (k self : string) (n : string) (s s' : KVSpec) : Prop :=
  s' = s \/ n = self /\ s' = spec_delete k s.

(** Entries under other keys are the same. *)
Definition other_keys_kept (k : string) (n : string) (s s' : KVSpec) : Prop :=
  forall k', k' <> k -> sp_map s' !! k' = sp_map s !! k'.

Lemma put_at_trans k v S n s1 s2 s3 :
  put_at k v S n s1 s2 -> put_at k v S n s2 s3 -> put_at k v S n s1 s3.
Proof.
  intros [->|[? ->]] [->|[? ->]]; try (by left); right; split; auto.
  unfold spec_set; simpl. by rewrite insert_insert_eq.
Qed.

Lemma put_at_other k v S n s s' : put_at k v S n s s' -> other_keys_kept k n s s'.
Proof. intros [->|[_ ->]] k' Hne; [done|]. simpl. by rewrite lookup_insert_ne. Qed.

Lemma deleted_at_other k self n s s' :
  deleted_at k self n s s' -> other_keys_kept k n s s'.
Proof. intros [->|[_ ->]] k' Hne; [done|]. simpl. by rewrite lookup_delete_ne. Qed.

Lemma other_keys_kept_trans k n s1 s2 s3 :
  other_keys_kept k n s1 s2 -> other_keys_kept k n s2 s3 -> other_keys_kept k n s1 s3.
Proof. intros Ha Hb k' Hne. by rewrite Hb, Ha. Qed.

(** ** Methods of the store, run at a process *)

Lemma kv_Get_run self k w w' o :
  world_inv w -> kv self (KVStore_Get k) w = (w', o) ->
  evolves unchanged w w' /\
  (forall a, o = Ret a -> exists s, holds w self s /\ a = spec_get s k).
Proof.
  intros Hinv Hrun.
  destruct (kv_run self (KVStore_Get k) unchanged
    (fun a s s' => a = spec_get s k) w w' o) as [Hev HQ]; try done.
  - intros m s e r Hok _. exists e, (spec_get s k), m, s.
    split; [by apply KVStore_Get_run|]. done.
  - split; [done|]. intros a Ha. destruct (HQ a Ha) as (s & s' & ? & ? & ?). eauto.
Qed.

Lemma kv_Set_run self k v S w w' o :
  world_inv w -> node_shard self = S -> kv self (KVStore_Set k v) w = (w', o) ->
  evolves (put_at k v S) w w' /\ (o = Ret None -> stored w' self k v).
Proof.
  intros Hinv HS Hrun.
  destruct (kv_run self (KVStore_Set k v) (put_at k v S)
    (fun a s s' => a = None -> s' = spec_set k v s) w w' o) as [Hev HQ]; try done.
  - by left.
  - intros m s e r Hok Hr.
    destruct (KVStore_Set_run k v m s e r Hok Hr)
      as (e' & err & m' & s' & Hrun' & Hok' & Hsame & Hcase & _).
    exists e', err, m', s'. split_and!; [done|done|done| |].
    + destruct Hcase as [[-> _]| ->]; [by left|by right].
    + intros ->. by destruct Hcase as [[_ ?]|].
  - split; [done|]. intros ->. destruct (HQ None eq_refl) as (s & s' & _ & Hs' & Hset).
    exists s'. split; [done|]. rewrite Hset by done. simpl. by rewrite lookup_insert_eq.
Qed.

Lemma kv_Delete_run self k w w' o :
  world_inv w -> kv self (KVStore_Delete k) w = (w', o) ->
  evolves (deleted_at k self) w w'.
Proof.
  intros Hinv Hrun.
  apply (kv_run self (KVStore_Delete k) (deleted_at k self) (fun _ _ _ => True) w w' o);
    try done.
  - by left.
  - intros m s e r Hok Hr.
    destruct (KVStore_Delete_run k m s e r Hok Hr)
      as (e' & err & m' & s' & Hrun' & Hok' & Hsame & Hcase & _).
    exists e', err, m', s'. split_and!; [done|done|done| |done].
    destruct Hcase as [[-> _]| ->]; [by left|by right].
Qed.

(** Methods that only read. *)
Lemma kv_read_run {A} self (op : M (Mem * E) A) w w' o :
  (forall m s e r, node_ok m s -> k_raft (m_kv m) = Some r ->
     exists e' a, op (m, e) = ((m, e'), Ret a)) ->
  world_inv w -> kv self op w = (w', o) -> evolves unchanged w w'.
Proof.
  intros Hop Hinv Hrun.
  apply (kv_run self op unchanged (fun _ _ _ => True) w w' o); try done.
  intros m s e r Hok Hr. destruct (Hop m s e r Hok Hr) as (e' & a & Heq).
  exists e', a, m, s. by split_and!.
Qed.

Lemma KVStore_Leader_reads m s (e : E) r :
  node_ok m s -> k_raft (m_kv m) = Some r ->
  exists e' a, KVStore_Leader (m, e) = ((m, e'), Ret a).
Proof.
  intros _ Hr. unfold KVStore_Leader, with_raft, bind, get, env_call; simpl. rewrite Hr.
  simpl. destruct (raft_LeaderWithID r e). eauto.
Qed.

Lemma KVStore_GetWritesEnabled_reads m s (e : E) r :
  node_ok m s -> k_raft (m_kv m) = Some r ->
  exists e' a, KVStore_GetWritesEnabled (m, e) = ((m, e'), Ret a).
Proof.
  intros (_ & _ & Hmx) _. exists e, (k_writesEnabled (m_kv m)).
  by apply KVStore_GetWritesEnabled_run.
Qed.

Lemma KVStore_Keys_reads m s (e : E) r :
  node_ok m s -> k_raft (m_kv m) = Some r ->
  exists e' a, KVStore_Keys (m, e) = ((m, e'), Ret a).
Proof.
  intros (_ & _ & Hmx) _. exists e, (k_store (m_kv m)). by apply KVStore_Keys_run.
Qed.

(** ** Writing an entry at a shard *)

#[local] Instance unchanged_preord : Preord unchanged.
Proof. split; unfold unchanged; congruence. Qed.

#[local] Instance put_at_preord k v S : Preord (put_at k v S).
Proof. split; [by left|apply put_at_trans]. Qed.

(** The entry is held by a process of shard [S]. *)
Definition held_by (k v S : string) (w : World E) : Prop :=
  exists n, node_shard n = S /\ stored w n k v.

Lemma unchanged_put_at k v S w w' : evolves unchanged w w' -> evolves (put_at k v S) w w'.
Proof. apply evolves_weaken. intros ? ? ? ->. by left. Qed.

Lemma moves_read {A} k v S P self (op : M (Mem * E) A) :
  (forall m s e r, node_ok m s -> k_raft (m_kv m) = Some r ->
     exists e' a, op (m, e) = ((m, e'), Ret a)) ->
  moves (put_at k v S) P (kv self op) (fun _ _ => True).
Proof.
  intros Hop w w' o Hinv _ Hrun. split; [|done].
  by eapply unchanged_put_at, kv_read_run.
Qed.

Lemma moves_set k v S P self :
  node_shard self = S ->
  moves (put_at k v S) P (kv self (KVStore_Set k v))
    (fun err w => err = None -> held_by k v S w).
Proof.
  intros HS w w' o Hinv _ Hrun.
  destruct (kv_Set_run self k v S w w' o Hinv HS Hrun) as [Hev Hst].
  split; [done|]. intros err -> ->. exists self. split; [done|]. by apply Hst.
Qed.

(** [Put] between replicas. *)
Lemma moves_replica_Put k v S b self :
  node_shard self = S ->
  moves (put_at k v S) (fun _ => True)
    (replicaRpcServer_Put self {| ip_Key := k; ip_Value := v; ip_IsRedistribution := b |})
    (fun r w => forall a, r = Ok a -> held_by k v S w).
Proof.
  intros HS. unfold replicaRpcServer_Put. simpl.
  eapply moves_bind with (Q1 := fun _ _ => True); [apply _| |intros blocked].
  { destruct b; [by apply moves_ret; [apply _|]|].
    eapply moves_bind with (Q1 := fun _ _ => True); [apply _| |intros enabled].
    - apply moves_read, KVStore_GetWritesEnabled_reads.
    - by apply moves_ret; [apply _|]. }
  destruct blocked; [apply moves_ret; [apply _|]; by intros ? _ ? [=]|].
  eapply moves_bind; [apply _|by apply moves_set|]. intros [err|]; simpl.
  - apply moves_ret; [apply _|]. by intros ? _ ? [=].
  - apply moves_ret; [apply _|]. intros w Hw ? _. by apply Hw.
Qed.

(** A client of a replica of shard [S] reaches processes of [S] only. *)
Lemma replica_client_route w self p key target e e' node lost :
  world_inv w -> w_procs w !! self = Some p ->
  p_replicaClients p !! key = Some target ->
  net_route target e = (e', Reach node lost) -> node_shard node = node_shard self.
Proof.
  intros Hinv Hp Hc Hroute. destruct (Hinv _ _ Hp) as ((Hsh & _ & Hrc) & _).
  destruct (Hrc _ _ Hc) as (r & port & Hr & Hs & ->). rewrite Hsh in Hs, Hroute.
  exact (route_pod _ _ _ _ _ _ _ Hr Hs Hroute).
Qed.

Lemma shard_client_route w self p name target e e' node lost :
  world_inv w -> w_procs w !! self = Some p ->
  p_shardClients p !! name = Some target ->
  net_route target e = (e', Reach node lost) -> node_shard node = name.
Proof.
  intros Hinv Hp Hc Hroute. destruct (Hinv _ _ Hp) as ((_ & Hsc & _) & _).
  destruct (Hsc _ _ Hc) as (Hl & port & ->). exact (route_service _ _ _ _ _ _ Hl Hroute).
Qed.

(** [Put] between shards, at any process of the target shard. *)
Lemma moves_shard_Put k v S b self :
  node_shard self = S ->
  moves (put_at k v S) (fun _ => True)
    (shardRpcServer_Put self {| ip_Key := k; ip_Value := v; ip_IsRedistribution := b |})
    (fun r w => forall a, r = Ok a -> held_by k v S w).
Proof.
  intros HS. unfold shardRpcServer_Put. simpl.
  eapply moves_bind; [apply _|by apply moves_set|]. intros err.
  destruct err as [err|].
  2:{ apply moves_ret; [apply _|]. intros w Hw ? _. by apply Hw. }
  destruct err; try (apply moves_ret; [apply _|]; by intros ? _ ? [=]).
  unfold at_leader.
  eapply moves_bind; [apply _|apply moves_read, KVStore_Leader_reads|intros leader].
  simpl. case_decide; [apply moves_ret; [apply _|]; by intros ? _ ? [=]|].
  eapply moves_bind with
    (Q1 := fun p w => world_inv w /\ w_procs w !! self = Some p); [apply _| |intros p].
  { by apply moves_proc; [apply _|]. }
  unfold with_client. destruct (p_replicaClients p !! leader) as [target|] eqn:Hc.
  2:{ apply moves_crash; apply _. }
  intros w w' o Hinv [_ Hp] Hrun.
  refine (moves_rpc _ (fun w => w_procs w !! self = Some p) target _
    (fun _ => held_by k v S) _ w w' o Hinv Hp Hrun).
  intros e e' node lost Hroute. apply moves_replica_Put. rewrite <- HS.
  by eapply replica_client_route.
Qed.

(** ** One round of the loop *)

#[local] Instance other_keys_kept_preord k : Preord (other_keys_kept k).
Proof. split; [done|apply other_keys_kept_trans]. Qed.

(** The remote [Put] of a round, on a client of shard [name]. *)
Lemma moves_remote_Put P w0 self p name target k v b :
  world_inv w0 -> w_procs w0 !! self = Some p ->
  p_shardClients p !! name = Some target ->
  moves (put_at k v name) P
    (rpc target (fun node => shardRpcServer_Put node
       {| ip_Key := k; ip_Value := v; ip_IsRedistribution := b |}))
    (fun r w => forall a, r = Ok a -> held_by k v name w).
Proof.
  intros Hinv Hp Hc.
  apply (moves_rpc _ _ _ _ (fun _ => held_by k v name)).
  intros e e' node lost Hroute. apply moves_shard_Put. by eapply shard_client_route.
Qed.

Lemma moves_locate R `{!Preord R} P c key :
  moves R P (locate (E := E) c key) (fun m w => LocateKey c key = Some m /\ P w).
Proof.
  unfold locate. destruct (LocateKey c key) eqn:Hl.
  - apply moves_ret; [done|]. by intros.
  - by apply moves_crash.
Qed.

(** A round leaves the entries under other keys alone, everywhere. *)
Lemma moves_relocate_key_other self newCh key :
  moves (other_keys_kept key) (fun _ => True) (relocate_key self newCh key)
    (fun _ _ => True).
Proof.
  unfold relocate_key.
  eapply moves_bind with (Q1 := fun _ _ => True); [apply _|by apply moves_proc; [apply _|]|].
  intros p. eapply moves_bind; [apply _|by apply moves_locate; apply _|intros oldLoc].
  eapply moves_bind; [apply _|by apply moves_locate; apply _|intros newLoc]. simpl.
  case_decide; [|by apply moves_ret; [apply _|]].
  case_decide; [|by apply moves_ret; [apply _|]].
  eapply moves_bind with (Q1 := fun _ _ => True); [apply _| |intros [value|err]].
  { intros w w' o Hinv _ Hrun. split; [|done].
    eapply evolves_weaken; [|by eapply kv_Get_run]. by intros ? ? ? ->. }
  2:{ by apply moves_ret; [apply _|]. }
  eapply moves_bind with
    (Q1 := fun p w => world_inv w /\ w_procs w !! self = Some p); [apply _| |intros p'].
  { by apply moves_proc; [apply _|]. }
  unfold with_client. destruct (p_shardClients p' !! newLoc) as [target|] eqn:Hc.
  2:{ apply moves_crash; apply _. }
  eapply moves_bind with (Q1 := fun _ _ => True); [apply _| |intros [[]|err]].
  - intros w w' o Hinv [_ Hp'] Hrun. split; [|done].
    eapply evolves_weaken; [|eapply (moves_remote_Put (fun _ => True)); eauto].
    apply put_at_other.
  - eapply moves_bind with (Q1 := fun _ _ => True); [apply _| |intros ?].
    + intros w w' o Hinv _ Hrun. split; [|done].
      eapply evolves_weaken; [|by eapply kv_Delete_run]. apply deleted_at_other.
    + by apply moves_ret; [apply _|].
  - by apply moves_ret; [apply _|].
Qed.

(** ** No entry is lost *)

(** What the loop keeps for an entry of [self] whose key the new ring locates at
    [plan]: [self] has no other value for the key, and the entry is at [self] or
    at a process of the planned shard. *)
Definition safe (self k v : string) (plan : option string) (w : World E) : Prop :=
  (forall s v', holds w self s -> sp_map s !! k = Some v' -> v' = v) /\
  (stored w self k v \/ exists S, plan = Some S /\ held_by k v S w).

Lemma stored_safe self k v plan w : stored w self k v -> safe self k v plan w.
Proof.
  intros Hst. split; [|by left]. intros s v' Hs Hv'.
  destruct Hst as (s0 & Hs0 & Hv). rewrite (holds_fun _ _ _ _ Hs Hs0) in Hv'. congruence.
Qed.

(** A change that keeps the entry wherever it is, and adds no other value for the
    key at [self], keeps [safe]. *)
Lemma safe_evolves R self k v plan w w' :
  world_inv w -> evolves R w w' ->
  (forall s s' v', R self s s' -> sp_map s' !! k = Some v' ->
     sp_map s !! k = Some v' \/ v' = v) ->
  (forall n s s', R n s s' -> (n = self \/ plan = Some (node_shard n)) ->
     sp_map s !! k = Some v -> sp_map s' !! k = Some v) ->
  safe self k v plan w -> safe self k v plan w'.
Proof.
  intros Hinv Hev Hself Hkeep [Hone Hat]. split.
  - intros s' v' Hs' Hv'.
    destruct (evolves_holds_inv _ _ _ _ _ Hinv Hev Hs') as (s & Hs & HR).
    destruct (Hself _ _ _ HR Hv'); eauto.
  - destruct Hat as [(s & Hs & Hv)|(S & HS & n & Hn & s & Hs & Hv)].
    + left. destruct (evolves_holds _ _ _ _ _ Hev Hs) as (s' & Hs' & HR).
      exists s'. eauto.
    + right. destruct (evolves_holds _ _ _ _ _ Hev Hs) as (s' & Hs' & HR).
      exists S. split; [done|]. exists n. split; [done|]. exists s'. split; [done|].
      eapply Hkeep; [done| |done]. right. by rewrite Hn.
Qed.

Lemma safe_unchanged self k v plan w w' :
  world_inv w -> evolves unchanged w w' -> safe self k v plan w -> safe self k v plan w'.
Proof.
  intros Hinv Hev. apply (safe_evolves unchanged); [done|done| |].
  - intros s s' v' -> ?. by left.
  - by intros n s s' ->.
Qed.

Lemma safe_other_key self k v plan key w w' :
  world_inv w -> key <> k -> evolves (other_keys_kept key) w w' ->
  safe self k v plan w -> safe self k v plan w'.
Proof.
  intros Hinv Hne Hev. apply (safe_evolves (other_keys_kept key)); [done|done| |].
  - intros s s' v' HR Hv'. left. by rewrite <- (HR k).
  - intros n s s' HR _ Hv. by rewrite (HR k).
Qed.

Lemma safe_put self k v plan S w w' :
  world_inv w -> evolves (put_at k v S) w w' ->
  safe self k v plan w -> safe self k v plan w'.
Proof.
  intros Hinv Hev. apply (safe_evolves (put_at k v S)); [done|done| |].
  - intros s s' v' [->|[_ ->]] Hv'; [by left|]. simpl in Hv'.
    rewrite lookup_insert_eq in Hv'. right. congruence.
  - intros n s s' [->|[_ ->]] _ Hv; [done|]. simpl. by rewrite lookup_insert_eq.
Qed.

(** Deleting the entry at [self] once another shard holds it. *)
Lemma safe_delete self k v plan S w w' :
  world_inv w -> plan = Some S -> node_shard self <> S ->
  evolves (deleted_at k self) w w' -> held_by k v S w -> safe self k v plan w -> safe self k v plan w'.
Proof.
  intros Hinv HS Hne Hev (n & Hn & s & Hs & Hv) [Hone _]. split.
  - intros s' v' Hs' Hv'.
    destruct (evolves_holds_inv _ _ _ _ _ Hinv Hev Hs') as (s0 & Hs0 & [->|[_ ->]]).
    + eauto.
    + simpl in Hv'. by rewrite lookup_delete_eq in Hv'.
  - right. exists S. split; [done|]. exists n. split; [done|].
    destruct (evolves_holds _ _ _ _ _ Hev Hs) as (s' & Hs' & [->|[-> _]]).
    + by exists s.
    + congruence.
Qed.

(** The invariant of the loop. *)
Definition safe_world (self k v : string) (plan : option string) (w : World E) : Prop :=
  world_inv w /\ safe self k v plan w.

Lemma safe_world_read {A} self k v plan node (op : M (Mem * E) A) :
  (forall m s e r, node_ok m s -> k_raft (m_kv m) = Some r ->
     exists e' a, op (m, e) = ((m, e'), Ret a)) ->
  preserves (safe_world self k v plan) (kv node op).
Proof.
  intros Hop w [Hinv Hsafe]. destruct (kv node op w) as [w' o] eqn:Hrun.
  assert (Hev : evolves unchanged w w') by (by eapply kv_read_run).
  assert (Hw' : safe_world self k v plan w').
  { split; [by eapply evolves_inv|by eapply safe_unchanged]. }
  by destruct o.
Qed.

Lemma safe_world_envc {A} self k v plan (f : E -> E * A) :
  preserves (safe_world self k v plan) (envc f).
Proof.
  intros w [Hinv Hsafe]. destruct (envc f w) as [w' o] eqn:Hrun.
  apply envc_run in Hrun as [Hp [a ->]].
  assert (Hev : evolves unchanged w w') by (by apply evolves_same_procs).
  split; [by eapply evolves_inv|by eapply safe_unchanged].
Qed.

Lemma safe_world_proc self k v plan node : preserves (safe_world self k v plan) (proc node).
Proof.
  intros w Hw. unfold proc. destruct (w_procs w !! node) as [p|]; [|done].
  by destruct (p_crashed p).
Qed.

Lemma safe_world_locate self k v plan c key :
  preserves (safe_world self k v plan) (locate c key).
Proof. unfold locate. go_preserves. Qed.

#[local] Hint Resolve safe_world_read safe_world_envc safe_world_proc : go.
#[local] Hint Resolve safe_world_locate KVStore_Keys_reads : go.

(** Sending the entry and deleting it afterwards. *)
Lemma safe_world_send self k v plan S w p target w' o :
  safe_world self k v plan w -> plan = Some S -> w_procs w !! self = Some p ->
  node_shard self <> S -> p_shardClients p !! S = Some target ->
  (r <- rpc target (fun node => shardRpcServer_Put node
          {| ip_Key := k; ip_Value := v; ip_IsRedistribution := true |}) ;;
   match r with
   | Err _ => ret tt
   | Ok _ => kv self (KVStore_Delete k) ;;; ret tt
   end) w = (w', o) -> safe_world self k v plan w'.
Proof.
  intros [Hinv Hsafe] HS Hp Hne Hc Hrun. unfold bind at 1 in Hrun.
  destruct (rpc target _ w) as [w1 o1] eqn:Hput.
  destruct (moves_remote_Put (fun _ => True) w self p S target k v true Hinv Hp Hc
    w w1 o1 Hinv I Hput) as [Hev Hheld].
  assert (Hinv1 : world_inv w1) by (by eapply evolves_inv).
  assert (Hsafe1 : safe self k v plan w1) by exact (safe_put _ _ _ _ _ _ _ Hinv Hev Hsafe).
  destruct o1 as [[a|err]|why|]; try (by injection Hrun as <- <-).
  specialize (Hheld (Ok a) eq_refl a eq_refl). unfold bind in Hrun.
  destruct (kv self (KVStore_Delete k) w1) as [w2 o2] eqn:Hdel.
  assert (Hev2 : evolves (deleted_at k self) w1 w2) by (by eapply kv_Delete_run).
  assert (Hw2 : safe_world self k v plan w2).
  { split; [exact (evolves_inv _ _ _ Hinv1 Hev2)|].
    exact (safe_delete _ _ _ _ _ _ _ Hinv1 HS Hne Hev2 Hheld Hsafe1). }
  by destruct o2; injection Hrun as <- <-.
Qed.

(** A round for the entry's own key. *)
Lemma safe_world_relocate_same self newCh k v plan :
  LocateKey newCh k = plan ->
  preserves (safe_world self k v plan) (relocate_key self newCh k).
Proof.
  intros HS w Hw. destruct (relocate_key self newCh k w) as [w' o] eqn:Hrun.
  enough (Hw' : safe_world self k v plan w') by (by destruct o).
  unfold relocate_key, bind at 1 in Hrun.
  destruct (proc self w) as [w0 o0] eqn:Hproc. apply proc_run in Hproc as [-> Hp].
  destruct o0 as [p|why|]; try (by injection Hrun as <- <-).
  destruct (Hp p eq_refl) as [Hself _]. clear Hp.
  destruct (proj1 Hw _ _ Hself) as ((Hsh & _) & _).
  unfold locate in Hrun. rewrite HS in Hrun.
  destruct (LocateKey (p_ch p) k) as [old|]; [|by injection Hrun as <- <-].
  destruct plan as [S|]; [|by injection Hrun as <- <-].
  unfold bind at 1, ret at 1, bind at 1, ret at 1 in Hrun.
  case_decide as Hne; [|by injection Hrun as <- <-].
  case_decide as Heq; [|by injection Hrun as <- <-].
  unfold bind at 1 in Hrun. destruct (kv self (KVStore_Get k) w) as [w1 o1] eqn:Hget.
  destruct (kv_Get_run _ _ _ _ _ (proj1 Hw) Hget) as [Hev1 Hval].
  assert (Hw1 : safe_world self k v (Some S) w1).
  { destruct Hw. split; [by eapply evolves_inv|by eapply safe_unchanged]. }
  destruct o1 as [[value|err]|why|]; try (by injection Hrun as <- <-).
  destruct (Hval _ eq_refl) as (s & Hs & Hvs). unfold spec_get in Hvs.
  destruct (sp_map s !! k) as [v'|] eqn:Hv'; [|done]. injection Hvs as ->.
  assert (v' = v) as -> by (by apply (proj1 (proj2 Hw) s)).
  unfold bind at 1 in Hrun. destruct (proc self w1) as [w2 o2] eqn:Hproc.
  apply proc_run in Hproc as [-> Hp]. destruct o2 as [p1|why|]; try (by injection Hrun as <- <-).
  destruct (Hp p1 eq_refl) as [Hself1 _]. unfold with_client in Hrun.
  destruct (p_shardClients p1 !! S) as [target|] eqn:Hc; [|by injection Hrun as <- <-].
  eapply safe_world_send; [exact Hw1|done|exact Hself1| |exact Hc|exact Hrun]. congruence.
Qed.

Lemma safe_world_relocate self newCh key k v plan :
  LocateKey newCh k = plan ->
  preserves (safe_world self k v plan) (relocate_key self newCh key).
Proof.
  intros HS. destruct (decide (key = k)) as [->|Hne].
  { by apply safe_world_relocate_same. }
  intros w [Hinv Hsafe]. destruct (relocate_key self newCh key w) as [w' o] eqn:Hrun.
  destruct (moves_relocate_key_other self newCh key w w' o Hinv I Hrun) as [Hev _].
  assert (Hw' : safe_world self k v plan w').
  { split; [by eapply evolves_inv|by eapply safe_other_key]. }
  by destruct o.
Qed.

(** ** The whole run *)

Context `{!ConfigLabels E} (fuel : nat).

Lemma safe_world_unchanged self k v plan w w' :
  safe_world self k v plan w -> evolves unchanged w w' -> safe_world self k v plan w'.
Proof.
  intros [Hinv Hsafe] Hev. split; [by eapply evolves_inv|by eapply safe_unchanged].
Qed.

Lemma safe_world_PopulateShardClients self k v plan node shards :
  (forall d, d ∈ shards -> is_label (ks_Name d) = true) ->
  preserves (safe_world self k v plan) (PopulateShardClients fuel node shards).
Proof.
  intros Hlab. apply preserves_for_each. intros d Hd. apply preserves_loop.
  intros w Hw. unfold bind at 1.
  destruct (proc node w) as [w0 o0] eqn:Hproc. apply proc_run in Hproc as [-> Hp].
  destruct o0 as [p|why|]; try done. destruct (Hp p eq_refl) as [Hnode _].
  case_decide as Hex; [done|]. unfold bind at 1.
  destruct (envc _ w) as [w1 o1] eqn:Hdial. apply envc_run in Hdial as [Hprocs [err ->]].
  assert (Hw1 : safe_world self k v plan w1).
  { eapply safe_world_unchanged; [done|]. by apply evolves_same_procs. }
  destruct err as [err|].
  - by apply (preserves_bind (safe_world self k v plan)); eauto with go.
  - unfold bind, upd_proc, modify, ret. eapply safe_world_unchanged; [exact Hw1|].
    eapply evolves_add_shard_client; [done|by rewrite Hprocs| |by apply Hlab].
    by apply eq_None_not_Some.
Qed.

Lemma safe_world_ReadConfig self k v plan node :
  preserves (safe_world self k v plan) (ReadConfig node).
Proof. unfold ReadConfig. go_preserves. Qed.

Lemma safe_world_range_keys {T} self k v plan node (acc : T) body :
  (forall acc key, preserves (safe_world self k v plan) (body acc key)) ->
  preserves (safe_world self k v plan) (range_keys node acc body).
Proof.
  intros Hb. unfold range_keys, range_map. go_preserves.
  apply preserves_for_acc. intros ? ? _. go_preserves.
Qed.

(** Where the ring built from the configuration that [self] reads next locates a
    key: [None] if there is no such configuration or no new ring in it. *)
Definition planned_location (w : World E) (self key : string) : option string :=
  p ← w_procs w !! self;
  match (os_ReadFile self (f_configFile (p_flags p)) (w_env w)).2 with
  | Err _ => None
  | Ok buf =>
      match yaml_Unmarshal buf with
      | Err _ => None
      | Ok c =>
          newCh ← consistent_New (map ks_Name (kc_NewShards c)) consistentHashCfg;
          LocateKey newCh key
      end
  end.

(** Reading the configuration at a process. *)
Lemma ReadConfig_run self w w' c :
  ReadConfig self w = (w', Ret c) ->
  w_procs w' = w_procs w /\ (exists buf, read_text E buf /\ yaml_Unmarshal buf = Ok c) /\
  (forall key, planned_location w self key =
     (newCh ← consistent_New (map ks_Name (kc_NewShards c)) consistentHashCfg;
      LocateKey newCh key)).
Proof.
  unfold ReadConfig. intros Hrun. run_inv Hrun as (w1 & p & Hproc & Hrun).
  apply proc_run in Hproc as [-> Hp]. destruct (Hp p eq_refl) as [Hself _].
  run_inv Hrun as (w2 & buf & Hread & Hrun). unfold envc in Hread.
  unfold planned_location. rewrite Hself. simpl.
  destruct (os_ReadFile self _ (w_env w)) as [e' r] eqn:Hfile. injection Hread as <- <-.
  destruct r as [b|err]; [|done]. destruct (yaml_Unmarshal b) as [c'|] eqn:Hb; [|done].
  injection Hrun as <- <-. simpl. rewrite Hb. split_and!; [done| |done].
  exists b. split; [by repeat eexists|done].
Qed.

(** The part of the run under the flag. *)
Lemma safe_world_redistribute_body self k v w w' o plan :
  safe_world self k v plan w -> planned_location w self k = plan ->
  (kvConfig <- ReadConfig self ;;
   if decide (length (kc_NewShards kvConfig) = 0%nat) then ret tt
   else
     PopulateShardClients fuel self (kc_NewShards kvConfig) ;;;
     newCh <- new_ring (kc_NewShards kvConfig) ;;
     range_keys self tt (fun _ key => relocate_key self newCh key)) w = (w', o) ->
  safe_world self k v plan w'.
Proof.
  intros Hw Hplan Hrun. unfold bind at 1 in Hrun.
  destruct (ReadConfig self w) as [w1 o1] eqn:Hread.
  assert (Hw1 : safe_world self k v plan w1).
  { by eapply preserves_run; [apply safe_world_ReadConfig| |]. }
  destruct o1 as [c|why|]; try (by injection Hrun as <- <-).
  destruct (ReadConfig_run _ _ _ _ Hread) as (_ & (buf & Htext & Hbuf) & Hloc).
  revert Hrun. enough (Hpre : preserves (safe_world self k v plan)
    (if decide (length (kc_NewShards c) = 0%nat) then ret tt
     else
       PopulateShardClients fuel self (kc_NewShards c) ;;;
       newCh <- new_ring (kc_NewShards c) ;;
       range_keys self tt (fun _ key => relocate_key self newCh key))).
  { intros Hrun. by eapply preserves_run; [apply Hpre| |]. }
  case_decide; [by apply preserves_ret|].
  apply preserves_bind; [|intros _].
  { apply safe_world_PopulateShardClients. intros d Hd. eapply config_labels; [exact Htext|exact Hbuf|].
    set_solver. }
  specialize (Hloc k). unfold new_ring.
  destruct (consistent_New _ _) as [newCh|]; simpl in Hloc; [|by intros w2 Hw2].
  intros w2 Hw2. unfold bind, ret. revert w2 Hw2. apply safe_world_range_keys.
  intros _ key. apply safe_world_relocate. congruence.
Qed.

Lemma planned_location_flag w self b key :
  planned_location (upd_world self (set_p_redistributingKeys b) w) self key =
  planned_location w self key.
Proof.
  unfold planned_location, upd_world; simpl. rewrite lookup_alter_eq.
  by destruct (w_procs w !! self).
Qed.

Lemma RedistributeKeys_safe self w w' o k v :
  world_inv w -> stored w self k v -> RedistributeKeys fuel self w = (w', o) ->
  safe_world self k v (planned_location w self k) w'.
Proof.
  intros Hinv Hst Hrun. set (plan := planned_location w self k).
  assert (Hw : safe_world self k v plan w) by (split; [done|by apply stored_safe]).
  unfold RedistributeKeys, bind at 1 in Hrun.
  destruct (proc self w) as [w0 o0] eqn:Hproc. apply proc_run in Hproc as [-> _].
  destruct o0 as [p|why|]; try (by injection Hrun as <- <-).
  destruct (p_redistributingKeys p); [by injection Hrun as <- <-|].
  unfold bind at 1, upd_proc, modify, deferred in Hrun.
  match type of Hrun with context [match ?body (upd_world ?n ?f ?ww) with _ => _ end] =>
    destruct (body (upd_world n f ww)) as [w1 o1] eqn:Hbody end.
  assert (Hw1 : safe_world self k v plan w1).
  { eapply safe_world_redistribute_body; [| |exact Hbody].
    - eapply safe_world_unchanged; [exact Hw|]. by apply evolves_redistributing.
    - apply planned_location_flag. }
  destruct o1; injection Hrun as <- <-; try done;
    (eapply safe_world_unchanged; [exact Hw1|]; by apply evolves_redistributing).
Qed.

End redistribution.
