(* ===== verification/Pending.v ===== *)
(** * Counting the keys that still have to move

    What the loop of [replicaRpcServer.RedistributeKeys] computes, as a function
    of the store of the process, its ring and the ring of the new shards. *)

From S2P Require Import Prelude Protos RaftCommon KVStore KVStoreSpec Shard ShardWorld.

Section pending.
Context `{!Proto, !ConsistentHash} {E : Type} `{!Raft E, !RaftSetup E, !Net E, !OS E}.
Implicit Types (w : World E).

(** The test of the loop: is the key one that this process has to give away? *)
Definition moves_key (p : Proc) (newCh : ring) (key : string) : bool :=
  match LocateKey (p_ch p) key, LocateKey newCh key with
  | Some oldLocation, Some newLocation =>
      must_move (f_shard (p_flags p)) oldLocation newLocation
  | _, _ => false
  end.

(** The entries that a process has to give away. *)
Definition moving_entries (p : Proc) (newCh : ring) (mp : gmap string string)
    : gmap string string :=
  filter (fun kv => moves_key p newCh kv.1 = true) mp.

(** Both rings locate the keys of the store. *)
Definition located (p : Proc) (newCh : ring) (mp : gmap string string) : Prop :=
  forall k, is_Some (mp !! k) ->
    is_Some (LocateKey (p_ch p) k) /\ is_Some (LocateKey newCh k).

(** ** Counting over the order of the runtime *)

(** A list without duplicates that has all keys of the map, and possibly others,
    meets the entries with property [f] as often as there are. *)
Lemma length_visited (f : string -> bool) (mp : gmap string string) (l : list string) :
  NoDup l -> (forall k, is_Some (mp !! k) -> k ∈ l) ->
  length (filter (fun k => is_Some (mp !! k) /\ f k = true) l) =
  size (filter (fun kv : string * string => f kv.1 = true) mp).
Proof.
  intros Hnd Hall. rewrite <- length_map_to_list.
  rewrite <- (length_fmap fst (map_to_list _)). apply Permutation_length.
  apply NoDup_Permutation.
  - by apply NoDup_filter.
  - apply NoDup_fst_map_to_list.
  - intros k. rewrite list_elem_of_filter, list_elem_of_fmap. split.
    + intros [[[v Hv] Hf] _]. exists (k, v). split; [done|].
      apply elem_of_map_to_list, map_lookup_filter_Some. done.
    + intros ([k' v] & -> & [Hv Hf]%elem_of_map_to_list%map_lookup_filter_Some).
      simpl in *. split; [split; [by exists v|done]|]. apply Hall. by exists v.
Qed.

(** The loop changes nothing and adds the number of keys with the property. *)
Lemma for_acc_count (present : World E -> string -> bool) (f : string -> bool) body
    (l : list string) acc w :
  (forall acc k, present w k = true -> body acc k w =
     (w, Ret (if f k then (acc + 1)%Z else acc))) ->
  for_acc l acc (fun acc k => w' <- get ;; if present w' k then body acc k else ret acc) w =
  (w, Ret (acc + Z.of_nat
     (length (filter (fun k => present w k = true /\ f k = true) l)))%Z).
Proof.
  intros Hb. revert acc. induction l as [|k l IH]; intros acc.
  - simpl. unfold ret. by rewrite Z.add_0_r.
  - cbn [for_acc]. unfold bind at 1. unfold bind at 1, get at 1.
    destruct (present w k) eqn:Hp.
    + rewrite Hb by done. rewrite IH. destruct (f k) eqn:Hf.
      * rewrite filter_cons_True by done. rewrite length_cons. do 2 f_equal. lia.
      * rewrite filter_cons_False; [done|]. intros [_ ?]. congruence.
    + unfold ret at 1. rewrite IH, filter_cons_False; [done|]. intros [? _]. congruence.
Qed.

(** ** The process while it counts *)

Lemma set_p_mem_id (p : Proc) : set_p_mem (p_mem p) p = p.
Proof. by destruct p. Qed.

(** A running process reads its own variables. *)
Lemma proc_alive self w p :
  w_procs w !! self = Some p -> p_crashed p = false -> proc self w = (w, Ret p).
Proof. unfold proc. by intros -> ->. Qed.

(** A method that leaves the memory alone leaves the processes alone. *)
Lemma kv_readonly {A} self (op : M (Mem * E) A) w p e' a :
  w_procs w !! self = Some p -> p_crashed p = false ->
  op (p_mem p, w_env w) = ((p_mem p, e'), Ret a) ->
  kv self op w = ({| w_procs := w_procs w; w_env := e'; w_go := w_go w |}, Ret a).
Proof.
  intros Hp Hc Hop. unfold kv. rewrite (bind_Ret _ _ _ _ _ (proc_alive _ _ _ Hp Hc)).
  rewrite Hop, set_p_mem_id. by rewrite insert_id.
Qed.

Lemma ReadConfig_ok self w p e' buf c :
  w_procs w !! self = Some p -> p_crashed p = false ->
  os_ReadFile self (f_configFile (p_flags p)) (w_env w) = (e', Ok buf) ->
  yaml_Unmarshal buf = Ok c ->
  ReadConfig self w = ({| w_procs := w_procs w; w_env := e'; w_go := w_go w |}, Ret c).
Proof.
  intros Hp Hc Hf Hy. unfold ReadConfig.
  rewrite (bind_Ret _ _ _ _ _ (proc_alive _ _ _ Hp Hc)).
  unfold bind, envc. rewrite Hf. by rewrite Hy.
Qed.

(** ** The body of the loop *)

Definition count_body (self : string) (newCh : ring) (pendingKeys : Z) (key : string)
    : M (World E) Z :=
  p <- proc self ;;
  oldLocation <- locate (p_ch p) key ;;
  newLocation <- locate newCh key ;;
  if must_move (f_shard (p_flags p)) oldLocation newLocation
  then ret (pendingKeys + 1)%Z else ret pendingKeys.

Lemma count_body_run self newCh p w acc k :
  w_procs w !! self = Some p -> p_crashed p = false ->
  is_Some (LocateKey (p_ch p) k) -> is_Some (LocateKey newCh k) ->
  count_body self newCh acc k w =
  (w, Ret (if moves_key p newCh k then (acc + 1)%Z else acc)).
Proof.
  intros Hp Hc [o Ho] [n Hn]. unfold count_body, moves_key, locate.
  rewrite (bind_Ret _ _ _ _ _ (proc_alive _ _ _ Hp Hc)), Ho, Hn.
  unfold bind, ret. by destruct (must_move _ _ _).
Qed.

Lemma proc_entries_holds self w p s :
  w_procs w !! self = Some p -> node_ok (p_mem p) s ->
  proc_entries self (k_store (m_kv (p_mem p))) w = sp_map s.
Proof.
  intros Hp ((l & Hl & Hh & _) & Hst & _). unfold proc_entries. rewrite Hp, Hst, Hl.
  simpl. by rewrite Hh.
Qed.

Context `{!OSLaws E}.

(** The loop over the keys counts the entries that have to move. *)
Lemma count_run self newCh p s w :
  w_procs w !! self = Some p -> p_crashed p = false -> node_ok (p_mem p) s ->
  located p newCh (sp_map s) ->
  exists keys, range_keys self 0%Z (count_body self newCh) w =
    ({| w_procs := w_procs w; w_env := (range_order keys (w_env w)).1; w_go := w_go w |},
     Ret (Z.of_nat (size (moving_entries p newCh (sp_map s))))).
Proof.
  intros Hp Hc Hok Hloc. unfold range_keys.
  erewrite bind_Ret; [|apply (kv_readonly self _ w p); [done..|];
    apply KVStore_Keys_run; by destruct Hok as (_ & _ & ?)].
  unfold range_map. rewrite (bind_Ret get _ _ _ _ eq_refl). simpl.
  set (w1 := {| w_procs := w_procs w; w_env := w_env w; w_go := w_go w |}).
  set (keys := (map_to_list (proc_entries self (k_store (m_kv (p_mem p))) w1)).*1).
  exists keys. destruct (range_order keys (w_env w)) as [e' order] eqn:Ho.
  unfold bind at 1, envc at 1. simpl. fold keys. rewrite Ho. simpl.
  pose proof (proc_entries_holds self w1 p s Hp Hok) as Hent.
  destruct (range_order_keys _ _ _ _ Ho) as [Hnd Hall]. unfold keys in Hall. rewrite Hent in Hall.
  set (w2 := {| w_procs := w_procs w; w_env := e'; w_go := w_go w |}).
  pose proof (proc_entries_holds self w2 p s Hp Hok) as Hent2.
  rewrite (for_acc_count _ (moves_key p newCh)).
  - do 2 f_equal. unfold moving_entries. rewrite <- (length_visited _ _ order); [|done|].
    + rewrite Z.add_0_l. do 2 f_equal. apply list_filter_iff. intros k.
      by rewrite Hent2, bool_decide_eq_true.
    + intros k [v Hv]. apply Hall, list_elem_of_fmap. exists (k, v).
      split; [done|]. by apply elem_of_map_to_list.
  - intros acc k. rewrite Hent2, bool_decide_eq_true. intros Hk.
    destruct (Hloc k Hk). by apply (count_body_run self newCh p).
Qed.

(** The whole handler, when the configuration lists new shards. *)
Lemma replica_RedistributeKeys_run self i p s w e1 buf c newCh :
  w_procs w !! self = Some p -> p_crashed p = false -> node_ok (p_mem p) s ->
  os_ReadFile self (f_configFile (p_flags p)) (w_env w) = (e1, Ok buf) ->
  yaml_Unmarshal buf = Ok c ->
  consistent_New (map ks_Name (kc_NewShards c)) consistentHashCfg = Some newCh ->
  located p newCh (sp_map s) ->
  exists keys, replicaRpcServer_RedistributeKeys self i w =
    ({| w_procs := w_procs w; w_env := (range_order keys e1).1;
        w_go := w_go w ++ [(self, Go_RedistributeKeys)] |},
     Ret (Ok {| rk_PendingKeys :=
       int32 (Z.of_nat (size (moving_entries p newCh (sp_map s)))) |})).
Proof.
  intros Hp Hc Hok Hf Hy Hring Hloc. unfold replicaRpcServer_RedistributeKeys.
  unfold spawn, modify, bind at 1.
  set (w1 := {| w_procs := w_procs w; w_env := w_env w; w_go := _ |}).
  rewrite (bind_Ret _ _ w1 _ _ (ReadConfig_ok self w1 p e1 buf c Hp Hc Hf Hy)).
  unfold new_ring. rewrite Hring. unfold bind at 1, ret at 1.
  destruct (count_run self newCh p s {| w_procs := w_procs w; w_env := e1; w_go := w_go w1 |})
    as [keys Hrun]; [done..|].
  exists keys. by rewrite (bind_Ret _ _ _ _ _ Hrun).
Qed.

End pending.
