(* ===== verification/Answers.v ===== *)
(** * What the answer of a shard says

    Inversions of successful calls: a call succeeds only if a running process handled
    it, and the number of pending keys that comes back is the number of entries that this
    process has to give away, as an int32. *)

From S2P Require Import Prelude Protos RaftCommon KVStore KVStoreSpec Shard ShardWorld.
From S2P Require Import Redistribution Pending.

Section answers.
Context `{!Proto, !ConsistentHash} {E : Type} `{!Raft E, !RaftSetup E, !Net E, !OS E}.
Context `{!OSLaws E}.
Implicit Types (w : World E).

(** [w'] has the processes of [w]. *)
Definition same_procs w w' : Prop := w_procs w' = w_procs w.

(** The process that leads the shard at an address: the address leads to a process, which
    asks its Raft instance for the leader and calls the address that it has for it. Also,
    the environment in which that call arrives. *)
Definition leader_asked (target : string) w : option (string * E) :=
  match net_route target (w_env w) with
  | (e1, Reach node _) =>
      p ← w_procs w !! node;
      r ← k_raft (m_kv (p_mem p));
      let (e2, l) := raft_LeaderWithID r e1 in
      t ← p_replicaClients p !! l.2;
      match net_route t e2 with
      | (e3, Reach n _) => Some (n, e3)
      | _ => None
      end
  | _ => None
  end.

(** The ring of the new shards in the configuration that this process reads then. *)
Definition ring_asked (target : string) w : option (string * ring) :=
  '(n, e) ← leader_asked target w;
  p ← w_procs w !! n;
  match (os_ReadFile n (f_configFile (p_flags p)) e).2 with
  | Ok buf =>
      match yaml_Unmarshal buf with
      | Ok c => (n,.) <$> consistent_New (map ks_Name (kc_NewShards c)) consistentHashCfg
      | Err _ => None
      end
  | Err _ => None
  end.

(** A call succeeds only if a running process has handled it. *)
Lemma rpc_Ok_inv {A} target (h : string -> M (World E) (res A)) w w' a :
  rpc target h w = (w', Ret (Ok a)) ->
  exists node w1 lost, net_route target (w_env w) = (w_env w1, Reach node lost) /\
    same_procs w w1 /\ alive w1 node = true /\ h node w1 = (w', Ret (Ok a)).
Proof.
  unfold rpc, bind, envc, get, ret. intros Hrun.
  destruct (net_route target (w_env w)) as [e' [code desc|node lost]]; [done|].
  set (w1 := {| w_procs := w_procs w; w_env := e'; w_go := w_go w |}) in Hrun.
  destruct (alive w1 node) eqn:Halive; [|done].
  exists node, w1, lost. split_and!; [done|done|done|].
  destruct (h node w1) as [w2 [r|why|]]; [|done|done].
  destruct lost as [[code desc]|]; [done|]. destruct r as [a'|err]; simpl in Hrun.
  - by simplify_eq.
  - by destruct err.
Qed.

Lemma alive_proc w node :
  alive w node = true -> exists p, w_procs w !! node = Some p /\ p_crashed p = false.
Proof.
  unfold alive. destruct (w_procs w !! node) as [p|]; [|done].
  intros Hc%negb_true_iff. by exists p.
Qed.

(** Asking for the leader leaves the processes as they are. *)
Lemma kv_Leader_procs self w w' a :
  kv self KVStore_Leader w = (w', Ret a) -> same_procs w w' /\
  exists p r addr, w_procs w !! self = Some p /\ k_raft (m_kv (p_mem p)) = Some r /\
    raft_LeaderWithID r (w_env w) = (w_env w', (addr, a)).
Proof.
  intros Hrun. pose proof Hrun as Hrun0. unfold kv, bind at 1, proc in Hrun.
  destruct (w_procs w !! self) as [p|] eqn:Hp; [|done].
  destruct (p_crashed p) eqn:Hc; [done|].
  destruct (KVStore_Leader (p_mem p, w_env w)) as [[m e] o] eqn:Hop.
  assert (m = p_mem p /\ o = Ret a /\ exists r addr, k_raft (m_kv (p_mem p)) = Some r /\
    raft_LeaderWithID r (w_env w) = (e, (addr, a))) as (-> & -> & r & addr & Hr & Hl).
  { injection Hrun as _ ->.
    unfold KVStore_Leader, with_raft, bind, get, env_call, ret, crash in Hop. simpl in Hop.
    destruct (k_raft (m_kv (p_mem p))) as [r|]; [|by simplify_eq].
    simpl in Hop. destruct (raft_LeaderWithID r (w_env w)) as [e' [addr l]] eqn:Hl.
    simplify_eq. split; [done|]. split; [done|]. by exists r, addr. }
  rewrite (kv_readonly self _ w p e a Hp Hc Hop) in Hrun0. injection Hrun0 as <-.
  split; [done|]. by exists p, r, addr.
Qed.

(** A shard answers through a process of the leader's address. *)
Lemma at_leader_Ok_inv {A} self (call : string -> M (World E) (res A)) w w' a :
  at_leader self call w = (w', Ret (Ok a)) ->
  exists w1 p r addr leader target, same_procs w w1 /\ w_procs w !! self = Some p /\
    k_raft (m_kv (p_mem p)) = Some r /\
    raft_LeaderWithID r (w_env w) = (w_env w1, (addr, leader)) /\
    p_replicaClients p !! leader = Some target /\ call target w1 = (w', Ret (Ok a)).
Proof.
  unfold at_leader. intros (w1 & leader & Hl & Hrun)%bind_Ret_inv.
  apply kv_Leader_procs in Hl as (Hl & p0 & r & addr & Hp0 & Hr & Hlead).
  case_decide; [done|].
  apply bind_Ret_inv in Hrun as (w2 & p & Hp & Hrun). unfold proc in Hp.
  destruct (w_procs w1 !! self) as [p'|] eqn:Hself; [|done].
  destruct (p_crashed p'); [done|]. injection Hp as <- <-. unfold with_client in Hrun.
  destruct (p_replicaClients p' !! leader) as [target|] eqn:Ht; [|done].
  rewrite Hl, Hp0 in Hself. injection Hself as <-.
  by exists w1, p0, r, addr, leader, target.
Qed.

Lemma ReadConfig_inv self w w' c p :
  w_procs w !! self = Some p -> ReadConfig self w = (w', Ret c) ->
  exists e buf, os_ReadFile self (f_configFile (p_flags p)) (w_env w) = (e, Ok buf) /\
    yaml_Unmarshal buf = Ok c /\
    w' = {| w_procs := w_procs w; w_env := e; w_go := w_go w |}.
Proof.
  intros Hp. unfold ReadConfig, bind, proc, envc. rewrite Hp.
  destruct (p_crashed p); [done|].
  destruct (os_ReadFile self _ (w_env w)) as [e [buf|err]]; [|done].
  destruct (yaml_Unmarshal buf) as [c'|err] eqn:Hy; [|done].
  intros [= <- <-]. by exists e, buf.
Qed.

(** A loop that counts ends only if the keys it meets are located. *)
Lemma count_located self newCh p (present : World E -> string -> bool) l acc w w' n :
  w_procs w !! self = Some p ->
  for_acc l acc (fun acc k => w <- get ;;
    if present w k then count_body self newCh acc k else ret acc) w = (w', Ret n) ->
  Forall (fun k => present w k = true ->
    is_Some (LocateKey (p_ch p) k) /\ is_Some (LocateKey newCh k)) l.
Proof.
  intros Hp. revert acc. induction l as [|k l IH]; intros acc Hrun; [constructor|].
  simpl in Hrun. apply bind_Ret_inv in Hrun as (w1 & acc' & Hk & Hrun).
  unfold bind at 1, get in Hk. destruct (present w k) eqn:Hpr.
  - unfold count_body, bind, proc, locate, crash, ret in Hk. rewrite Hp in Hk.
    destruct (p_crashed p); [done|].
    destruct (LocateKey (p_ch p) k) as [old|] eqn:Ho; [|done].
    destruct (LocateKey newCh k) as [new|] eqn:Hn; [|done].
    assert (w1 = w) as -> by (by destruct (must_move _ _ _); simplify_eq).
    constructor; [by eauto|]. by eapply IH.
  - injection Hk as <- <-. constructor; [congruence|]. by eapply IH.
Qed.

(** A process that answers has located its keys, and its answer is the number of its
    entries that have to move, as an int32. *)
Lemma replica_answer_inv self i w w' a p s :
  w_procs w !! self = Some p -> p_crashed p = false -> node_ok (p_mem p) s ->
  replicaRpcServer_RedistributeKeys self i w = (w', Ret (Ok a)) ->
  exists e' buf c newCh,
    os_ReadFile self (f_configFile (p_flags p)) (w_env w) = (e', Ok buf) /\
    yaml_Unmarshal buf = Ok c /\
    consistent_New (map ks_Name (kc_NewShards c)) consistentHashCfg = Some newCh /\
    rk_PendingKeys a = int32 (Z.of_nat (size (moving_entries p newCh (sp_map s)))).
Proof.
  intros Hp Hc Hok Hrun. pose proof Hrun as Hrun0.
  unfold replicaRpcServer_RedistributeKeys in Hrun. unfold spawn, modify, bind at 1 in Hrun.
  set (w1 := {| w_procs := w_procs w; w_env := w_env w; w_go := _ |}) in Hrun.
  apply bind_Ret_inv in Hrun as (w2 & c & Hrd & Hrun).
  destruct (ReadConfig_inv self w1 w2 c p Hp Hrd) as (e & buf & Hf & Hy & ->).
  unfold new_ring in Hrun.
  destruct (consistent_New _ consistentHashCfg) as [newCh|] eqn:Hring; [|done].
  exists e, buf, c, newCh. split_and!; [done..|].
  assert (Hloc : located p newCh (sp_map s)).
  { unfold bind at 1, ret at 1 in Hrun. apply bind_Ret_inv in Hrun as (w3 & n & Hrun & _).
    change (range_keys self 0%Z (count_body self newCh)
      {| w_procs := w_procs w; w_env := e; w_go := w_go w1 |} = (w3, Ret n)) in Hrun.
    unfold range_keys in Hrun. erewrite bind_Ret in Hrun;
      [|apply (kv_readonly self _ _ p); [done..|];
        apply KVStore_Keys_run; by destruct Hok as (_ & _ & ?)].
    unfold range_map in Hrun. rewrite (bind_Ret get _ _ _ _ eq_refl) in Hrun.
    apply bind_Ret_inv in Hrun as (w4 & order & Ho & Hrun). unfold envc in Ho. simpl in Ho.
    match type of Ho with context [range_order ?ks e] =>
      destruct (range_order ks e) as [e2 order'] eqn:Hord end.
    injection Ho as <- <-. apply range_order_keys in Hord as [_ Hall].
    apply (count_located self newCh p) in Hrun; [|done]. rewrite Forall_forall in Hrun.
    intros k Hk. apply Hrun.
    - apply Hall. match goal with |- context [proc_entries self _ ?w0] =>
        rewrite (proc_entries_holds self w0 p s Hp Hok) end.
      destruct Hk as [v Hv]. apply list_elem_of_fmap. exists (k, v).
      split; [done|]. by apply elem_of_map_to_list.
    - match goal with |- context [proc_entries self _ ?w0] =>
        rewrite (proc_entries_holds self w0 p s Hp Hok) end. by apply bool_decide_eq_true. }
  destruct (replica_RedistributeKeys_run self i p s w e buf c newCh) as [e'' Hrun1]; try done.
  rewrite Hrun1 in Hrun0. by simplify_eq.
Qed.

End answers.
