(* ===== verification/Stable.v ===== *)
(** * A cluster that keeps working

    While the environment is [stable] leaders do not change, every request
    reaches its process and its answer comes back, and the configuration file
    can be read. This file shows what single calls do then: writing an entry at the
    leader of a shard ([wrote]), and changes that touch no store ([quiet]). *)

From S2P Require Import Prelude Protos RaftCommon KVStore KVStoreSpec Shard ShardWorld.
From S2P Require Import Redistribution Pending.

(** [leads r] says whether the Raft instance [r] is a leader, [known_leader r]
    is the leader that [r] knows of, and [entry_node t] the process at which a
    request to address [t] arrives. *)
Class StableCluster `{!Proto} (E : Type) `{!Raft E, !Net E, !OS E} := {
  stable : E -> Prop;
  leads : string -> bool;
  known_leader : string -> string;
  entry_node : string -> option string;
  config_text : string;
  stable_State : forall r e, stable e ->
    exists e', raft_State r e = (e', if leads r then Leader else Follower) /\ stable e';
  stable_LeaderWithID : forall r e, stable e ->
    exists e' a, raft_LeaderWithID r e = (e', (a, known_leader r)) /\ stable e';
  stable_Apply : forall r d t e, stable e -> leads r = true ->
    exists e', raft_Apply r d t e = (e', (None, [EvApply d])) /\ stable e';
  stable_route : forall t n e, stable e -> entry_node t = Some n ->
    exists e', net_route t e = (e', Reach n None) /\ stable e';
  stable_Dial : forall t e, stable e ->
    exists e', grpc_Dial t e = (e', None) /\ stable e';
  stable_ReadFile : forall n f e, stable e ->
    exists e', os_ReadFile n f e = (e', Ok config_text) /\ stable e';
  stable_range : forall keys e, stable e -> stable (range_order keys e).1
}.

Section stable.
Context `{!Proto, !ConsistentHash} {E : Type} `{!Raft E, !RaftSetup E, !Net E, !OS E}.
Context `{!Topology E, !ProtoLaws, !StableCluster E}.
Implicit Types (w : World E) (n k v : string) (s : KVSpec).

(** The process is up and the environment works. *)
Definition healthy (w : World E) : Prop :=
  world_inv w /\ stable (w_env w) /\
  forall n p, w_procs w !! n = Some p -> p_crashed p = false.

(** The configuration of a healthy world is one that processes read. *)
Lemma healthy_read_text w : healthy w -> read_text E config_text.
Proof.
  intros (_ & Hst & _). destruct (stable_ReadFile "" "" (w_env w) Hst) as (e' & Hread & _).
  by repeat eexists.
Qed.

(** The Raft instance of a process. *)
Definition instance_of (w : World E) (n : string) : option string :=
  p ← w_procs w !! n; k_raft (m_kv (p_mem p)).

Definition leading (w : World E) (n : string) : bool :=
  match instance_of w n with Some r => leads r | None => false end.

(** The process that writes a redistributed entry which arrives at [n]: [n]
    itself if it leads, else the leader that it forwards to. *)
Definition put_node (w : World E) (n : string) : option string :=
  p ← w_procs w !! n;
  r ← k_raft (m_kv (p_mem p));
  if leads r then Some n
  else if decide (known_leader r = "") then None
  else
    t ← p_replicaClients p !! known_leader r;
    l ← entry_node t;
    if leading w l then Some l else None.

(** The clients of a process for shards use its shard port. *)
Definition dialled (p : Proc) : Prop :=
  forall name t, p_shardClients p !! name = Some t ->
    t = host_addr name (f_shardPort (p_flags p)).

(** ** What stays the same from one call to the next *)

(** [p'] is [p] up to entries of its store, more clients for shards, and its ring, which
    may change by [C]. *)
Definition proc_frame (C : ring -> ring -> Prop) (p p' : Proc) : Prop :=
  p_flags p' = p_flags p /\ C (p_ch p) (p_ch p') /\
  p_replicaClients p' = p_replicaClients p /\ p_crashed p' = p_crashed p /\
  p_redistributingKeys p' = p_redistributingKeys p /\ same_handles (p_mem p) (p_mem p') /\
  p_shardClients p ⊆ p_shardClients p' /\ (dialled p -> dialled p').

Definition framed (C : ring -> ring -> Prop) (w w' : World E) : Prop :=
  forall n, match w_procs w !! n, w_procs w' !! n with
            | Some p, Some p' => proc_frame C p p'
            | None, None => True
            | _, _ => False
            end.

#[export] Instance proc_frame_preorder C : PreOrder C -> PreOrder (proc_frame C).
Proof.
  intros HC. split.
  - intros p. unfold proc_frame. split_and!; done.
  - intros p1 p2 p3 (? & ? & ? & ? & ? & ? & ? & ?) (? & ? & ? & ? & ? & ? & ? & ?).
    unfold proc_frame. split_and!; try congruence; eauto.
    + by trans (p_ch p2).
    + unfold same_handles in *. intuition congruence.
    + by trans (p_shardClients p2).
Qed.

#[export] Instance framed_preorder C : PreOrder C -> PreOrder (framed C).
Proof.
  intros HC. split.
  - intros w n. destruct (w_procs w !! n); [reflexivity|done].
  - intros w1 w2 w3 H12 H23 n. specialize (H12 n). specialize (H23 n).
    destruct (w_procs w1 !! n), (w_procs w2 !! n), (w_procs w3 !! n); try done.
    by etrans.
Qed.

Lemma framed_weaken (C C' : ring -> ring -> Prop) w w' :
  (forall a b, C a b -> C' a b) -> framed C w w' -> framed C' w w'.
Proof.
  intros HC Hf n. specialize (Hf n). destruct (w_procs w !! n), (w_procs w' !! n); try done.
  destruct Hf as (? & ? & Hrest). split; [done|]. split; [by apply HC|done].
Qed.

(** One process changes, by [proc_frame]. *)
Lemma framed_insert C `{!PreOrder C} w w' n p p' :
  w_procs w !! n = Some p -> proc_frame C p p' -> w_procs w' = <[n := p']> (w_procs w) ->
  framed C w w'.
Proof.
  intros Hp Hf Hw m. rewrite Hw. destruct (decide (n = m)) as [<-|Hne].
  - by rewrite Hp, lookup_insert_eq.
  - rewrite lookup_insert_ne by done. destruct (w_procs w !! m); [reflexivity|done].
Qed.

Section framed.
Context (C : ring -> ring -> Prop) (w w' : World E) (Hf : framed C w w').

Lemma framed_proc n p :
  w_procs w !! n = Some p -> exists p', w_procs w' !! n = Some p' /\ proc_frame C p p'.
Proof.
  intros Hp. specialize (Hf n). rewrite Hp in Hf. destruct (w_procs w' !! n); [eauto|done].
Qed.

Lemma framed_back_proc n p' :
  w_procs w' !! n = Some p' -> exists p, w_procs w !! n = Some p /\ proc_frame C p p'.
Proof.
  intros Hp'. specialize (Hf n). rewrite Hp' in Hf. destruct (w_procs w !! n); [eauto|done].
Qed.

Lemma framed_None n : w_procs w !! n = None -> w_procs w' !! n = None.
Proof. intros Hp. specialize (Hf n). rewrite Hp in Hf. by destruct (w_procs w' !! n). Qed.

Lemma framed_instance n : instance_of w' n = instance_of w n.
Proof.
  unfold instance_of. destruct (w_procs w !! n) as [p|] eqn:Hp.
  - destruct (framed_proc n p Hp) as (p' & -> & (_ & _ & _ & _ & _ & (Hr & _) & _)). done.
  - by rewrite framed_None.
Qed.

Lemma framed_leading n : leading w' n = leading w n.
Proof. unfold leading. by rewrite framed_instance. Qed.

Lemma framed_put_node n : put_node w' n = put_node w n.
Proof.
  unfold put_node. destruct (w_procs w !! n) as [p|] eqn:Hp.
  - destruct (framed_proc n p Hp) as (p' & -> & (_ & _ & Hrc & _ & _ & (Hr & _) & _)). simpl.
    rewrite Hr, Hrc. destruct (k_raft (m_kv (p_mem p))) as [r|]; simpl; [|done].
    destruct (leads r); [done|]. case_decide; [done|].
    destruct (p_replicaClients p !! known_leader r) as [t|]; simpl; [|done].
    destruct (entry_node t) as [l|]; simpl; [|done]. by rewrite framed_leading.
  - by rewrite framed_None.
Qed.

End framed.

(** Only the store of [n] changed, by [f]. *)
Definition wrote (n : string) (f : KVSpec -> KVSpec) (w w' : World E) : Prop :=
  stable (w_env w') /\ w_go w' = w_go w /\
  exists p m' s, w_procs w !! n = Some p /\ node_ok (p_mem p) s /\ node_ok m' (f s) /\
    same_handles (p_mem p) m' /\ w_procs w' = <[n := set_p_mem m' p]> (w_procs w).

(** ** The methods of the store at a leader *)

Lemma with_env_procs w e : stable e -> healthy w ->
  healthy {| w_procs := w_procs w; w_env := e; w_go := w_go w |}.
Proof. intros He (Hinv & _ & Hc). by split_and!. Qed.

(** Proposing an entry at a leader. *)
Lemma apply_entry_leads r d en t m s e :
  node_ok m s -> Unmarshal_KVFSMLogEntry d = Ok en -> stable e -> leads r = true ->
  exists e' m', apply_entry (E := E) r d t (m, e) = ((m', e'), Ret None) /\ stable e' /\
    node_ok m' (spec_apply s en) /\ same_handles m m'.
Proof.
  intros Hok Hd He Hr. destruct (stable_Apply r d t e He Hr) as (e' & Happ & He').
  unfold apply_entry, bind, env_call; simpl. rewrite Happ; simpl.
  destruct (deliver_replay [d] [en] m s (proj1 Hok)) as (l & Hl & Hrun); [by constructor|].
  simpl in Hrun. unfold on_mem; simpl. rewrite Hrun. simpl.
  eexists e', _. split; [done|]. split; [done|]. split; [by eapply node_ok_mem_apply|done].
Qed.

(** A method that proposes the entry [en] if it runs at a leader. *)
Definition proposes (op : M (Mem * E) gerror) (en : KVFSMLogEntry) : Prop :=
  forall m s e r, node_ok m s -> k_raft (m_kv m) = Some r -> stable e ->
  exists e' m', stable e' /\
    if leads r then op (m, e) = ((m', e'), Ret None) /\ node_ok m' (spec_apply s en) /\
                    same_handles m m'
    else op (m, e) = ((m, e'), Ret (Some ErrNotLeader)).

Lemma Set_proposes k v : encodable (set_entry k v) -> proposes (KVStore_Set k v) (set_entry k v).
Proof.
  intros Henc m s e r Hok Hr He. unfold KVStore_Set, with_raft, bind, get; simpl.
  rewrite Hr. unfold env_call; simpl. destruct (stable_State r e He) as (e1 & Hst & He1).
  rewrite Hst. simpl. destruct (leads r) eqn:Hl.
  - rewrite decide_False by auto. unfold encodable, set_entry in Henc.
    destruct (Marshal_KVFSMLogEntry _) as [b|] eqn:Hb; [|done].
    apply Unmarshal_Marshal_KVFSMLogEntry in Hb.
    destruct (apply_entry_leads r b _ 10 m s e1 Hok Hb He1 Hl) as (e' & m' & ? & ? & ? & ?).
    by exists e', m'.
  - rewrite decide_True by done. by exists e1, m.
Qed.

Lemma Delete_proposes k : encodable (delete_entry k) -> proposes (KVStore_Delete k) (delete_entry k).
Proof.
  intros Henc m s e r Hok Hr He. unfold KVStore_Delete, with_raft, bind, get; simpl.
  rewrite Hr. unfold env_call; simpl. destruct (stable_State r e He) as (e1 & Hst & He1).
  rewrite Hst. simpl. destruct (leads r) eqn:Hl.
  - rewrite decide_False by auto. unfold encodable, delete_entry in Henc.
    destruct (Marshal_KVFSMLogEntry _) as [b|] eqn:Hb; [|done].
    apply Unmarshal_Marshal_KVFSMLogEntry in Hb.
    destruct (apply_entry_leads r b _ 10 m s e1 Hok Hb He1 Hl) as (e' & m' & ? & ? & ? & ?).
    by exists e', m'.
  - rewrite decide_True by done. by exists e1, m.
Qed.

Lemma kv_proposes_leader n op en w :
  proposes op en -> healthy w -> leading w n = true ->
  exists w', kv n op w = (w', Ret None) /\ wrote n (fun s => spec_apply s en) w w'.
Proof.
  intros Hop (Hinv & Hst & Hc) Hl. unfold leading, instance_of in Hl.
  destruct (w_procs w !! n) as [p|] eqn:Hp; [|done]. simpl in Hl.
  destruct (k_raft (m_kv (p_mem p))) as [r|] eqn:Hr; [|done].
  destruct (Hinv _ _ Hp) as (_ & (s & Hs) & _).
  destruct (Hop _ _ _ _ Hs Hr Hst) as (e' & m' & He' & Hrun). rewrite Hl in Hrun.
  destruct Hrun as (Hrun & Hok' & Hsame). eexists. split.
  - unfold kv. rewrite (bind_Ret _ _ _ _ _ (proc_alive _ _ _ Hp (Hc _ _ Hp))).
    by rewrite Hrun.
  - split; [done|]. split; [done|]. exists p, m', s. by split_and!.
Qed.

Lemma kv_proposes_follower n op en w p r :
  proposes op en -> healthy w -> w_procs w !! n = Some p ->
  k_raft (m_kv (p_mem p)) = Some r -> leads r = false ->
  exists e', stable e' /\ kv n op w =
    ({| w_procs := w_procs w; w_env := e'; w_go := w_go w |}, Ret (Some ErrNotLeader)).
Proof.
  intros Hop (Hinv & Hst & Hc) Hp Hr Hl. destruct (Hinv _ _ Hp) as (_ & (s & Hs) & _).
  destruct (Hop _ _ _ _ Hs Hr Hst) as (e' & m' & He' & Hrun). rewrite Hl in Hrun.
  exists e'. split; [done|]. apply (kv_readonly n op w p); eauto.
Qed.

(** ** What a write leaves alone *)

Section wrote.
Context (n0 : string) (f : KVSpec -> KVSpec) (w w' : World E) (Hwrote : wrote n0 f w w').

(** A process after the write: all but its store is the same. *)
Lemma wrote_proc n p :
  w_procs w !! n = Some p -> exists m', w_procs w' !! n = Some (set_p_mem m' p) /\
    same_handles (p_mem p) m' /\
    (forall s, node_ok (p_mem p) s -> node_ok m' (if decide (n = n0) then f s else s)).
Proof.
  intros Hp. destruct Hwrote as (_ & _ & p0 & m0 & s0 & Hp0 & Hs0 & Hm0 & Hsame & ->).
  rewrite lookup_insert. case_decide as Hn.
  - subst n0. simplify_eq. exists m0. split; [done|]. split; [done|].
    intros s Hs. rewrite decide_True by done. by rewrite (node_ok_fun _ _ _ Hs Hs0).
  - exists (p_mem p). rewrite set_p_mem_id. split; [done|]. split; [done|].
    intros s Hs. by rewrite decide_False by congruence.
Qed.

Lemma wrote_proc_None n : w_procs w !! n = None -> w_procs w' !! n = None.
Proof.
  intros Hp. destruct Hwrote as (_ & _ & p0 & m0 & s0 & Hp0 & _ & _ & _ & ->).
  rewrite lookup_insert_ne; [done|]. congruence.
Qed.

Lemma wrote_holds n s :
  holds w n s -> holds w' n (if decide (n = n0) then f s else s).
Proof.
  intros (p & Hp & Hs). destruct (wrote_proc n p Hp) as (m' & Hp' & _ & Hm').
  exists (set_p_mem m' p). split; [done|]. by apply Hm'.
Qed.

Lemma wrote_framed : framed eq w w'.
Proof.
  destruct Hwrote as (_ & _ & p & m' & s & Hp & _ & _ & Hsame & Hw').
  eapply framed_insert; [apply _|exact Hp| |exact Hw']. unfold proc_frame. by split_and!.
Qed.

Lemma wrote_leading n : leading w' n = leading w n.
Proof. eapply framed_leading, wrote_framed. Qed.

Lemma wrote_put_node n : put_node w' n = put_node w n.
Proof. eapply framed_put_node, wrote_framed. Qed.

Lemma wrote_healthy : healthy w -> healthy w'.
Proof.
  intros (Hinv & _ & Hc).
  assert (Hback : forall n p', w_procs w' !! n = Some p' -> exists p m',
    w_procs w !! n = Some p /\ p' = set_p_mem m' p /\ same_handles (p_mem p) m' /\
    (forall s, node_ok (p_mem p) s -> exists s', node_ok m' s')).
  { intros n p' Hp'. destruct (w_procs w !! n) as [p|] eqn:Hp.
    - destruct (wrote_proc n p Hp) as (m' & Hp'' & Hsame & Hm'). simplify_eq.
      exists p, m'. split_and!; [done..|]. intros s Hs. eexists. by apply Hm'.
    - by rewrite wrote_proc_None in Hp'. }
  split; [|split].
  - intros n p' Hp'. destruct (Hback n p' Hp') as (p & m' & Hp & -> & (Hr & _) & Hm').
    destruct (Hinv n p Hp) as (Hcl & (s & Hs) & Hraft). split; [done|]. split.
    + destruct (Hm' s Hs) as [s' Hs']. by exists s'.
    + simpl. by rewrite Hr.
  - by destruct Hwrote.
  - intros n p' Hp'. destruct (Hback n p' Hp') as (p & m' & Hp & -> & _). exact (Hc n p Hp).
Qed.

End wrote.

(** ** A redistributed entry is written *)

Lemma put_node_shard w n l :
  healthy w -> put_node w n = Some l -> node_shard l = node_shard n.
Proof.
  intros (Hinv & Hst & _). unfold put_node.
  destruct (w_procs w !! n) as [p|] eqn:Hp; simpl; [|done].
  destruct (k_raft (m_kv (p_mem p))) as [r|]; simpl; [|done].
  destruct (leads r); [congruence|]. case_decide; [done|].
  destruct (p_replicaClients p !! known_leader r) as [t|] eqn:Ht; simpl; [|done].
  destruct (entry_node t) as [l'|] eqn:Hl; simpl; [|done].
  destruct (leading w l'); [|done]. intros [= <-].
  destruct (stable_route t l' (w_env w) Hst Hl) as (e' & Hroute & _).
  exact (replica_client_route w n p (known_leader r) t _ _ l' None Hinv Hp Ht Hroute).
Qed.

(** An RPC to an address that leads to a running process. *)
Lemma rpc_stable {A} t n (handler : string -> M (World E) (res A)) w p a (Q : World E -> Prop) :
  healthy w -> entry_node t = Some n -> w_procs w !! n = Some p ->
  (forall e', stable e' -> exists w',
     handler n {| w_procs := w_procs w; w_env := e'; w_go := w_go w |} = (w', Ret (Ok a)) /\
     Q w') ->
  exists w', rpc t handler w = (w', Ret (Ok a)) /\ Q w'.
Proof.
  intros (_ & Hst & Hc) Hn Hp Hh.
  destruct (stable_route t n (w_env w) Hst Hn) as (e' & Hroute & He').
  destruct (Hh e' He') as (w' & Hrun & HQ). exists w'. split; [|done].
  unfold rpc, bind, envc. rewrite Hroute. simpl.
  unfold alive. simpl. rewrite Hp, (Hc _ _ Hp). simpl. by rewrite Hrun.
Qed.

Lemma leading_proc w n : leading w n = true -> exists p, w_procs w !! n = Some p.
Proof. unfold leading, instance_of. destruct (w_procs w !! n); [eauto|done]. Qed.

(** [replicaRpcServer.Put] of a redistributed entry at a leader. *)
Lemma replica_Put_leads n k v w :
  encodable (set_entry k v) -> healthy w -> leading w n = true ->
  exists w', replicaRpcServer_Put n
      {| ip_Key := k; ip_Value := v; ip_IsRedistribution := true |} w =
      (w', Ret (Ok mkPutResponse)) /\ wrote n (spec_set k v) w w'.
Proof.
  intros Henc Hw Hl. unfold replicaRpcServer_Put. simpl.
  rewrite (bind_Ret (ret false) _ w w false eq_refl).
  destruct (kv_proposes_leader n _ _ w (Set_proposes k v Henc) Hw Hl) as (w' & Hrun & Hwr).
  exists w'. split; [|done]. by rewrite (bind_Ret _ _ _ _ _ Hrun).
Qed.

(** [shardRpcServer.Put] of a redistributed entry at any process of the shard. *)
Lemma shard_Put_stable n l k v w :
  encodable (set_entry k v) -> healthy w -> put_node w n = Some l ->
  exists w', shardRpcServer_Put n
      {| ip_Key := k; ip_Value := v; ip_IsRedistribution := true |} w =
      (w', Ret (Ok mkPutResponse)) /\ wrote l (spec_set k v) w w'.
Proof.
  intros Henc Hw Hput. unfold shardRpcServer_Put. simpl. unfold put_node in Hput.
  destruct (w_procs w !! n) as [p|] eqn:Hp; simpl in Hput; [|done].
  destruct (k_raft (m_kv (p_mem p))) as [r|] eqn:Hr; simpl in Hput; [|done].
  destruct (leads r) eqn:Hlead.
  { injection Hput as <-.
    destruct (kv_proposes_leader n _ _ w (Set_proposes k v Henc) Hw) as (w' & Hrun & Hwr).
    { unfold leading, instance_of. rewrite Hp. simpl. by rewrite Hr. }
    exists w'. split; [|done]. by rewrite (bind_Ret _ _ _ _ _ Hrun). }
  case_decide as Hnone; [done|].
  destruct (p_replicaClients p !! known_leader r) as [t|] eqn:Ht; simpl in Hput; [|done].
  destruct (entry_node t) as [l'|] eqn:Hl; simpl in Hput; [|done].
  destruct (leading w l') eqn:Hlead'; [|done]. injection Hput as ->.
  destruct (kv_proposes_follower n _ _ w p r (Set_proposes k v Henc) Hw Hp Hr Hlead)
    as (e1 & He1 & Hrun).
  rewrite (bind_Ret _ _ _ _ _ Hrun). unfold at_leader.
  destruct (stable_LeaderWithID r e1 He1) as (e2 & a & Hlid & He2).
  pose proof (proj2 (proj2 Hw) n p Hp) as Hc.
  erewrite bind_Ret; [|eapply (kv_readonly n KVStore_Leader _ p e2 (known_leader r));
    [done|done|]]; simpl.
  2:{ unfold KVStore_Leader, with_raft, bind, get, env_call; simpl. rewrite Hr. simpl.
      by rewrite Hlid. }
  rewrite decide_False by done.
  erewrite bind_Ret; [|by apply (proc_alive n _ p)]. unfold with_client. rewrite Ht.
  destruct (leading_proc w l Hlead') as [pl Hpl].
  apply (rpc_stable t l _ _ pl mkPutResponse (wrote l (spec_set k v) w)); [|done|done|].
  - by apply with_env_procs.
  - intros e' He'.
    destruct (replica_Put_leads l k v {| w_procs := w_procs w; w_env := e'; w_go := w_go w |}
      Henc) as (w' & Hrun' & Hwr); [by apply with_env_procs|done|].
    by exists w'.
Qed.

(** ** What a write means for entries *)

Lemma wrote_stored_other n f w w' n' k v :
  wrote n f w w' -> n' <> n -> stored w n' k v -> stored w' n' k v.
Proof.
  intros Hw Hne (s & Hs & Hv). exists s. split; [|done].
  apply (wrote_holds _ _ _ _ Hw) in Hs. by rewrite decide_False in Hs.
Qed.

Lemma wrote_stored_key n f w w' n' k v :
  wrote n f w w' -> (forall s, sp_map (f s) !! k = sp_map s !! k) ->
  stored w n' k v -> stored w' n' k v.
Proof.
  intros Hw Hk (s & Hs & Hv). apply (wrote_holds _ _ _ _ Hw) in Hs. eexists. split; [done|].
  case_decide; [by rewrite Hk|done].
Qed.

(** ** Changes that touch no store *)

Definition quiet (w w' : World E) : Prop :=
  stable (w_env w') /\ evolves unchanged w w' /\ w_go w' = w_go w /\
  forall n, match w_procs w !! n, w_procs w' !! n with
            | Some p, Some p' => p_mem p' = p_mem p /\ p_crashed p' = p_crashed p
            | None, None => True
            | _, _ => False
            end.

Lemma quiet_trans w1 w2 w3 : quiet w1 w2 -> quiet w2 w3 -> quiet w1 w3.
Proof.
  intros (_ & He1 & Hg1 & Hp1) (Hs & He2 & Hg2 & Hp2). split; [done|]. split; [|split; [congruence|]].
  - eapply evolves_trans; [|exact He1|exact He2]. by intros ? ? ? ? -> ->.
  - intros n. specialize (Hp1 n). specialize (Hp2 n).
    destruct (w_procs w1 !! n), (w_procs w2 !! n), (w_procs w3 !! n); try done.
    destruct Hp1, Hp2. split; congruence.
Qed.

Section quiet.
Context (w w' : World E) (Hq : quiet w w').

Lemma quiet_proc n p :
  w_procs w !! n = Some p -> exists p', w_procs w' !! n = Some p' /\
    p_mem p' = p_mem p /\ p_crashed p' = p_crashed p /\
    p_replicaClients p' = p_replicaClients p.
Proof.
  intros Hp. destruct Hq as (_ & Hev & _ & Hm). specialize (Hev n). specialize (Hm n).
  rewrite Hp in Hev, Hm. destruct (w_procs w' !! n) as [p'|]; [|done].
  destruct Hev as (_ & _ & ? & _), Hm. by exists p'.
Qed.

Lemma quiet_proc_None n : w_procs w !! n = None -> w_procs w' !! n = None.
Proof.
  intros Hp. destruct Hq as (_ & _ & _ & Hm). specialize (Hm n). rewrite Hp in Hm.
  by destruct (w_procs w' !! n).
Qed.

Lemma quiet_holds n s : holds w n s -> holds w' n s.
Proof.
  intros (p & Hp & Hs). destruct (quiet_proc n p Hp) as (p' & Hp' & Hm & _).
  exists p'. by rewrite Hm.
Qed.

Lemma quiet_stored n k v : stored w n k v -> stored w' n k v.
Proof. intros (s & Hs & Hv). exists s. split; [by apply quiet_holds|done]. Qed.

Lemma quiet_leading n : leading w' n = leading w n.
Proof.
  unfold leading, instance_of. destruct (w_procs w !! n) as [p|] eqn:Hp.
  - destruct (quiet_proc n p Hp) as (p' & -> & Hm & _). simpl. by rewrite Hm.
  - by rewrite quiet_proc_None.
Qed.

Lemma quiet_put_node n : put_node w' n = put_node w n.
Proof.
  unfold put_node. destruct (w_procs w !! n) as [p|] eqn:Hp.
  - destruct (quiet_proc n p Hp) as (p' & -> & Hm & _ & Hr). simpl. rewrite Hm, Hr.
    destruct (k_raft (m_kv (p_mem p))) as [r|]; simpl; [|done].
    destruct (leads r); [done|]. case_decide; [done|].
    destruct (p_replicaClients p !! known_leader r) as [t|]; simpl; [|done].
    destruct (entry_node t) as [l|]; simpl; [|done]. by rewrite quiet_leading.
  - by rewrite quiet_proc_None.
Qed.

Lemma quiet_healthy : healthy w -> healthy w'.
Proof.
  intros (Hinv & _ & Hc). destruct Hq as (Hs & Hev & _ & Hm).
  split; [by eapply evolves_inv|]. split; [done|].
  intros n p' Hp'. specialize (Hm n). rewrite Hp' in Hm.
  destruct (w_procs w !! n) as [p|] eqn:Hp; [|done]. destruct Hm as [_ ->]. by apply (Hc n).
Qed.

End quiet.

Lemma quiet_env w e : stable e ->
  quiet w {| w_procs := w_procs w; w_env := e; w_go := w_go w |}.
Proof.
  intros He. split; [done|]. split; [by apply evolves_same_procs|]. split; [done|].
  intros n. simpl. by destruct (w_procs w !! n).
Qed.

(** Changing a variable other than the store at one process. *)
Lemma quiet_upd w self f : stable (w_env w) ->
  (forall p, p_mem (f p) = p_mem p /\ p_crashed (f p) = p_crashed p) ->
  evolves unchanged w (upd_world self f w) -> quiet w (upd_world self f w).
Proof.
  intros Hs Hf Hev. split; [done|]. split; [done|]. split; [done|]. intros n. unfold upd_world; simpl.
  destruct (decide (self = n)) as [<-|Hne].
  - rewrite lookup_alter_eq. by destruct (w_procs w !! self); simpl.
  - rewrite lookup_alter_ne by done. by destruct (w_procs w !! n).
Qed.

Lemma quiet_redistributing w self b :
  stable (w_env w) -> quiet w (upd_world self (set_p_redistributingKeys b) w).
Proof. intros Hs. apply quiet_upd; [done|done|]. by apply evolves_redistributing. Qed.

(** ** Dialling the shards *)

(** [p'] is [p] with more clients for shards. *)
Definition more_clients (p p' : Proc) : Prop :=
  p_flags p' = p_flags p /\ p_ch p' = p_ch p /\ p_mem p' = p_mem p /\
  p_shardClients p ⊆ p_shardClients p' /\ dialled p'.

Lemma more_clients_trans p1 p2 p3 :
  more_clients p1 p2 -> more_clients p2 p3 -> more_clients p1 p3.
Proof.
  intros (? & ? & ? & ? & _) (? & ? & ? & ? & ?). split_and!; try congruence; [|done].
  by trans (p_shardClients p2).
Qed.

Lemma dial_one fuel self d w p :
  fuel <> 0%nat -> healthy w -> w_procs w !! self = Some p -> dialled p ->
  is_label (ks_Name d) = true ->
  exists w' p', PopulateShardClients fuel self [d] w = (w', Ret tt) /\ quiet w w' /\ framed eq w w' /\
    w_procs w' !! self = Some p' /\ more_clients p p' /\
    is_Some (p_shardClients p' !! ks_Name d).
Proof.
  intros Hfuel Hh Hp Hd Hl. destruct fuel as [|fuel]; [done|].
  pose proof (proj2 (proj2 Hh) _ _ Hp) as Hc.
  unfold PopulateShardClients. cbn [for_each loop].
  destruct (decide (is_Some (p_shardClients p !! ks_Name d))) as [Hin|Hnone].
  { exists w, p. split.
    - unfold bind. rewrite (proc_alive _ _ _ Hp Hc), decide_True by done. reflexivity.
    - split; [|by split]. destruct w as [ps e g]. apply (quiet_env {| w_procs := ps; w_env := e; w_go := g |}), Hh. }
  destruct (stable_Dial (host_addr (ks_Name d) (f_shardPort (p_flags p))) (w_env w)
    (proj1 (proj2 Hh))) as (e' & Hdial & He').
  set (w1 := {| w_procs := w_procs w; w_env := e'; w_go := w_go w |}).
  set (add := fun q => set_p_shardClients
    (<[ks_Name d := host_addr (ks_Name d) (f_shardPort (p_flags p))]> (p_shardClients q)) q).
  exists (upd_world self add w1), (add p). split.
  - unfold bind, envc. rewrite (proc_alive _ _ _ Hp Hc), decide_False by done.
    rewrite Hdial. reflexivity.
  - apply eq_None_not_Some in Hnone. split_and!.
    + apply (quiet_trans _ w1); [by apply quiet_env|]. apply quiet_upd; [done|done|].
      by apply (evolves_add_shard_client _ w1 self p).
    + eapply (framed_insert eq w _ self p (add p) Hp); [|].
      * unfold proc_frame. split_and!; try done; [by apply insert_subseteq|].
        intros Hd' name t. simpl. rewrite lookup_insert. case_decide as Hn; [|apply Hd'].
        subst name. congruence.
      * apply map_eq. intros n. unfold upd_world. simpl. rewrite lookup_alter, lookup_insert.
        case_decide; subst; by rewrite ?Hp.
    + unfold upd_world; simpl. by rewrite lookup_alter_eq, Hp.
    + split_and!; [done|done|done|by apply insert_subseteq|].
      intros name t. simpl. rewrite lookup_insert. case_decide as Hn; [|apply Hd].
      subst name. congruence.
    + simpl. by rewrite lookup_insert_eq.
Qed.

Lemma dial_all fuel self shards w p :
  fuel <> 0%nat -> healthy w -> w_procs w !! self = Some p -> dialled p ->
  (forall d, d ∈ shards -> is_label (ks_Name d) = true) ->
  exists w' p', PopulateShardClients fuel self shards w = (w', Ret tt) /\ quiet w w' /\ framed eq w w' /\
    w_procs w' !! self = Some p' /\ more_clients p p' /\
    forall d, d ∈ shards -> is_Some (p_shardClients p' !! ks_Name d).
Proof.
  intros Hfuel. revert w p. induction shards as [|d shards IH]; intros w p Hh Hp Hd Hl.
  { exists w, p. split; [done|]. split_and!; try done; [|set_solver].
    destruct w as [ps e g]. apply (quiet_env {| w_procs := ps; w_env := e; w_go := g |}), Hh. }
  destruct (dial_one fuel self d w p Hfuel Hh Hp Hd) as (w1 & p1 & Hrun1 & Hq1 & Hf1 & Hp1 & Hmore1 & Hin1).
  { apply Hl. by left. }
  destruct (IH w1 p1) as (w2 & p2 & Hrun2 & Hq2 & Hf2 & Hp2 & Hmore2 & Hin2).
  { by eapply quiet_healthy. }
  { done. }
  { by destruct Hmore1 as (_ & _ & _ & _ & ?). }
  { intros d' Hd'. apply Hl. by right. }
  exists w2, p2. split_and!.
  - unfold PopulateShardClients in *. cbn [for_each] in *.
    run_inv Hrun1 as (w1' & [] & Hone & Hrest). injection Hrest as ->.
    by rewrite (bind_Ret _ _ _ _ _ Hone).
  - by eapply quiet_trans.
  - by etrans.
  - done.
  - by eapply more_clients_trans.
  - intros d' [->|Hd']%elem_of_cons; [|by apply Hin2].
    destruct Hmore2 as (_ & _ & _ & Hsub & _). destruct Hin1 as [t Ht]. exists t.
    by eapply lookup_weaken.
Qed.

End stable.
