(* ===== verification/StableCalls.v ===== *)
(** * What the controller asks of shards, in a cluster that keeps working

    The three calls that the controller makes to a shard - to pause writes, to
    redistribute keys, to resume writes - when the shard has a leader: each of them
    returns the answer that the controller waits for. Pausing and resuming leave every
    entry where it is; after resuming, the replicas locate keys by the new ring. *)

From S2P Require Import Prelude Protos RaftCommon KVStore KVStoreSpec Shard ShardWorld.
From S2P Require Import Redistribution Pending Stable.

Section calls.
Context `{!Proto, !ConsistentHash} {E : Type} `{!Raft E, !RaftSetup E, !Net E, !OS E}.
Context `{!Topology E, !ProtoLaws, !StableCluster E, !OSLaws E, !ConfigLabels E}.
Implicit Types (w : World E) (n k v : string) (s : KVSpec).

(** ** Changes that move no entry *)

Definition same_maps w w' : Prop :=
  forall n s, holds w n s -> exists s', holds w' n s' /\ sp_map s' = sp_map s.

Definition calm (C : ring -> ring -> Prop) w w' : Prop :=
  healthy w' /\ framed C w w' /\ same_maps w w'.

Lemma calm_refl C `{!PreOrder C} w : healthy w -> calm C w w.
Proof. intros Hh. split; [done|]. split; [reflexivity|]. intros n s Hs. by exists s. Qed.

Lemma calm_trans C `{!PreOrder C} w1 w2 w3 : calm C w1 w2 -> calm C w2 w3 -> calm C w1 w3.
Proof.
  intros (_ & Hf1 & Hm1) (Hh & Hf2 & Hm2). split; [done|]. split; [by etrans|].
  intros n s Hs. destruct (Hm1 n s Hs) as (s1 & Hs1 & <-). by apply Hm2.
Qed.

Lemma calm_weaken (C C' : ring -> ring -> Prop) w w' :
  (forall a b, C a b -> C' a b) -> calm C w w' -> calm C' w w'.
Proof. intros HC (Hh & Hf & Hm). split; [done|]. split; [by eapply framed_weaken|done]. Qed.

(** Moves of the environment and new goroutines. *)
Lemma calm_env C `{!PreOrder C} w e g :
  healthy w -> stable e -> calm C w {| w_procs := w_procs w; w_env := e; w_go := g |}.
Proof.
  intros (Hinv & _ & Hc) He. split; [by split_and!|]. split.
  - intros n. simpl. destruct (w_procs w !! n); [reflexivity|done].
  - intros n s Hs. by exists s.
Qed.

Lemma calm_wrote n f w w' :
  healthy w -> wrote n f w w' -> (forall s, sp_map (f s) = sp_map s) -> calm eq w w'.
Proof.
  intros Hh Hw Hf. split; [by eapply wrote_healthy|]. split; [by eapply wrote_framed|].
  intros n' s Hs. apply (wrote_holds _ _ _ _ Hw) in Hs. eexists. split; [done|].
  by case_decide; rewrite ?Hf.
Qed.

(** ** The leader of the shard at an address *)

Definition leader_at w (t l : string) : Prop :=
  exists n p r tl, entry_node t = Some n /\ w_procs w !! n = Some p /\
    k_raft (m_kv (p_mem p)) = Some r /\ known_leader r <> "" /\
    p_replicaClients p !! known_leader r = Some tl /\ entry_node tl = Some l /\
    leading w l = true.

Lemma leader_at_framed C w w' t l : framed C w w' -> leader_at w t l -> leader_at w' t l.
Proof.
  intros Hf (n & p & r & tl & Hn & Hp & Hr & Hk & Ht & Hl & Hlead).
  destruct (framed_proc _ _ _ Hf n p Hp) as (p' & Hp' & (_ & _ & Hrc & _ & _ & (Hr' & _) & _)).
  exists n, p', r, tl. rewrite Hr', Hrc, (framed_leading _ _ _ Hf). by split_and!.
Qed.

(** A process asks its store who leads. *)
Lemma Leader_stable n p r w :
  healthy w -> w_procs w !! n = Some p -> k_raft (m_kv (p_mem p)) = Some r ->
  exists e', stable e' /\ kv n KVStore_Leader w =
    ({| w_procs := w_procs w; w_env := e'; w_go := w_go w |}, Ret (known_leader r)).
Proof.
  intros (_ & Hst & Hc) Hp Hr.
  destruct (stable_LeaderWithID r (w_env w) Hst) as (e' & a & Hlid & He').
  exists e'. split; [done|]. apply (kv_readonly n _ w p); [done|by apply (Hc n)|].
  unfold KVStore_Leader, with_raft, bind, get, env_call; simpl. rewrite Hr. simpl.
  by rewrite Hlid.
Qed.

(** A call that a process of the shard hands on to the leader. *)
Lemma at_leader_stable {A} t l (handler : string -> M (World E) (res A)) w (a : A)
    (Q : World E -> Prop) :
  healthy w -> leader_at w t l ->
  (forall e', stable e' -> exists w',
     handler l {| w_procs := w_procs w; w_env := e'; w_go := w_go w |} = (w', Ret (Ok a)) /\
     Q w') ->
  exists w', rpc t (fun node => at_leader node (fun target => rpc target handler)) w =
    (w', Ret (Ok a)) /\ Q w'.
Proof.
  intros Hh (n & p & r & tl & Hn & Hp & Hr & Hk & Ht & Hl & Hlead) Hrun.
  apply (rpc_stable t n _ w p a Q Hh Hn Hp). intros e1 He1.
  set (w1 := {| w_procs := w_procs w; w_env := e1; w_go := w_go w |}).
  assert (Hh1 : healthy w1) by (by apply with_env_procs).
  destruct (Leader_stable n p r w1 Hh1 Hp Hr) as (e2 & He2 & Hlid).
  destruct (leading_proc w l Hlead) as [pl Hpl].
  destruct (rpc_stable tl l handler {| w_procs := w_procs w; w_env := e2; w_go := w_go w |}
    pl a Q) as (w' & Hrun' & HQ); [by apply with_env_procs|done|done|done|].
  exists w'. split; [|done]. unfold at_leader. rewrite (bind_Ret _ _ _ _ _ Hlid).
  rewrite decide_False by done.
  erewrite bind_Ret; [|by apply (proc_alive n _ p); [|apply (proj2 (proj2 Hh) n)]].
  unfold with_client. rewrite Ht. exact Hrun'.
Qed.

(** ** Pausing *)

(** Changing the flag at a leader changes no entry. *)
Lemma SetWritesEnabled_leads b m s e r :
  encodable (toggle_entry b) -> node_ok m s -> k_raft (m_kv m) = Some r -> stable e ->
  leads r = true ->
  exists e' m' s', KVStore_SetWritesEnabled b (m, e) = ((m', e'), Ret None) /\ stable e' /\
    node_ok m' s' /\ same_handles m m' /\ sp_map s' = sp_map s.
Proof.
  intros Henc Hok Hr He Hl. destruct (Hok) as (Habs & Hst & Hmx).
  destruct (bool_decide_reflect (k_writesEnabled (m_kv m) = b)) as [Hb|Hb].
  { exists e, m, s. split; [by apply SetWritesEnabled_same|]. by split_and!. }
  set (m1 := upd_kv (set_k_mutex true) m).
  unfold encodable, toggle_entry in Henc. destruct (Marshal_KVFSMLogEntry _) as [d|] eqn:Hd; [|done].
  pose proof (Unmarshal_Marshal_KVFSMLogEntry _ _ Hd) as Hu.
  destruct (stable_Apply r d 10 e He Hl) as (e' & Happ & He').
  destruct (deliver_replay [d] [toggle_entry b] m1 s) as (lc & Hlc & Hrun);
    [exact Habs|by constructor|].
  exists e', (upd_kv (set_k_mutex false) (mem_apply m1 lc (spec_toggle b s))), (spec_toggle b s).
  split_and!; [|done| |done..].
  - unfold KVStore_SetWritesEnabled, kv_locked_env, bind at 1, get. simpl. rewrite Hmx.
    unfold bind at 1, on_mem, modify, deferred. simpl. fold m1.
    rewrite Hd. unfold with_raft.
    rewrite (bind_Ret get _ (m1, e) (m1, e) (m1, e) eq_refl).
    rewrite (proj2 (Bool.eqb_false_iff (k_writesEnabled (m_kv (m1, e).1)) b) Hb).
    rewrite (bind_Ret get _ (m1, e) (m1, e) (m1, e) eq_refl).
    change (k_raft (m_kv (m1, e).1)) with (k_raft (m_kv m)). rewrite Hr.
    unfold apply_entry, bind, env_call. simpl. rewrite Happ. unfold on_mem. simpl.
    simpl in Hrun. rewrite Hrun. done.
  - pose proof (fsm_abs_mem_apply m1 lc s (spec_toggle b s) Habs Hlc) as Habs'.
    split; [exact Habs'|]. split; [exact Hst|done].
Qed.

Lemma kv_SetWritesEnabled b l w :
  encodable (toggle_entry b) -> healthy w -> leading w l = true ->
  exists w', kv l (KVStore_SetWritesEnabled b) w = (w', Ret None) /\ calm eq w w' /\
    w_go w' = w_go w.
Proof.
  intros Henc Hh Hl. destruct (Hh) as (Hinv & Hst & Hc). unfold leading, instance_of in Hl.
  destruct (w_procs w !! l) as [p|] eqn:Hp; [|done]. simpl in Hl.
  destruct (k_raft (m_kv (p_mem p))) as [r|] eqn:Hr; [|done].
  destruct (Hinv _ _ Hp) as (_ & (s & Hs) & _).
  destruct (SetWritesEnabled_leads b _ _ _ _ Henc Hs Hr Hst Hl)
    as (e' & m' & s' & Hrun & He' & Hs' & Hsame & Hmap).
  exists {| w_procs := <[l := set_p_mem m' p]> (w_procs w); w_env := e'; w_go := w_go w |}.
  split; [|split; [|reflexivity]].
  - unfold kv. rewrite (bind_Ret _ _ _ _ _ (proc_alive _ _ _ Hp (Hc _ _ Hp))).
    by rewrite Hrun.
  - eapply (calm_wrote l (fun s0 => {| sp_map := sp_map s0; sp_writes := sp_writes s' |}));
      [done| |done]. split; [done|]. split; [done|]. exists p, m', s. split_and!; try done.
    rewrite <- Hmap. by destruct s'.
Qed.

Context (c : KVStoreConfig) (Hcfg : yaml_Unmarshal config_text = Ok c).

Lemma ReadConfig_stable n p w :
  healthy w -> w_procs w !! n = Some p ->
  exists e', stable e' /\ ReadConfig n w =
    ({| w_procs := w_procs w; w_env := e'; w_go := w_go w |}, Ret c).
Proof.
  intros (_ & Hst & Hc) Hp.
  destruct (stable_ReadFile n (f_configFile (p_flags p)) (w_env w) Hst) as (e' & Hread & He').
  exists e'. split; [done|]. by apply (ReadConfig_ok n w p e' config_text); [|apply (Hc n)|..].
Qed.

(** While new shards are announced, a shard with a leader answers that it has paused. *)
Lemma PauseWrites_stable t l w :
  encodable (toggle_entry false) -> kc_NewShards c <> [] -> healthy w -> leader_at w t l ->
  exists w', rpc t (fun node => shardRpcServer_PauseWrites node mkPauseWritesRequest) w =
    (w', Ret (Ok {| pw_IsPaused := true |})) /\ calm eq w w' /\ w_go w' = w_go w.
Proof.
  intros Henc Hnew Hh Hat. apply (at_leader_stable t l _ w); [done|done|].
  intros e1 He1. set (w1 := {| w_procs := w_procs w; w_env := e1; w_go := w_go w |}).
  assert (Hlead : leading w l = true) by (by destruct Hat as (? & ? & ? & ? & ? & ? & ? & ? & ? & ? & ?)).
  destruct (leading_proc w l Hlead) as [p Hp].
  assert (Hh1 : healthy w1) by (by apply with_env_procs).
  destruct (ReadConfig_stable l p w1 Hh1 Hp) as (e2 & He2 & Hread).
  set (w2 := {| w_procs := w_procs w; w_env := e2; w_go := w_go w |}).
  destruct (kv_SetWritesEnabled false l w2) as (w' & Hrun & Hcalm & Hgo);
    [done|by apply with_env_procs|done|].
  exists w'. split; [|split; [|done]].
  - unfold replicaRpcServer_PauseWrites. rewrite (bind_Ret _ _ _ _ _ Hread).
    rewrite decide_False by (by destruct (kc_NewShards c)). by rewrite (bind_Ret _ _ _ _ _ Hrun).
  - eapply (calm_trans eq); [by apply (calm_env _ w e2 (w_go w))|exact Hcalm].
Qed.

(** ** Redistributing *)

(** The answer is the number of entries of the leader that have to move, and a
    redistribution is started there. *)
Lemma RedistributeKeys_asked t l w p s newCh :
  healthy w -> leader_at w t l -> w_procs w !! l = Some p -> node_ok (p_mem p) s ->
  consistent_New (map ks_Name (kc_NewShards c)) consistentHashCfg = Some newCh ->
  located p newCh (sp_map s) ->
  exists w', rpc t (fun node => shardRpcServer_RedistributeKeys node mkRedistributeKeysRequest) w =
    (w', Ret (Ok {| rk_PendingKeys :=
       int32 (Z.of_nat (size (moving_entries p newCh (sp_map s)))) |})) /\
    calm eq w w' /\ w_go w' = w_go w ++ [(l, Go_RedistributeKeys)].
Proof.
  intros Hh Hat Hp Hs Hring Hloc. apply (at_leader_stable t l _ w); [done|done|].
  intros e1 He1. set (w1 := {| w_procs := w_procs w; w_env := e1; w_go := w_go w |}).
  destruct (stable_ReadFile l (f_configFile (p_flags p)) e1 He1) as (e2 & Hread & He2).
  destruct (replica_RedistributeKeys_run l mkRedistributeKeysRequest p s w1 e2 config_text c newCh)
    as [keys Hrun]; [done|by apply (proj2 (proj2 Hh) l)|done..|].
  eexists. split; [exact Hrun|]. split; [|done].
  by apply (calm_env eq w _ _); [|apply stable_range].
Qed.

(** ** Resuming *)

(** A process that locates keys by [r] and has a client for each configured shard. *)
Definition serves (r : ring) (p : Proc) : Prop :=
  p_ch p = r /\ forall d, d ∈ kc_Shards c ->
    p_shardClients p !! ks_Name d = Some (host_addr (ks_Name d) (f_shardPort (p_flags p))).

Definition serving (r : ring) w n : Prop := exists p, w_procs w !! n = Some p /\ serves r p.

(** A ring stays, or is replaced by [r]. *)
Definition adopts (r : ring) (a b : ring) : Prop := b = a \/ b = r.

#[export] Instance adopts_preorder r : PreOrder (adopts r).
Proof.
  split; [by left|]. intros a b d [->| ->] [->| ->]; unfold adopts; auto.
Qed.

Lemma serving_calm r w w' n : calm (adopts r) w w' -> serving r w n -> serving r w' n.
Proof.
  intros (_ & Hf & _) (p & Hp & Hch & Hcl).
  destruct (framed_proc _ _ _ Hf n p Hp) as (p' & Hp' & (Hfl & Had & _ & _ & _ & _ & Hsub & _)).
  exists p'. split; [done|]. split; [by destruct Had as [->| ->]|].
  intros d Hd. rewrite Hfl. eapply lookup_weaken; [by apply Hcl|done].
Qed.

(** Clients of replicas lead to processes, and clients of shards use the shard port. *)
Definition linked w : Prop := forall n p, w_procs w !! n = Some p ->
  dialled p /\ forall key t, p_replicaClients p !! key = Some t ->
    exists m, entry_node t = Some m /\ is_Some (w_procs w !! m).

Lemma linked_framed C w w' : framed C w w' -> linked w -> linked w'.
Proof.
  intros Hf Hl n p' Hp'. destruct (framed_back_proc _ _ _ Hf n p' Hp') as (p & Hp & Hpf).
  destruct Hpf as (_ & _ & Hrc & _ & _ & _ & _ & Hd). destruct (Hl n p Hp) as [Hdl Hcl].
  split; [by apply Hd|]. intros key t Ht. rewrite Hrc in Ht.
  destruct (Hcl key t Ht) as (m & Hm & [q Hq]). exists m. split; [done|].
  destruct (framed_proc _ _ _ Hf m q Hq) as (q' & Hq' & _). by exists q'.
Qed.

Context (fuel : nat) (Hfuel : fuel <> 0%nat) (Hnone : kc_NewShards c = []).
Context (r : ring) (Hring : consistent_New (map ks_Name (kc_Shards c)) consistentHashCfg = Some r).

(** Reloading the configuration when no new shards are announced. *)
Lemma ReloadConfig_stable n w p :
  healthy w -> w_procs w !! n = Some p -> dialled p ->
  exists w', ReloadConfig fuel n w = (w', Ret true) /\ calm (adopts r) w w' /\
    w_go w' = w_go w /\ serving r w' n.
Proof.
  intros Hh Hp Hdl. destruct (ReadConfig_stable n p w Hh Hp) as (e1 & He1 & Hread).
  set (w1 := {| w_procs := w_procs w; w_env := e1; w_go := w_go w |}) in *.
  set (w2 := upd_world n (set_p_ch r) w1).
  assert (Hp2 : w_procs w2 !! n = Some (set_p_ch r p)).
  { unfold w2, upd_world; simpl. by rewrite lookup_alter_eq, Hp. }
  assert (Hins : w_procs w2 = <[n := set_p_ch r p]> (w_procs w)).
  { apply map_eq. intros m. unfold w2, upd_world. simpl. rewrite lookup_alter, lookup_insert.
    case_decide; subst; by rewrite ?Hp. }
  assert (Hc2 : calm (adopts r) w w2).
  { destruct (Hh) as (Hinv & _ & Hc). split; [split; [|split]; [|done|]|split].
    - intros m q. rewrite Hins, lookup_insert. case_decide; [|apply Hinv].
      subst m. intros [= <-]. exact (Hinv _ _ Hp).
    - intros m q. rewrite Hins, lookup_insert. case_decide; [|apply Hc].
      subst m. intros [= <-]. exact (Hc _ _ Hp).
    - eapply framed_insert; [apply _|exact Hp| |exact Hins].
      unfold proc_frame. split_and!; try done. by right.
    - intros m s (q & Hq & Hs). exists s. split; [|done]. unfold holds. rewrite Hins, lookup_insert.
      case_decide; [subst m; simplify_eq; by eexists|by exists q]. }
  destruct (dial_all fuel n (kc_Shards c) w2 (set_p_ch r p) Hfuel (proj1 Hc2) Hp2 Hdl)
    as (w3 & p3 & Hdial & Hq3 & Hf3 & Hp3 & (Hfl & Hch & Hmem & _ & Hdl3) & Hin).
  { intros d Hd. eapply config_labels; [by eapply healthy_read_text, Hh|exact Hcfg|]. set_solver. }
  exists w3. split_and!.
  - unfold ReloadConfig. rewrite (bind_Ret _ _ _ _ _ Hread).
    rewrite Hnone, decide_False by auto. unfold new_ring. rewrite Hring.
    unfold bind at 1, ret at 1. rewrite (bind_Ret (upd_proc n _) _ w1 w2 tt eq_refl).
    by rewrite (bind_Ret _ _ _ _ _ Hdial).
  - eapply (calm_trans (adopts r)); [exact Hc2|]. split; [eapply quiet_healthy; [exact Hq3|apply Hc2]|].
    split; [eapply framed_weaken; [|exact Hf3]; intros ? ? ->; by left|].
    intros m s Hs. exists s. split; [by eapply quiet_holds|done].
  - by destruct Hq3 as (_ & _ & -> & _).
  - exists p3. split; [done|]. split; [done|]. intros d Hd. destruct (Hin d Hd) as [t Ht].
    by rewrite Ht, (Hdl3 _ _ Ht).
Qed.

(** Visiting the clients of all replicas with calls that move no entry. *)
Lemma range_replicas {S} n p w (acc : S) body (P : string -> World E -> Prop) :
  healthy w -> w_procs w !! n = Some p ->
  (forall key w1 w2, calm (adopts r) w1 w2 -> P key w1 -> P key w2) ->
  (forall key t w1, calm (adopts r) w w1 -> p_replicaClients p !! key = Some t ->
     exists w2, body acc key w1 = (w2, Ret acc) /\ calm (adopts r) w1 w2 /\
       w_go w2 = w_go w1 /\ P key w2) ->
  exists w', range_replicaClients n acc body w = (w', Ret acc) /\ calm (adopts r) w w' /\
    w_go w' = w_go w /\ forall key, is_Some (p_replicaClients p !! key) -> P key w'.
Proof.
  intros Hh Hp Hmono Hbody.
  unfold range_replicaClients, range_map. rewrite (bind_Ret get _ _ _ _ eq_refl).
  assert (Hkeys : proc_replicaClients n w = p_replicaClients p)
    by (unfold proc_replicaClients; by rewrite Hp).
  rewrite Hkeys. set (keys := (map_to_list (p_replicaClients p)).*1).
  destruct (range_order keys (w_env w)) as [e1 order] eqn:Ho.
  pose proof (stable_range keys (w_env w) (proj1 (proj2 Hh))) as He1. rewrite Ho in He1. simpl in He1.
  destruct (range_order_keys _ _ _ _ Ho) as [_ Hall].
  set (w1 := {| w_procs := w_procs w; w_env := e1; w_go := w_go w |}).
  unfold bind at 1, envc at 1. rewrite Ho. fold w1.
  assert (Hc1 : calm (adopts r) w w1) by (by apply (calm_env (adopts r) w e1 (w_go w))).
  cut (forall l w1, calm (adopts r) w w1 -> exists w',
    for_acc l acc (fun acc k => w <- get ;;
      if bool_decide (is_Some (proc_replicaClients n w !! k)) then body acc k else ret acc) w1 =
      (w', Ret acc) /\ calm (adopts r) w1 w' /\ w_go w' = w_go w1 /\
    forall key, key ∈ l -> is_Some (p_replicaClients p !! key) -> P key w').
  { intros Hcut. destruct (Hcut order w1 Hc1) as (w' & Hrun & Hc' & Hg' & HP).
    exists w'. split; [exact Hrun|]. split; [exact (calm_trans _ _ _ _ Hc1 Hc')|].
    split; [by rewrite Hg'|]. intros key [t Ht]. apply HP; [|by exists t].
    apply Hall, list_elem_of_fmap. exists (key, t). split; [done|]. by apply elem_of_map_to_list. }
  clear Hc1. intros l. induction l as [|key l IH]; intros w2 Hc2.
  { exists w2. split; [done|]. split_and!; [|done|].
    - split; [apply Hc2|]. split; [reflexivity|]. intros m s Hs. by exists s.
    - intros key Hin. by apply elem_of_nil in Hin. }
  cbn [for_acc].
  assert (Hpr : proc_replicaClients n w2 = p_replicaClients p).
  { destruct (framed_proc _ _ _ (proj1 (proj2 Hc2)) n p Hp) as (p2 & Hp2 & (_ & _ & Hrc & _)).
    unfold proc_replicaClients. by rewrite Hp2. }
  destruct (decide (is_Some (p_replicaClients p !! key))) as [Hin|Hout].
  - destruct (Hin) as [t Ht]. destruct (Hbody key t w2 Hc2 Ht) as (w3 & Hb & Hc3 & Hg3 & HP3).
    destruct (IH w3) as (w' & Hrun & Hc' & Hg' & HP'); [exact (calm_trans _ _ _ _ Hc2 Hc3)|].
    exists w'. split_and!; [|exact (calm_trans _ _ _ _ Hc3 Hc')|congruence|].
    + erewrite bind_Ret; [exact Hrun|]. unfold bind at 1, get at 1.
      by rewrite Hpr, bool_decide_true.
    + intros key' [->|Hin']%elem_of_cons Hk'; [by eapply Hmono|by apply HP'].
  - destruct (IH w2 Hc2) as (w' & Hrun & Hc' & Hg' & HP').
    exists w'. split_and!; [|done|done|].
    { erewrite bind_Ret; [exact Hrun|]. unfold bind at 1, get at 1.
      by rewrite Hpr, bool_decide_false. }
    intros key' [->|Hin']%elem_of_cons Hk'; [done|by apply HP'].
Qed.

(** Asking a replica to reload. *)
Lemma reload_stable t m w :
  healthy w -> linked w -> entry_node t = Some m -> is_Some (w_procs w !! m) ->
  exists w', rpc t (fun node => replicaRpcServer_ReloadConfig fuel node mkReloadConfigRequest) w =
      (w', Ret (Ok {| rc_ReloadSuccessful := true |})) /\
    calm (adopts r) w w' /\ w_go w' = w_go w /\ serving r w' m.
Proof.
  intros Hh Hlk Hm [p Hp]. apply (rpc_stable t m _ w p); [done..|]. intros e1 He1.
  set (w1 := {| w_procs := w_procs w; w_env := e1; w_go := w_go w |}).
  destruct (ReloadConfig_stable m w1 p) as (w' & Hrun & Hc & Hg & Hs);
    [by apply with_env_procs|done|by apply (Hlk m)|].
  exists w'. split; [|split; [|done]].
  - unfold replicaRpcServer_ReloadConfig. by rewrite (bind_Ret _ _ _ _ _ Hrun).
  - eapply (calm_trans (adopts r)); [by apply (calm_env (adopts r) w e1 (w_go w))|exact Hc].
Qed.

(** The replicas that process [l] knows. *)
Definition replica_of w (l m : string) : Prop :=
  exists p key t, w_procs w !! l = Some p /\ p_replicaClients p !! key = Some t /\
    entry_node t = Some m.

Lemma replica_of_framed C w w' l m : framed C w w' -> replica_of w l m -> replica_of w' l m.
Proof.
  intros Hf (p & key & t & Hp & Ht & Hm).
  destruct (framed_proc _ _ _ Hf l p Hp) as (p' & Hp' & (_ & _ & Hrc & _)).
  exists p', key, t. by rewrite Hrc.
Qed.

(** All replicas of [n] reload, in a loop whose body asks one of them. *)
Lemma reload_all {S} n p w (acc : S) body :
  healthy w -> linked w -> w_procs w !! n = Some p ->
  (forall key t w1 w2, p_replicaClients p !! key = Some t ->
     proc_replicaClients n w1 = p_replicaClients p -> healthy w1 -> is_Some (w_procs w1 !! n) ->
     rpc t (fun node => replicaRpcServer_ReloadConfig fuel node mkReloadConfigRequest) w1 =
       (w2, Ret (Ok {| rc_ReloadSuccessful := true |})) ->
     body acc key w1 = (w2, Ret acc)) ->
  exists w', range_replicaClients n acc body w = (w', Ret acc) /\ calm (adopts r) w w' /\
    w_go w' = w_go w /\ forall m, replica_of w n m -> serving r w' m.
Proof.
  intros Hh Hlk Hp Hbody.
  destruct (range_replicas n p w acc body (fun key w' => forall t m,
    p_replicaClients p !! key = Some t -> entry_node t = Some m -> serving r w' m))
    as (w' & Hrun & Hc & Hg & Hall); [done|done| | |].
  - intros key w1 w2 Hc HP t m Ht Hm. eapply serving_calm; [exact Hc|].
    by apply (HP t).
  - intros key t w1 Hc1 Ht. destruct (Hc1) as (Hh1 & Hf1 & _).
    destruct (proj2 (Hlk n p Hp) key t Ht) as (m & Hm & [q Hq]).
    destruct (framed_proc _ _ _ Hf1 m q Hq) as (q' & Hq' & _).
    destruct (framed_proc _ _ _ Hf1 n p Hp) as (p' & Hp' & (_ & _ & Hrc & _)).
    destruct (reload_stable t m w1 Hh1) as (w2 & Hrun & Hc2 & Hg2 & Hs2);
      [by eapply linked_framed|done|by exists q'|].
    exists w2. split_and!; [|done|done|].
    + apply (Hbody key t); [done| |done|by exists p'|done].
      unfold proc_replicaClients. by rewrite Hp'.
    + intros t' m' Ht' Hm'. congruence.
  - exists w'. split_and!; [done..|]. intros m (p' & key & t & Hp' & Ht & Hm).
    simplify_eq. by eapply (Hall key); [exists t|..].
Qed.

(** The leader of a shard resumes after all of its replicas have reloaded. *)
Lemma replica_ResumeWrites_stable l w :
  encodable (toggle_entry true) -> healthy w -> linked w -> leading w l = true ->
  exists w', replicaRpcServer_ResumeWrites fuel l mkResumeWritesRequest w =
      (w', Ret (Ok {| rw_IsResumed := true |})) /\
    calm (adopts r) w w' /\ w_go w' = w_go w /\
    forall m, replica_of w l m -> serving r w' m.
Proof.
  intros Henc Hh Hlk Hl. destruct (leading_proc w l Hl) as [p Hp].
  destruct (ReadConfig_stable l p w Hh Hp) as (e1 & He1 & Hread).
  set (w1 := {| w_procs := w_procs w; w_env := e1; w_go := w_go w |}) in *.
  unfold replicaRpcServer_ResumeWrites. rewrite (bind_Ret _ _ _ _ _ Hread).
  rewrite Hnone, decide_False by auto.
  edestruct (reload_all l p w1 (Ok true)) as (w2 & Hrun & Hc2 & Hg2 & Hs2);
    [by apply with_env_procs|exact Hlk|exact Hp| |].
  2:{ rewrite (bind_Ret _ _ _ _ _ Hrun).
      destruct (kv_SetWritesEnabled true l w2 Henc (proj1 Hc2)) as (w3 & Hset & Hc3 & Hg3).
      { by rewrite (framed_leading _ _ _ (proj1 (proj2 Hc2))). }
      assert (Hc3' : calm (adopts r) w2 w3)
        by (eapply calm_weaken; [|exact Hc3]; intros ? ? ->; by left).
      exists w3. rewrite (bind_Ret _ _ _ _ _ Hset). split_and!; [done| | |].
      - eapply (calm_trans (adopts r)); [by apply (calm_env (adopts r) w e1 (w_go w))|].
        exact (calm_trans _ _ _ _ Hc2 Hc3').
      - by rewrite Hg3, Hg2.
      - intros m Hm. eapply serving_calm; [exact Hc3'|]. by apply Hs2. }
  intros key t w3 w4 Ht Hcl Hh3 [p3 Hp3] Hrpc. unfold proc_replicaClients in Hcl.
  rewrite Hp3 in Hcl.
  rewrite (bind_Ret _ _ _ _ _ (proc_alive _ _ _ Hp3 (proj2 (proj2 Hh3) _ _ Hp3))).
  unfold with_client. rewrite Hcl, Ht. by rewrite (bind_Ret _ _ _ _ _ Hrpc).
Qed.

(** When no new shards are announced any more, a shard with a leader answers that it has
    resumed, and its replicas have adopted the configuration. *)
Lemma ResumeWrites_stable t l w :
  encodable (toggle_entry true) -> healthy w -> linked w -> leader_at w t l ->
  exists w', rpc t (fun node => shardRpcServer_ResumeWrites fuel node mkResumeWritesRequest) w =
      (w', Ret (Ok {| rw_IsResumed := true |})) /\
    calm (adopts r) w w' /\ w_go w' = w_go w /\
    forall m, replica_of w l m -> serving r w' m.
Proof.
  intros Henc Hh Hlk (n & p & q & tl & Hn & Hp & Hq & Hk & Ht & Hl & Hlead).
  apply (rpc_stable t n _ w p); [done..|]. intros e1 He1.
  set (w1 := {| w_procs := w_procs w; w_env := e1; w_go := w_go w |}).
  assert (Hh1 : healthy w1) by (by apply with_env_procs).
  destruct (Leader_stable n p q w1 Hh1 Hp Hq) as (e2 & He2 & Hlid).
  set (w2 := {| w_procs := w_procs w1; w_env := e2; w_go := w_go w1 |}) in *.
  assert (Hc2 : calm (adopts r) w w2) by (by apply (calm_env (adopts r) w e2 (w_go w))).
  unfold shardRpcServer_ResumeWrites. rewrite (bind_Ret _ _ _ _ _ Hlid).
  rewrite decide_False by done.
  edestruct (reload_all n p w2 tt) as (w3 & Hrun & Hc3 & Hg3 & _);
    [apply Hc2|exact Hlk|exact Hp| |].
  2:{ rewrite (bind_Ret _ _ _ _ _ Hrun).
      pose proof (calm_trans _ _ _ _ Hc2 Hc3) as Hc. destruct (Hc) as (Hh3 & Hf & _).
      destruct (framed_proc _ _ _ Hf n p Hp) as (p3 & Hp3 & (_ & _ & Hrc & _)).
      rewrite (bind_Ret _ _ _ _ _ (proc_alive _ _ _ Hp3 (proj2 (proj2 Hh3) _ _ Hp3))).
      unfold with_client. rewrite Hrc, Ht.
      destruct (leading_proc w l Hlead) as [pl Hpl].
      destruct (framed_proc _ _ _ Hf l pl Hpl) as (pl3 & Hpl3 & _).
      apply (rpc_stable tl l _ w3 pl3); [done..|]. intros e4 He4.
      set (w4 := {| w_procs := w_procs w3; w_env := e4; w_go := w_go w3 |}).
      assert (Hc4 : calm (adopts r) w w4).
      { exact (calm_trans _ _ _ _ Hc (calm_env (adopts r) w3 e4 (w_go w3) Hh3 He4)). }
      destruct (replica_ResumeWrites_stable l w4 Henc (proj1 Hc4)) as (w' & Hrun' & Hc' & Hg' & Hs').
      { eapply linked_framed; [apply Hc4|done]. }
      { by rewrite (framed_leading _ _ _ (proj1 (proj2 Hc4))). }
      exists w'. split_and!; [done|exact (calm_trans _ _ _ _ Hc4 Hc')|by rewrite Hg'|].
      intros m Hm. apply Hs'. eapply replica_of_framed; [apply Hc4|done]. }
  intros key t' w4 w5 Ht' Hcl Hh4 [p4 Hp4] Hrpc. unfold proc_replicaClients in Hcl.
  rewrite Hp4 in Hcl.
  rewrite (bind_Ret _ _ _ _ _ (proc_alive _ _ _ Hp4 (proj2 (proj2 Hh4) _ _ Hp4))).
  unfold with_client. rewrite Hcl, Ht'. by rewrite (bind_Ret _ _ _ _ _ Hrpc).
Qed.

End calls.
