(* ===== verification/Completion.v ===== *)
(** * Redistribution in a cluster that keeps working

    What [RedistributeKeys] does at a leader while the environment is [stable]: it
    returns, every entry that has to move has moved, and nothing else has changed. *)

From S2P Require Import Prelude Protos RaftCommon KVStore KVStoreSpec Shard ShardWorld.
From S2P Require Import Redistribution Pending Stable.

Section completion.
Context `{!Proto, !ConsistentHash} {E : Type} `{!Raft E, !RaftSetup E, !Net E, !OS E}.
Context `{!Topology E, !ProtoLaws, !StableCluster E}.
Implicit Types (w : World E) (n k v : string) (s : KVSpec).

(** ** One round of the loop *)

Section rounds.
Context (self : string) (newCh : ring) (p0 : Proc) (dst : string -> string) (r : mapref).

(** The process that a redistributed entry for shard [S] is written by. *)
Definition writer (w : World E) (S : string) : option string :=
  n ← entry_node (host_addr S (f_shardPort (p_flags p0))); put_node w n.

(** What every round relies on: [self] leads its shard, still has the variables
    of [p0], and has a client for every shard of the new ring, whose entries are
    written by [dst]. *)
Definition ready (w : World E) : Prop :=
  healthy w /\ leading w self = true /\
  (forall k S, LocateKey newCh k = Some S -> writer w S = Some (dst S)) /\
  exists p, w_procs w !! self = Some p /\ p_ch p = p_ch p0 /\ p_flags p = p_flags p0 /\
    k_store (m_kv (p_mem p)) = r /\
    forall k S, LocateKey newCh k = Some S ->
      p_shardClients p !! S = Some (host_addr S (f_shardPort (p_flags p0))).

Lemma ready_wrote n f w w' : wrote n f w w' -> ready w -> ready w'.
Proof.
  intros Hwr (Hh & Hl & Hd & p & Hp & Hch & Hfl & Hr & Hcl).
  split; [by eapply wrote_healthy|]. split; [by rewrite (wrote_leading _ _ _ _ Hwr)|]. split.
  - intros k S HS. rewrite <- (Hd k S HS). unfold writer.
    destruct (entry_node _); simpl; [|done]. by rewrite (wrote_put_node _ _ _ _ Hwr).
  - destruct (wrote_proc _ _ _ _ Hwr _ _ Hp) as (m' & Hp' & (_ & Hst & _) & _).
    exists (set_p_mem m' p). simpl. rewrite Hst. by split_and!.
Qed.

(** Entries for another shard are written by a process of that shard. *)
Lemma dst_shard w k S :
  ready w -> LocateKey newCh k = Some S -> node_shard (dst S) = S.
Proof.
  intros (Hh & _ & Hd & p & Hp & _ & _ & _ & Hcl) HS.
  specialize (Hd k S HS). unfold writer in Hd.
  destruct (entry_node _) as [n|] eqn:Hn; simpl in Hd; [|done].
  rewrite (put_node_shard w n (dst S) Hh Hd).
  destruct (stable_route _ _ (w_env w) (proj1 (proj2 Hh)) Hn) as (e' & Hroute & _).
  exact (shard_client_route w self p S _ _ _ n None (proj1 Hh) Hp (Hcl k S HS) Hroute).
Qed.

(** A key that has to move is written elsewhere. *)
Lemma dst_other w k S :
  node_shard self = f_shard (p_flags p0) -> ready w -> LocateKey newCh k = Some S ->
  moves_key p0 newCh k = true -> dst S <> self.
Proof.
  intros Hself Hr HS Hm Heq. pose proof (dst_shard w k S Hr HS) as HdS.
  unfold moves_key in Hm. rewrite HS in Hm. destruct (LocateKey (p_ch p0) k); [|done].
  apply andb_true_iff in Hm as [?%bool_decide_eq_true ?%bool_decide_eq_true]. congruence.
Qed.

(** A key that stays. *)
Lemma relocate_stays w k :
  ready w -> is_Some (LocateKey (p_ch p0) k) -> is_Some (LocateKey newCh k) ->
  moves_key p0 newCh k = false -> relocate_key self newCh k w = (w, Ret tt).
Proof.
  intros (Hh & _ & _ & p & Hp & Hch & Hfl & _) [o Ho] [S HS] Hm.
  unfold relocate_key. erewrite bind_Ret; [|apply (proc_alive _ _ _ Hp), (proj2 (proj2 Hh) _ _ Hp)].
  unfold locate. rewrite Hch, Ho, HS. unfold bind at 1, ret at 1, bind at 1, ret at 1.
  unfold moves_key, must_move in Hm. rewrite Ho, HS in Hm. rewrite Hfl.
  destruct (decide (o <> S)); [|done]. destruct (decide (o = _)); [|done].
  by rewrite !bool_decide_true in Hm by done.
Qed.

(** A key that moves: its entry is written at the new place, then deleted here. *)
Lemma relocate_moves w k v s S :
  ready w -> holds w self s -> sp_map s !! k = Some v ->
  LocateKey newCh k = Some S -> moves_key p0 newCh k = true ->
  encodable (set_entry k v) -> encodable (delete_entry k) ->
  exists w1 w', relocate_key self newCh k w = (w', Ret tt) /\
    wrote (dst S) (spec_set k v) w w1 /\ wrote self (spec_delete k) w1 w'.
Proof.
  intros Hready (p' & Hp' & Hok) Hv HS Hm He1 He2.
  destruct (Hready) as (Hh & Hl & Hd & p & Hp & Hch & Hfl & _ & Hcl).
  assert (p' = p) as -> by congruence. clear Hp'.
  pose proof (proj2 (proj2 Hh) _ _ Hp) as Hc.
  unfold moves_key in Hm. rewrite HS in Hm.
  destruct (LocateKey (p_ch p0) k) as [o|] eqn:Ho; [|done].
  apply andb_true_iff in Hm as [Hne%bool_decide_eq_true Heq%bool_decide_eq_true].
  unfold relocate_key. erewrite bind_Ret; [|by apply (proc_alive _ _ _ Hp)].
  unfold locate. rewrite Hch, Ho, HS. unfold bind at 1, ret at 1, bind at 1, ret at 1.
  rewrite Hfl, (decide_True (P := o <> S)), decide_True by done.
  rewrite (bind_Ret _ _ _ _ _ (kv_readonly self (KVStore_Get k) w p _ _ Hp Hc
    (KVStore_Get_run k _ s (w_env w) Hok))).
  unfold spec_get. rewrite Hv. erewrite bind_Ret; [|by apply (proc_alive _ _ p)].
  unfold with_client. rewrite (Hcl k S HS).
  specialize (Hd k S HS). unfold writer in Hd.
  destruct (entry_node _) as [n|] eqn:Hn; simpl in Hd; [|done].
  assert (exists pn, w_procs w !! n = Some pn) as [pn Hpn].
  { unfold put_node in Hd. destruct (w_procs w !! n); [eauto|done]. }
  destruct (rpc_stable _ n (fun node => shardRpcServer_Put node
      {| ip_Key := k; ip_Value := v; ip_IsRedistribution := true |}) w pn mkPutResponse
      (wrote (dst S) (spec_set k v) w) Hh Hn Hpn) as (w1 & Hrun1 & Hwr1).
  { intros e' He'. apply (shard_Put_stable n (dst S) k v
      {| w_procs := w_procs w; w_env := e'; w_go := w_go w |} He1); [|done].
    by apply with_env_procs. }
  destruct (kv_proposes_leader self _ _ w1 (Delete_proposes k He2)) as (w' & Hrun2 & Hwr2).
  { by eapply wrote_healthy. }
  { by rewrite (wrote_leading _ _ _ _ Hwr1). }
  exists w1, w'. split; [|done]. erewrite bind_Ret; [|destruct w; exact Hrun1].
  cbv iota beta. by rewrite (bind_Ret _ _ _ _ _ Hrun2).
Qed.

(** ** The loop *)

(** The entries of a store that the rounds over the keys [l] leave there. *)
Definition left_over (l : list string) (mp : gmap string string) : gmap string string :=
  filter (fun kv => ~ (kv.1 ∈ l /\ moves_key p0 newCh kv.1 = true)) mp.

Lemma left_over_cons k l mp :
  left_over (k :: l) mp =
  left_over l (if moves_key p0 newCh k then delete k mp else mp).
Proof.
  apply map_eq. intros k'. apply option_eq. intros v'. unfold left_over.
  rewrite !map_lookup_filter_Some, elem_of_cons. simpl.
  destruct (moves_key p0 newCh k) eqn:Hm.
  - rewrite lookup_delete_Some. split.
    + intros [Hv Hno]. split_and!; [|done|]; [intros ->|]; tauto.
    + intros [[Hne Hv] Hno]. split; [done|]. intros [[->|] ?]; tauto.
  - split; intros [Hv Hno]; (split; [done|]); [tauto|].
    intros [[->|] ?]; [congruence|tauto].
Qed.

(** The entries that process [n] gets in these rounds. *)
Definition gained (n : string) (l : list string) (mp : gmap string string) : gmap string string :=
  filter (fun kv => kv.1 ∈ l /\ moves_key p0 newCh kv.1 = true /\
                    dst <$> LocateKey newCh kv.1 = Some n) mp.

Lemma gained_nil n mp : gained n [] mp = ∅.
Proof.
  apply map_empty. intros k. unfold gained. apply map_lookup_filter_None. right.
  intros v _ [Hin _]. by apply elem_of_nil in Hin.
Qed.

Lemma gained_cons_stay n k l mp :
  moves_key p0 newCh k = false \/ mp !! k = None -> gained n (k :: l) mp = gained n l mp.
Proof.
  intros Hk. apply map_eq. intros k'. apply option_eq. intros v. unfold gained.
  rewrite !map_lookup_filter_Some, elem_of_cons. simpl. split.
  - intros (Hv & [->|Hin] & Hm & Hd); [|done]. destruct Hk; congruence.
  - naive_solver.
Qed.

Lemma gained_cons_move n k v S l mp mp' :
  k ∉ l -> moves_key p0 newCh k = true -> LocateKey newCh k = Some S -> mp !! k = Some v ->
  gained n (k :: l) mp ∪ mp' =
  gained n l (delete k mp) ∪ (if decide (n = dst S) then <[k := v]> mp' else mp').
Proof.
  intros Hl Hm HS Hv.
  assert (Hrest : forall k', k' <> k -> gained n (k :: l) mp !! k' = gained n l (delete k mp) !! k').
  { intros k' Hne. apply option_eq. intros v'. unfold gained.
    rewrite !map_lookup_filter_Some, elem_of_cons, lookup_delete_ne by done. naive_solver. }
  assert (Hk : gained n l (delete k mp) !! k = None).
  { unfold gained. apply map_lookup_filter_None. left. by rewrite lookup_delete_eq. }
  apply map_eq. intros k'. destruct (decide (k' = k)) as [->|Hne].
  - rewrite (lookup_union_r _ _ _ Hk). case_decide as Hn.
    + rewrite lookup_insert_eq. apply lookup_union_Some_l. unfold gained.
      apply map_lookup_filter_Some. simpl. rewrite HS, Hn. split_and!; [done|by left|done|done].
    + apply lookup_union_r. unfold gained. apply map_lookup_filter_None. right.
      intros v' Hv'. simpl. rewrite HS. intros (_ & _ & [=]). congruence.
  - rewrite !lookup_union, (Hrest k' Hne). f_equal. case_decide; [|done].
    by rewrite lookup_insert_ne.
Qed.

(** The body of the loop as [range_map] runs it. *)
Definition round (acc : unit) (key : string) : M (World E) unit :=
  w <- get ;;
  if bool_decide (is_Some (proc_entries self r w !! key))
  then relocate_key self newCh key else ret acc.

(** What a list of rounds achieves. *)
Definition rounds_done (l : list string) (w w' : World E) (s : KVSpec) : Prop :=
  ready w' /\
  (framed eq w w' /\ w_go w' = w_go w /\
   forall n sn, n <> self -> holds w n sn -> exists sn', holds w' n sn' /\
     sp_map sn' = gained n l (sp_map s) ∪ sp_map sn) /\
  (exists s', holds w' self s' /\ sp_map s' = left_over l (sp_map s)) /\
  (forall k v S, k ∈ l -> moves_key p0 newCh k = true -> sp_map s !! k = Some v ->
     LocateKey newCh k = Some S -> stored w' (dst S) k v) /\
  (forall n k v, n <> self ->
     ~ (k ∈ l /\ moves_key p0 newCh k = true /\ is_Some (sp_map s !! k)) ->
     stored w n k v -> stored w' n k v).

(** Entries of the store can be located and encoded. *)
Definition movable (s : KVSpec) : Prop :=
  located p0 newCh (sp_map s) /\
  forall k v, sp_map s !! k = Some v ->
    encodable (set_entry k v) /\ encodable (delete_entry k).

Lemma ready_entries w s :
  ready w -> holds w self s -> proc_entries self r w = sp_map s.
Proof.
  intros (_ & _ & _ & p & Hp & _ & _ & <- & _) (p' & Hp' & Hok).
  assert (p' = p) as -> by congruence. by apply proc_entries_holds.
Qed.

Lemma movable_delete s k : movable s -> movable (spec_delete k s).
Proof.
  intros [Hloc Henc]. split.
  - intros k'. simpl. intros [v' [_ Hv']%lookup_delete_Some]. apply Hloc. by exists v'.
  - intros k' v'. simpl. intros [_ Hv']%lookup_delete_Some. by apply Henc.
Qed.

(** One round, followed by the rest. *)
Lemma rounds_cons_stay k l w w' s :
  moves_key p0 newCh k = false \/ sp_map s !! k = None -> k ∉ l ->
  rounds_done l w w' s -> rounds_done (k :: l) w w' s.
Proof.
  intros Hk Hnot (Hr & (Hf & Hg & Hgain) & (s' & Hs' & Hmap) & Hmoved & Hkept).
  split_and!; [done| | | | | |]; try done.
  - intros n sn Hn Hsn. rewrite (gained_cons_stay n k l _ Hk). by apply Hgain.
  - exists s'. split; [done|]. rewrite Hmap, left_over_cons.
    destruct (moves_key p0 newCh k); [|done].
    destruct Hk as [|Hk]; [done|]. by rewrite delete_id.
  - intros k' v' S [->|Hin]%elem_of_cons Hm Hv HS; [|eauto].
    destruct Hk as [Hk|Hk]; congruence.
  - intros n k' v' Hn Hk' Hst. apply Hkept; [done| |done].
    intros (Hin & ? & ?). apply Hk'. split_and!; [by right|done|done].
Qed.

Lemma rounds_cons_move k v S l w w1 w2 w' s :
  ready w -> LocateKey newCh k = Some S -> moves_key p0 newCh k = true -> k ∉ l ->
  sp_map s !! k = Some v -> holds w self s ->
  wrote (dst S) (spec_set k v) w w1 -> wrote self (spec_delete k) w1 w2 ->
  dst S <> self ->
  rounds_done l w2 w' (spec_delete k s) -> rounds_done (k :: l) w w' s.
Proof.
  intros Hready HS Hm Hnot Hv Hs Hw1 Hw2 Hne
    (Hr & (Hf & Hg & Hgain) & (s' & Hs' & Hmap) & Hmoved & Hkept).
  split_and!; [done| | | | | |].
  - etrans; [by eapply wrote_framed|]. etrans; [by eapply wrote_framed|done].
  - rewrite Hg. destruct Hw1 as (_ & <- & _), Hw2 as (_ & <- & _). done.
  - intros n sn Hn Hsn. apply (wrote_holds _ _ _ _ Hw1) in Hsn.
    apply (wrote_holds _ _ _ _ Hw2) in Hsn. rewrite (decide_False (P := n = self)) in Hsn by done.
    destruct (Hgain n _ Hn Hsn) as (sn' & Hsn' & Hmap'). exists sn'. split; [done|].
    rewrite Hmap', (gained_cons_move n k v S) by done. simpl. f_equal. by case_decide.
  - exists s'. split; [done|]. by rewrite Hmap, left_over_cons, Hm.
  - intros k' v' S' [->|Hin]%elem_of_cons Hm' Hv' HS'.
    + simplify_eq. apply Hkept; [done|by intros [? _]|].
      eapply wrote_stored_other; [exact Hw2|done|].
      destruct Hready as ((Hinv & _) & _). destruct (Hw1) as (_ & _ & p & _ & sd & Hp & Hok & _).
      assert (Hd : holds w (dst S) sd) by (by exists p).
      apply (wrote_holds _ _ _ _ Hw1) in Hd. rewrite decide_True in Hd by done.
      eexists. split; [done|]. simpl. by rewrite lookup_insert_eq.
    + apply Hmoved; [done|done| |done]. simpl. rewrite lookup_delete_ne; [done|].
      intros ->. done.
  - intros n k' v' Hn Hk' Hst.
    assert (k' <> k) by (intros ->; apply Hk'; rewrite Hv; split_and!; [by left|done|done]).
    apply Hkept; [done| |].
    + intros (Hin & ? & [v0 Hv0]). apply Hk'. split_and!; [by right|done|]. exists v0.
      simpl in Hv0. by rewrite lookup_delete_ne in Hv0.
    + eapply wrote_stored_other; [exact Hw2|done|].
      eapply wrote_stored_key; [exact Hw1| |done]. intros s0. simpl.
      by rewrite lookup_insert_ne.
Qed.

Lemma rounds_run l w s :
  node_shard self = f_shard (p_flags p0) -> NoDup l ->
  ready w -> holds w self s -> movable s ->
  exists w', for_acc l tt round w = (w', Ret tt) /\
    rounds_done l w w' s.
Proof.
  intros Hself Hnd. revert w s. induction Hnd as [|k l Hnot Hnd IH]; intros w s Hr Hs Hmov.
  { exists w. split; [done|]. split_and!; [done|done|done| | |set_solver|done].
    { intros n sn _ Hsn. exists sn. by rewrite gained_nil, (left_id_L ∅ (∪)). }
    exists s. split; [done|]. unfold left_over. rewrite map_filter_id; [done|].
    intros ? ? _ [Hin _]. by apply elem_of_nil in Hin. }
  cbn [for_acc]. destruct Hmov as [Hloc Henc].
  assert (Hstay : moves_key p0 newCh k = false \/ sp_map s !! k = None ->
    exists w', (acc' <- round tt k;; for_acc l acc' round) w = (w', Ret tt) /\
      rounds_done (k :: l) w w' s).
  { intros Hcase. destruct (IH w s Hr Hs (conj Hloc Henc)) as (w' & Hrun & Hdone).
    exists w'. split; [|by apply rounds_cons_stay]. erewrite bind_Ret; [exact Hrun|].
    unfold round, bind at 1, get at 1. rewrite (ready_entries w s Hr Hs).
    case_bool_decide as Hin; [|done]. destruct (Hloc k Hin).
    apply relocate_stays; try done. destruct Hcase as [|Hnone]; [done|].
    rewrite Hnone in Hin. by destruct Hin. }
  destruct (moves_key p0 newCh k) eqn:Hm; [|by apply Hstay; left].
  destruct (sp_map s !! k) as [v|] eqn:Hv; [|by apply Hstay; right].
  assert (Hin : is_Some (sp_map s !! k)) by (by exists v).
  destruct (Hloc k Hin) as [_ [S HS]]. destruct (Henc k v Hv) as [He1 He2].
  destruct (relocate_moves w k v s S Hr Hs Hv HS Hm He1 He2) as (w1 & w2 & Hrun1 & Hw1 & Hw2).
  assert (Hne : dst S <> self).
  { by apply (dst_other w k S). }
  destruct (IH w2 (spec_delete k s)) as (w' & Hrun & Hdone).
  - by eapply ready_wrote, ready_wrote.
  - apply (wrote_holds _ _ _ _ Hw1) in Hs. rewrite decide_False in Hs by auto.
    apply (wrote_holds _ _ _ _ Hw2) in Hs. by rewrite decide_True in Hs.
  - by apply movable_delete.
  - exists w'. split; [|by eapply rounds_cons_move]. erewrite bind_Ret; [exact Hrun|].
    unfold round, bind at 1, get at 1. rewrite (ready_entries w s Hr Hs), Hv.
    rewrite bool_decide_true by done. exact Hrun1.
Qed.

End rounds.

(** ** The whole run *)

Context `{!ConsistentLaws, !OSLaws E, !ConfigLabels E}.

(** What [RedistributeKeys] at [self] relies on: [self] leads its shard, the
    configuration lists new shards whose ring is [newCh], entries can be located
    and encoded, and each new shard has a process that writes what is sent to it. *)
Definition can_redistribute (w : World E) (self : string) (p : Proc) (s : KVSpec)
    (c : KVStoreConfig) (newCh : ring) (dst : string -> string) : Prop :=
  healthy w /\ leading w self = true /\
  w_procs w !! self = Some p /\ node_ok (p_mem p) s /\ p_redistributingKeys p = false /\
  dialled p /\ yaml_Unmarshal config_text = Ok c /\ kc_NewShards c <> [] /\
  consistent_New (map ks_Name (kc_NewShards c)) consistentHashCfg = Some newCh /\
  movable newCh p s /\
  forall d, d ∈ kc_NewShards c -> writer p w (ks_Name d) = Some (dst (ks_Name d)).

(** The entries that process [n] gets. *)
Definition moved_to (newCh : ring) (p : Proc) (dst : string -> string) (n : string)
    (mp : gmap string string) : gmap string string :=
  filter (fun kv => moves_key p newCh kv.1 = true /\
                    dst <$> LocateKey newCh kv.1 = Some n) mp.

(** Every entry that has to move is at its new place, all others are where they
    were, the flag is reset, and no other variable has changed but for clients. *)
Definition redistributed (w w' : World E) (self : string) (p : Proc) (s : KVSpec)
    (newCh : ring) (dst : string -> string) : Prop :=
  healthy w' /\ framed eq w w' /\ w_go w' = w_go w /\
  (exists p' s', w_procs w' !! self = Some p' /\ node_ok (p_mem p') s' /\
     p_redistributingKeys p' = false /\ p_ch p' = p_ch p /\ p_flags p' = p_flags p /\
     sp_map s' = sp_map s ∖ moving_entries p newCh (sp_map s)) /\
  (forall k v S, moving_entries p newCh (sp_map s) !! k = Some v ->
     LocateKey newCh k = Some S -> stored w' (dst S) k v) /\
  (forall n k v, n <> self -> moving_entries p newCh (sp_map s) !! k = None ->
     stored w n k v -> stored w' n k v) /\
  (forall n sn, n <> self -> holds w n sn -> exists sn', holds w' n sn' /\
     sp_map sn' = moved_to newCh p dst n (sp_map s) ∪ sp_map sn).

Lemma gained_all newCh p dst n l mp :
  (forall k, is_Some (mp !! k) -> k ∈ l) ->
  gained newCh p dst n l mp = moved_to newCh p dst n mp.
Proof.
  intros Hall. apply map_filter_ext. intros k v Hv. simpl. split; [tauto|].
  intros ?. split; [|done]. apply Hall. by exists v.
Qed.

(** Between setting the flag and resetting it. *)
Lemma framed_flag w w' self p :
  w_procs w !! self = Some p -> p_redistributingKeys p = false ->
  framed eq (upd_world self (set_p_redistributingKeys true) w) w' ->
  framed eq w (upd_world self (set_p_redistributingKeys false) w').
Proof.
  intros Hp Hb Hf n. specialize (Hf n). unfold upd_world in *. simpl in *.
  rewrite lookup_alter in Hf. rewrite lookup_alter. case_decide as Hn; [subst n|done].
  rewrite Hp in *. simpl in Hf. destruct (w_procs w' !! self) as [p'|]; [|done]. simpl.
  destruct Hf as (? & ? & ? & ? & ? & ? & ? & Hd). unfold proc_frame. simpl in *.
  split_and!; done.
Qed.

Lemma left_over_all newCh p l mp :
  (forall k, is_Some (mp !! k) -> k ∈ l) ->
  left_over newCh p l mp = mp ∖ moving_entries p newCh mp.
Proof.
  intros Hall. apply map_eq. intros k. apply option_eq. intros v.
  unfold left_over, moving_entries.
  rewrite map_lookup_filter_Some, lookup_difference_Some, map_lookup_filter_None. simpl.
  split.
  - intros [Hv Hno]. split; [done|]. right. intros v' Hv' Hm. apply Hno.
    split; [|done]. apply Hall. by exists v.
  - intros [Hv [Hnone|Hno]]; [congruence|]. split; [done|]. intros [_ Hm].
    by apply (Hno v).
Qed.

(** Going through the keys of the store, once the clients are there. *)
Lemma range_rounds self newCh p0 dst w s p :
  node_shard self = f_shard (p_flags p0) -> w_procs w !! self = Some p ->
  node_ok (p_mem p) s -> movable newCh p0 s ->
  ready self newCh p0 dst (k_store (m_kv (p_mem p))) w ->
  exists w' l, range_keys self tt (fun _ key => relocate_key self newCh key) w =
      (w', Ret tt) /\
    (forall k, is_Some (sp_map s !! k) -> k ∈ l) /\
    rounds_done self newCh p0 dst (k_store (m_kv (p_mem p))) l w w' s.
Proof.
  intros Hself Hp Hok Hmov Hr. destruct (Hr) as ((_ & Hst & Hc) & _).
  unfold range_keys.
  rewrite (bind_Ret _ _ _ _ _ (kv_readonly self _ w p _ _ Hp (Hc _ _ Hp)
    (KVStore_Keys_run _ (w_env w) (proj2 (proj2 Hok))))).
  unfold range_map. rewrite (bind_Ret get _ _ _ _ eq_refl). simpl.
  pose proof (proc_entries_holds self {| w_procs := w_procs w; w_env := w_env w;
    w_go := w_go w |} p s Hp Hok) as Hent. rewrite Hent.
  destruct (range_order (map_to_list (sp_map s)).*1 (w_env w)) as [e' order] eqn:Ho.
  pose proof (stable_range (map_to_list (sp_map s)).*1 (w_env w) Hst) as He'.
  rewrite Ho in He'. simpl in He'.
  destruct (range_order_keys _ _ _ _ Ho) as [Hnd Hall].
  set (w1 := {| w_procs := w_procs w; w_env := e'; w_go := w_go w |}).
  destruct (rounds_run self newCh p0 dst (k_store (m_kv (p_mem p))) order w1 s)
    as (w' & Hrun & Hdone); [done|done| |by exists p|done|].
  { destruct Hr as (Hh & Hl & Hd & Hself'). split; [by apply with_env_procs|]. done. }
  exists w', order. split_and!.
  - unfold bind at 1, envc at 1. simpl. rewrite Ho. exact Hrun.
  - intros k [v Hv]. apply Hall, list_elem_of_fmap. exists (k, v).
    split; [done|]. by apply elem_of_map_to_list.
  - exact Hdone.
Qed.

(** The state in which the rounds start. *)
Lemma can_redistribute_ready w self p s c newCh dst w1 p1 :
  can_redistribute w self p s c newCh dst -> quiet w w1 ->
  w_procs w1 !! self = Some p1 -> more_clients p p1 ->
  (forall d, d ∈ kc_NewShards c -> is_Some (p_shardClients p1 !! ks_Name d)) ->
  ready self newCh p dst (k_store (m_kv (p_mem p1))) w1.
Proof.
  intros (Hh & Hl & Hp & Hok & _ & Hdl & _ & _ & Hring & _ & Hd) Hq Hp1 Hmore Hin.
  destruct Hmore as (Hfl & Hch & Hmem & _ & Hdl1).
  assert (Hloc : forall k S, LocateKey newCh k = Some S ->
    exists d, d ∈ kc_NewShards c /\ S = ks_Name d).
  { intros k S HS. pose proof (LocateKey_member _ _ _ _ _ Hring HS) as Hmem'.
    apply list_elem_of_fmap in Hmem' as (d & -> & Hd'). eauto. }
  split; [by eapply quiet_healthy|]. split; [by rewrite (quiet_leading _ _ Hq)|]. split.
  - intros k S HS. destruct (Hloc k S HS) as (d & Hd' & ->). rewrite <- (Hd d Hd').
    unfold writer. destruct (entry_node _); simpl; [|done]. by rewrite (quiet_put_node _ _ Hq).
  - exists p1. split_and!; try done. intros k S HS.
    destruct (Hloc k S HS) as (d & Hd' & ->). destruct (Hin d Hd') as [t Ht].
    rewrite Ht, (Hdl1 _ _ Ht). by rewrite Hfl.
Qed.

(** From the end of the rounds to the end of the run. *)
Lemma rounds_redistributed w w1 w2 self p s newCh dst r l :
  w_procs w !! self = Some p -> node_ok (p_mem p) s -> p_redistributingKeys p = false ->
  quiet w w1 -> framed eq (upd_world self (set_p_redistributingKeys true) w) w1 ->
  (forall k, is_Some (sp_map s !! k) -> k ∈ l) ->
  rounds_done self newCh p dst r l w1 w2 s ->
  redistributed w (upd_world self (set_p_redistributingKeys false) w2) self p s newCh dst.
Proof.
  intros Hp Hok Hb Hq Hf1 Hall
    (Hr & (Hf & Hg & Hgain) & (s' & (p2 & Hp2 & Hs') & Hmap) & Hmoved & Hkept).
  destruct Hr as (Hh2 & _ & _ & p2' & Hp2' & Hch & Hfl & _).
  assert (p2' = p2) as -> by congruence.
  assert (Hq2 : quiet w2 (upd_world self (set_p_redistributingKeys false) w2)).
  { apply quiet_redistributing, Hh2. }
  assert (Hmv : forall k v, moving_entries p newCh (sp_map s) !! k = Some v <->
    sp_map s !! k = Some v /\ moves_key p newCh k = true).
  { intros k v. unfold moving_entries. by rewrite map_lookup_filter_Some. }
  split; [by eapply quiet_healthy|]. split; [|split; [|split; [|split; [|split]]]].
  - eapply framed_flag; [done|done|]. by etrans.
  - simpl. rewrite Hg. by destruct Hq as (_ & _ & -> & _).
  - exists (set_p_redistributingKeys false p2), s'. split_and!; [|done..|].
    + unfold upd_world; simpl. by rewrite lookup_alter_eq, Hp2.
    + rewrite Hmap. by apply left_over_all.
  - intros k v S [Hv Hm]%Hmv HS. eapply quiet_stored; [exact Hq2|].
    apply Hmoved; [|done|done|done]. apply Hall. by exists v.
  - intros n k v Hn Hnone Hst. eapply quiet_stored; [exact Hq2|].
    apply Hkept; [done| |by eapply quiet_stored]. intros (_ & Hm & [v' Hv']).
    assert (Hsome : moving_entries p newCh (sp_map s) !! k = Some v') by (by apply Hmv).
    congruence.
  - intros n sn Hn Hsn. destruct (Hgain n sn Hn) as (sn' & Hsn' & Hmap'); [by eapply quiet_holds|].
    exists sn'. split; [by eapply quiet_holds|]. by rewrite Hmap', gained_all.
Qed.

Lemma RedistributeKeys_stable fuel w self p s c newCh dst :
  fuel <> 0%nat -> can_redistribute w self p s c newCh dst ->
  exists w', RedistributeKeys fuel self w = (w', Ret tt) /\
    redistributed w w' self p s newCh dst.
Proof.
  intros Hfuel Hcan.
  destruct (Hcan) as (Hh & Hl & Hp & Hok & Hfree & Hdl & Hy & Hne & Hring & Hmov & Hd).
  pose proof (proj2 (proj2 Hh) _ _ Hp) as Hc.
  set (w1 := upd_world self (set_p_redistributingKeys true) w).
  set (p1 := set_p_redistributingKeys true p).
  assert (Hq1 : quiet w w1) by (apply quiet_redistributing, Hh).
  assert (Hp1 : w_procs w1 !! self = Some p1).
  { unfold w1, upd_world; simpl. by rewrite lookup_alter_eq, Hp. }
  destruct (stable_ReadFile self (f_configFile (p_flags p)) (w_env w) (proj1 (proj2 Hh)))
    as (e2 & Hread & He2).
  set (w2 := {| w_procs := w_procs w1; w_env := e2; w_go := w_go w1 |}).
  assert (Hq2 : quiet w w2) by (eapply quiet_trans; [exact Hq1|by apply quiet_env]).
  destruct (dial_all fuel self (kc_NewShards c) w2 p1)
    as (w3 & p3 & Hdial & Hq3 & Hf3 & Hp3 & Hmore & Hin);
    [done|by eapply quiet_healthy|done|done| |].
  { intros d Hd'. eapply config_labels; [by repeat eexists|exact Hy|]. set_solver. }
  assert (Hq : quiet w w3) by (by eapply quiet_trans).
  assert (Hr : ready self newCh p dst (k_store (m_kv (p_mem p3))) w3).
  { by apply (can_redistribute_ready w self p s c newCh dst w3 p3). }
  destruct (range_rounds self newCh p dst w3 s p3) as (w4 & l & Hrun & Hall & Hdone);
    [|done| |done|done|].
  { by destruct (proj1 Hh _ _ Hp) as ((-> & _) & _). }
  { by destruct Hmore as (_ & _ & -> & _). }
  exists (upd_world self (set_p_redistributingKeys false) w4). split.
  2:{ eapply rounds_redistributed; [exact Hp|exact Hok|exact Hfree|exact Hq| |exact Hall|exact Hdone].
      exact Hf3. }
  unfold RedistributeKeys. rewrite (bind_Ret _ _ _ _ _ (proc_alive _ _ _ Hp Hc)), Hfree.
  rewrite (bind_Ret (upd_proc self _) _ w w1 tt eq_refl). unfold deferred.
  rewrite (bind_Ret _ _ _ _ _ (ReadConfig_ok self w1 p1 e2 config_text c Hp1 Hc Hread Hy)).
  rewrite decide_False by (by destruct (kc_NewShards c)).
  rewrite (bind_Ret _ _ _ _ _ Hdial). unfold new_ring. rewrite Hring.
  unfold bind at 1, ret at 1. by rewrite Hrun.
Qed.

End completion.
