(* ===== verification/Serving.v ===== *)
(** * Serving clients in a cluster that keeps working

    What the handlers of the KV service do when the shard of the key has a leader
    and the request reaches it. *)

From S2P Require Import Prelude Protos RaftCommon KVStore KVStoreSpec Shard ShardWorld.
From S2P Require Import Redistribution Pending Stable Completion.

Section serving.
Context `{!Proto, !ConsistentHash} {E : Type} `{!Raft E, !RaftSetup E, !Net E, !OS E}.
Context `{!Topology E, !ProtoLaws, !StableCluster E}.
Implicit Types (w : World E) (n k v : string) (s : KVSpec).

(** A request for key [k] that a client sends to process [self] is forwarded to
    process [n]. *)
Definition routes (w : World E) (self k n : string) : Prop :=
  exists p S t, w_procs w !! self = Some p /\ LocateKey (p_ch p) k = Some S /\
    p_shardClients p !! S = Some t /\ entry_node t = Some n.

(** Routes are as before where rings are kept, and where a store is written. *)
Lemma routes_framed w w' self k n : framed eq w w' -> routes w self k n -> routes w' self k n.
Proof.
  intros Hf (p & S & t & Hp & HS & Ht & Hn).
  destruct (framed_proc _ _ _ Hf self p Hp) as (p' & Hp' & (_ & Hch & _ & _ & _ & _ & Hsub & _)).
  exists p', S, t. rewrite <- Hch. split_and!; try done. by eapply lookup_weaken.
Qed.

Lemma routes_wrote w w' n0 f self k n :
  wrote n0 f w w' -> routes w self k n -> routes w' self k n.
Proof. intros Hw. eapply routes_framed, wrote_framed, Hw. Qed.

(** ** The handlers between shards at a leader *)

Lemma shard_Put_leads n k v b w :
  encodable (set_entry k v) -> healthy w -> leading w n = true ->
  exists w', shardRpcServer_Put n
      {| ip_Key := k; ip_Value := v; ip_IsRedistribution := b |} w =
      (w', Ret (Ok mkPutResponse)) /\ wrote n (spec_set k v) w w'.
Proof.
  intros Henc Hw Hl. unfold shardRpcServer_Put. simpl.
  destruct (kv_proposes_leader n _ _ w (Set_proposes k v Henc) Hw Hl) as (w' & Hrun & Hwr).
  exists w'. split; [|done]. by rewrite (bind_Ret _ _ _ _ _ Hrun).
Qed.

Lemma shard_Delete_leads n k w :
  encodable (delete_entry k) -> healthy w -> leading w n = true ->
  exists w', shardRpcServer_Delete n {| del_Key := k |} w =
      (w', Ret (Ok mkDeleteResponse)) /\ wrote n (spec_delete k) w w'.
Proof.
  intros Henc Hw Hl. unfold shardRpcServer_Delete. simpl.
  destruct (kv_proposes_leader n _ _ w (Delete_proposes k Henc) Hw Hl) as (w' & Hrun & Hwr).
  exists w'. split; [|done]. by rewrite (bind_Ret _ _ _ _ _ Hrun).
Qed.

(** The answer to a read of [s]. *)
Definition get_answer (s : KVSpec) (k : string) : res GetResponse :=
  match sp_map s !! k with
  | Some v => Ok {| get_Value := v |}
  | None => Err KeyNotFound
  end.

Lemma shard_Get_holds n k w s :
  healthy w -> holds w n s ->
  shardRpcServer_Get n {| get_Key := k |} w =
  ({| w_procs := w_procs w; w_env := w_env w; w_go := w_go w |}, Ret (get_answer s k)).
Proof.
  intros (_ & _ & Hc) (p & Hp & Hok). unfold shardRpcServer_Get. simpl.
  rewrite (bind_Ret _ _ _ _ _ (kv_readonly n (KVStore_Get k) w p _ _ Hp (Hc _ _ Hp)
    (KVStore_Get_run k _ s (w_env w) Hok))).
  unfold spec_get, get_answer. by destruct (sp_map s !! k).
Qed.

(** ** The handlers for clients *)

(** Forwarding a request: what the handler at the reached process returns comes
    back as a status. *)
Lemma forward {A} self k n (handler : string -> M (World E) (res A)) w (a : res A)
    (Q : World E -> Prop) :
  healthy w -> routes w self k n -> is_Some (w_procs w !! n) ->
  (forall e', stable e' -> exists w',
     handler n {| w_procs := w_procs w; w_env := e'; w_go := w_go w |} = (w', Ret a) /\
     Q w') ->
  exists w', (p <- proc self ;;
              member <- locate (p_ch p) k ;;
              with_client (p_shardClients p) member (fun target => rpc target handler)) w =
      (w', Ret (to_status a)) /\ Q w'.
Proof.
  intros (_ & Hst & Hc) (p & S & t & Hp & HS & Ht & Hn) [pn Hpn] Hh.
  destruct (stable_route t n (w_env w) Hst Hn) as (e' & Hroute & He').
  destruct (Hh e' He') as (w' & Hrun & HQ). exists w'. split; [|done].
  rewrite (bind_Ret _ _ _ _ _ (proc_alive _ _ _ Hp (Hc _ _ Hp))).
  unfold locate. rewrite HS. unfold with_client, bind, ret. rewrite Ht.
  unfold rpc, bind, envc. rewrite Hroute. simpl. unfold alive. simpl.
  rewrite Hpn, (Hc _ _ Hpn). simpl. by rewrite Hrun.
Qed.

Lemma kvServer_Put_run self n k v w :
  encodable (set_entry k v) -> healthy w -> routes w self k n -> leading w n = true ->
  exists w', kvServer_Put self {| put_Key := k; put_Value := v |} w =
    (w', Ret (Ok mkPutResponse)) /\ wrote n (spec_set k v) w w'.
Proof.
  intros Henc Hw Hr Hl. unfold kvServer_Put. simpl.
  apply (forward self k n _ w (Ok mkPutResponse)); [done|done| |].
  - destruct (leading_proc w n Hl) as [p Hp]. by exists p.
  - intros e' He'.
    destruct (shard_Put_leads n k v false {| w_procs := w_procs w; w_env := e'; w_go := w_go w |} Henc)
      as (w' & Hrun & Hwr); [by apply with_env_procs|done|by exists w'].
Qed.

Lemma kvServer_Delete_run self n k w :
  encodable (delete_entry k) -> healthy w -> routes w self k n -> leading w n = true ->
  exists w', kvServer_Delete self {| del_Key := k |} w =
    (w', Ret (Ok mkDeleteResponse)) /\ wrote n (spec_delete k) w w'.
Proof.
  intros Henc Hw Hr Hl. unfold kvServer_Delete. simpl.
  apply (forward self k n _ w (Ok mkDeleteResponse)); [done|done| |].
  - destruct (leading_proc w n Hl) as [p Hp]. by exists p.
  - intros e' He'.
    destruct (shard_Delete_leads n k {| w_procs := w_procs w; w_env := e'; w_go := w_go w |} Henc)
      as (w' & Hrun & Hwr); [by apply with_env_procs|done|by exists w'].
Qed.

Lemma kvServer_Get_run self n k w s :
  healthy w -> routes w self k n -> holds w n s ->
  exists w', kvServer_Get self {| get_Key := k |} w =
    (w', Ret (to_status (get_answer s k))) /\ w_procs w' = w_procs w /\ stable (w_env w').
Proof.
  intros Hw Hr Hs. unfold kvServer_Get. simpl.
  apply (forward self k n _ w (get_answer s k)); [done|done| |].
  - destruct Hs as (p & Hp & _). by exists p.
  - intros e' He'. exists {| w_procs := w_procs w; w_env := e'; w_go := w_go w |}.
    split; [|done].
    apply (shard_Get_holds n k {| w_procs := w_procs w; w_env := e'; w_go := w_go w |} s);
      [by apply with_env_procs|done].
Qed.

(** The store of a process after a write. *)
Lemma wrote_holds_target n f w w' :
  wrote n f w w' -> exists s, holds w n s /\ holds w' n (f s).
Proof.
  intros Hw. destruct (Hw) as (_ & _ & p & m' & s & Hp & Hs & _). exists s.
  assert (Hh : holds w n s) by (by exists p). split; [done|].
  apply (wrote_holds _ _ _ _ Hw) in Hh. by rewrite decide_True in Hh.
Qed.

End serving.
