(* ===== verification/SimNet.v ===== *)
(** * A concrete deployment

    Two shards with one replica each, a ring that places keys by their length,
    and a network on which every address of a shard leads to its replica. *)

From Stdlib Require Import Ascii.
From S2P Require Import Prelude Protos RaftCommon KVStore KVStoreSpec Sim Shard ShardWorld.
From S2P Require Import Redistribution Pending Stable Completion.

(** ** Consistent hashing by the length of the key *)

#[export] Instance sim_consistent : ConsistentHash := {|
  ring := list string;
  zero_ring := [];
  DefaultPartitionCount := 271;
  DefaultReplicationFactor := 20;
  DefaultLoad := QArith_base.Qmake 5 4;
  xxhash_Sum64 s := Z.of_nat (String.length s);
  consistent_New members cfg := match members with [] => None | _ => Some members end;
  LocateKey r k := r !! (String.length k `mod` length r)
|}.

#[export] Instance sim_consistent_laws : ConsistentLaws.
Proof.
  split. simpl. intros members cfg r key m Hnew Hloc.
  assert (r = members) as -> by (destruct members; congruence).
  by eapply list_elem_of_lookup_2.
Qed.

(** ** Addresses *)

Fixpoint before_colon (s : string) : string :=
  match s with
  | EmptyString => ""
  | String c s' => if Ascii.eqb c ":" then "" else String c (before_colon s')
  end.

(** What follows the first dot, if there is one, and what precedes it. *)
Fixpoint after_dot (s : string) : option string :=
  match s with
  | EmptyString => None
  | String c s' => if Ascii.eqb c "." then Some s' else after_dot s'
  end.

Fixpoint before_dot (s : string) : string :=
  match s with
  | EmptyString => ""
  | String c s' => if Ascii.eqb c "." then "" else String c (before_dot s')
  end.

(** A service of the namespace named default, a pod under a service, or a service. *)
Definition shard_of_addr (a : string) : string :=
  let h := before_colon a in
  match after_dot h with
  | Some s => if decide (s = "default") then before_dot h else s
  | None => h
  end.

Definition sim_node (shard : string) : option string :=
  if decide (shard = "kvs-shard-0") then Some "n0"
  else if decide (shard = "kvs-shard-1") then Some "n1"
  else None.

Definition sim_node_shard (node : string) : string :=
  if decide (node = "n0") then "kvs-shard-0" else "kvs-shard-1".

Lemma before_colon_app s t :
  is_label s = true -> before_colon (s +:+ String ":" t) = s.
Proof.
  unfold is_label. induction s as [|c s IH]; simpl; [done|].
  intros [[_ Hc]%andb_prop Hs]%andb_prop. apply negb_true_iff in Hc. rewrite Hc.
  by rewrite IH.
Qed.

Lemma before_colon_pod r s t :
  is_label r = true -> is_label s = true ->
  before_colon (r +:+ "." +:+ s +:+ ":" +:+ t) = r +:+ "." +:+ s.
Proof.
  unfold is_label at 1. intros Hr Hs. induction r as [|c r IH]; simpl in *.
  - exact (f_equal (String ".") (before_colon_app s t Hs)).
  - apply andb_prop in Hr as [[_ Hc]%andb_prop Hr]. apply negb_true_iff in Hc.
    rewrite Hc. by rewrite IH.
Qed.

Lemma after_dot_label s : is_label s = true -> after_dot s = None.
Proof.
  unfold is_label. induction s as [|c s IH]; simpl; [done|].
  intros [[Hc _]%andb_prop Hs]%andb_prop. apply negb_true_iff in Hc. rewrite Hc. auto.
Qed.

Lemma after_dot_app r s : is_label r = true -> after_dot (r +:+ "." +:+ s) = Some s.
Proof.
  unfold is_label. induction r as [|c r IH]; simpl; [done|].
  intros [[Hc _]%andb_prop Hr]%andb_prop. apply negb_true_iff in Hc. rewrite Hc. auto.
Qed.

Lemma shard_of_service s port : is_label s = true -> shard_of_addr (host_addr s port) = s.
Proof.
  intros Hs. unfold shard_of_addr.
  rewrite (before_colon_app s (itoa port) Hs : before_colon (host_addr s port) = s).
  by rewrite after_dot_label.
Qed.

Lemma shard_of_pod r s port :
  is_label r = true -> is_label s = true -> s <> "default" ->
  shard_of_addr (replica_addr r s port) = s.
Proof.
  intros Hr Hs Hne. unfold shard_of_addr, replica_addr.
  rewrite before_colon_pod, after_dot_app by done. by rewrite decide_False.
Qed.

Lemma before_dot_app r s : is_label r = true -> before_dot (r +:+ "." +:+ s) = r.
Proof.
  unfold is_label. induction r as [|c r IH]; simpl; [done|].
  intros [[Hc _]%andb_prop Hr]%andb_prop. apply negb_true_iff in Hc. rewrite Hc.
  by rewrite IH.
Qed.

Lemma shard_of_qualified r port :
  is_label r = true -> shard_of_addr (replica_addr r "default" port) = r.
Proof.
  intros Hr. unfold shard_of_addr, replica_addr.
  rewrite before_colon_pod, after_dot_app by done. rewrite decide_True by done.
  by apply before_dot_app.
Qed.

(** ** Network and operating system *)

#[export] Instance sim_net : Net SimEnv := {|
  grpc_Dial t e := (e, None);
  net_route t e :=
    (e, match sim_node (shard_of_addr t) with
        | Some n => Reach n None
        | None => Unreachable "Unavailable" "no such host"
        end);
  net_Listen n a e := (e, None);
  grpc_Serve n a s e := (e, tt)
|}.

Lemma sim_route_shard t e e' node lost :
  net_route t e = (e', Reach node lost) -> sim_node_shard node = shard_of_addr t.
Proof.
  simpl. unfold sim_node. repeat case_decide; intros [=]; subst; unfold sim_node_shard.
  - by rewrite decide_True.
  - by rewrite decide_False.
Qed.

#[export] Instance sim_topology : Topology SimEnv.
Proof.
  refine {| node_shard := sim_node_shard |}.
  - intros s port e e' node lost Hs Hr. apply sim_route_shard in Hr.
    by rewrite shard_of_service in Hr.
  - intros r n port e e' node lost Hr Hs Hroute. apply sim_route_shard in Hroute.
    rewrite shard_of_pod in Hroute; [done|done|done|].
    unfold sim_node_shard. by case_decide.
Defined.

Definition sim_shard (i : string) : KVStoreShard :=
  {| ks_Name := "kvs-shard-" +:+ i; ks_Replicas := ["kvs-shard-" +:+ i +:+ "-replica-0"] |}.

(** The contents of the configuration file before, while and after scaling from
    one shard to two, and while scaling back. *)
Definition sim_yaml (buf : string) : res KVStoreConfig :=
  if decide (buf = "one") then
    Ok {| kc_Shards := [sim_shard "0"]; kc_NewShards := [] |}
  else if decide (buf = "scaling") then
    Ok {| kc_Shards := [sim_shard "0"]; kc_NewShards := [sim_shard "0"; sim_shard "1"] |}
  else if decide (buf = "two") then
    Ok {| kc_Shards := [sim_shard "0"; sim_shard "1"]; kc_NewShards := [] |}
  else if decide (buf = "shrinking") then
    Ok {| kc_Shards := [sim_shard "0"; sim_shard "1"]; kc_NewShards := [sim_shard "0"] |}
  else Err (LibErr "yaml: cannot unmarshal").

#[export] Instance sim_os : OS SimEnv := {|
  os_ReadFile n p e := (e, Ok (sim_file e));
  os_Stat_IsNotExist n p e := (e, true);
  yaml_Unmarshal := sim_yaml;
  time_Sleep t e := (e, tt);
  range_order keys e := (e, remove_dups keys)
|}.

#[export] Instance sim_os_laws : OSLaws SimEnv.
Proof.
  split. simpl. intros keys e e' l [= <- <-]. split; [apply NoDup_remove_dups|].
  intros k. by rewrite elem_of_remove_dups.
Qed.

#[export] Instance sim_config_labels : ConfigLabels SimEnv.
Proof.
  split; simpl; unfold sim_yaml; intros buf c s _;
    repeat case_decide; intros [= <-]; simpl; intros Hs;
    repeat (apply elem_of_cons in Hs as [->|Hs]; [by repeat constructor|]);
    by apply elem_of_nil in Hs.
Qed.

(** ** The processes *)

Definition sim_flags (i : string) : Flags :=
  {| f_address := "10.0.0." +:+ i; f_kvPort := 8080; f_shardPort := 8081;
     f_raftPort := 8082; f_replicaPort := 8083; f_shard := "kvs-shard-" +:+ i;
     f_replica := "kvs-shard-" +:+ i +:+ "-replica-0"; f_folder := "/data";
     f_configFile := "/etc/config/config.yaml"; f_shouldBootstrap := true |}.

(** The Raft ID of the replica of shard [i]. *)
Definition sim_id (i : string) : string :=
  replica_addr ("kvs-shard-" +:+ i +:+ "-replica-0") ("kvs-shard-" +:+ i) 8082.

Definition sim_proc (i : string) (c : ring) (mp : gmap string string) : Proc := {|
  p_flags := sim_flags i;
  p_ch := c;
  p_shardClients := {[ "kvs-shard-0" := "kvs-shard-0:8081" ]};
  p_replicaClients :=
    {[ sim_id i := replica_addr ("kvs-shard-" +:+ i +:+ "-replica-0") ("kvs-shard-" +:+ i) 8083 ]};
  p_mem := sim_mem (sim_id i) mp;
  p_isRestart := false;
  p_redistributingKeys := false;
  p_crashed := false
|}.

Definition sim_world_env (file : string) : SimEnv :=
  {| sim_leaders := [sim_id "0"; sim_id "1"]; sim_leader := sim_id "0";
     sim_servers := []; sim_calls := []; sim_file := file |}.

(** Shard 0 has the entries [mp], shard 1 has just been started. *)
Definition sim_world (file : string) (mp : gmap string string) : World SimEnv := {|
  w_procs := {[ "n0" := sim_proc "0" ["kvs-shard-0"] mp;
                "n1" := sim_proc "1" ["kvs-shard-0"] ∅ ]};
  w_env := sim_world_env file;
  w_go := []
|}.

Lemma sim_proc_ok i c mp n :
  is_label ("kvs-shard-" +:+ i) = true ->
  is_label ("kvs-shard-" +:+ i +:+ "-replica-0") = true ->
  sim_node_shard n = "kvs-shard-" +:+ i ->
  clients_ok n (sim_proc i c mp) /\ store_ok (sim_proc i c mp).
Proof.
  intros Hi Hr Hn. split; [|split; [eexists; apply sim_mem_ok|by eexists]].
  split_and!.
  - exact (eq_sym Hn).
  - intros name t. simpl. intros [<- <-]%lookup_singleton_Some. split; [done|].
    by exists 8081%Z.
  - intros key t. simpl. intros [<- <-]%lookup_singleton_Some. eauto 10.
Qed.

Lemma sim_world_inv file mp : world_inv (sim_world file mp).
Proof.
  intros n p. simpl. rewrite lookup_insert. case_decide as Hn; [intros [= <-]; subst|].
  { by apply sim_proc_ok. }
  intros [<- <-]%lookup_singleton_Some. by apply sim_proc_ok.
Qed.

(** ** A stable cluster: both replicas lead, and the file stays as it is *)

Definition sim_stable_at (file : string) : StableCluster SimEnv.
Proof.
  refine {| stable e := sim_leaders e = [sim_id "0"; sim_id "1"] /\
                        sim_leader e = sim_id "0" /\ sim_file e = file;
            leads r := bool_decide (r ∈ [sim_id "0"; sim_id "1"]);
            known_leader r := if decide (r ∈ [sim_id "0"; sim_id "1"]) then r else sim_id "0";
            entry_node t := sim_node (shard_of_addr t);
            config_text := file |}; simpl.
  - intros r e (Hl & ? & ?). rewrite Hl. exists e. split; [|done].
    case_decide; case_bool_decide; done.
  - intros r e (Hls & Hl & ?). exists e, "". by rewrite Hls, Hl.
  - intros r d t e (Hl & ? & ?) Hr%bool_decide_eq_true. rewrite Hl, decide_True by done. by exists e.
  - intros t n e He ->. by exists e.
  - intros t e He. by exists e.
  - intros n f e He. exists e. split; [|done]. by destruct He as (_ & _ & ->).
  - done.
Defined.

#[export] Instance sim_stable : StableCluster SimEnv := sim_stable_at "scaling".

Lemma sim_world_healthy file mp :
  healthy (StableCluster0 := sim_stable_at file) (sim_world file mp).
Proof.
  split; [apply sim_world_inv|]. split; [done|]. intros n p. simpl.
  rewrite lookup_insert. case_decide; [by intros [= <-]|].
  by intros [_ <-]%lookup_singleton_Some.
Qed.
