(* ===== verification/Joining.v ===== *)
(** * A replica joins the group of its shard

    The last thing that a replica does while it starts: find the leader, wait until its own
    log is applied, and ask the leader to let it join. In a group with a leader that
    answers this comes to an end, and the group has the replica as a member. *)

From S2P Require Import Prelude Protos RaftCommon KVStore KVStoreSpec Sim Membership.
From S2P Require Import Shard ShardWorld Redistribution Pending SimNet.

(** While the environment is [steady], no instance but [rl] leads, each instance [r] knows of the leader [leader_id r]
    (none when it is empty), logs are applied, and a request to [t] arrives at [reach t]. *)
Class SteadyGroup `{!Proto} (E : Type) `{!Raft E, !Net E, !OS E} (rl : string)
    `{!Membership E rl} := {
  leader_id : string -> string;
  reach : string -> option string;
  group_LeaderWithID : forall r e, steady e ->
    exists e' a, raft_LeaderWithID r e = (e', (a, leader_id r)) /\ steady e' /\
      members e' = members e;
  group_State : forall r e, steady e -> r <> rl ->
    exists e', raft_State r e = (e', Follower) /\ steady e' /\ members e' = members e;
  group_indices : forall r e, steady e ->
    exists e1 e2 i, raft_AppliedIndex r e = (e1, i) /\ raft_LastIndex r e1 = (e2, i) /\
      steady e2 /\ members e2 = members e;
  group_route : forall t n e, steady e -> reach t = Some n ->
    exists e', net_route t e = (e', Reach n None) /\ steady e' /\ members e' = members e;
  group_Sleep : forall t e, steady e ->
    exists e', time_Sleep t e = (e', tt) /\ steady e' /\ members e' = members e
}.

(** What a leader [r] of the group goes through on its way out: while the environment is
    [handing_over] it leads, and its [LeadershipTransfer] makes [rl] the leader. A snapshot that
    it takes afterwards, with whatever result, leaves the group alone. *)
Class Handover `{!Proto} (E : Type) `{!Raft E, !Net E, !OS E} (rl : string)
    `{!Membership E rl} (r : string) := {
  handing_over : E -> Prop;
  handover_State : forall e, handing_over e ->
    exists e', raft_State r e = (e', Leader) /\ handing_over e' /\ members e' = members e;
  handover_Transfer : forall e, handing_over e ->
    exists e', raft_LeadershipTransfer r e = (e', None) /\ steady e' /\ members e' = members e;
  handover_Snapshot : forall b e, steady e ->
    exists e' x, raft_Snapshot r b e = (e', x) /\ steady e' /\ members e' = members e
}.

Section joining.
Context `{!Proto, !ConsistentHash} {E : Type} `{!Raft E, !RaftSetup E, !Net E, !OS E}.
Context (rl : string) `{!Membership E rl, !SteadyGroup E rl}.
Implicit Types (w : World E) (p q : Proc) (n t : string).

Definition env_at w (e : E) : World E :=
  {| w_procs := w_procs w; w_env := e; w_go := w_go w |}.

(** [m] returns [a], moves nothing but the environment, and leaves the members [ms]. *)
Definition quietly {A} (m : M (World E) A) w (a : A) (ms : list Member) : Prop :=
  exists e', m w = (env_at w e', Ret a) /\ steady e' /\ members e' = ms.

Definition same_group w (e : E) : Prop := steady e /\ members e = members (w_env w).

Lemma quietly_bind {A B} (m : M (World E) A) (f : A -> M (World E) B) w a b ms ms' :
  quietly m w a ms ->
  (forall e, steady e -> members e = ms -> quietly (f a) (env_at w e) b ms') ->
  quietly (bind m f) w b ms'.
Proof.
  intros (e1 & Hm & He1 & Hms1) Hf. destruct (Hf e1 He1 Hms1) as (e2 & Hrun & He2 & Hms2).
  exists e2. by rewrite (bind_Ret _ _ _ _ _ Hm).
Qed.

Lemma quietly_ret {A} w (a : A) ms :
  steady (w_env w) -> members (w_env w) = ms -> quietly (ret a) w a ms.
Proof. intros He Hms. exists (w_env w). by destruct w. Qed.

(** The process [n] runs, with the Raft instance [r]. *)
Definition runs w n p (r : string) : Prop :=
  w_procs w !! n = Some p /\ p_crashed p = false /\ k_raft (m_kv (p_mem p)) = Some r.

Lemma quietly_proc w n p r ms :
  runs w n p r -> steady (w_env w) -> members (w_env w) = ms -> quietly (proc n) w p ms.
Proof.
  intros (Hp & Hc & _) He Hms. exists (w_env w). rewrite (proc_alive n w p Hp Hc). by destruct w.
Qed.

Lemma quietly_Leader w n p r ms :
  runs w n p r -> steady (w_env w) -> members (w_env w) = ms ->
  quietly (kv n KVStore_Leader) w (leader_id r) ms.
Proof.
  intros (Hp & Hc & Hr) He Hms. destruct (group_LeaderWithID r _ He) as (e' & a & Hl & He' & Hms').
  exists e'. split; [|split; [done|congruence]]. apply (kv_readonly n _ w p); [done|done|].
  unfold KVStore_Leader, with_raft, bind, get, env_call. simpl. rewrite Hr. simpl. by rewrite Hl.
Qed.

Lemma quietly_HasLatestLogs w n p r ms :
  runs w n p r -> steady (w_env w) -> members (w_env w) = ms ->
  quietly (kv n KVStore_HasLatestLogs) w true ms.
Proof.
  intros (Hp & Hc & Hr) He Hms.
  destruct (group_indices r _ He) as (e1 & e2 & i & H1' & H2' & He2 & Hms2).
  exists e2. split; [|split; [done|congruence]]. apply (kv_readonly n _ w p); [done|done|].
  unfold KVStore_HasLatestLogs, with_raft, bind, get, env_call. simpl. rewrite Hr. simpl.
  rewrite H1'. simpl. rewrite H2'. unfold ret. by rewrite Z.eqb_refl.
Qed.

Lemma quietly_rpc {A} t n p r (handler : string -> M (World E) (res A)) w a ms :
  reach t = Some n -> runs w n p r -> steady (w_env w) ->
  (forall e, same_group w e -> quietly (handler n) (env_at w e) a ms) ->
  quietly (rpc t handler) w (to_status a) ms.
Proof.
  intros Ht (Hp & Hc & _) He Hh.
  destruct (group_route t n _ He Ht) as (e1 & Hroute & He1 & Hms1).
  destruct (Hh e1 (conj He1 Hms1)) as (e2 & Hrun & He2 & Hms2). exists e2. split; [|done].
  unfold rpc, bind, envc. rewrite Hroute. simpl. unfold alive. simpl. rewrite Hp, Hc. simpl.
  change {| w_procs := w_procs w; w_env := e1; w_go := w_go w |} with (env_at w e1).
  by rewrite Hrun.
Qed.

(** ** Finding the leader *)

(** The client of [p] for the replica [d] leads to a process that knows of the leader
    [known], or of none when it is empty. *)
Definition peer w p (d known : string) : Prop :=
  exists t n q r, p_replicaClients p !! replica_client_key p d = Some t /\ reach t = Some n /\
    runs w n q r /\ leader_id r = known.

Definition leader_answer (known : string) : res LeaderResponse :=
  if decide (known = "") then Err (Errorf "no leader found") else Ok {| ld_Leader := known |}.

Lemma ask_peer w self p r d known ms :
  runs w self p r -> peer w p d known -> steady (w_env w) -> members (w_env w) = ms ->
  quietly (p <- proc self ;;
           with_client (p_replicaClients p) (replica_client_key p d) (fun target =>
             resp <- rpc target (fun node => replicaRpcServer_Leader node mkLeaderRequest) ;;
             match resp with
             | Err _ => envc (time_Sleep 1) ;;; ret None
             | Ok resp =>
                 if decide (ld_Leader resp <> "") then ret (Some (ld_Leader resp)) else ret None
             end)) w (if decide (known = "") then None else Some known) ms.
Proof.
  intros Hself (t & n & q & rn & Ht & Hn & Hq & Hk) He Hms.
  eapply quietly_bind; [by eapply quietly_proc|]. intros e1 He1 Hms1.
  unfold with_client. rewrite Ht.
  eapply (quietly_bind _ _ _ (to_status (leader_answer known))).
  - eapply quietly_rpc; [exact Hn|exact Hq|exact He1|]. intros e2 [He2 Hms2].
    eapply quietly_bind; [eapply quietly_Leader; [exact Hq|exact He2|reflexivity]|].
    intros e3 He3 Hms3. rewrite Hk. simpl in Hms2, Hms3. unfold leader_answer.
    case_decide; apply quietly_ret; simpl; try done; by rewrite Hms3, Hms2.
  - intros e2 He2 Hms2. unfold leader_answer. case_decide as Hd; simpl.
    + destruct (group_Sleep 1 e2 He2) as (e3 & Hsl & He3 & Hms3). exists e3. split; [|by rewrite Hms3].
      unfold bind, envc. simpl. by rewrite Hsl.
    + rewrite decide_True by done. by apply quietly_ret.
Qed.

(** The replicas are asked in order until one of them knows of a leader. *)
Lemma search_peers w self p r replicas known leader ms :
  runs w self p r -> (forall d, d ∈ replicas -> peer w p d (known d)) ->
  (forall d, d ∈ replicas -> known d = "" \/ known d = leader) ->
  (exists d, d ∈ replicas /\ known d = leader) -> leader <> "" ->
  steady (w_env w) -> members (w_env w) = ms ->
  quietly (for_return replicas (fun d =>
    p <- proc self ;;
    with_client (p_replicaClients p) (replica_client_key p d) (fun target =>
      resp <- rpc target (fun node => replicaRpcServer_Leader node mkLeaderRequest) ;;
      match resp with
      | Err _ => envc (time_Sleep 1) ;;; ret None
      | Ok resp =>
          if decide (ld_Leader resp <> "") then ret (Some (ld_Leader resp)) else ret None
      end))) w (Some leader) ms.
Proof.
  intros Hself Hpeers Hk Hex Hne. revert w Hself Hpeers.
  induction replicas as [|d l IH]; intros w Hself Hpeers He Hms.
  { destruct Hex as (d & Hd & _). by apply elem_of_nil in Hd. }
  cbn [for_return]. eapply quietly_bind; [eapply ask_peer; [exact Hself|apply Hpeers; by left|done..]|].
  intros e1 He1 Hms1. destruct (Hk d) as [Hd|Hd]; [by left| |]; rewrite Hd; case_decide; try done.
  - apply (IH); [|..].
    + intros d' Hd'. apply Hk. by right.
    + destruct Hex as (d' & [->|Hd']%elem_of_cons & Hl); [congruence|]. by exists d'.
    + done.
    + intros d' Hd'. by apply (Hpeers d'); right.
    + done.
    + done.
  - by apply quietly_ret.
Qed.

(** ** Joining *)

(** The leader handles the request. *)
Lemma quietly_Join w l pl i :
  runs w l pl rl -> steady (w_env w) -> distinct (members (w_env w)) ->
  spares rl (replica_addr (jn_Replica i) (f_shard (p_flags pl)) (f_raftPort (p_flags pl)))
    (host_addr (jn_Address i) (f_raftPort (p_flags pl))) (members (w_env w)) ->
  quietly (replicaRpcServer_Join l i) w (Ok mkJoinResponse)
    (joined (replica_addr (jn_Replica i) (f_shard (p_flags pl)) (f_raftPort (p_flags pl)))
       (host_addr (jn_Address i) (f_raftPort (p_flags pl))) (members (w_env w))).
Proof.
  intros Hl He Hd Hsp. eapply quietly_bind; [by eapply quietly_proc|]. intros e1 He1 Hms1.
  destruct (Hl) as (Hp & Hc & Hr). rewrite <- Hms1 in Hd, Hsp |- *.
  destruct (Join_replaces rl (jn_Address i) (f_raftPort (p_flags pl)) (f_shard (p_flags pl))
    (jn_Replica i) (p_mem pl) e1 Hr He1 Hd Hsp) as (e2 & Hrun & He2 & Hms2 & _).
  eapply (quietly_bind _ _ _ None).
  - exists e2. split; [|done]. by apply (kv_readonly l _ (env_at w e1) pl).
  - intros e3 He3 Hms3. by apply quietly_ret.
Qed.

(** Either the store knows of the leader, or some replica does and no replica knows of
    another one. *)
Definition finds_leader w p (r : string) (replicas : list string) (leader : string) : Prop :=
  leader <> "" /\
  (leader_id r = leader \/
   leader_id r = "" /\ exists known, (forall d, d ∈ replicas -> peer w p d (known d)) /\
     (forall d, d ∈ replicas -> known d = "" \/ known d = leader) /\
     exists d, d ∈ replicas /\ known d = leader).

(** C15: a replica that starts joins its group. Let the group have a leader that answers
    and that the replica or one of those it asks knows of, and a log that is applied; and let
    the replica have neither the name nor the address of the leader, unless it is the
    leader, under both.
    Then [JoinCluster] returns, and the configuration of the group has the replica under the
    name of its own Raft instance and its address, with whatever stood under either of
    them replaced; the processes themselves are as before. *)
Theorem replica_joins fuel self replicas w p r leader t l pl :
  fuel <> 0%nat -> runs w self p r -> finds_leader w p r replicas leader ->
  p_replicaClients p !! leader = Some t -> reach t = Some l -> runs w l pl rl ->
  f_shard (p_flags pl) = f_shard (p_flags p) -> f_raftPort (p_flags pl) = f_raftPort (p_flags p) ->
  steady (w_env w) -> distinct (members (w_env w)) ->
  spares rl (replica_addr (f_replica (p_flags p)) (f_shard (p_flags p)) (f_raftPort (p_flags p)))
    (host_addr (f_address (p_flags p)) (f_raftPort (p_flags p))) (members (w_env w)) ->
  exists e', JoinCluster fuel self replicas w = (env_at w e', Ret tt) /\ steady e' /\
    members e' = joined
      (replica_addr (f_replica (p_flags p)) (f_shard (p_flags p)) (f_raftPort (p_flags p)))
      (host_addr (f_address (p_flags p)) (f_raftPort (p_flags p))) (members (w_env w)) /\
    distinct (members e').
Proof.
  intros Hfuel Hself (Hne & Hfind) Ht Hl Hpl Hsh Hport He Hd Hsp.
  destruct fuel as [|fuel]; [done|].
  assert (Hrun : quietly (JoinCluster (S fuel) self replicas) w tt (joined
      (replica_addr (f_replica (p_flags p)) (f_shard (p_flags p)) (f_raftPort (p_flags p)))
      (host_addr (f_address (p_flags p)) (f_raftPort (p_flags p))) (members (w_env w)))).
  2:{ destruct Hrun as (e' & Hrun & He' & Hms). exists e'. split_and!; try done.
      rewrite Hms. by apply distinct_joined. }
  unfold JoinCluster. eapply quietly_bind; [by eapply quietly_Leader|]. intros e1 He1 Hms1.
  eapply (quietly_bind _ _ _ leader _ (members (w_env w))).
  { destruct Hfind as [Hr|[Hr (known & Hpeers & Hk & Hex)]]; rewrite Hr.
    - rewrite decide_True by done. by apply quietly_ret.
    - rewrite decide_False by auto. cbn [loop].
      eapply quietly_bind; [by eapply search_peers|]. intros e2 He2 Hms2. by apply quietly_ret. }
  intros e2 He2 Hms2. eapply (quietly_bind _ _ _ tt _ (members (w_env w))).
  { cbn [loop]. eapply (quietly_bind _ _ _ (Some tt)).
    - eapply quietly_bind; [by eapply quietly_HasLatestLogs|]. intros e3 He3 Hms3.
      by apply quietly_ret.
    - intros e3 He3 Hms3. by apply quietly_ret. }
  intros e3 He3 Hms3. eapply quietly_bind; [by eapply quietly_proc|]. intros e4 He4 Hms4.
  unfold with_client. rewrite Ht. 
  lazymatch goal with
  | |- quietly _ _ _ ?ms => apply (quietly_bind _ _ _ (Ok mkJoinResponse) _ ms)
  end.
  - apply (quietly_rpc t l pl rl _ _ (Ok mkJoinResponse)); [done|exact Hpl|exact He4|].
    intros e5 [He5 Hms5]. simpl in Hms5.
    replace (members (w_env w)) with (members e5) in * by congruence.
    rewrite <- Hsh, <- Hport in Hsp |- *. by apply (quietly_Join (env_at w e5) l pl).
  - intros e5 He5 Hms5. by apply quietly_ret.
Qed.

(** ** Leaving *)

Lemma quietly_Close w n p r ms :
  runs w n p r -> r <> rl -> steady (w_env w) -> members (w_env w) = ms ->
  exists err, quietly (kv n KVStore_Close) w err ms.
Proof.
  intros (Hp & Hc & Hr) Hne He Hms. destruct (group_State r _ He Hne) as (e' & Hst & He' & Hms').
  exists None, e'. split; [|split; [done|congruence]]. apply (kv_readonly n _ w p); [done|done|].
  unfold KVStore_Close, ShutdownRaft, with_raft, bind, get, env_call. simpl. rewrite Hr. simpl.
  by rewrite Hst.
Qed.

(** A leader makes another one the leader and takes a snapshot; the snapshot may fail. *)
Lemma quietly_Close_leader w n p r `{!Handover E rl r} ms :
  runs w n p r -> handing_over (w_env w) -> members (w_env w) = ms ->
  exists err, quietly (kv n KVStore_Close) w err ms.
Proof.
  intros (Hp & Hc & Hr) He Hms. destruct (handover_State _ He) as (e1 & Hst & He1 & Hms1).
  destruct (handover_Transfer _ He1) as (e2 & Htr & He2 & Hms2).
  set (b := Marshal_KVFSMSnapshot (snapshot_message {| fs_store := k_store (m_fsm (p_mem p));
    fs_writesEnabled := k_writesEnabled (m_fsm (p_mem p)) |} (m_heap (p_mem p)))).
  destruct (handover_Snapshot b _ He2) as (e3 & x & Hsn & He3 & Hms3).
  exists (match x with
          | Err err => Some (Errorf ("could not snapshot: " +:+ Error err))
          | Ok _ => None
          end), e3.
  split; [|split; [done|congruence]]. apply (kv_readonly n _ w p); [done|done|].
  unfold KVStore_Close, ShutdownRaft, with_raft, bind, get, env_call. simpl. rewrite Hr. simpl.
  rewrite Hst. simpl. rewrite Htr. simpl. fold b. rewrite Hsn. by destruct x.
Qed.

Lemma quietly_Sleep w z ms :
  steady (w_env w) -> members (w_env w) = ms -> quietly (envc (time_Sleep z)) w tt ms.
Proof.
  intros He Hms. destruct (group_Sleep z _ He) as (e' & Hsl & He' & Hms').
  exists e'. split; [|split; [done|congruence]]. unfold envc. by rewrite Hsl.
Qed.

Lemma quietly_DemoteVoter w l pl i :
  runs w l pl rl -> steady (w_env w) ->
  replica_addr (dv_Replica i) (f_shard (p_flags pl)) (f_raftPort (p_flags pl)) <> rl ->
  quietly (replicaRpcServer_DemoteVoter l i) w (Ok mkDemoteVoterResponse)
    (demoted (replica_addr (dv_Replica i) (f_shard (p_flags pl)) (f_raftPort (p_flags pl)))
       (members (w_env w))).
Proof.
  intros Hl He Hne. eapply quietly_bind; [by eapply quietly_proc|]. intros e1 He1 Hms1.
  destruct (Hl) as (Hp & Hc & Hr). rewrite <- Hms1.
  destruct (DemoteVoter_run rl (dv_Address i) (f_raftPort (p_flags pl)) (f_shard (p_flags pl))
    (dv_Replica i) (p_mem pl) e1 Hr He1 Hne) as (e2 & Hrun & He2 & Hms2).
  eapply (quietly_bind _ _ _ None).
  - exists e2. split; [|done]. by apply (kv_readonly l _ (env_at w e1) pl).
  - intros e3 He3 Hms3. by apply quietly_ret.
Qed.

(** The process has a client for the leader that it knows of, if any, and the client leads to a
    leader with the flags of the same shard. *)
Definition reaches_leader w p (r : string) : Prop :=
  leader_id r <> "" ->
  exists t l pl, p_replicaClients p !! leader_id r = Some t /\ reach t = Some l /\ runs w l pl rl /\
    f_shard (p_flags pl) = f_shard (p_flags p) /\ f_raftPort (p_flags pl) = f_raftPort (p_flags p).

(** C16: a replica that is stopped leaves its group. The shutdown of a process that does not lead,
    or that leads and hands over to another one, whose name is not its own, comes to an end, and
    the processes are as before. If its store then knows of the leader, and the client for it leads there, the
    replica stays in the configuration of the group under its name, without a vote, and the
    other members are untouched; if it knows of no leader, the configuration is untouched. *)
Theorem replica_leaves self w p r `{!Handover E rl r} :
  runs w self p r -> reaches_leader w p r ->
  replica_addr (f_replica (p_flags p)) (f_shard (p_flags p)) (f_raftPort (p_flags p)) <> rl ->
  (r <> rl /\ steady (w_env w)) \/ handing_over (w_env w) ->
  exists e', main_shutdown self w = (env_at w e', Ret tt) /\ steady e' /\
    members e' =
      if decide (leader_id r = "") then members (w_env w)
      else demoted
        (replica_addr (f_replica (p_flags p)) (f_shard (p_flags p)) (f_raftPort (p_flags p)))
        (members (w_env w)).
Proof.
  intros Hself Hreach Hname He. unfold main_shutdown.
  assert (exists err, quietly (kv self KVStore_Close) w err (members (w_env w))) as [err Hclose].
  { destruct He as [[Hne He]|He]; [by eapply quietly_Close|by eapply quietly_Close_leader]. }
  eapply quietly_bind; [exact Hclose|]. intros e1 He1 Hms1.
  eapply quietly_bind; [by eapply quietly_Leader|]. intros e2 He2 Hms2.
  eapply (quietly_bind _ _ _ tt); [|intros e3 He3 Hms3; by apply quietly_Sleep; [|exact Hms3]].
  case_decide as Hl; [by apply quietly_ret|].
  destruct (Hreach Hl) as (t & l & pl & Ht & Hrl & Hpl & Hsh & Hport).
  eapply quietly_bind; [by eapply quietly_proc|]. intros e3 He3 Hms3.
  unfold with_client. rewrite Ht.
  lazymatch goal with
  | |- quietly _ _ _ ?ms => apply (quietly_bind _ _ _ (Ok mkDemoteVoterResponse) _ ms)
  end.
  - apply (quietly_rpc t l pl rl _ _ (Ok mkDemoteVoterResponse)); [done|exact Hpl|exact He3|].
    intros e4 [He4 Hms4]. simpl in Hms4.
    replace (members (w_env w)) with (members e4) by congruence.
    rewrite <- Hsh, <- Hport in Hname |- *. by apply (quietly_DemoteVoter (env_at w e4) l pl).
  - intros e4 He4 Hms4. by apply quietly_ret.
Qed.

End joining.

(** ** The second replica of a shard comes back at another address *)

#[local] Existing Instance members_raft.
#[local] Existing Instance members_membership.

#[local] Instance members_net : Net Group := {|
  grpc_Dial t e := (e, None);
  net_route t e :=
    (e, if decide (t = "r0.s:8083") then Reach "n0" None
        else if decide (t = "r1.s:8083") then Reach "n1" None
        else Unreachable "Unavailable" "no such host");
  net_Listen n a e := (e, None);
  grpc_Serve n a s e := (e, tt)
|}.

#[local] Instance members_os : OS Group := {|
  os_ReadFile n p e := (e, Ok "");
  os_Stat_IsNotExist n p e := (e, true);
  yaml_Unmarshal := sim_yaml;
  time_Sleep t e := (e, tt);
  range_order keys e := (e, remove_dups keys)
|}.

#[local] Instance members_group : SteadyGroup Group "r0.s:8082".
Proof.
  refine {| leader_id r := if decide (r = "r1.s:8082") then "" else "r0.s:8082";
            reach t := if decide (t = "r0.s:8083") then Some "n0"
                       else if decide (t = "r1.s:8083") then Some "n1" else None |};
    simpl; intros; try (by eexists).
  - by eexists _, _.
  - rewrite decide_False by (intros ->; naive_solver). by eexists.
  - by eexists _, _, _.
  - repeat case_decide; simplify_eq; by eexists.
Defined.

Definition ex_replica (replica address : string) : Proc := {|
  p_flags := {| f_address := address; f_kvPort := 8080; f_shardPort := 8081; f_raftPort := 8082;
                f_replicaPort := 8083; f_shard := "s"; f_replica := replica; f_folder := "/data";
                f_configFile := "/etc/config/config.yaml"; f_shouldBootstrap := false |};
  p_ch := ["s"];
  p_shardClients := ∅;
  p_replicaClients := {[ "r0.s:8082" := "r0.s:8083"; "r1.s:8082" := "r1.s:8083" ]};
  p_mem := sim_mem (replica +:+ ".s:8082") ∅;
  p_isRestart := true;
  p_redistributingKeys := false;
  p_crashed := false
|}.

Definition ex_group : World Group := {|
  w_procs := {[ "n0" := ex_replica "r0" "10.0.0.1"; "n1" := ex_replica "r1" "10.0.0.4" ]};
  w_env := ex_led ex_members;
  w_go := []
|}.

Lemma replica_joins_witness :
  JoinCluster 1 "n1" ["r1"; "r0"] ex_group =
    (env_at ex_group (ex_led [ex_voter "r0.s:8082" "10.0.0.1:8082"; ex_voter "r2.s:8082" "10.0.0.3:8082";
                      ex_voter "r1.s:8082" "10.0.0.4:8082"]), Ret tt).
Proof.
  destruct (replica_joins "r0.s:8082" 1 "n1" ["r1"; "r0"] ex_group (ex_replica "r1" "10.0.0.4")
    "r1.s:8082" "r0.s:8082" "r0.s:8083" "n0" (ex_replica "r0" "10.0.0.1"))
    as (e' & Hrun & [He _] & Hms & _);
    [lia|done| |done|done|done|done|done|exact ex_steady|exact ex_distinct|by apply ex_spares|].
  - split; [done|]. right. split; [done|].
    exists (fun d => if decide (d = "r1") then "" else "r0.s:8082"). split_and!.
    + intros d [->|[->|[]%elem_of_nil]%elem_of_cons]%elem_of_cons.
      * by exists "r1.s:8083", "n1", (ex_replica "r1" "10.0.0.4"), "r1.s:8082".
      * by exists "r0.s:8083", "n0", (ex_replica "r0" "10.0.0.1"), "r0.s:8082".
    + intros d _. case_decide; auto.
    + exists "r0". split; [right; left|done].
  - destruct e' as [l ms]. simpl in He, Hms. subst l ms. exact Hrun.
Defined.

#[local] Instance members_handover r : Handover Group "r0.s:8082" r.
Proof.
  refine {| handing_over g := r = g_leader g /\ led_by "r0.s:8082" (g_members g) |}.
  - intros g [Hg Hv]. exists g. split_and!; [|done|done|done]. simpl. by rewrite decide_True.
  - intros g [_ Hv]. by eexists.
  - intros b g Hg. by exists g, (Ok (Ok (1%Z, b))).
Defined.

(** The third replica is stopped while it leads. *)
Definition ex_stopping : World Group := {|
  w_procs := {[ "n0" := ex_replica "r0" "10.0.0.1"; "n2" := ex_replica "r2" "10.0.0.3" ]};
  w_env := {| g_leader := "r2.s:8082"; g_members := ex_members |};
  w_go := []
|}.

Lemma replica_leaves_witness :
  main_shutdown "n2" ex_stopping =
    (env_at ex_stopping (ex_led
       [ex_voter "r0.s:8082" "10.0.0.1:8082"; ex_voter "r1.s:8082" "10.0.0.2:8082";
        {| mb_Server := {| srv_ID := "r2.s:8082"; srv_Address := "10.0.0.3:8082" |};
           mb_Voter := false |}]), Ret tt).
Proof.
  destruct (replica_leaves "r0.s:8082" "n2" ex_stopping (ex_replica "r2" "10.0.0.3") "r2.s:8082")
    as (e' & Hrun & [He _] & Hms); [done| |done| |].
  - intros _. by exists "r0.s:8083", "n0", (ex_replica "r0" "10.0.0.1").
  - right. split; [done|apply ex_steady].
  - destruct e' as [l ms]. simpl in He, Hms. subst l ms. exact Hrun.
Defined.
