(* ===== verification/ShardLoops.v ===== *)
(** * Loops of the shard server

    The loop that dials other shards ends as soon as dialling succeeds; the loop that looks
    for a leader does not end for a process whose shard the configuration does not name. *)

From S2P Require Import Prelude Protos RaftCommon KVStore KVStoreSpec Shard ShardWorld.
From S2P Require Import Redistribution Pending Answers Sim SimNet.

(** ** Dialling *)

(** A network on which dialling an address fails a number of times, and then succeeds. *)
Class Reachable (E : Type) `{!Net E, !OS E} := {
  failures : string -> E -> nat;
  dial_failures : forall t e,
    match grpc_Dial t e with
    | (e', None) => forall t', failures t' e' <= failures t' e
    | (e', Some _) =>
        failures t e' < failures t e /\ forall t', failures t' e' <= failures t' e
    end;
  sleep_failures : forall t n e, failures t (time_Sleep n e).1 <= failures t e
}.

Section loops.
Context `{!Proto, !ConsistentHash} {E : Type} `{!Raft E, !RaftSetup E, !Net E, !OS E}.
Implicit Types (w : World E) (p : Proc).

(** The process [self] of [w] with the clients [cs], in the environment [e]. *)
Definition with_clients (self : string) p (cs : gmap string string) (e : E) w : World E :=
  {| w_procs := <[self := set_p_shardClients cs p]> (w_procs w); w_env := e; w_go := w_go w |}.

Definition shard_addr p (s : KVStoreShard) : string :=
  host_addr (ks_Name s) (f_shardPort (p_flags p)).

Context `{!Reachable E} (fuel : nat).

(** The loop for one shard. *)
Lemma dial_shard self p s cs e w :
  p_crashed p = false -> failures (shard_addr p s) e < fuel ->
  exists cs' e', PopulateShardClients fuel self [s] (with_clients self p cs e w) =
      (with_clients self p cs' e' w, Ret tt) /\
    (cs' = cs /\ is_Some (cs !! ks_Name s) \/
     cs !! ks_Name s = None /\ cs' = <[ks_Name s := shard_addr p s]> cs) /\
    forall t, failures t e' <= failures t e.
Proof.
  intros Hc. unfold PopulateShardClients. cbn [for_each].
  revert e. induction fuel as [|n IH]; intros e Hlt; [lia|].
  cbn [loop]. unfold bind at 1, bind at 1, bind at 1, proc. simpl.
  rewrite lookup_insert_eq. simpl. rewrite Hc. simpl. case_decide as Hin.
  { exists cs, e. split_and!; [done|by left|done]. }
  unfold bind at 1, envc. simpl. pose proof (dial_failures (shard_addr p s) e) as Hd.
  fold (shard_addr p s). destruct (grpc_Dial (shard_addr p s) e) as [e1 [err|]].
  - destruct Hd as [Hlt1 Hle]. unfold bind at 1. simpl.
    pose proof (fun t => sleep_failures t 1 e1) as Hsl.
    destruct (time_Sleep 1 e1) as [e2 []]. simpl in Hsl.
    destruct (IH e2) as (cs' & e' & Hrun & Hcs & Hle'); [specialize (Hsl (shard_addr p s)); lia|].
    exists cs', e'. split_and!; [exact Hrun|done|].
    intros t. specialize (Hsl t). specialize (Hle t). specialize (Hle' t). lia.
  - exists (<[ks_Name s := shard_addr p s]> cs), e1. split_and!; [|right|done].
    + unfold bind, upd_proc, modify, upd_world, ret, with_clients. simpl.
      by rewrite alter_insert_eq.
    + split; [|done]. by apply eq_None_not_Some.
Qed.

Lemma dial_shards self p shards cs e w :
  p_crashed p = false -> Forall (fun s => failures (shard_addr p s) e < fuel) shards ->
  exists cs' e', PopulateShardClients fuel self shards (with_clients self p cs e w) =
      (with_clients self p cs' e' w, Ret tt) /\
    cs ⊆ cs' /\ dom cs' = dom cs ∪ list_to_set (map ks_Name shards) /\
    forall s, s ∈ shards -> cs !! ks_Name s = None ->
      cs' !! ks_Name s = Some (shard_addr p s).
Proof.
  intros Hc Hf. revert cs e Hf. induction shards as [|d shards IH]; intros cs e Hf.
  { exists cs, e. split_and!; [done|done|clear; set_solver|]. by intros s ?%elem_of_nil. }
  inversion Hf as [|? ? Hd Hf']; subst.
  destruct (dial_shard self p d cs e w Hc Hd) as (cs1 & e1 & Hrun1 & Hcs1 & Hle).
  destruct (IH cs1 e1) as (cs2 & e2 & Hrun2 & Hsub & Hdom & Hall).
  { eapply Forall_impl; [exact Hf'|]. intros s Hs.
    eapply Nat.le_lt_trans; [apply Hle|exact Hs]. }
  assert (Hsub1 : cs ⊆ cs1).
  { destruct Hcs1 as [[-> _]|[Hn ->]]; [done|]. by apply insert_subseteq. }
  assert (Hdom1 : dom cs1 = dom cs ∪ {[ks_Name d]}).
  { destruct Hcs1 as [[-> Hin%elem_of_dom]|[_ ->]]; [clear -Hin; set_solver|].
    rewrite dom_insert_L. clear. set_solver. }
  exists cs2, e2. split_and!.
  - unfold PopulateShardClients in *. cbn [for_each] in *.
    apply bind_Ret_inv in Hrun1 as (w1 & [] & Hrun1 & Heq). injection Heq as ->.
    by rewrite (bind_Ret _ _ _ _ _ Hrun1).
  - by etrans.
  - rewrite Hdom, Hdom1. clear. set_solver.
  - intros s Hs Hn. destruct (cs1 !! ks_Name s) as [t|] eqn:Hs1.
    + destruct Hcs1 as [[-> _]|[_ ->]]; [congruence|].
      apply lookup_insert_Some in Hs1 as [[Heq <-]|[_ Hs1]]; [|congruence].
      unfold shard_addr. rewrite <- Heq. eapply lookup_weaken; [|exact Hsub].
      apply lookup_insert_eq.
    + apply Hall; [|done]. apply elem_of_cons in Hs as [->|Hs]; [|done].
      destruct Hcs1 as [[-> [t Ht]]|[_ ->]]; [congruence|].
      by rewrite lookup_insert_eq in Hs1.
Qed.

(** C21: Dialling ends. On a network on which dialling each of the shards succeeds after a
    number of failed attempts that is below the bound, [PopulateShardClients] returns; it
    changes nothing but the map of clients, in which the clients that were there stay,
    every shard of the list has a client, and a client that is new leads to
    the address of its shard. *)
Theorem PopulateShardClients_returns self shards w p :
  w_procs w !! self = Some p -> p_crashed p = false ->
  Forall (fun s => failures (shard_addr p s) (w_env w) < fuel) shards ->
  exists cs e', PopulateShardClients fuel self shards w =
      (with_clients self p cs e' w, Ret tt) /\
    p_shardClients p ⊆ cs /\
    dom cs = dom (p_shardClients p) ∪ list_to_set (map ks_Name shards) /\
    forall s, s ∈ shards -> p_shardClients p !! ks_Name s = None ->
      cs !! ks_Name s = Some (shard_addr p s).
Proof.
  intros Hp Hc Hf.
  assert (Hw : w = with_clients self p (p_shardClients p) (w_env w) w).
  { unfold with_clients. destruct w as [procs env go]. simpl in *. f_equal.
    symmetry. apply insert_id. rewrite Hp. by destruct p. }
  destruct (dial_shards self p shards (p_shardClients p) (w_env w) w Hc Hf)
    as (cs & e' & Hrun & Hrest).
  exists cs, e'. split; [|done]. by rewrite Hw at 1.
Qed.

End loops.

(** ** Looking for a leader *)

Section spins.
Context `{!Proto, !ConsistentHash} {E : Type} `{!Raft E, !RaftSetup E, !Net E, !OS E}.
Implicit Types (w : World E) (p : Proc).

Lemma loop_spins {W A} n (w : W) : loop n (ret (None : option A)) w = (w, Hang).
Proof. induction n as [|n IH]; [done|]. exact IH. Qed.

(** C34: A process whose shard the configuration does not name never joins. If Raft knows
    no leader when [PopulateReplicaClients] runs, there is no replica to ask for one;
    however many rounds the loop is given, it has not ended, and the process has dialled
    nobody, has not slept and has not asked to join: nothing has happened but the one
    question to Raft. *)
Theorem PopulateReplicaClients_spins fuel self cfg w p r e' a :
  w_procs w !! self = Some p -> p_crashed p = false ->
  own_replicas (f_shard (p_flags p)) cfg = [] ->
  k_raft (m_kv (p_mem p)) = Some r -> raft_LeaderWithID r (w_env w) = (e', (a, "")) ->
  PopulateReplicaClients fuel self cfg w =
    ({| w_procs := w_procs w; w_env := e'; w_go := w_go w |}, Hang).
Proof.
  intros Hp Hc Hown Hr Hl. unfold PopulateReplicaClients.
  rewrite (bind_Ret _ _ _ _ _ (proc_alive _ _ _ Hp Hc)), Hown. cbn [for_each].
  unfold bind at 1, ret at 1. unfold JoinCluster.
  erewrite bind_Ret; [|apply (kv_readonly self _ w p e' "" Hp Hc)].
  - rewrite decide_False by (intros Hn; by apply Hn). unfold bind at 1. cbn [for_return].
    by rewrite loop_spins.
  - unfold KVStore_Leader, with_raft, bind, get, env_call, ret. simpl. rewrite Hr. simpl.
    by rewrite Hl.
Qed.

End spins.

(** ** Runs *)

#[export] Instance sim_reachable : Reachable SimEnv.
Proof. refine {| failures _ _ := 0 |}; simpl; intros; lia. Defined.

(** A process dials the two shards of the new configuration. *)
Lemma PopulateShardClients_returns_witness :
  exists cs e', PopulateShardClients 1 "n0" [sim_shard "0"; sim_shard "1"]
      (sim_world "scaling" ∅) =
      (with_clients "n0" (sim_proc "0" ["kvs-shard-0"] ∅) cs e' (sim_world "scaling" ∅), Ret tt) /\
    cs !! "kvs-shard-1" = Some "kvs-shard-1:8081".
Proof.
  destruct (PopulateShardClients_returns 1 "n0" [sim_shard "0"; sim_shard "1"]
    (sim_world "scaling" ∅) (sim_proc "0" ["kvs-shard-0"] ∅)) as (cs & e' & Hrun & _ & _ & Hall).
  - reflexivity.
  - reflexivity.
  - repeat constructor.
  - exists cs, e'. split; [exact Hrun|].
    apply (Hall (sim_shard "1")); [by right; left|reflexivity].
Defined.

(** The replica of the second shard, started while the configuration names the first one
    only, in a group without a leader. *)
Definition sim_leaderless : World SimEnv :=
  {| w_procs := w_procs (sim_world "one" ∅);
     w_env := {| sim_leaders := []; sim_leader := ""; sim_servers := []; sim_calls := [];
                 sim_file := "one" |};
     w_go := [] |}.

Lemma PopulateReplicaClients_spins_witness :
  PopulateReplicaClients 1000 "n1" {| kc_Shards := [sim_shard "0"]; kc_NewShards := [] |}
    sim_leaderless = (sim_leaderless, Hang).
Proof.
  apply (PopulateReplicaClients_spins 1000 "n1" _ sim_leaderless
    (sim_proc "1" ["kvs-shard-0"] ∅) (sim_id "1") (w_env sim_leaderless) "");
    reflexivity.
Defined.
