(* ===== verification/ShardProps.v ===== *)
(** * Properties of the replica process (shard.go)

    The main theorems about the replica process, with a run of each of
    them on the deployment of SimNet. *)

From S2P Require Import Prelude Protos RaftCommon KVStore KVStoreSpec KVStoreFlag Sim.
From S2P Require Import Shard ShardWorld Redistribution Pending Stable Completion Serving SimNet.

Section props.
Context `{!Proto, !ConsistentHash} {E : Type} `{!Raft E, !RaftSetup E, !Net E, !OS E}.
Implicit Types (w : World E).

(** C4: redistribution loses no entry. Whatever fails during a run of
    [RedistributeKeys] at a process - lost answers, refused calls, crashes of this
    or another process, a loop that never ends - an entry that the process held
    when the run began is afterwards still held by it, or by a process of the
    shard at which the ring of the new shards locates its key. *)
Theorem RedistributeKeys_no_loss `{!Topology E, !ProtoLaws, !RaftSerial E, !ConfigLabels E}
    fuel self w w' o k v :
  world_inv w -> stored w self k v -> RedistributeKeys fuel self w = (w', o) ->
  stored w' self k v \/
  exists S n, planned_location w self k = Some S /\ node_shard n = S /\ stored w' n k v.
Proof.
  intros Hinv Hst Hrun.
  destruct (RedistributeKeys_safe fuel self w w' o k v Hinv Hst Hrun) as (_ & _ & Hat).
  destruct Hat as [|(S & HS & n & Hn & Hv)]; [by left|right]. by exists S, n.
Qed.

(** C5: redistribution completes. In a cluster that keeps working,
    [RedistributeKeys] at a leader returns; then the process holds exactly the
    entries that need not move, each entry that has to move is held by the
    process that writes for its new shard, the flag is reset, and a following
    count of pending keys reports zero. *)
Theorem RedistributeKeys_completes
    `{!Topology E, !ProtoLaws, !StableCluster E, !ConsistentLaws, !OSLaws E, !ConfigLabels E}
    fuel w self p s c newCh dst i :
  fuel <> 0%nat -> can_redistribute w self p s c newCh dst ->
  exists w', RedistributeKeys fuel self w = (w', Ret tt) /\
    redistributed w w' self p s newCh dst /\
    (replicaRpcServer_RedistributeKeys self i w').2 = Ret (Ok {| rk_PendingKeys := 0 |}).
Proof.
  intros Hfuel Hcan.
  destruct (RedistributeKeys_stable fuel w self p s c newCh dst Hfuel Hcan) as (w' & Hrun & Hre).
  exists w'. split; [done|]. split; [done|].
  destruct Hcan as (_ & _ & _ & _ & _ & _ & Hy & _ & Hring & [Hloc _] & _).
  destruct Hre as ((_ & Hst & Hc) & _ & _ & (p' & s' & Hp' & Hok & _ & Hch & Hfl & Hmap) & _).
  destruct (stable_ReadFile self (f_configFile (p_flags p')) (w_env w') Hst)
    as (e1 & Hread & _).
  destruct (replica_RedistributeKeys_run self i p' s' w' e1 config_text c newCh)
    as [e' ->]; [done|by apply (Hc self)|done..| |].
  { unfold located. rewrite Hch, Hmap. intros k [v [Hv _]%lookup_difference_Some].
    apply Hloc. by exists v. }
  simpl. do 3 f_equal. rewrite Hmap.
  replace (moving_entries p' newCh _) with (∅ : gmap string string); [done|].
  symmetry. apply map_empty. intros k. unfold moving_entries, moves_key.
  apply map_lookup_filter_None. right. intros v Hv. rewrite Hch, Hfl.
  apply lookup_difference_Some in Hv as [Hv Hno]. unfold moving_entries, moves_key in Hno.
  rewrite map_lookup_filter_None in Hno. destruct Hno as [|Hno]; [congruence|].
  by apply Hno.
Qed.

(** C13: the number of pending keys is exact. The answer of
    [replicaRpcServer.RedistributeKeys] is the number of entries of the process
    that the old ring locates at its shard and the new ring elsewhere, taken as
    an int32; nothing but a goroutine is changed. Below 2^31 entries, the answer
    is zero exactly when no entry has to move. *)
Theorem pending_count_exact `{!OSLaws E} self i p s w e1 buf c newCh :
  w_procs w !! self = Some p -> p_crashed p = false -> node_ok (p_mem p) s ->
  os_ReadFile self (f_configFile (p_flags p)) (w_env w) = (e1, Ok buf) ->
  yaml_Unmarshal buf = Ok c ->
  consistent_New (map ks_Name (kc_NewShards c)) consistentHashCfg = Some newCh ->
  located p newCh (sp_map s) ->
  exists w' pending, replicaRpcServer_RedistributeKeys self i w =
      (w', Ret (Ok {| rk_PendingKeys := pending |})) /\
    w_procs w' = w_procs w /\ w_go w' = w_go w ++ [(self, Go_RedistributeKeys)] /\
    pending = int32 (Z.of_nat (size (moving_entries p newCh (sp_map s)))) /\
    ((Z.of_nat (size (sp_map s)) < 2 ^ 31)%Z ->
     pending = 0%Z <-> moving_entries p newCh (sp_map s) = ∅).
Proof.
  intros Hp Hc Hok Hf Hy Hring Hloc.
  destruct (replica_RedistributeKeys_run self i p s w e1 buf c newCh) as [e' Hrun]; [done..|].
  eexists _, _. split; [exact Hrun|]. split; [done|]. split; [done|]. split; [done|].
  intros Hsize. pose proof (map_subseteq_size (moving_entries p newCh (sp_map s)) (sp_map s)
    (map_filter_subseteq _ _)) as Hle.
  rewrite int32_id by lia. rewrite <- map_size_empty_iff. lia.
Qed.

(** A write that is acknowledged to a client is read by clients. In a cluster
    that keeps working, with a leader behind the address of the key's shard, a
    [Put] through any process succeeds, changes nothing but that entry at that
    leader, and a [Get] of the key through any process that forwards it to the
    same leader then yields the value. *)
Theorem client_Put_then_Get `{!Topology E, !ProtoLaws, !StableCluster E} self n k v w :
  encodable (set_entry k v) -> healthy w -> routes w self k n -> leading w n = true ->
  exists w1, kvServer_Put self {| put_Key := k; put_Value := v |} w =
      (w1, Ret (Ok mkPutResponse)) /\ wrote n (spec_set k v) w w1 /\
    forall self', routes w self' k n ->
      exists w2, kvServer_Get self' {| get_Key := k |} w1 = (w2, Ret (Ok {| get_Value := v |})) /\
        w_procs w2 = w_procs w1.
Proof.
  intros Henc Hw Hr Hl. destruct (kvServer_Put_run self n k v w Henc Hw Hr Hl) as (w1 & Hrun & Hwr).
  exists w1. split; [done|]. split; [done|]. intros self' Hr'.
  destruct (wrote_holds_target _ _ _ _ Hwr) as (s & _ & Hs).
  destruct (kvServer_Get_run self' n k w1 (spec_set k v s)) as (w2 & Hget & Hp & _);
    [by eapply wrote_healthy|by eapply routes_wrote|done|].
  exists w2. split; [|done]. rewrite Hget. unfold get_answer. simpl.
  by rewrite lookup_insert_eq.
Qed.

(** A deleted key is not found. In a cluster that keeps working a client's
    [Delete] through any process succeeds, changes nothing but that entry at the
    leader of the key's shard, and a following [Get] of it fails with the status
    Unknown and the text of the store's error. *)
Theorem client_Delete_then_Get `{!Topology E, !ProtoLaws, !StableCluster E} self n k w :
  encodable (delete_entry k) -> healthy w -> routes w self k n -> leading w n = true ->
  exists w1, kvServer_Delete self {| del_Key := k |} w = (w1, Ret (Ok mkDeleteResponse)) /\
    wrote n (spec_delete k) w w1 /\
    forall self', routes w self' k n ->
      exists w2, kvServer_Get self' {| get_Key := k |} w1 =
        (w2, Ret (Err (StatusErr "Unknown" "Key not found"))) /\ w_procs w2 = w_procs w1.
Proof.
  intros Henc Hw Hr Hl. destruct (kvServer_Delete_run self n k w Henc Hw Hr Hl) as (w1 & Hrun & Hwr).
  exists w1. split; [done|]. split; [done|]. intros self' Hr'.
  destruct (wrote_holds_target _ _ _ _ Hwr) as (s & _ & Hs).
  destruct (kvServer_Get_run self' n k w1 (spec_delete k s)) as (w2 & Hget & Hp & _);
    [by eapply wrote_healthy|by eapply routes_wrote|done|].
  exists w2. split; [|done]. rewrite Hget. unfold get_answer. simpl.
  by rewrite lookup_delete_eq.
Qed.

(** The leader writes although writes are paused. A put from a client that
    reaches a leader is written also when the flag of the leader's FSM says that
    writes are disabled: the handler does not look at it. *)
Theorem leader_Put_ignores_pause `{!Topology E, !ProtoLaws, !StableCluster E} n k v s w :
  encodable (set_entry k v) -> healthy w -> leading w n = true ->
  holds w n s -> sp_writes s = false ->
  exists w', shardRpcServer_Put n
      {| ip_Key := k; ip_Value := v; ip_IsRedistribution := false |} w =
      (w', Ret (Ok mkPutResponse)) /\
    holds w' n {| sp_map := <[k := v]> (sp_map s); sp_writes := false |}.
Proof.
  intros Henc Hw Hl Hs Hoff.
  destruct (shard_Put_leads n k v false w Henc Hw Hl) as (w' & Hrun & Hwr).
  exists w'. split; [done|]. apply (wrote_holds _ _ _ _ Hwr) in Hs.
  rewrite decide_True in Hs by done. unfold spec_set in Hs. by rewrite Hoff in Hs.
Qed.

(** While a configuration announces new shards, no process adopts it.
    [ReloadConfig] and [ResumeWrites] of a replica answer that they have not been
    done, and no process changes. *)
Theorem no_reload_while_scaling fuel self p w e1 buf c :
  w_procs w !! self = Some p -> p_crashed p = false ->
  os_ReadFile self (f_configFile (p_flags p)) (w_env w) = (e1, Ok buf) ->
  yaml_Unmarshal buf = Ok c -> kc_NewShards c <> [] ->
  exists w', w_procs w' = w_procs w /\
    replicaRpcServer_ReloadConfig fuel self mkReloadConfigRequest w =
      (w', Ret (Ok {| rc_ReloadSuccessful := false |})) /\
    replicaRpcServer_ResumeWrites fuel self mkResumeWritesRequest w =
      (w', Ret (Ok {| rw_IsResumed := false |})).
Proof.
  intros Hp Hc Hread Hy Hne.
  pose proof (ReadConfig_ok self w p e1 buf c Hp Hc Hread Hy) as Hcfg.
  exists {| w_procs := w_procs w; w_env := e1; w_go := w_go w |}. split; [done|].
  assert (Hlen : length (kc_NewShards c) <> 0%nat) by (by destruct (kc_NewShards c)).
  unfold replicaRpcServer_ReloadConfig, ReloadConfig, replicaRpcServer_ResumeWrites.
  rewrite (bind_Ret _ _ _ _ _ Hcfg), decide_True by done. split; [|done].
  unfold bind at 1. by rewrite (bind_Ret _ _ _ _ _ Hcfg), decide_True.
Qed.

(** C25: a reload after scaling adopts the new shards. In a cluster that keeps
    working, when the configuration has no new shards any more, [ReloadConfig]
    succeeds: the process locates keys with the ring of the configured shards, has
    a client at the shard port for each of them, and keeps its store. *)
Theorem ReloadConfig_adopts
    `{!Topology E, !ProtoLaws, !StableCluster E, !ConfigLabels E} fuel self w p c r :
  fuel <> 0%nat -> healthy w -> w_procs w !! self = Some p -> dialled p ->
  yaml_Unmarshal config_text = Ok c -> kc_NewShards c = [] ->
  consistent_New (map ks_Name (kc_Shards c)) consistentHashCfg = Some r ->
  exists w' p', ReloadConfig fuel self w = (w', Ret true) /\
    w_procs w' !! self = Some p' /\ p_ch p' = r /\ p_mem p' = p_mem p /\
    forall d, d ∈ kc_Shards c ->
      p_shardClients p' !! ks_Name d = Some (host_addr (ks_Name d) (f_shardPort (p_flags p))).
Proof.
  intros Hfuel Hh Hp Hdl Hy Hn Hring. destruct (Hh) as (Hinv & Hst & Hc).
  destruct (stable_ReadFile self (f_configFile (p_flags p)) (w_env w) Hst) as (e1 & Hread & He1).
  set (w1 := {| w_procs := w_procs w; w_env := e1; w_go := w_go w |}).
  set (w2 := upd_world self (set_p_ch r) w1).
  assert (Hp2 : w_procs w2 !! self = Some (set_p_ch r p)).
  { unfold w2, upd_world; simpl. by rewrite lookup_alter_eq, Hp. }
  assert (Hh2 : healthy w2).
  { split; [|split]; [|done|]; intros n q; unfold w2, upd_world; simpl;
      rewrite lookup_alter; case_decide; try apply Hinv; try apply Hc;
      subst n; rewrite Hp; intros [= <-]; [apply (Hinv _ _ Hp)|apply (Hc _ _ Hp)]. }
  destruct (dial_all fuel self (kc_Shards c) w2 (set_p_ch r p) Hfuel Hh2 Hp2 Hdl)
    as (w3 & p3 & Hdial & _ & _ & Hp3 & (Hfl & Hch & Hmem & _ & Hdl3) & Hin).
  { intros d Hd. eapply config_labels; [by repeat eexists|exact Hy|]. set_solver. }
  exists w3, p3. split_and!; try done.
  - unfold ReloadConfig.
    rewrite (bind_Ret _ _ _ _ _ (ReadConfig_ok self w p e1 _ c Hp (Hc _ _ Hp) Hread Hy)).
    rewrite Hn, decide_False by auto. unfold new_ring. rewrite Hring.
    unfold bind at 1, ret at 1. rewrite (bind_Ret (upd_proc self _) _ w1 w2 tt eq_refl).
    by rewrite (bind_Ret _ _ _ _ _ Hdial).
  - intros d Hd. destruct (Hin d Hd) as [t Ht]. rewrite Ht, (Hdl3 _ _ Ht).
    by rewrite Hfl.
Qed.

End props.

(** ** Witnesses *)

(** One shard with the entries [a] and [bb] is scaled to two; [a] has to move. *)
Definition ex_entries : gmap string string := {[ "a" := "1"; "bb" := "2" ]}.
Definition ex_spec : KVSpec := {| sp_map := ex_entries; sp_writes := true |}.
Definition ex_world : World SimEnv := sim_world "scaling" ex_entries.
Definition ex_proc : Proc := sim_proc "0" ["kvs-shard-0"] ex_entries.
Definition ex_ring : list string := ["kvs-shard-0"; "kvs-shard-1"].
Definition ex_config : KVStoreConfig :=
  {| kc_Shards := [sim_shard "0"]; kc_NewShards := [sim_shard "0"; sim_shard "1"] |}.
Definition ex_dst (S : string) : string := if decide (S = "kvs-shard-0") then "n0" else "n1".

Lemma ex_holds : holds ex_world "n0" ex_spec.
Proof. exists ex_proc. split; [done|apply sim_mem_ok]. Qed.

Lemma RedistributeKeys_no_loss_witness :
  stored (RedistributeKeys 3 "n0" ex_world).1 "n0" "a" "1" \/
  exists S n, planned_location ex_world "n0" "a" = Some S /\ node_shard n = S /\
    stored (RedistributeKeys 3 "n0" ex_world).1 n "a" "1".
Proof.
  apply (RedistributeKeys_no_loss 3 "n0" ex_world _ (RedistributeKeys 3 "n0" ex_world).2).
  - apply sim_world_inv.
  - exists ex_spec. split; [apply ex_holds|vm_compute; reflexivity].
  - apply surjective_pairing.
Defined.

Lemma ex_located : located ex_proc ex_ring ex_entries.
Proof.
  intros k _. split; apply lookup_lt_is_Some_2; apply Nat.mod_upper_bound; done.
Qed.

Lemma ex_can_redistribute :
  can_redistribute ex_world "n0" ex_proc ex_spec ex_config ex_ring ex_dst.
Proof.
  split; [apply sim_world_healthy|]. split_and!; try done.
  - apply sim_mem_ok.
  - intros name t. simpl. by intros [<- <-]%lookup_singleton_Some.
  - split; [apply ex_located|done].
  - intros d [->|[->|[]%elem_of_nil]%elem_of_cons]%elem_of_cons; vm_compute; reflexivity.
Qed.

Lemma RedistributeKeys_completes_witness :
  exists w', RedistributeKeys 1 "n0" ex_world = (w', Ret tt) /\
    redistributed ex_world w' "n0" ex_proc ex_spec ex_ring ex_dst /\
    (replicaRpcServer_RedistributeKeys "n0" mkRedistributeKeysRequest w').2 =
      Ret (Ok {| rk_PendingKeys := 0 |}).
Proof.
  apply (RedistributeKeys_completes 1 ex_world "n0" ex_proc ex_spec ex_config ex_ring ex_dst);
    [lia|apply ex_can_redistribute].
Defined.

Lemma pending_count_exact_witness :
  exists w', replicaRpcServer_RedistributeKeys "n0" mkRedistributeKeysRequest ex_world =
    (w', Ret (Ok {| rk_PendingKeys := 1 |})).
Proof.
  destruct (pending_count_exact "n0" mkRedistributeKeysRequest ex_proc ex_spec ex_world
    (w_env ex_world) "scaling" ex_config ex_ring) as (w' & pending & Hrun & _ & _ & Hn & _).
  - reflexivity.
  - reflexivity.
  - apply sim_mem_ok.
  - reflexivity.
  - reflexivity.
  - reflexivity.
  - apply ex_located.
  - exists w'. rewrite Hrun, Hn. vm_compute. reflexivity.
Defined.

Lemma ex_routes self k : self = "n0" \/ self = "n1" -> routes ex_world self k "n0".
Proof.
  intros [-> | ->];
    [exists ex_proc|exists (sim_proc "1" ["kvs-shard-0"] ∅)];
    exists "kvs-shard-0", "kvs-shard-0:8081"; (split; [done|]);
    (split; [|done]);
    change (["kvs-shard-0"] !! (String.length k `mod` 1) = Some "kvs-shard-0");
    by rewrite Nat.mod_1_r.
Qed.

Lemma client_Put_then_Get_witness :
  exists w1 w2, kvServer_Put "n1" {| put_Key := "c"; put_Value := "3" |} ex_world =
      (w1, Ret (Ok mkPutResponse)) /\
    kvServer_Get "n0" {| get_Key := "c" |} w1 = (w2, Ret (Ok {| get_Value := "3" |})).
Proof.
  destruct (client_Put_then_Get "n1" "n0" "c" "3" ex_world) as (w1 & Hput & _ & Hget).
  - reflexivity.
  - apply sim_world_healthy.
  - apply ex_routes. by right.
  - vm_compute. reflexivity.
  - destruct (Hget "n0") as (w2 & Hrun & _); [apply ex_routes; by left|].
    exists w1, w2. split; [exact Hput|exact Hrun].
Defined.

Lemma client_Delete_then_Get_witness :
  exists w1 w2, kvServer_Delete "n1" {| del_Key := "a" |} ex_world =
      (w1, Ret (Ok mkDeleteResponse)) /\
    kvServer_Get "n0" {| get_Key := "a" |} w1 =
      (w2, Ret (Err (StatusErr "Unknown" "Key not found"))).
Proof.
  destruct (client_Delete_then_Get "n1" "n0" "a" ex_world) as (w1 & Hdel & _ & Hget).
  - reflexivity.
  - apply sim_world_healthy.
  - apply ex_routes. by right.
  - vm_compute. reflexivity.
  - destruct (Hget "n0") as (w2 & Hrun & _); [apply ex_routes; by left|].
    exists w1, w2. split; [exact Hdel|exact Hrun].
Defined.

(** The leader of the deployment after a committed TOGGLE entry. *)
Definition ex_paused_world : World SimEnv :=
  upd_world "n0" (fun p => set_p_mem (upd_fsm (set_k_writesEnabled false) (p_mem p)) p) ex_world.

Lemma ex_paused_holds :
  holds ex_paused_world "n0" {| sp_map := ex_entries; sp_writes := false |}.
Proof.
  exists (set_p_mem (upd_fsm (set_k_writesEnabled false) (p_mem ex_proc)) ex_proc).
  split; [done|]. split; [|done]. exists 0. done.
Qed.

Lemma ex_paused_healthy : healthy ex_paused_world.
Proof.
  assert (Hw : wrote "n0" (spec_toggle false) ex_world ex_paused_world).
  { split; [done|]. split; [done|].
    exists ex_proc, (upd_fsm (set_k_writesEnabled false) (p_mem ex_proc)), ex_spec.
    split_and!; [done|apply sim_mem_ok| |done|].
    - split; [|done]. exists 0. done.
    - simpl. apply map_eq. intros n. rewrite lookup_alter, !lookup_insert.
      by repeat case_decide. }
  eapply wrote_healthy; [exact Hw|apply sim_world_healthy].
Qed.

Lemma leader_Put_ignores_pause_witness :
  exists w', shardRpcServer_Put "n0"
      {| ip_Key := "c"; ip_Value := "3"; ip_IsRedistribution := false |} ex_paused_world =
      (w', Ret (Ok mkPutResponse)) /\
    holds w' "n0" {| sp_map := <["c" := "3"]> ex_entries; sp_writes := false |}.
Proof.
  apply (leader_Put_ignores_pause "n0" "c" "3" {| sp_map := ex_entries; sp_writes := false |});
    [reflexivity|apply ex_paused_healthy|vm_compute; reflexivity|apply ex_paused_holds|done].
Defined.

Lemma no_reload_while_scaling_witness :
  exists w', w_procs w' = w_procs ex_world /\
    replicaRpcServer_ReloadConfig 3 "n0" mkReloadConfigRequest ex_world =
      (w', Ret (Ok {| rc_ReloadSuccessful := false |})) /\
    replicaRpcServer_ResumeWrites 3 "n0" mkResumeWritesRequest ex_world =
      (w', Ret (Ok {| rw_IsResumed := false |})).
Proof.
  apply (no_reload_while_scaling 3 "n0" ex_proc ex_world (w_env ex_world) "scaling" ex_config);
    try reflexivity. discriminate.
Defined.

Lemma ReloadConfig_adopts_witness :
  exists w' p', ReloadConfig 1 "n0" (sim_world "two" ex_entries) = (w', Ret true) /\
    w_procs w' !! "n0" = Some p' /\ p_ch p' = ex_ring /\
    p_shardClients p' !! "kvs-shard-1" = Some "kvs-shard-1:8081".
Proof.
  destruct (ReloadConfig_adopts (StableCluster0 := sim_stable_at "two") 1 "n0"
    (sim_world "two" ex_entries) ex_proc
    {| kc_Shards := [sim_shard "0"; sim_shard "1"]; kc_NewShards := [] |} ex_ring)
    as (w' & p' & Hrun & Hp & Hch & _ & Hcl).
  - lia.
  - apply sim_world_healthy.
  - reflexivity.
  - intros name t. simpl. by intros [<- <-]%lookup_singleton_Some.
  - reflexivity.
  - reflexivity.
  - reflexivity.
  - exists w', p'. split; [exact Hrun|]. split; [exact Hp|]. split; [exact Hch|].
    apply (Hcl (sim_shard "1")). right. left.
Defined.
