(* ===== verification/System.v ===== *)
(** * The whole deployment as a transition system

    The processes of a deployment, their clients, the Raft library and the environment
    take turns. An [action] is one turn; [act] runs it, and a run of the deployment is
    a list of actions. A redistribution may be cut into its rounds, one key each, with
    other actions in between. *)

From S2P Require Import Prelude Protos RaftCommon KVStore Shard.

(** The requests that the three services take. *)
Inductive request :=
| KvGet (i : GetRequest) | KvPut (i : PutRequest) | KvDelete (i : DeleteRequest)
| ShardGet (i : GetRequest) | ShardPut (i : InternalPutRequest) | ShardDelete (i : DeleteRequest)
| ShardPauseWrites | ShardRedistributeKeys | ShardResumeWrites
| ReplicaPut (i : InternalPutRequest) | ReplicaDelete (i : DeleteRequest)
| ReplicaJoin (i : JoinRequest) | ReplicaLeader | ReplicaDemoteVoter (i : DemoteVoterRequest)
| ReplicaPauseWrites | ReplicaRedistributeKeys | ReplicaResumeWrites | ReplicaReloadConfig.

(** The key that a request writes. *)
Definition written_key (r : request) : option string :=
  match r with
  | KvPut i => Some (put_Key i)
  | KvDelete i | ShardDelete i | ReplicaDelete i => Some (del_Key i)
  | ShardPut i | ReplicaPut i => Some (ip_Key i)
  | _ => None
  end.

Section system.
Context `{!Proto, !ConsistentHash} {E : Type} `{!Raft E, !RaftSetup E, !Net E, !OS E}.
Context (fuel : nat).
Implicit Types (w : World E).

(** The handler of a request; what it answers does not matter here. *)
Definition void {A} (m : M (World E) (res A)) : M (World E) (res unit) :=
  r <- m ;; ret (match r with Ok _ => Ok tt | Err e => Err e end).

Definition handle (r : request) (node : string) : M (World E) (res unit) :=
  match r with
  | KvGet i => void (kvServer_Get node i)
  | KvPut i => void (kvServer_Put node i)
  | KvDelete i => void (kvServer_Delete node i)
  | ShardGet i => void (shardRpcServer_Get node i)
  | ShardPut i => void (shardRpcServer_Put node i)
  | ShardDelete i => void (shardRpcServer_Delete node i)
  | ShardPauseWrites => void (shardRpcServer_PauseWrites node mkPauseWritesRequest)
  | ShardRedistributeKeys =>
      void (shardRpcServer_RedistributeKeys node mkRedistributeKeysRequest)
  | ShardResumeWrites => void (shardRpcServer_ResumeWrites fuel node mkResumeWritesRequest)
  | ReplicaPut i => void (replicaRpcServer_Put node i)
  | ReplicaDelete i => void (replicaRpcServer_Delete node i)
  | ReplicaJoin i => void (replicaRpcServer_Join node i)
  | ReplicaLeader => void (replicaRpcServer_Leader node mkLeaderRequest)
  | ReplicaDemoteVoter i => void (replicaRpcServer_DemoteVoter node i)
  | ReplicaPauseWrites => void (replicaRpcServer_PauseWrites node mkPauseWritesRequest)
  | ReplicaRedistributeKeys =>
      void (replicaRpcServer_RedistributeKeys node mkRedistributeKeysRequest)
  | ReplicaResumeWrites => void (replicaRpcServer_ResumeWrites fuel node mkResumeWritesRequest)
  | ReplicaReloadConfig => void (replicaRpcServer_ReloadConfig fuel node mkReloadConfigRequest)
  end.

(** ** Turns *)

(** A request to an address; the next step of a goroutine that was started, by its
    position in the queue; one round of a redistribution that is under way at a process;
    callbacks of the Raft library at a process; a move of the environment; the start of
    a process, and its stop by a signal. *)
Inductive action :=
| ARequest (target : string) (r : request)
| ATask (i : nat)
| ARound (self : string) (newCh : ring) (key : string)
| ADeliver (self : string) (evs : list fsm_event)
| AEnv (e : E)
| AStart (self : string) (flags : Flags)
| AStop (self : string).

(** A panic ends the process at which the code runs. *)
Definition at_process (self : string) (m : M (World E) unit) : M (World E) unit := fun w =>
  match m w with
  | (w', Crash why) => (upd_world self (set_p_crashed true) w', Crash why)
  | r => r
  end.

Definition set_go (l : list (string * task)) (w : World E) : World E :=
  {| w_procs := w_procs w; w_env := w_env w; w_go := l |}.

Definition act (a : action) : M (World E) unit :=
  match a with
  | ARequest target r => rpc target (handle r) ;;; ret tt
  | ATask i =>
      w <- get ;;
      match w_go w !! i with
      | Some (self, t) =>
          modify (set_go (delete i (w_go w))) ;;; at_process self (run_task fuel self t)
      | None => ret tt
      end
  | ARound self newCh key => at_process self (relocate_key self newCh key)
  | ADeliver self evs => at_process self (kv self (on_mem (deliver KVFsm_FSM evs)))
  | AEnv e => modify (fun w => {| w_procs := w_procs w; w_env := e; w_go := w_go w |})
  | AStart self flags => at_process self (main_start self flags)
  | AStop self =>
      at_process self (main_shutdown self) ;;; upd_proc self (set_p_crashed true)
  end.

(** What a list of turns leads to, whatever the outcome of each of them. *)
Definition run_actions (l : list action) (w : World E) : World E :=
  foldl (fun w a => (act a w).1) w l.

End system.
