(* ===== verification/Sweep.v ===== *)
(** * Redistribution at every shard, in a cluster that keeps working

    When the controller has asked each shard to redistribute keys, the leader of each of
    them has a goroutine that does it. This file shows what it amounts to when these
    goroutines have run, one after the other: no leader has an entry left that has to
    move, and every entry that was where the old ring locates it is now where the new
    ring does. *)

From S2P Require Import Prelude Protos RaftCommon KVStore KVStoreSpec Shard ShardWorld.
From S2P Require Import Redistribution Pending Stable Completion System.

Section sweep.
Context `{!Proto, !ConsistentHash} {E : Type} `{!Raft E, !RaftSetup E, !Net E, !OS E}.
Context `{!Topology E, !ProtoLaws, !StableCluster E, !OSLaws E, !ConfigLabels E}.
Context `{!ConsistentLaws}.
Implicit Types (w : World E) (l n k v : string) (s : KVSpec).

(** The configuration announces new shards; [oldCh] and [newCh] are the rings of the old
    and of the new ones. [leaders] are the processes that lead the shards, and [leader S]
    is the one of the new shard [S]. *)
Context (fuel : nat) (Hfuel : fuel <> 0%nat).
Context (c : KVStoreConfig) (Hcfg : yaml_Unmarshal config_text = Ok c).
Context (Hnew : kc_NewShards c <> []) (oldCh newCh : ring).
Context (Hring : consistent_New (map ks_Name (kc_NewShards c)) consistentHashCfg = Some newCh).
Context (Hold : forall k, is_Some (LocateKey oldCh k)).
Context (Htotal : forall k, is_Some (LocateKey newCh k)).
Context (leaders : list string) (leader : string -> string).

(** A leader that can redistribute its keys. *)
Definition sound_leader w l : Prop :=
  exists p s, w_procs w !! l = Some p /\ node_ok (p_mem p) s /\ leading w l = true /\
    p_redistributingKeys p = false /\ dialled p /\ p_ch p = oldCh /\
    (forall k v, sp_map s !! k = Some v ->
       encodable (set_entry k v) /\ encodable (delete_entry k)) /\
    forall d, d ∈ kc_NewShards c -> writer p w (ks_Name d) = Some (leader (ks_Name d)).

Definition sound w : Prop := healthy w /\ forall l, l ∈ leaders -> sound_leader w l.

(** No entry of the process has to move. *)
Definition settled w l : Prop := forall p s,
  w_procs w !! l = Some p -> node_ok (p_mem p) s -> moving_entries p newCh (sp_map s) = ∅.

(** The old ring locates [k] at the shard of [l], and the new one elsewhere. *)
Lemma moves_key_iff w l p k :
  healthy w -> w_procs w !! l = Some p -> p_ch p = oldCh ->
  moves_key p newCh k = true <->
  LocateKey oldCh k = Some (node_shard l) /\ LocateKey newCh k <> Some (node_shard l).
Proof.
  intros (Hinv & _) Hp Hch. destruct (Hinv _ _ Hp) as [(Hsh & _) _].
  unfold moves_key, must_move. rewrite Hch, Hsh.
  destruct (Hold k) as [o Ho], (Htotal k) as [m Hm]. rewrite Ho, Hm.
  rewrite andb_true_iff, !bool_decide_eq_true. split.
  - intros [Hne ->]. split; [done|]. congruence.
  - intros [[= ->] Hne]. split; [|done]. congruence.
Qed.

(** A new shard is led by one of its processes. *)
Lemma leader_shard w l k S :
  sound w -> l ∈ leaders -> LocateKey newCh k = Some S -> node_shard (leader S) = S.
Proof.
  intros [Hh Hs] Hl HS. destruct (Hs l Hl) as (p & s & Hp & _ & _ & _ & _ & _ & _ & Hw).
  pose proof (LocateKey_member _ _ _ _ _ Hring HS) as Hmem.
  apply list_elem_of_fmap in Hmem as (d & -> & Hd). specialize (Hw d Hd). unfold writer in Hw.
  destruct (entry_node _) as [n|] eqn:Hn; simpl in Hw; [|done].
  rewrite (put_node_shard w n _ Hh Hw).
  destruct (stable_route _ n (w_env w) (proj1 (proj2 Hh)) Hn) as (e' & Hroute & _).
  eapply route_service; [|exact Hroute]. eapply config_labels; [|exact Hcfg|set_solver].
  by eapply healthy_read_text.
Qed.

Lemma sound_can w l p s :
  sound w -> l ∈ leaders -> w_procs w !! l = Some p -> node_ok (p_mem p) s ->
  can_redistribute w l p s c newCh leader.
Proof.
  intros [Hh Hs] Hl Hp Hok.
  destruct (Hs l Hl) as (p' & s' & Hp' & Hok' & Hlead & Hfree & Hdl & Hch & Henc & Hw).
  assert (p' = p) as -> by congruence.
  rewrite (node_ok_fun _ _ _ Hok' Hok) in Henc.
  unfold can_redistribute. split_and!; try done. split; [|done].
  intros k _. rewrite Hch. split; [apply Hold|apply Htotal].
Qed.

(** What a redistribution at [l] leaves to [n]: entries of [n] that stay there, and
    entries of [l] for which the new ring picks the shard of [n]. *)
Lemma redistributed_entry w w' l p s n p' s' k v :
  sound w -> l ∈ leaders -> w_procs w !! l = Some p -> node_ok (p_mem p) s ->
  redistributed w w' l p s newCh leader ->
  w_procs w' !! n = Some p' -> node_ok (p_mem p') s' -> sp_map s' !! k = Some v ->
  (exists q t, w_procs w !! n = Some q /\ node_ok (p_mem q) t /\ sp_map t !! k = Some v) /\
    ~ (n = l /\ moves_key p newCh k = true) \/
  sp_map s !! k = Some v /\ moves_key p newCh k = true /\
    leader <$> LocateKey newCh k = Some n.
Proof.
  intros [Hh _] Hl Hp Hok (_ & Hf & _ & (p1 & s1 & Hp1 & Hs1 & _ & _ & _ & Hmap) & _ & _ & Hgain)
    Hp' Hs' Hv.
  destruct (decide (n = l)) as [->|Hn].
  - simplify_eq. rewrite (node_ok_fun _ _ _ Hs' Hs1), Hmap in Hv.
    apply lookup_difference_Some in Hv as [Hv Hno]. left. split; [by exists p, s|].
    intros [_ Hm]. unfold moving_entries in Hno. apply map_lookup_filter_None in Hno.
    destruct Hno as [Hno|Hno]; [congruence|]. by apply (Hno v).
  - destruct (w_procs w !! n) as [q|] eqn:Hq.
    2:{ rewrite (framed_None _ _ _ Hf n Hq) in Hp'. done. }
    destruct (proj1 Hh n q Hq) as (_ & (t & Ht) & _).
    assert (Hsn : holds w n t) by (by exists q).
    destruct (Hgain n t Hn Hsn) as (t' & (q' & Hq' & Ht') & Hmap').
    simplify_eq. rewrite (node_ok_fun _ _ _ Hs' Ht'), Hmap' in Hv.
    apply lookup_union_Some_raw in Hv as [Hv|[_ Hv]].
    + right. unfold moved_to in Hv. apply map_lookup_filter_Some in Hv. naive_solver.
    + left. split; [by exists q, t|]. by intros [? _].
Qed.

(** Leaders can still redistribute, and those that were settled still are. *)
Lemma redistributed_sound w w' l p s :
  sound w -> l ∈ leaders -> w_procs w !! l = Some p -> node_ok (p_mem p) s ->
  redistributed w w' l p s newCh leader -> sound w'.
Proof.
  intros Hsd Hl Hp Hok Hre. destruct (Hre) as (Hh' & Hf & _). split; [done|].
  intros l' Hl'. destruct (proj2 Hsd l' Hl') as (q & t & Hq & Ht & Hlead & Hfree & Hdl & Hch & Henc & Hw).
  destruct (framed_proc _ _ _ Hf l' q Hq) as (q' & Hq' & Hpf).
  destruct Hpf as (Hfl & Hch' & _ & _ & Hfl' & _ & _ & Hdl').
  destruct (proj1 Hh' l' q' Hq') as (_ & (t' & Ht') & _).
  exists q', t'. rewrite (framed_leading _ _ _ Hf), Hfl'. split_and!; try done; [by apply Hdl'|congruence| |].
  - intros k v Hv.
    destruct (redistributed_entry w w' l p s l' q' t' k v Hsd Hl Hp Hok Hre Hq' Ht' Hv)
      as [[(q1 & t1 & Hq1 & Ht1 & Hv1) _]|(Hv1 & _)].
    + simplify_eq. rewrite (node_ok_fun _ _ _ Ht1 Ht) in Hv1. by apply Henc.
    + destruct (proj2 Hsd l Hl) as (p1 & s1 & Hp1 & Hs1 & _ & _ & _ & _ & Henc1 & _).
      simplify_eq. rewrite (node_ok_fun _ _ _ Hok Hs1) in Hv1. by apply Henc1.
  - intros d Hd. rewrite <- (Hw d Hd). unfold writer. rewrite Hfl.
    destruct (entry_node _); simpl; [|done]. by rewrite (framed_put_node _ _ _ Hf).
Qed.

Lemma redistributed_settled w w' l p s l' :
  sound w -> l ∈ leaders -> w_procs w !! l = Some p -> node_ok (p_mem p) s ->
  redistributed w w' l p s newCh leader -> l' ∈ leaders ->
  l' = l \/ settled w l' -> settled w' l'.
Proof.
  intros Hsd Hl Hp Hok Hre Hl' Hset q' t' Hq' Ht'. destruct (Hre) as (Hh' & Hf & _).
  destruct (framed_back_proc _ _ _ Hf l' q' Hq') as (q & Hq & (_ & Hch & _)).
  destruct (proj2 Hsd l' Hl') as (q1 & t1 & Hq1 & _ & _ & _ & _ & Hch1 & _).
  assert (q1 = q) as -> by congruence.
  apply map_empty. intros k. unfold moving_entries. apply map_lookup_filter_None. right.
  intros v Hv. simpl. intros Hm.
  apply (moves_key_iff w' l' q' k Hh' Hq') in Hm as [Ho Hn]; [|congruence].
  destruct (redistributed_entry w w' l p s l' q' t' k v Hsd Hl Hp Hok Hre Hq' Ht' Hv)
    as [[(q2 & t2 & Hq2 & Ht2 & Hv2) Hno]|(_ & _ & Hd)].
  - assert (q2 = q) as -> by congruence. destruct Hset as [->|Hset].
    + apply Hno. split; [done|]. assert (p = q) as -> by congruence.
      by apply (moves_key_iff w l q k (proj1 Hsd) Hq Hch1).
    + pose proof (f_equal (lookup k) (Hset q t2 Hq Ht2)) as Hnone. rewrite lookup_empty in Hnone.
      unfold moving_entries in Hnone. apply map_lookup_filter_None in Hnone.
      destruct Hnone as [Hnone|Hnone]; [congruence|]. apply (Hnone v Hv2). simpl.
      by apply (moves_key_iff w l' q k (proj1 Hsd) Hq Hch1).
  - destruct (LocateKey newCh k) as [S|] eqn:HS; [|done]. injection Hd as Hd.
    apply Hn. f_equal. rewrite <- Hd. symmetry. by apply (leader_shard w l k S).
Qed.

(** ** The goroutines *)

(** A redistribution at [l] touches only keys that the old ring locates at its shard. *)
Lemma redistributed_keeps w w' l p s n k v :
  sound w -> l ∈ leaders -> w_procs w !! l = Some p -> node_ok (p_mem p) s ->
  redistributed w w' l p s newCh leader ->
  LocateKey oldCh k <> Some (node_shard l) \/ LocateKey newCh k = Some (node_shard l) ->
  stored w n k v -> stored w' n k v.
Proof.
  intros Hsd Hl Hp Hok (_ & _ & _ & (p1 & s1 & Hp1 & Hs1 & _ & _ & _ & Hmap) & _ & Hkept & _) Hk Hst.
  destruct (proj2 Hsd l Hl) as (p2 & _ & Hp2 & _ & _ & _ & _ & Hch & _).
  assert (p2 = p) as -> by congruence.
  assert (Hm : moving_entries p newCh (sp_map s) !! k = None).
  { unfold moving_entries. apply map_lookup_filter_None. right. intros v' _. simpl.
    rewrite (moves_key_iff w l p k (proj1 Hsd) Hp Hch). naive_solver. }
  destruct (decide (n = l)) as [->|Hn]; [|by apply Hkept].
  destruct Hst as (s0 & (p0 & Hp0 & Hs0) & Hv). simplify_eq.
  rewrite (node_ok_fun _ _ _ Hs0 Hok) in Hv.
  exists s1. split; [by exists p1|]. rewrite Hmap. by apply lookup_difference_Some.
Qed.

Definition go_redistribute l : string * task := (l, Go_RedistributeKeys).

(** One of the goroutines runs. *)
Lemma task_run l w g :
  sound w -> l ∈ leaders -> w_go w = go_redistribute l :: g ->
  exists w', act fuel (ATask 0) w = (w', Ret tt) /\ sound w' /\ w_go w' = g /\ framed eq w w' /\
    settled w' l /\ (forall l', l' ∈ leaders -> settled w l' -> settled w' l') /\
    (forall n k v,
       LocateKey oldCh k <> Some (node_shard l) \/ LocateKey newCh k = Some (node_shard l) ->
       stored w n k v -> stored w' n k v) /\
    (forall k v S, stored w l k v -> LocateKey oldCh k = Some (node_shard l) ->
       LocateKey newCh k = Some S -> S <> node_shard l -> stored w' (leader S) k v).
Proof.
  intros Hsd Hl Hg. set (w1 := set_go g w).
  assert (Hsd1 : sound w1) by exact Hsd.
  destruct (proj2 Hsd l Hl) as (p & s & Hp & Hok & _ & _ & _ & Hch & _).
  destruct (RedistributeKeys_stable fuel w1 l p s c newCh leader Hfuel) as (w' & Hrun & Hre).
  { by apply sound_can. }
  exists w'. split_and!.
  - unfold act. rewrite (bind_Ret get _ _ _ _ eq_refl), Hg. simpl. unfold at_process.
    unfold bind at 1, modify at 1. change (set_go _ w) with w1. by rewrite Hrun.
  - by eapply (redistributed_sound w1).
  - by destruct Hre as (_ & _ & -> & _).
  - by destruct Hre as (_ & Hf & _).
  - by eapply (redistributed_settled w1); [..|left].
  - intros l' Hl' Hset.
    exact (redistributed_settled w1 w' l p s l' Hsd1 Hl Hp Hok Hre Hl' (or_intror Hset)).
  - intros n k v Hk Hst. exact (redistributed_keeps w1 w' l p s n k v Hsd1 Hl Hp Hok Hre Hk Hst).
  - intros k v S (s0 & (p0 & Hp0 & Hs0) & Hv) Ho HS Hne. simplify_eq.
    rewrite (node_ok_fun _ _ _ Hs0 Hok) in Hv.
    destruct Hre as (_ & _ & _ & _ & Hmoved & _). apply Hmoved; [|done].
    unfold moving_entries. apply map_lookup_filter_Some. split; [done|]. simpl.
    apply (moves_key_iff w l p k (proj1 Hsd) Hp Hch). split; [done|]. congruence.
Qed.

(** Different leaders lead different shards. *)
Context (Hinj : forall l l', l ∈ leaders -> l' ∈ leaders -> node_shard l = node_shard l' -> l = l').

(** All of them run. *)
Lemma tasks_run ls w :
  sound w -> NoDup ls -> (forall l, l ∈ ls -> l ∈ leaders) -> w_go w = map go_redistribute ls ->
  let w' := run_actions fuel (replicate (length ls) (ATask 0)) w in
  sound w' /\ w_go w' = [] /\ framed eq w w' /\
  (forall l, l ∈ leaders -> l ∈ ls \/ settled w l -> settled w' l) /\
  (forall l k v S, l ∈ leaders -> stored w l k v -> LocateKey oldCh k = Some (node_shard l) ->
     LocateKey newCh k = Some S ->
     if decide (l ∈ ls /\ S <> node_shard l) then stored w' (leader S) k v else stored w' l k v) /\
  (forall n k v, (forall l, l ∈ ls -> LocateKey oldCh k <> Some (node_shard l)) ->
     stored w n k v -> stored w' n k v).
Proof.
  intros Hsd Hnd. revert w Hsd. induction Hnd as [|l ls Hnot Hnd IH]; intros w Hsd Hsub Hg.
  { simpl. split_and!; try done. by intros l _ [Hl%elem_of_nil|]. }
  destruct (task_run l w (map go_redistribute ls) Hsd) as
    (w1 & Hact & Hsd1 & Hg1 & Hf1 & Hset1 & Hsets & Hkeep & Hmove); [by apply Hsub; left|done|].
  destruct (IH w1 Hsd1) as (Hsd' & Hg' & Hf' & Hset' & Hent' & Hkeep');
    [intros l' Hl'; apply Hsub; by right|done|].
  assert (Hrun : run_actions fuel (replicate (length (l :: ls)) (ATask 0)) w =
    run_actions fuel (replicate (length ls) (ATask 0)) w1).
  { unfold run_actions. cbn [length replicate foldl]. by rewrite Hact. }
  cbv zeta. rewrite Hrun. split_and!; [done|done|by etrans| | |].
  - intros l' Hl' Hcase. apply Hset'; [done|].
    destruct Hcase as [[->|Hin]%elem_of_cons|Hs]; [by right|by left|right; by apply Hsets].
  - intros l0 k v S Hl0 Hst Ho HS.
    destruct (decide (l0 = l)) as [->|Hne].
    + destruct (decide (S = node_shard l)) as [->|HS'].
      * specialize (Hent' l k v _ Hl0 (Hkeep _ _ _ (or_intror HS) Hst) Ho HS).
        rewrite decide_False in Hent' by naive_solver.
        by rewrite decide_False by naive_solver.
      * rewrite decide_True by (split; [by left|done]).
        apply Hkeep'; [|by apply Hmove].
        intros l' Hl' Ho'. rewrite Ho in Ho'. injection Ho' as Ho'.
        apply Hinj in Ho'; [|done|apply Hsub; by right]. by subst l'.
    + assert (Hst1 : stored w1 l0 k v).
      { apply Hkeep; [|done]. left. intros Ho'. rewrite Ho in Ho'. injection Ho' as Ho'.
        apply Hinj in Ho'; [done|done|]. apply Hsub. by left. }
      specialize (Hent' l0 k v S Hl0 Hst1 Ho HS). destruct (decide (l0 ∈ ls /\ _)) as [Hd|Hd].
      * rewrite decide_True; [done|]. split; [by right; apply Hd|by apply Hd].
      * rewrite decide_False; [done|]. intros [[->|Hin]%elem_of_cons HS']; [done|]. by apply Hd.
  - intros n k v Hk Hst. apply Hkeep'; [intros l' Hl'; apply Hk; by right|].
    apply Hkeep; [|done]. left. apply Hk. by left.
Qed.

End sweep.
