(* ===== verification/SystemInv.v ===== *)
(** * Invariants of the whole deployment

    [ProcsInv] says what a property of the processes has to be closed under to hold
    along every run of the deployment: the methods of the store, the new clients of a
    process, the adoption of a ring, a crash. The lemmas of this file carry such a
    property through every handler, every goroutine and every turn of System. *)

From S2P Require Import Prelude Protos RaftCommon KVStore Shard ShardWorld System.

(** The methods of the store that handlers call; writes are limited to some keys. *)
Inductive store_op `{!Proto} {E : Type} `{!Raft E, !RaftSetup E} (free : string -> Prop)
    : forall A, M (Mem * E) A -> Prop :=
| so_Get key : store_op free _ (KVStore_Get key)
| so_Keys : store_op free _ KVStore_Keys
| so_GetWritesEnabled : store_op free _ KVStore_GetWritesEnabled
| so_SetWritesEnabled b : store_op free _ (KVStore_SetWritesEnabled b)
| so_Set key value : free key -> store_op free _ (KVStore_Set key value)
| so_Delete key : free key -> store_op free _ (KVStore_Delete key)
| so_Close : store_op free _ KVStore_Close
| so_Join ip port shard replica : store_op free _ (KVStore_Join ip port shard replica)
| so_DemoteVoter ip port shard replica :
    store_op free _ (KVStore_DemoteVoter ip port shard replica)
| so_HasLatestLogs : store_op free _ KVStore_HasLatestLogs
| so_Leader : store_op free _ KVStore_Leader.

(** A property [J] of the processes that survives what the code does to them, when it
    writes keys that are [free] and configurations name shards and replicas by
    strings that satisfy [lab]. *)
Class ProcsInv `{!Proto, !ConsistentHash} (E : Type) `{!Raft E, !RaftSetup E, !OS E}
    (J : gmap string Proc -> Prop) (free lab : string -> Prop) : Prop := {
  pi_config : forall buf c s, read_text E buf -> yaml_Unmarshal buf = Ok c ->
    s ∈ kc_Shards c ++ kc_NewShards c -> lab (ks_Name s) /\ Forall lab (ks_Replicas s);
  pi_crashed : forall m n, J m -> J (alter (set_p_crashed true) n m);
  pi_ch : forall m n c, J m -> J (alter (set_p_ch c) n m);
  pi_shard_client : forall m n name port, lab name -> J m ->
    J (alter (fun p => set_p_shardClients
         (<[name := host_addr name port]> (p_shardClients p)) p) n m);
  pi_replica_client : forall m n p r port, m !! n = Some p -> lab r ->
    lab (f_shard (p_flags p)) -> J m ->
    J (alter (fun q => set_p_replicaClients
         (<[replica_client_key q r := replica_addr r (f_shard (p_flags p)) port]>
            (p_replicaClients q)) q) n m);
  pi_lab_shard : forall m m' n p p', J m -> J m' -> m !! n = Some p -> m' !! n = Some p' ->
    p_crashed p = false -> p_crashed p' = false -> lab (f_shard (p_flags p)) -> lab (f_shard (p_flags p'));
  pi_op : forall A (op : M (Mem * E) A) m n p (e : E) mem' e' o,
    store_op free A op -> J m -> m !! n = Some p -> p_crashed p = false -> op (p_mem p, e) = ((mem', e'), o) ->
    J (<[n := set_p_mem mem' p]> m)
}.

(** Also, a property that does not depend on the flags of redistributions. *)
Class FlagFree `{!ConsistentHash} (J : gmap string Proc -> Prop) : Prop := {
  pi_redistributing : forall m n b, J m -> J (alter (set_p_redistributingKeys b) n m)
}.

Section invariant.
Context `{!Proto, !ConsistentHash} {E : Type} `{!Raft E, !RaftSetup E, !Net E, !OS E}.
Context (fuel : nat) (J : gmap string Proc -> Prop) (free lab : string -> Prop).
Context `{!ProcsInv E J free lab}.
Implicit Types (w : World E).

(** What a queued goroutine was given. *)
Definition shard_lab (s : KVStoreShard) : Prop := lab (ks_Name s) /\ Forall lab (ks_Replicas s).
Definition task_ok (x : string * task) : Prop :=
  match x.2 with
  | Go_PopulateShardClients shards => Forall shard_lab shards
  | Go_PopulateReplicaClients c => Forall shard_lab (kc_Shards c ++ kc_NewShards c)
  | _ => True
  end.

Definition sys_inv w : Prop := J (w_procs w) /\ Forall task_ok (w_go w).

(** ** Running code at a process *)

Lemma inv_envc {A} (f : E -> E * A) : preserves sys_inv (envc f).
Proof. intros w Hw. unfold envc. by destruct (f (w_env w)). Qed.

Lemma inv_proc self : preserves sys_inv (proc self).
Proof.
  intros w Hw. unfold proc. destruct (w_procs w !! self) as [p|]; [|done].
  by destruct (p_crashed p).
Qed.

Lemma inv_upd self f :
  (forall m, J m -> J (alter f self m)) -> preserves sys_inv (upd_proc self f).
Proof. intros Hf. apply preserves_modify. intros w [Hj Hg]. split; [by apply Hf|done]. Qed.

Lemma inv_spawn self t : task_ok (self, t) -> preserves sys_inv (spawn (E := E) self t).
Proof.
  intros Ht. apply preserves_modify. intros w [Hj Hg]. split; [done|].
  apply Forall_app. split; [done|]. by constructor.
Qed.

Lemma inv_kv {A} self (op : M (Mem * E) A) : store_op free A op -> preserves sys_inv (kv self op).
Proof.
  intros Hop w [Hj Hg]. unfold kv, bind, proc.
  destruct (w_procs w !! self) as [p|] eqn:Hp; [|done]. destruct (p_crashed p) eqn:Hc; [done|].
  destruct (op (p_mem p, w_env w)) as [[mem' e'] o] eqn:Hrun.
  assert (sys_inv {| w_procs := <[self := set_p_mem mem' p]> (w_procs w); w_env := e'; w_go := w_go w |}).
  { split; [|done]. by eapply pi_op. }
  by destruct o.
Qed.

Lemma inv_crashed self w : sys_inv w -> sys_inv (upd_world self (set_p_crashed true) w).
Proof. intros [Hj Hg]. split; [by apply (pi_crashed (E := E))|done]. Qed.

Lemma inv_rpc {A} target (handler : string -> M (World E) (res A)) :
  (forall node, preserves sys_inv (handler node)) -> preserves sys_inv (rpc target handler).
Proof.
  intros Hh. unfold rpc. apply preserves_bind; [apply inv_envc|]. intros [code desc|node lost].
  { apply preserves_ret. }
  apply preserves_bind; [apply preserves_get|]. intros w0. destruct (alive w0 node); [|apply preserves_ret].
  intros w Hw. specialize (Hh node w Hw). destruct (handler node w) as [w' [a|why|]]; try done.
  by apply inv_crashed.
Qed.

Lemma inv_with_client {A} clients key (call : string -> M (World E) A) :
  (forall t, preserves sys_inv (call t)) -> preserves sys_inv (with_client clients key call).
Proof. intros Hc. unfold with_client. go_preserves. Qed.

Lemma inv_locate c key : preserves sys_inv (locate (E := E) c key).
Proof. unfold locate. go_preserves. Qed.

Lemma inv_new_ring shards : preserves sys_inv (new_ring (E := E) shards).
Proof. unfold new_ring. go_preserves. Qed.

Lemma inv_range_map {S} keys present (acc : S) body :
  (forall acc key, preserves sys_inv (body acc key)) ->
  preserves sys_inv (range_map (E := E) keys present acc body).
Proof.
  intros Hb. unfold range_map. apply preserves_bind; [apply preserves_get|]. intros w.
  apply preserves_bind; [apply inv_envc|]. intros order. apply preserves_for_acc.
  intros acc' k _. apply preserves_bind; [apply preserves_get|]. intros w'.
  destruct (present w' k); [apply Hb|apply preserves_ret].
Qed.

#[local] Hint Resolve inv_envc inv_proc inv_kv inv_rpc inv_with_client inv_locate : go.
#[local] Hint Resolve inv_new_ring inv_range_map : go.
#[local] Hint Constructors store_op : go.

Lemma inv_range_keys {S} self (acc : S) body :
  (forall acc key, preserves sys_inv (body acc key)) ->
  preserves sys_inv (range_keys (E := E) self acc body).
Proof. intros Hb. unfold range_keys. go_preserves. Qed.

Lemma inv_range_replicaClients {S} self (acc : S) body :
  (forall acc key, preserves sys_inv (body acc key)) ->
  preserves sys_inv (range_replicaClients (E := E) self acc body).
Proof. intros Hb. unfold range_replicaClients. go_preserves. Qed.

#[local] Hint Resolve inv_range_keys inv_range_replicaClients : go.

(** Runs through a handler that calls clients. *)
Ltac sys_go := repeat first [progress go_preserves | apply inv_with_client; intros ?].

(** ** Configuration *)

(** A configuration that was read names shards as it should. *)
Lemma inv_ReadConfig self {A} (k : KVStoreConfig -> M (World E) A) :
  (forall c, Forall shard_lab (kc_Shards c ++ kc_NewShards c) -> preserves sys_inv (k c)) ->
  preserves sys_inv (bind (ReadConfig self) k).
Proof.
  intros Hk w Hw. unfold bind. destruct (ReadConfig self w) as [w1 o1] eqn:Hrun.
  assert (Hw1 : sys_inv w1).
  { eapply (preserves_run sys_inv (ReadConfig self)); [|exact Hw|exact Hrun].
    unfold ReadConfig. go_preserves. }
  destruct o1 as [c|why|]; try done. apply Hk; [|done].
  unfold ReadConfig in Hrun. run_inv Hrun as (w2 & p & _ & Hrun).
  run_inv Hrun as (w3 & [buf|err] & Hfile & Hrun); [|done]. apply envc_read_text in Hfile.
  destruct (yaml_Unmarshal buf) as [c'|err] eqn:Hy; [|done]. injection Hrun as _ <-.
  apply Forall_forall. intros s Hs. by apply (pi_config (E := E) (J := J) (free := free) buf c').
Qed.

Lemma inv_PopulateShardClients self shards :
  Forall shard_lab shards -> preserves sys_inv (PopulateShardClients (E := E) fuel self shards).
Proof.
  intros Hl. apply preserves_for_each. intros d Hd. rewrite Forall_forall in Hl.
  destruct (Hl d Hd) as [Hn _]. apply preserves_loop.
  apply preserves_bind; [apply inv_proc|]. intros p. case_decide; [apply preserves_ret|].
  apply preserves_bind; [apply inv_envc|]. intros [err|]; [go_preserves|].
  apply preserves_bind; [|intros _; apply preserves_ret].
  apply inv_upd. intros m Hm. by apply (pi_shard_client (E := E) (J := J) (free := free) (lab := lab)).
Qed.

Lemma inv_ReloadConfig self : preserves sys_inv (ReloadConfig (E := E) fuel self).
Proof.
  apply inv_ReadConfig. intros c Hc. case_decide; [apply preserves_ret|].
  apply preserves_bind; [apply inv_new_ring|]. intros r.
  apply preserves_bind; [apply inv_upd; intros m Hm; by apply (pi_ch (E := E))|]. intros _.
  apply preserves_bind; [|intros _; apply preserves_ret].
  apply inv_PopulateShardClients. by apply Forall_app in Hc as [? _].
Qed.
#[local] Hint Resolve inv_ReloadConfig : go.

(** ** Handlers *)

Lemma inv_replica_Put self i : free (ip_Key i) -> preserves sys_inv (replicaRpcServer_Put (E := E) self i).
Proof. intros Hf. unfold replicaRpcServer_Put. go_preserves. Qed.

Lemma inv_replica_Delete self i :
  free (del_Key i) -> preserves sys_inv (replicaRpcServer_Delete (E := E) self i).
Proof. intros Hf. unfold replicaRpcServer_Delete. go_preserves. Qed.

Lemma inv_replica_PauseWrites self i : preserves sys_inv (replicaRpcServer_PauseWrites (E := E) self i).
Proof. apply inv_ReadConfig. intros c _. go_preserves. Qed.

Lemma inv_replica_ReloadConfig self i :
  preserves sys_inv (replicaRpcServer_ReloadConfig (E := E) fuel self i).
Proof. unfold replicaRpcServer_ReloadConfig. go_preserves. Qed.

Lemma inv_replica_Join self i : preserves sys_inv (replicaRpcServer_Join (E := E) self i).
Proof. unfold replicaRpcServer_Join. go_preserves. Qed.

Lemma inv_replica_Leader self i : preserves sys_inv (replicaRpcServer_Leader (E := E) self i).
Proof. unfold replicaRpcServer_Leader. go_preserves. Qed.

Lemma inv_replica_DemoteVoter self i : preserves sys_inv (replicaRpcServer_DemoteVoter (E := E) self i).
Proof. unfold replicaRpcServer_DemoteVoter. go_preserves. Qed.
#[local] Hint Resolve inv_replica_Put inv_replica_Delete inv_replica_PauseWrites : go.
#[local] Hint Resolve inv_replica_ReloadConfig inv_replica_Join inv_replica_Leader : go.
#[local] Hint Resolve inv_replica_DemoteVoter : go.

Lemma inv_replica_ResumeWrites self i :
  preserves sys_inv (replicaRpcServer_ResumeWrites (E := E) fuel self i).
Proof.
  apply inv_ReadConfig. intros c _. case_decide; [apply preserves_ret|].
  apply preserves_bind; [|intros [[]|]; go_preserves].
  apply inv_range_replicaClients. intros [b|e] k; sys_go.
Qed.

Lemma inv_replica_RedistributeKeys self i :
  preserves sys_inv (replicaRpcServer_RedistributeKeys (E := E) self i).
Proof.
  apply preserves_bind; [by apply inv_spawn|]. intros _.
  apply inv_ReadConfig. intros c _. go_preserves. apply inv_range_keys. intros n k. go_preserves.
Qed.
#[local] Hint Resolve inv_replica_ResumeWrites inv_replica_RedistributeKeys : go.

Lemma inv_at_leader {A} self (call : string -> M (World E) (res A)) :
  (forall t, preserves sys_inv (call t)) -> preserves sys_inv (at_leader self call).
Proof. intros Hc. unfold at_leader. go_preserves. Qed.
#[local] Hint Resolve inv_at_leader : go.

Lemma inv_shard_Put self i : free (ip_Key i) -> preserves sys_inv (shardRpcServer_Put (E := E) self i).
Proof.
  intros Hf. unfold shardRpcServer_Put. apply preserves_bind; [eauto with go|].
  intros [[]|]; go_preserves.
Qed.

Lemma inv_shard_Delete self i :
  free (del_Key i) -> preserves sys_inv (shardRpcServer_Delete (E := E) self i).
Proof.
  intros Hf. unfold shardRpcServer_Delete. apply preserves_bind; [eauto with go|].
  intros [[]|]; go_preserves.
Qed.

Lemma inv_shard_Get self i : preserves sys_inv (shardRpcServer_Get (E := E) self i).
Proof. unfold shardRpcServer_Get. go_preserves. Qed.

Lemma inv_shard_ResumeWrites self i :
  preserves sys_inv (shardRpcServer_ResumeWrites (E := E) fuel self i).
Proof.
  unfold shardRpcServer_ResumeWrites. go_preserves.
  apply inv_range_replicaClients. intros _ k. go_preserves.
Qed.
#[local] Hint Resolve inv_shard_Put inv_shard_Delete inv_shard_Get inv_shard_ResumeWrites : go.

(** A round for a key that may be written. *)
Lemma inv_relocate_free self newCh key :
  free key -> preserves sys_inv (relocate_key (E := E) self newCh key).
Proof.
  intros Hf. unfold relocate_key. sys_go.
Qed.

Lemma inv_kv_Get self i : preserves sys_inv (kvServer_Get (E := E) self i).
Proof. unfold kvServer_Get. go_preserves. Qed.

Lemma inv_kv_Put self i : free (put_Key i) -> preserves sys_inv (kvServer_Put (E := E) self i).
Proof. intros Hf. unfold kvServer_Put. go_preserves. Qed.

Lemma inv_kv_Delete self i : free (del_Key i) -> preserves sys_inv (kvServer_Delete (E := E) self i).
Proof. intros Hf. unfold kvServer_Delete. go_preserves. Qed.
#[local] Hint Resolve inv_kv_Get inv_kv_Put inv_kv_Delete : go.

Lemma inv_void {A} (m : M (World E) (res A)) : preserves sys_inv m -> preserves sys_inv (void m).
Proof. intros Hm. unfold void. go_preserves. Qed.
#[local] Hint Resolve inv_void : go.

(** The keys that a request writes are free. *)
Definition request_ok (r : request) : Prop :=
  match written_key r with Some key => free key | None => True end.

Lemma inv_handle r node : request_ok r -> preserves sys_inv (handle fuel r node).
Proof.
  destruct r; intros Hr; unfold request_ok in Hr; simpl in Hr |- *; apply inv_void; eauto with go.
Qed.

(** ** Goroutines *)

Context `{!FlagFree J}.
(** Where a key that is not free is handled, its rounds are shown to keep [J] apart. *)
Context (relocates : forall self newCh key, preserves sys_inv (relocate_key (E := E) self newCh key)).

Lemma inv_set_redistributing self b w :
  sys_inv w -> sys_inv (upd_world self (set_p_redistributingKeys b) w).
Proof. intros [Hj Hg]. split; [by apply pi_redistributing|done]. Qed.

Lemma inv_RedistributeKeys self : preserves sys_inv (RedistributeKeys (E := E) fuel self).
Proof.
  unfold RedistributeKeys. apply preserves_bind; [apply inv_proc|]. intros p.
  destruct (p_redistributingKeys p); [apply preserves_ret|].
  apply preserves_bind; [by apply preserves_modify, inv_set_redistributing|]. intros _.
  apply preserves_deferred; [by apply inv_set_redistributing|].
  apply inv_ReadConfig. intros c Hc. case_decide; [apply preserves_ret|].
  apply preserves_bind; [apply inv_PopulateShardClients; by apply Forall_app in Hc as [_ ?]|].
  intros _. go_preserves.
Qed.

Lemma inv_JoinCluster self replicas : preserves sys_inv (JoinCluster (E := E) fuel self replicas).
Proof.
  unfold JoinCluster. go_preserves.
  - apply preserves_loop, preserves_for_return. intros d _. sys_go.
  - apply preserves_loop. go_preserves.
Qed.

Lemma own_replicas_lab shard c r :
  Forall shard_lab (kc_Shards c ++ kc_NewShards c) -> r ∈ own_replicas shard c ->
  lab shard /\ lab r.
Proof.
  rewrite Forall_forall. intros Hc Hr. unfold own_replicas in Hr.
  apply list_elem_of_In, in_concat in Hr as (l & Hl%list_elem_of_In & Hr%list_elem_of_In).
  apply list_elem_of_fmap in Hl as (s & -> & Hs).
  apply list_elem_of_filter in Hs as [<- Hs]. destruct (Hc s Hs) as [Hn Hrs].
  rewrite Forall_forall in Hrs. auto.
Qed.

(** Adding the clients of the replicas of the process's own shard. *)
Lemma inv_PopulateReplicaClients self c :
  Forall shard_lab (kc_Shards c ++ kc_NewShards c) ->
  preserves sys_inv (PopulateReplicaClients (E := E) fuel self c).
Proof.
  intros Hc w Hw. unfold PopulateReplicaClients, bind at 1.
  destruct (proc self w) as [w0 o0] eqn:Hproc.
  unfold proc in Hproc. destruct (w_procs w !! self) as [p|] eqn:Hp; [|by simplify_eq].
  destruct (p_crashed p) eqn:Hcr; simplify_eq; [done|].
  pose proof (proj1 Hw) as Hm. set (m := w_procs w0) in Hm, Hp.
  apply (preserves_bind sys_inv); [|intros _; apply inv_JoinCluster|exact Hw].
  apply preserves_for_each. intros d Hd. destruct (own_replicas_lab _ _ _ Hc Hd) as [Hsh Hlab].
  apply preserves_loop. clearbody m. clear w0 Hw. intros w Hw. unfold bind at 1, proc.
  destruct (w_procs w !! self) as [q|] eqn:Hq; [|done]. destruct (p_crashed q) eqn:Hcq; [done|].
  assert (Hshq : lab (f_shard (p_flags q))).
  { eapply (pi_lab_shard (E := E) m (w_procs w)); [exact Hm|apply Hw|exact Hp|exact Hq|done..]. }
  case_decide; [done|]. unfold bind at 1, envc. destruct (grpc_Dial _ _) as [e' [err|]].
  { by apply (preserves_bind sys_inv); [apply inv_envc|intros; apply preserves_ret|]. }
  unfold bind, upd_proc, modify, ret. simpl. split; [|apply Hw].
  eapply (pi_replica_client (E := E)); [exact Hq|done|done|apply Hw].
Qed.

Lemma inv_main_shutdown self : preserves sys_inv (main_shutdown (E := E) self).
Proof. unfold main_shutdown. go_preserves. Qed.

Lemma inv_run_task self t : task_ok (self, t) -> preserves sys_inv (run_task (E := E) fuel self t).
Proof.
  destruct t; intros Ht; simpl in Ht |- *.
  - apply inv_RedistributeKeys.
  - by apply inv_PopulateShardClients.
  - by apply inv_PopulateReplicaClients.
  - unfold StartShardRPCServer, serve_on. go_preserves.
  - unfold StartReplicaRPCServer, serve_on. go_preserves.
  - unfold StartKVRPCServer, serve_on. go_preserves.
Qed.

(** ** Turns *)

Lemma inv_at_process self m : preserves sys_inv m -> preserves sys_inv (at_process self m).
Proof.
  intros Hm w Hw. specialize (Hm w Hw). unfold at_process.
  destruct (m w) as [w' [a|why|]]; try done. by apply inv_crashed.
Qed.

(** The turns that keep the invariant: requests write free keys, and the callbacks of
    the library and the start of a process are shown to keep it apart. *)
Definition turn_ok (a : action (E := E)) : Prop :=
  match a with
  | ARequest _ r => request_ok r
  | ADeliver self evs => preserves sys_inv (kv (E := E) self (on_mem (deliver KVFsm_FSM evs)))
  | AStart self flags => preserves sys_inv (at_process self (main_start (E := E) self flags))
  | _ => True
  end.

Lemma inv_act a : turn_ok a -> preserves sys_inv (act fuel a).
Proof.
  destruct a as [target r|i|self newCh key|self evs|e|self flags|self]; intros Ha; simpl in Ha |- *.
  - apply preserves_bind; [|intros; apply preserves_ret]. apply inv_rpc. intros node.
    by apply inv_handle.
  - intros w Hw. unfold bind at 1, get. destruct (w_go w !! i) as [[self t]|] eqn:Hi; [|done].
    assert (Ht : task_ok (self, t)).
    { destruct Hw as [_ Hg]. rewrite Forall_lookup in Hg. by eapply Hg. }
    unfold bind, modify. simpl. apply inv_at_process; [by apply inv_run_task|].
    split; [apply Hw|]. simpl. apply Forall_delete, Hw.
  - by apply inv_at_process.
  - by apply inv_at_process.
  - by apply preserves_modify.
  - done.
  - apply preserves_bind; [apply inv_at_process, inv_main_shutdown|]. intros _.
    by apply preserves_modify, inv_crashed.
Qed.

(** A property that survives turns survives runs. *)
Lemma inv_run_actions l w : Forall turn_ok l -> sys_inv w -> sys_inv (run_actions fuel l w).
Proof.
  intros Hl. revert w. induction Hl as [|a l Ha _ IH]; intros w Hw; [done|].
  apply IH. specialize (inv_act a Ha w Hw). by destruct (act fuel a w) as [w' []].
Qed.

End invariant.
