(* ===== verification/SystemStore.v ===== *)
(** * The store under the turns of a deployment

    What the methods of the store that handlers call, and the callbacks of the Raft
    library, do to a process whose reads are served from the map of its FSM. *)

From S2P Require Import Prelude Protos RaftCommon KVStore KVStoreSpec Shard ShardWorld System.
From S2P Require Import SystemInv.

Section store.
Context `{!Proto} {E : Type} `{!Raft E, !RaftSetup E, !ProtoLaws, !RaftSerial E}.

(** The store of a process, with the value it has for [k]. *)
Definition mem_ok (m : Mem) (s : KVSpec) : Prop := node_ok m s /\ is_Some (k_raft (m_kv m)).

(** Methods that only ask Raft. *)
Definition same_mem (m : Mem) (w : Mem * E) : Prop := w.1 = m.

Lemma same_env_call {A} m (f : E -> E * A) : preserves (same_mem m) (env_call f).
Proof. apply (preserves_env_call_mem (fun m' => m' = m)). Qed.

Lemma same_with_raft {A} m (body : string -> M (Mem * E) A) :
  (forall r, preserves (same_mem m) (body r)) -> preserves (same_mem m) (with_raft body).
Proof. intros Hb. unfold with_raft. go_preserves. Qed.

Lemma same_persisted m : preserves (same_mem m) persisted_snapshot.
Proof.
  intros w Hw. unfold persisted_snapshot, KVFsm_Snapshot, on_mem, bind, get, ret. simpl.
  by destruct w.
Qed.

#[local] Hint Resolve same_env_call same_with_raft same_persisted : go.

Ltac asks_only := apply same_with_raft; intros r;
  repeat first [progress go_preserves | apply preserves_for_return; intros ? _].

Lemma same_Join ip port shard replica m :
  preserves (same_mem m) (KVStore_Join ip port shard replica).
Proof. unfold KVStore_Join, JoinReplica. asks_only. Qed.
Lemma same_DemoteVoter ip port shard replica m :
  preserves (same_mem m) (KVStore_DemoteVoter ip port shard replica).
Proof. unfold KVStore_DemoteVoter. asks_only. Qed.
Lemma same_HasLatestLogs m : preserves (same_mem m) KVStore_HasLatestLogs.
Proof. unfold KVStore_HasLatestLogs. asks_only. Qed.
Lemma same_Leader m : preserves (same_mem m) KVStore_Leader.
Proof. unfold KVStore_Leader. asks_only. Qed.
Lemma same_Close m : preserves (same_mem m) KVStore_Close.
Proof. unfold KVStore_Close, ShutdownRaft. asks_only. Qed.

Lemma same_run {A} (op : M (Mem * E) A) m e m' e' o :
  preserves (same_mem m) op -> op (m, e) = ((m', e'), o) -> m' = m.
Proof.
  intros Hop Hrun. pose proof (preserves_run (same_mem m) op (m, e) (m', e') o Hop eq_refl Hrun). done.
Qed.

(** [SetWritesEnabled] changes the flag of the FSM at most. *)
Lemma SetWritesEnabled_ok b m s e m' e' o :
  mem_ok m s -> KVStore_SetWritesEnabled b (m, e) = ((m', e'), o) ->
  exists s', mem_ok m' s' /\ sp_map s' = sp_map s.
Proof.
  intros [Hok [r Hr]] Hrun. pose proof Hok as (_ & _ & Hmx).
  unfold KVStore_SetWritesEnabled, kv_locked_env, bind at 1, get in Hrun. simpl in Hrun.
  rewrite Hmx in Hrun. unfold bind at 1, on_mem at 1, modify, deferred in Hrun. simpl in Hrun.
  set (m1 := upd_kv (set_k_mutex true) m) in Hrun.
  assert (Hback : forall m2 s2, fsm_abs m2 s2 -> k_store (m_kv m2) = k_store (m_fsm m2) ->
    k_raft (m_kv m2) = Some r -> mem_ok (upd_kv (set_k_mutex false) m2) s2).
  { intros m2 s2 Ha Hst Hr2. split; [by split_and!|by exists r]. }
  unfold bind at 1, get in Hrun. simpl in Hrun. destruct (eqb _ b).
  { injection Hrun as <- <- <-. exists s. split; [|done]. by apply Hback; try apply Hok. }
  destruct (Marshal_KVFSMLogEntry _) as [d|err] eqn:Hd.
  2:{ injection Hrun as <- <- <-. exists s. split; [|done]. by apply Hback; try apply Hok. }
  apply Unmarshal_Marshal_KVFSMLogEntry in Hd.
  unfold with_raft, bind at 1, get in Hrun. simpl in Hrun. rewrite Hr in Hrun.
  destruct (apply_entry_run r d _ 10 m1 s e (proj1 Hok) Hd) as (e2 & err & m2 & s2 & Ha & Hc).
  rewrite Ha in Hrun. simpl in Hrun. injection Hrun as <- <- <-.
  destruct Hc as [(-> & -> & _)|(l & Hl & -> & ->)].
  - exists s. split; [|done]. by apply Hback; try apply Hok.
  - exists (spec_toggle b s). split; [|done].
    apply Hback; [by apply (fsm_abs_mem_apply m1 l s (spec_toggle b s)); [apply Hok|]|apply Hok|done].
Qed.

(** Every method keeps the store in good order, and the values of keys that it may
    not write. *)
Lemma store_op_ok free A (op : M (Mem * E) A) m s e m' e' o :
  store_op free A op -> mem_ok m s -> op (m, e) = ((m', e'), o) ->
  exists s', mem_ok m' s' /\ forall k, ~ free k -> sp_map s' !! k = sp_map s !! k.
Proof.
  intros Hop [Hok [r Hr]] Hrun.
  assert (Hid : m' = m -> exists s', mem_ok m' s' /\ forall k, ~ free k -> sp_map s' !! k = sp_map s !! k).
  { intros ->. exists s. split; [split; [done|by exists r]|done]. }
  destruct Hop as [key| | |b|key value Hf|key Hf| |ip port sh rp|ip port sh rp| |].
  - apply Hid. rewrite (KVStore_Get_run key m s e Hok) in Hrun. by injection Hrun.
  - apply Hid. rewrite KVStore_Keys_run in Hrun by apply Hok. by injection Hrun.
  - apply Hid. rewrite KVStore_GetWritesEnabled_run in Hrun by apply Hok. by injection Hrun.
  - destruct (SetWritesEnabled_ok b m s e m' e' o) as (s' & Hm' & Hs'); [|done|].
    { split; [done|by exists r]. }
    exists s'. split; [done|]. by rewrite Hs'.
  - destruct (KVStore_Set_run key value m s e r Hok Hr)
      as (e2 & err & m2 & s2 & Hset & Hok2 & (Hr2 & _) & Hc & _).
    rewrite Hset in Hrun. injection Hrun as <- <- <-. exists s2.
    split; [split; [done|exists r; congruence]|]. intros k Hk.
    destruct Hc as [[-> _]| ->]; [done|]. simpl. apply lookup_insert_ne. by intros ->.
  - destruct (KVStore_Delete_run key m s e r Hok Hr)
      as (e2 & err & m2 & s2 & Hset & Hok2 & (Hr2 & _) & Hc & _).
    rewrite Hset in Hrun. injection Hrun as <- <- <-. exists s2.
    split; [split; [done|exists r; congruence]|]. intros k Hk.
    destruct Hc as [[-> _]| ->]; [done|]. simpl. apply lookup_delete_ne. by intros ->.
  - apply Hid. exact (same_run _ _ _ _ _ _ (same_Close m) Hrun).
  - apply Hid. exact (same_run _ _ _ _ _ _ (same_Join ip port sh rp m) Hrun).
  - apply Hid. exact (same_run _ _ _ _ _ _ (same_DemoteVoter ip port sh rp m) Hrun).
  - apply Hid. exact (same_run _ _ _ _ _ _ (same_HasLatestLogs m) Hrun).
  - apply Hid. exact (same_run _ _ _ _ _ _ (same_Leader m) Hrun).
Qed.

(** ** Callbacks *)

(** A callback that hands over an entry, which does not write [k]. *)
Definition entry_event (free : string -> Prop) (ev : fsm_event) : Prop :=
  match ev with
  | EvApply d =>
      forall en, Unmarshal_KVFSMLogEntry d = Ok en -> le_Operation en <> TOGGLE ->
        free (KVFSMLogEntry_GetKey (Some en))
  | EvRestore _ => False
  end.

Lemma spec_apply_free free s en :
  (le_Operation en <> TOGGLE -> free (KVFSMLogEntry_GetKey (Some en))) ->
  forall k, ~ free k -> sp_map (spec_apply s en) !! k = sp_map s !! k.
Proof.
  intros Hf k Hk. unfold spec_apply. repeat case_decide; try done; simpl;
    [apply lookup_insert_ne|apply lookup_delete_ne]; intros Heq; apply Hk; rewrite <- Heq;
    apply Hf; intros Ht; unfold SET, DELETE, TOGGLE in *; lia.
Qed.

Lemma deliver_ok free evs m s :
  Forall (entry_event free) evs -> node_ok m s ->
  exists m' s', deliver KVFsm_FSM evs m = (m', Ret tt) /\ node_ok m' s' /\
    m_kv m' = m_kv m /\ forall k, ~ free k -> sp_map s' !! k = sp_map s !! k.
Proof.
  intros Hevs. revert m s. induction Hevs as [|ev evs Hev _ IH]; intros m s Hm.
  { by exists m, s. }
  unfold deliver. simpl. destruct ev as [d|]; [|done]. simpl in Hev.
  destruct (Unmarshal_KVFSMLogEntry d) as [en|err] eqn:Hd.
  - destruct (KVFsm_Apply_run d en m s (proj1 Hm) Hd) as (l & Hl & Hrun).
    destruct (IH (mem_apply m l (spec_apply s en)) (spec_apply s en))
      as (m' & s' & Hrest & Hm' & Hkv & Hs'); [by eapply node_ok_mem_apply|].
    exists m', s'. unfold bind at 1, run_event, bind at 1. simpl. rewrite Hrun. simpl.
    split; [exact Hrest|]. split; [done|]. split; [done|]. intros k Hk. rewrite Hs' by done.
    apply (spec_apply_free free); [by apply Hev|done].
  - destruct (IH m s Hm) as (m' & s' & Hrest & Hm' & Hs'). exists m', s'. split; [|done].
    unfold bind at 1, run_event, bind at 1. simpl. unfold KVFsm_Apply. rewrite Hd. exact Hrest.
Qed.

End store.
