(* ===== verification/SystemProps.v ===== *)
(** * Properties of the whole deployment

    Three invariants along every run of System: the flag that pauses writes, the good
    order of the processes, and the presence of an entry that only redistribution
    touches. *)

From S2P Require Import Prelude Protos RaftCommon KVStore KVStoreSpec KVStoreFlag Sim.
From S2P Require Import Shard ShardWorld Redistribution Pending System SystemInv SystemStore SimNet.

(** ** Properties of one process each *)

Lemma map_Forall_alter {A} (P : string -> A -> Prop) (f : A -> A) (m : gmap string A) n :
  (forall a, P n a -> P n (f a)) -> map_Forall P m -> map_Forall P (alter f n m).
Proof.
  intros Hf Hm k a Ha. destruct (decide (k = n)) as [->|Hne].
  - rewrite lookup_alter_eq in Ha. destruct (m !! n) as [b|] eqn:Hb; [|done].
    injection Ha as <-. apply Hf. by apply Hm.
  - rewrite lookup_alter_ne in Ha by done. by apply Hm.
Qed.

(** ** The flag *)

Section flag.
Context `{!Proto, !ConsistentHash} {E : Type} `{!Raft E, !RaftSetup E, !Net E, !OS E}.

Definition always (_ : string) : Prop := True.

Definition flag_off (_ : string) (p : Proc) : Prop := k_writesEnabled (m_kv (p_mem p)) = false.

Lemma always_labs l : Forall (shard_lab always) l.
Proof. apply Forall_true. intros s. split; [done|]. by apply Forall_true. Qed.

#[export] Instance flag_procs_inv : ProcsInv E (map_Forall flag_off) always always.
Proof.
  split; try done.
  - intros. apply (Forall_forall (shard_lab always) (kc_Shards c ++ kc_NewShards c)); [apply always_labs|done].
  - intros m n. by apply map_Forall_alter.
  - intros m n c. by apply map_Forall_alter.
  - intros m n name port _. by apply map_Forall_alter.
  - intros m n p r port _ _ _. by apply map_Forall_alter.
  - intros A op m n p e mem' e' o Hop Hm Hp _ Hrun. apply map_Forall_insert_2; [|done].
    assert (Hk : kv_operation A op) by (destruct Hop; constructor).
    exact (preserves_run (serving_flag_env false) op (p_mem p, e) (mem', e') o
      (flag_operation false A op Hk) (Hm n p Hp) Hrun).
Qed.

#[export] Instance flag_flag_free : FlagFree (map_Forall flag_off).
Proof. split. intros m n b. by apply map_Forall_alter. Qed.

Abbreviation flag_inv := (sys_inv (E := E) (map_Forall flag_off) always).

Lemma flag_kv {A} self (op : M (Mem * E) A) :
  preserves (serving_flag_env false) op -> preserves flag_inv (kv self op).
Proof.
  intros Hop w [Hm Hg]. unfold kv, bind, proc.
  destruct (w_procs w !! self) as [p|] eqn:Hp; [|done]. destruct (p_crashed p); [done|].
  destruct (op (p_mem p, w_env w)) as [[mem' e'] o] eqn:Hrun.
  assert (Hfl : flag_off self (set_p_mem mem' p)).
  { exact (preserves_run (serving_flag_env false) op (p_mem p, w_env w) (mem', e') o Hop
      (Hm self p Hp) Hrun). }
  assert (flag_inv {| w_procs := <[self := set_p_mem mem' p]> (w_procs w); w_env := e'; w_go := w_go w |}).
  { split; [|done]. by apply map_Forall_insert_2. }
  by destruct o.
Qed.

Lemma flag_upd self f :
  (forall p, flag_off self p -> flag_off self (f p)) -> preserves flag_inv (upd_proc self f).
Proof. intros Hf. apply inv_upd. intros m. by apply map_Forall_alter. Qed.

Lemma flag_main_start self flags : preserves flag_inv (main_start (E := E) self flags).
Proof.
  unfold main_start. apply preserves_bind.
  { apply preserves_modify. intros w [Hm Hg]. split; [|done]. by apply map_Forall_insert_2. }
  intros _. eapply inv_ReadConfig; [exact _|]. intros c _.
  apply preserves_bind; [apply inv_envc|]. intros missing.
  apply preserves_bind; [by apply flag_upd|]. intros _.
  apply preserves_bind; [apply inv_new_ring|]. intros r.
  apply preserves_bind; [by apply flag_upd|]. intros _.
  apply preserves_bind; [by apply flag_upd|]. intros _.
  apply preserves_bind; [apply inv_proc|]. intros p.
  apply preserves_bind; [apply flag_kv, flag_operation; constructor|].
  intros [err|]; [apply preserves_crash|].
  repeat (apply preserves_bind; [apply inv_spawn; first [done|apply always_labs]|intros _]).
  by apply inv_spawn.
Qed.

Lemma flag_turns l : Forall (turn_ok (E := E) (map_Forall flag_off) always always) l.
Proof.
  apply Forall_true. intros [target r|i|self newCh key|self evs|e|self flags|self]; try done; simpl.
  - unfold request_ok. by destruct (written_key r).
  - by apply flag_kv, flag_on_mem, flag_deliver.
  - apply (inv_at_process _ always always), flag_main_start.
Qed.

(** A deployment in which nothing has started. *)
Definition empty_world (e : E) : World E := {| w_procs := ∅; w_env := e; w_go := [] |}.

Lemma flag_off_along fuel l e self p :
  w_procs (run_actions fuel l (empty_world e)) !! self = Some p -> flag_off self p.
Proof.
  intros Hp. assert (Hinv : flag_inv (run_actions fuel l (empty_world e))).
  { apply (inv_run_actions fuel (map_Forall flag_off) always always); [|apply flag_turns|by split].
    intros n newCh key. by apply (inv_relocate_free _ always always). }
  by apply (proj1 Hinv).
Qed.

(** C27: a put that a follower forwards is always refused. From the first start of a
    process on, whatever requests arrive, whatever Raft delivers or restores, and
    whichever processes start, stop or crash: [replicaRpcServer.Put] of a request that
    is not part of a redistribution answers that writes are disabled, also when they
    are not, since it reads the flag that no TOGGLE entry ever reaches. *)
Theorem forwarded_Put_always_refused fuel l e self p key value :
  let w := run_actions fuel l (empty_world e) in
  w_procs w !! self = Some p -> p_crashed p = false -> k_mutex (m_kv (p_mem p)) = false ->
  exists w', replicaRpcServer_Put self
      {| ip_Key := key; ip_Value := value; ip_IsRedistribution := false |} w =
      (w', Ret (Err ErrWritesDisabled)) /\ w_procs w' = w_procs w.
Proof.
  intros w Hp Hc Hmx. assert (Hfl : flag_off self p) by (by eapply flag_off_along).
  exists {| w_procs := w_procs w; w_env := w_env w; w_go := w_go w |}. split; [|done].
  unfold replicaRpcServer_Put. simpl. unfold bind at 1.
  rewrite (bind_Ret _ _ _ _ _ (kv_readonly self _ w p _ _ Hp Hc
    (KVStore_GetWritesEnabled_run _ (w_env w) Hmx))).
  by rewrite Hfl.
Qed.

(** C28: asking for a pause is acknowledged and changes nothing. In every state that a
    deployment can reach, [replicaRpcServer.PauseWrites] reports a pause exactly if
    the configuration lists new shards, and leaves every process, its flag
    included, as it was. *)
Theorem PauseWrites_pauses_nothing fuel l e self p i e1 buf c :
  let w := run_actions fuel l (empty_world e) in
  w_procs w !! self = Some p -> p_crashed p = false -> k_mutex (m_kv (p_mem p)) = false ->
  os_ReadFile self (f_configFile (p_flags p)) (w_env w) = (e1, Ok buf) ->
  yaml_Unmarshal buf = Ok c ->
  exists w', replicaRpcServer_PauseWrites self i w =
      (w', Ret (Ok {| pw_IsPaused := bool_decide (kc_NewShards c <> []) |})) /\
    w_procs w' = w_procs w.
Proof.
  intros w Hp Hc Hmx Hread Hy. assert (Hfl : flag_off self p) by (by eapply flag_off_along).
  unfold replicaRpcServer_PauseWrites.
  rewrite (bind_Ret _ _ _ _ _ (ReadConfig_ok self w p e1 buf c Hp Hc Hread Hy)).
  exists {| w_procs := w_procs w; w_env := e1; w_go := w_go w |}. split; [|done].
  destruct (kc_NewShards c) as [|d l']; [done|].
  rewrite decide_False by done.
  by rewrite (bind_Ret _ _ _ _ _ (kv_readonly self (KVStore_SetWritesEnabled false)
      {| w_procs := w_procs w; w_env := e1; w_go := w_go w |} p e1 None Hp Hc
      (SetWritesEnabled_same false _ _ Hmx Hfl))).
Qed.

End flag.

(** ** A run *)

(** Two processes come up, dial each other, and the leader is asked to enable writes. *)
Definition ex_startup : list (action (E := SimEnv)) :=
  [AStart "n0" (sim_flags "0"); AStart "n1" (sim_flags "1");
   ATask 0; ATask 0; ATask 0; ATask 0; ATask 0; ATask 0;
   ARequest "kvs-shard-0:8083" ReplicaResumeWrites].

Definition ex_up (file : string) : World SimEnv :=
  run_actions 2 ex_startup (empty_world (sim_world_env file)).

Definition ex_up_proc (file n : string) : Proc :=
  default (initial_proc (sim_flags "0")) (w_procs (ex_up file) !! n).

(** Writes were enabled in the log, but the flag that is read is not set. *)
Example ex_up_enabled :
  k_writesEnabled (m_fsm (p_mem (ex_up_proc "one" "n0"))) = true /\
  k_writesEnabled (m_kv (p_mem (ex_up_proc "one" "n0"))) = false.
Proof. vm_compute. done. Qed.

Lemma forwarded_Put_always_refused_witness :
  exists w', replicaRpcServer_Put "n0"
      {| ip_Key := "a"; ip_Value := "1"; ip_IsRedistribution := false |} (ex_up "one") =
      (w', Ret (Err ErrWritesDisabled)) /\ w_procs w' = w_procs (ex_up "one").
Proof.
  apply (forwarded_Put_always_refused 2 ex_startup (sim_world_env "one") "n0" (ex_up_proc "one" "n0"));
    vm_compute; reflexivity.
Defined.

Lemma PauseWrites_pauses_nothing_witness :
  exists w', replicaRpcServer_PauseWrites "n0" mkPauseWritesRequest (ex_up "scaling") =
      (w', Ret (Ok {| pw_IsPaused := true |})) /\ w_procs w' = w_procs (ex_up "scaling").
Proof.
  apply (PauseWrites_pauses_nothing 2 ex_startup (sim_world_env "scaling") "n0"
    (ex_up_proc "scaling" "n0") mkPauseWritesRequest (w_env (ex_up "scaling")) "scaling"
    {| kc_Shards := [sim_shard "0"]; kc_NewShards := [sim_shard "0"; sim_shard "1"] |});
    vm_compute; reflexivity.
Defined.
