(* ===== verification/RedistributeGuard.v ===== *)
(** * One redistribution at a time: the guard of [RedistributeKeys] in
      src/cmd/shard/shard.go

    Every request to redistribute keys starts a goroutine that runs [RedistributeKeys].
    The function keeps all but one of them out by a flag that a mutex protects. Here the
    goroutines of a process run at the same time: each of them is at a statement of the
    guard, the steps are single statements, and the body of the function, requests to any
    process and the other goroutines take steps in between. That the flag is up exactly
    while a goroutine is between the two assignments is an invariant of these steps; at the
    end of the file, the guard and the body in one piece are [RedistributeKeys] of Shard. *)

From S2P Require Import Prelude Protos RaftCommon KVStore Shard ShardWorld.
From S2P Require Import Redistribution Pending System SystemInv SystemProps Sim SimNet.

(** ** Statements *)

(** Where a goroutine is in [RedistributeKeys]: before a statement of the guard, in the body,
    before a statement of the deferred function, or done. *)
Inductive pc :=
| AtLock | AtTest | AtUnlockReturn | AtSet | AtUnlock
| InBody
| AtDeferLock | AtClear | AtDeferUnlock
| Returned.

#[export] Instance pc_eq_dec : EqDecision pc.
Proof. solve_decision. Defined.

Section guard.
Context `{!Proto, !ConsistentHash} {E : Type} `{!Raft E, !RaftSetup E, !Net E, !OS E}.
Context (fuel : nat) (self : string).
Implicit Types (w : World E).

(** The variable [redistributingKeys] of the process. *)
Definition redistributingKeys w : option bool := p_redistributingKeys <$> w_procs w !! self.

(** One statement of a goroutine, given whether the mutex is locked; nothing if it has to
    wait for the mutex or has returned. The body is left when it returns or panics, and
    then the deferred function runs. *)
Definition statement (at_ : pc) (locked : bool) w : option (pc * bool * World E) :=
  match at_ with
  | AtLock => if locked then None else Some (AtTest, true, w)
  | AtTest =>
      if decide (redistributingKeys w = Some true) then Some (AtUnlockReturn, locked, w)
      else Some (AtSet, locked, w)
  | AtUnlockReturn => Some (Returned, false, w)
  | AtSet => Some (AtUnlock, locked, upd_world self (set_p_redistributingKeys true) w)
  | AtUnlock => Some (InBody, false, w)
  | InBody => Some (AtDeferLock, locked, w)
  | AtDeferLock => if locked then None else Some (AtClear, true, w)
  | AtClear => Some (AtDeferUnlock, locked, upd_world self (set_p_redistributingKeys false) w)
  | AtDeferUnlock => Some (Returned, false, w)
  | Returned => None
  end.

(** The pieces of the body. *)
Inductive body_part : M (World E) unit -> Prop :=
| bp_config : body_part (ReadConfig self ;;; ret tt)
| bp_clients shards : body_part (PopulateShardClients fuel self shards)
| bp_keys : body_part (kv self KVStore_Keys ;;; ret tt)
| bp_round newCh key : body_part (relocate_key self newCh key).

(** ** Goroutines that run at the same time *)

Record Guard := {
  g_locked : bool;
  g_world : World E;
  g_pcs : list pc
}.

Inductive guard_step : Guard -> Guard -> Prop :=
| gs_go locked w pcs :
    guard_step {| g_locked := locked; g_world := w; g_pcs := pcs |}
      {| g_locked := locked; g_world := w; g_pcs := pcs ++ [AtLock] |}
| gs_statement locked w pcs i at_ at' locked' w' :
    pcs !! i = Some at_ -> statement at_ locked w = Some (at', locked', w') ->
    guard_step {| g_locked := locked; g_world := w; g_pcs := pcs |}
      {| g_locked := locked'; g_world := w'; g_pcs := <[i := at']> pcs |}
| gs_body locked w pcs i part :
    pcs !! i = Some InBody -> body_part part ->
    guard_step {| g_locked := locked; g_world := w; g_pcs := pcs |}
      {| g_locked := locked; g_world := (part w).1; g_pcs := pcs |}
| gs_request locked w pcs target r :
    guard_step {| g_locked := locked; g_world := w; g_pcs := pcs |}
      {| g_locked := locked; g_world := (rpc target (handle fuel r) w).1; g_pcs := pcs |}
| gs_env locked w pcs e :
    guard_step {| g_locked := locked; g_world := w; g_pcs := pcs |}
      {| g_locked := locked;
         g_world := {| w_procs := w_procs w; w_env := e; w_go := w_go w |}; g_pcs := pcs |}.

(** No goroutine has been started. *)
Definition guard_start w : Guard := {| g_locked := false; g_world := w; g_pcs := [] |}.

(** ** Only the guard assigns the flag *)

Definition flag_is (b : bool) (m : gmap string Proc) : Prop :=
  p_redistributingKeys <$> m !! self = Some b.

Lemma flag_is_alter b f n m :
  (forall p, p_redistributingKeys (f p) = p_redistributingKeys p) ->
  flag_is b m -> flag_is b (alter f n m).
Proof.
  intros Hf. unfold flag_is. destruct (decide (n = self)) as [->|Hne].
  - rewrite lookup_alter_eq. destruct (m !! self); simpl; [by rewrite Hf|done].
  - by rewrite lookup_alter_ne.
Qed.

#[local] Instance flag_is_inv b : ProcsInv E (flag_is b) always always.
Proof.
  split; try done.
  - intros. apply (Forall_forall (shard_lab always) (kc_Shards c ++ kc_NewShards c)); [apply always_labs|done].
  - intros m n. by apply flag_is_alter.
  - intros m n c. by apply flag_is_alter.
  - intros m n name port _. by apply flag_is_alter.
  - intros m n p r port _ _ _. by apply flag_is_alter.
  - intros A op m n p e mem' e' o _ Hm Hp _ _. unfold flag_is in *.
    destruct (decide (n = self)) as [->|Hne]; [|by rewrite lookup_insert_ne].
    rewrite lookup_insert_eq. by rewrite Hp in Hm.
Qed.

Abbreviation flagged b := (sys_inv (E := E) (flag_is b) always).

Lemma flagged_intro b w : redistributingKeys w = Some b -> flagged b w.
Proof.
  intros Hw. split; [exact Hw|]. apply Forall_true. intros [n []]; try done; simpl;
    apply always_labs.
Qed.

Lemma flagged_run {A} b (m : M (World E) A) w :
  preserves (flagged b) m -> redistributingKeys w = Some b -> redistributingKeys (m w).1 = Some b.
Proof.
  intros Hm Hw. specialize (Hm w (flagged_intro b w Hw)).
  destruct (m w) as [w' []]; exact (proj1 Hm).
Qed.

Lemma body_part_flag b part w :
  body_part part -> redistributingKeys w = Some b -> redistributingKeys (part w).1 = Some b.
Proof.
  intros Hp. apply flagged_run. destruct Hp.
  - eapply inv_ReadConfig; [exact _|]. intros. apply preserves_ret.
  - eapply inv_PopulateShardClients; [exact _|]. apply always_labs.
  - apply preserves_bind; [eapply inv_kv; [exact _|constructor]|]. intros. apply preserves_ret.
  - exact (inv_relocate_free (flag_is b) always always self newCh key I).
Qed.

Lemma request_flag b target r w :
  redistributingKeys w = Some b -> redistributingKeys (rpc target (handle fuel r) w).1 = Some b.
Proof.
  apply flagged_run. eapply inv_rpc; [exact _|]. intros node. eapply inv_handle; [exact _|].
  unfold request_ok. by destruct (written_key r).
Qed.

Lemma redistributingKeys_set b w :
  is_Some (redistributingKeys w) ->
  redistributingKeys (upd_world self (set_p_redistributingKeys b) w) = Some b.
Proof.
  unfold redistributingKeys, upd_world. simpl. rewrite lookup_alter_eq.
  destruct (w_procs w !! self); [done|]. by intros [? [=]].
Qed.

(** ** The invariant *)

(** The statements between [Lock] and [Unlock], and those between the assignments. *)
Definition holds_lock (at_ : pc) : bool :=
  match at_ with
  | AtTest | AtUnlockReturn | AtSet | AtUnlock | AtClear | AtDeferUnlock => true
  | _ => false
  end.
Definition admitted (at_ : pc) : bool :=
  match at_ with AtUnlock | InBody | AtDeferLock | AtClear => true | _ => false end.

Definition count (P : pc -> bool) (pcs : list pc) : nat := length (filter (fun x => P x = true) pcs).

Lemma count_app P pcs pcs' : count P (pcs ++ pcs') = count P pcs + count P pcs'.
Proof. unfold count. by rewrite filter_app, length_app. Qed.

Lemma count_cons P x pcs : count P (x :: pcs) = Nat.b2n (P x) + count P pcs.
Proof. unfold count. rewrite filter_cons. by destruct (P x). Qed.

(** One goroutine moves from [x] to [y]. *)
Lemma count_insert P pcs i x y :
  pcs !! i = Some x -> count P (<[i := y]> pcs) + Nat.b2n (P x) = count P pcs + Nat.b2n (P y).
Proof.
  intros Hi. rewrite <- (take_drop_middle pcs i x Hi) at 2.
  rewrite insert_take_drop by (by eapply lookup_lt_Some).
  rewrite !count_app, !count_cons. lia.
Qed.

Lemma count_elem P pcs i x : pcs !! i = Some x -> P x = true -> 0 < count P pcs.
Proof.
  intros Hi Hx. rewrite <- (take_drop_middle pcs i x Hi), count_app, count_cons, Hx. simpl. lia.
Qed.

Record guard_inv (g : Guard) (flag : bool) : Prop := {
  gi_flag : redistributingKeys (g_world g) = Some flag;
  gi_lock : count holds_lock (g_pcs g) = Nat.b2n (g_locked g);
  gi_admitted : count admitted (g_pcs g) = Nat.b2n flag;
  gi_tested : AtSet ∈ g_pcs g -> flag = false
}.

Lemma elem_of_insert_ne (pcs : list pc) i x y z :
  pcs !! i = Some x -> z ∈ <[i := y]> pcs -> z <> y -> z ∈ pcs.
Proof.
  intros Hi (j & Hj)%list_elem_of_lookup_1 Hne.
  apply list_lookup_insert_Some in Hj as [(_ & -> & _)|[_ Hj]]; [done|].
  by eapply list_elem_of_lookup_2.
Qed.

(** A goroutine that holds the mutex is the only one. *)
Lemma only_holder pcs i x j y :
  pcs !! i = Some x -> pcs !! j = Some y -> holds_lock x = true -> holds_lock y = true ->
  count holds_lock pcs <= 1 -> i = j.
Proof.
  intros Hi Hj Hx Hy Hle. destruct (decide (i = j)) as [|Hne]; [done|exfalso].
  pose proof (count_insert holds_lock pcs i x Returned Hi) as Hc. rewrite Hx in Hc. simpl in Hc.
  assert (Hj' : <[i := Returned]> pcs !! j = Some y) by (by rewrite list_lookup_insert_ne).
  pose proof (count_elem holds_lock _ j y Hj' Hy). lia.
Qed.

(** The counts of the invariant, where [H] deals with [AtSet]. *)
Ltac counts_up H :=
  split; cbn [g_locked g_world g_pcs Nat.b2n holds_lock admitted] in *;
    try lia; try done; try (intros Hel; by apply (H Hel)).

Lemma statement_inv locked w pcs i at_ at' locked' w' flag :
  pcs !! i = Some at_ -> statement at_ locked w = Some (at', locked', w') ->
  guard_inv {| g_locked := locked; g_world := w; g_pcs := pcs |} flag ->
  exists flag', guard_inv {| g_locked := locked'; g_world := w'; g_pcs := <[i := at']> pcs |} flag'.
Proof.
  intros Hi Hst [Hf Hl Ha Ht]. cbn [g_locked g_world g_pcs] in Hf, Hl, Ha, Ht.
  pose proof (count_insert holds_lock pcs i at_ at' Hi) as Hcl.
  pose proof (count_insert admitted pcs i at_ at' Hi) as Hca.
  assert (Hset : forall b, redistributingKeys (upd_world self (set_p_redistributingKeys b) w) = Some b)
    by (intros b; apply redistributingKeys_set; by eexists).
  assert (Hin : AtSet ∈ <[i := at']> pcs -> at' <> AtSet -> flag = false).
  { intros Hin Hne. apply Ht. eapply elem_of_insert_ne; [exact Hi|exact Hin|done]. }
  assert (Halone : holds_lock at_ = true -> at_ <> AtSet -> at' <> AtSet ->
    AtSet ∉ <[i := at']> pcs).
  { intros Hh Hne Hne' Hel. apply (elem_of_insert_ne _ _ _ _ _ Hi) in Hel as Hpcs; [|done].
    apply list_elem_of_lookup_1 in Hpcs as [j Hj].
    assert (i = j) as <-; [|congruence].
    eapply only_holder; [exact Hi|exact Hj|done|done|]. rewrite Hl. destruct locked; simpl; lia. }
  pose proof (count_elem holds_lock pcs i at_ Hi) as Hpos. rewrite Hl in Hpos.
  destruct at_; cbn in Hst, Hcl, Hca, Hpos; try done.
  - destruct locked; [done|]. injection Hst as <- <- <-. exists flag. by counts_up Hin.
  - destruct locked; [|specialize (Hpos eq_refl); cbn in Hpos; lia]. case_decide as Hd; injection Hst as <- <- <-.
    + exists flag. by counts_up Hin.
    + exists flag. counts_up Hin. intros _. destruct flag; [|done]. by destruct Hd.
  - injection Hst as <- <- <-. destruct locked; [|specialize (Hpos eq_refl); cbn in Hpos; lia].
    exists flag. by counts_up Hin.
  - injection Hst as <- <- <-. assert (flag = false) as -> by (apply Ht; by eapply list_elem_of_lookup_2).
    exists true. counts_up Hin.
    intros Hel. exfalso. apply (elem_of_insert_ne _ _ _ _ _ Hi) in Hel as Hpcs; [|done].
    apply list_elem_of_lookup_1 in Hel as [j Hj].
    apply list_lookup_insert_Some in Hj as [(_ & [=] & _)|[Hne Hj]]. apply Hne.
    eapply only_holder; [exact Hi|exact Hj|done|done|]. rewrite Hl. destruct locked; simpl; lia.
  - injection Hst as <- <- <-. destruct locked; [|specialize (Hpos eq_refl); cbn in Hpos; lia].
    exists flag. by counts_up Hin.
  - injection Hst as <- <- <-. exists flag. by counts_up Hin.
  - destruct locked; [done|]. injection Hst as <- <- <-. exists flag. by counts_up Hin.
  - injection Hst as <- <- <-. exists false. counts_up Hin.
    pose proof (count_elem admitted pcs i AtClear Hi eq_refl). destruct flag; cbn [Nat.b2n] in *; lia.
  - injection Hst as <- <- <-. destruct locked; [|specialize (Hpos eq_refl); cbn in Hpos; lia].
    exists flag. by counts_up Hin.
Qed.

Lemma guard_step_inv g g' flag :
  guard_step g g' -> guard_inv g flag -> exists flag', guard_inv g' flag'.
Proof.
  intros Hs Hg. destruct Hs as [locked w pcs|locked w pcs i at_ at' locked' w' Hi Hst
    |locked w pcs i part Hi Hp|locked w pcs target r|locked w pcs e].
  - destruct Hg as [Hf Hl Ha Ht]. cbn [g_locked g_world g_pcs] in *. exists flag.
    split; cbn [g_locked g_world g_pcs]; try done.
    + rewrite count_app, Hl. change (count holds_lock [AtLock]) with 0. lia.
    + rewrite count_app, Ha. change (count admitted [AtLock]) with 0. lia.
    + intros [Hin|Hin%list_elem_of_singleton]%elem_of_app; [by apply Ht|done].
  - by eapply statement_inv.
  - destruct Hg as [Hf Hl Ha Ht]. exists flag. split; try done. by apply body_part_flag.
  - destruct Hg as [Hf Hl Ha Ht]. exists flag. split; try done. by apply request_flag.
  - destruct Hg as [Hf Hl Ha Ht]. by exists flag.
Qed.

Lemma guard_reachable_inv g g' flag :
  rtc guard_step g g' -> guard_inv g flag -> exists flag', guard_inv g' flag'.
Proof.
  intros Hs. revert flag. induction Hs as [|g g1 g2 Hs _ IH]; intros flag Hg; [by exists flag|].
  destruct (guard_step_inv _ _ _ Hs Hg) as [flag1 Hg1]. by eapply IH.
Qed.

(** Nobody waits forever for the mutex: the one that holds it can go on. *)
Lemma guard_progress g flag :
  guard_inv g flag -> (exists i at_, g_pcs g !! i = Some at_ /\ at_ <> Returned) ->
  exists i at_, g_pcs g !! i = Some at_ /\ is_Some (statement at_ (g_locked g) (g_world g)).
Proof.
  intros [Hf Hl Ha Ht] (i & at_ & Hi & Hne). destruct (g_locked g) eqn:Hlk.
  - assert (exists j x, g_pcs g !! j = Some x /\ holds_lock x = true) as (j & x & Hj & Hx).
    { destruct (filter (fun x => holds_lock x = true) (g_pcs g)) as [|x l] eqn:Hfl.
      { unfold count in Hl. rewrite Hfl in Hl. done. }
      assert (Hx : x ∈ filter (fun x => holds_lock x = true) (g_pcs g)) by (rewrite Hfl; left).
      apply list_elem_of_filter in Hx as [Hx (j & Hj)%list_elem_of_lookup_1]. by exists j, x. }
    exists j, x. split; [done|]. unfold statement. destruct x; try done; try by eexists.
    case_decide; by eexists.
  - exists i, at_. split; [done|]. unfold statement. destruct at_; try done; try by eexists.
    case_decide; by eexists.
Qed.

(** C20: at most one redistribution runs at a process. Let a process start any number of
    goroutines that run [RedistributeKeys], let their statements interleave in any way with
    each other, with the pieces of the bodies and with requests to any process. Then at
    every moment at most one goroutine is in the body of the function, the flag is set
    exactly while one is between the two assignments, the mutex has at most one holder, and
    as long as some goroutine has not returned, one of them can take a step. *)
Theorem redistributions_exclude w g :
  redistributingKeys w = Some false -> rtc guard_step (guard_start w) g ->
  count (fun at_ => bool_decide (at_ = InBody)) (g_pcs g) <= 1 /\
  redistributingKeys (g_world g) = Some (bool_decide (count admitted (g_pcs g) = 1)) /\
  count holds_lock (g_pcs g) <= 1 /\
  ((exists i at_, g_pcs g !! i = Some at_ /\ at_ <> Returned) ->
   exists i at_, g_pcs g !! i = Some at_ /\ is_Some (statement at_ (g_locked g) (g_world g))).
Proof.
  intros Hw Hr. destruct (guard_reachable_inv _ _ false Hr) as [flag Hg]; [by split|].
  split_and!.
  - trans (count admitted (g_pcs g)); [|rewrite (gi_admitted _ _ Hg); destruct flag; simpl; lia].
    unfold count. induction (g_pcs g) as [|x l IH]; [done|].
    rewrite !filter_cons. destruct x; simpl; lia.
  - rewrite (gi_flag _ _ Hg), (gi_admitted _ _ Hg). by destruct flag.
  - rewrite (gi_lock _ _ Hg). destruct (g_locked g); simpl; lia.
  - by apply (guard_progress g flag).
Qed.

(** ** One goroutine alone *)

(** The body of [RedistributeKeys] in one piece. *)
Definition redistribution : M (World E) unit :=
  kvConfig <- ReadConfig self ;;
  if decide (length (kc_NewShards kvConfig) = 0%nat) then ret tt
  else
    PopulateShardClients fuel self (kc_NewShards kvConfig) ;;;
    newCh <- new_ring (kc_NewShards kvConfig) ;;
    range_keys self tt (fun _ key => relocate_key self newCh key).

(** [n] statements of a goroutine; it leaves the body after running it. *)
Fixpoint alone (n : nat) (x : pc * bool * World E) : pc * bool * World E :=
  match n with
  | 0 => x
  | S n =>
      let '(at_, locked, w) := x in
      let w := if decide (at_ = InBody) then (redistribution w).1 else w in
      alone n (default (at_, locked, w) (statement at_ locked w))
  end.

Lemma alone_statement n at_ locked w at' locked' w' :
  at_ <> InBody -> statement at_ locked w = Some (at', locked', w') ->
  alone (S n) (at_, locked, w) = alone n (at', locked', w').
Proof. intros Hne Hst. cbn [alone]. by rewrite decide_False, Hst by done. Qed.

Lemma alone_body n locked w :
  alone (S n) (InBody, locked, w) = alone n (AtDeferLock, locked, (redistribution w).1).
Proof. cbn [alone]. by rewrite decide_True by done. Qed.

(** The statements of a goroutine that runs alone are [RedistributeKeys] of Shard. *)
Lemma alone_RedistributeKeys w w' o p :
  w_procs w !! self = Some p -> p_crashed p = false ->
  RedistributeKeys fuel self w = (w', o) -> o <> Hang ->
  alone 8 (AtLock, false, w) = (Returned, false, w').
Proof.
  intros Hp Hc Hrun Ho. unfold RedistributeKeys in Hrun. fold redistribution in Hrun.
  rewrite (bind_Ret _ _ _ _ _ (proc_alive _ _ _ Hp Hc)) in Hrun.
  assert (Hk : redistributingKeys w = Some (p_redistributingKeys p))
    by (unfold redistributingKeys; by rewrite Hp).
  rewrite (alone_statement 7 AtLock false w AtTest true w) by done.
  destruct (p_redistributingKeys p).
  - rewrite (alone_statement 6 AtTest true w AtUnlockReturn true w)
      by (simpl; rewrite ?Hk; done).
    rewrite (alone_statement 5 AtUnlockReturn true w Returned false w) by done.
    by injection Hrun as <- <-.
  - unfold bind at 1, upd_proc, modify, deferred in Hrun.
    set (w1 := upd_world self (set_p_redistributingKeys true) w) in *.
    rewrite (alone_statement 6 AtTest true w AtSet true w) by (simpl; rewrite ?Hk; done).
    rewrite (alone_statement 5 AtSet true w AtUnlock true w1) by done.
    rewrite (alone_statement 4 AtUnlock true w1 InBody false w1) by done.
    rewrite alone_body. destruct (redistribution w1) as [w2 o2]. cbn [fst].
    assert (w' = upd_world self (set_p_redistributingKeys false) w2) as ->
      by (by destruct o2; injection Hrun as <- <-). done.
Qed.

End guard.

(** ** Two goroutines *)

(** The second one finds the flag set while the first one is in the body. *)
Definition ex_entered : World SimEnv :=
  upd_world "n0" (set_p_redistributingKeys true) (sim_world "scaling" {[ "a" := "1" ]}).

Lemma redistributions_exclude_witness :
  redistributingKeys "n0" ex_entered = Some true /\
  count (fun at_ => bool_decide (at_ = InBody)) [InBody; AtUnlockReturn] <= 1.
Proof.
  destruct (redistributions_exclude 1 "n0" (sim_world "scaling" {[ "a" := "1" ]})
    {| g_locked := true; g_world := ex_entered; g_pcs := [InBody; AtUnlockReturn] |})
    as (Hone & Hflag & _).
  - reflexivity.
  - eapply rtc_l; [apply gs_go|]. eapply rtc_l; [apply gs_go|].
    do 4 (eapply rtc_l; [eapply (gs_statement _ _ _ _ _ 0); [reflexivity|reflexivity]|]).
    do 2 (eapply rtc_l; [eapply (gs_statement _ _ _ _ _ 1); [reflexivity|reflexivity]|]).
    apply rtc_refl.
  - split; [exact Hflag|exact Hone].
Defined.
