(* ===== verification/SystemOrder.v ===== *)
(** * The good order of a deployment

    A running process is in good order when its clients lead to the shards and replicas
    they stand for and its reads are served from the map of its FSM. Processes come up
    in good order and every turn of the deployment keeps it, as long as the Raft library
    restores no snapshot (KVStoreProps shows what a snapshot does to reads). *)

From S2P Require Import Prelude Protos RaftCommon KVStore KVStoreSpec KVStoreFlag.
From S2P Require Import Shard ShardWorld Redistribution Pending System SystemInv SystemStore.
From S2P Require Import Sim SimNet SystemProps.

(** Raft finds no snapshot on disk when it is created: it hands over entries only. *)
Class NoSnapshots `{!Proto} (E : Type) `{!RaftSetup E} : Prop := {
  new_raft_entries : forall c e e' err evs,
    NewRaft c e = (e', (err, evs)) -> Forall (entry_event always) evs
}.

Section start.
Context `{!Proto, !ConsistentHash} {E : Type} `{!Raft E, !RaftSetup E, !Net E, !OS E}.
Context `{!ProtoLaws, !NoSnapshots E}.

Definition some_node_ok (w : Mem * E) : Prop := exists s, node_ok w.1 s.

(** Calls of the environment, and [SetupRaft], return and keep the store in order. *)
Abbreviation returns_ok m := (triple some_node_ok m (fun _ => some_node_ok) (fun _ => False)).

Lemma env_call_ok {A} (f : E -> E * A) : returns_ok (env_call f).
Proof. intros [m e] Hw. unfold env_call. simpl. by destruct (f e). Qed.

Lemma ret_ok {A} (a : A) : returns_ok (ret a).
Proof. by intros w Hw. Qed.

Lemma SetupRaft_ok dir id address b : returns_ok (SetupRaft dir id address b KVFsm_FSM).
Proof.
  unfold SetupRaft.
  do 2 (eapply triple_bind; [apply env_call_ok|intros [err|]; [apply ret_ok|]]).
  do 2 (eapply triple_bind; [apply env_call_ok|intros [?|err]; [|apply ret_ok]]).
  eapply (triple_bind _ _ _ (fun r w => some_node_ok w /\ Forall (entry_event always) r.2)).
  { intros [m e] Hw. unfold env_call. simpl. destruct (NewRaft _ e) as [e' [err evs]] eqn:Hnew.
    split; [done|]. by apply new_raft_entries in Hnew. }
  intros [err evs]. simpl. eapply (triple_bind _ _ _ (fun _ => some_node_ok)).
  { intros [m e] [[s Hs] Hevs]. simpl in Hs. unfold on_mem. simpl.
    destruct (deliver_ok always evs m s Hevs Hs) as (m' & s' & -> & Hs' & _). by exists s'. }
  intros _. destruct err as [err|]; [apply ret_ok|]. destruct b; [|apply ret_ok].
  eapply triple_bind; [apply env_call_ok|]. intros [err|]; apply ret_ok.
Qed.

Lemma NewKVStore_Open_ok dir ip port shard replica b e :
  exists m' e' err, KVStore_Open dir ip port shard replica b (NewKVStore, e) = ((m', e'), Ret err) /\
    (err = None -> exists s, mem_ok m' s).
Proof.
  unfold KVStore_Open, bind at 1, get, bind at 1, on_mem at 1, modify. simpl.
  match goal with |- context [bind _ _ (?m, e)] => set (m0 := m) end.
  assert (Hm0 : some_node_ok (m0, e)).
  { exists {| sp_map := ∅; sp_writes := true |}. split; [|done]. exists 0. by split_and!. }
  unfold bind at 1.
  pose proof (SetupRaft_ok dir (replica_addr replica shard port) (host_addr ip port) b (m0, e) Hm0) as Hset.
  destruct (SetupRaft _ _ _ _ _ (m0, e)) as [[m1 e1] [err|why|]]; [|done..].
  destruct err as [err|]; [by eexists _, _, _|].
  eexists _, _, _. split; [reflexivity|]. intros _. destruct Hset as [s (Ha & Hst & Hmx)].
  exists s. split; [by split_and!|by eexists].
Qed.

End start.

(** ** Good order *)

Section order.
Context `{!Proto, !ConsistentHash} {E : Type} `{!Raft E, !RaftSetup E, !Net E, !OS E}.
Context `{!Topology E, !ConfigLabels E, !ProtoLaws, !RaftSerial E}.

Definition label (s : string) : Prop := is_label s = true.

Definition in_order (n : string) (p : Proc) : Prop :=
  p_crashed p = false -> clients_ok n p /\ store_ok p.

Lemma clients_ok_same n p p' :
  p_flags p' = p_flags p -> p_shardClients p' = p_shardClients p ->
  p_replicaClients p' = p_replicaClients p -> clients_ok n p -> clients_ok n p'.
Proof. unfold clients_ok. by intros -> -> ->. Qed.

Lemma clients_ok_shard n p name port :
  label name -> clients_ok n p ->
  clients_ok n (set_p_shardClients (<[name := host_addr name port]> (p_shardClients p)) p).
Proof.
  intros Hl (Hf & Hs & Hr). split_and!; [done| |done].
  simpl. intros name' t [[<- <-]|[_ Ht]]%lookup_insert_Some; [|by apply Hs]. split; [done|]. by exists port.
Qed.

Lemma clients_ok_replica n p key r port :
  label r -> label (f_shard (p_flags p)) -> clients_ok n p ->
  clients_ok n (set_p_replicaClients
    (<[key := replica_addr r (f_shard (p_flags p)) port]> (p_replicaClients p)) p).
Proof.
  intros Hl Hsh (Hf & Hs & Hr). split_and!; [done|done|].
  simpl. intros key' t [[<- <-]|[_ Ht]]%lookup_insert_Some; [|by eapply Hr]. by exists r, port.
Qed.

#[export] Instance order_procs_inv : ProcsInv E (map_Forall in_order) always label.
Proof.
  split.
  - intros buf c s Ht Hy Hs. split; [by eapply config_labels|by eapply config_replica_labels].
  - intros m n. by apply map_Forall_alter.
  - intros m n c. apply map_Forall_alter. intros p Hp Hc. destruct (Hp Hc). split; [|done].
    by eapply clients_ok_same.
  - intros m n name port Hl. apply map_Forall_alter. intros p Hp Hc. destruct (Hp Hc).
    split; [by apply clients_ok_shard|done].
  - intros m n p r port Hn Hl Hsh Hm k q Hq. destruct (decide (k = n)) as [->|Hne].
    + rewrite lookup_alter_eq, Hn in Hq. injection Hq as <-. intros Hc.
      destruct (Hm n p Hn Hc). split; [by apply clients_ok_replica|done].
    + rewrite lookup_alter_ne in Hq by done. by apply Hm.
  - intros m m' n p p' Hm Hm' Hp Hp' Hc Hc'.
    destruct (Hm n p Hp Hc) as ((Hf & _) & _). destruct (Hm' n p' Hp' Hc') as ((Hf' & _) & _).
    by rewrite Hf, Hf'.
  - intros A op m n p e mem' e' o Hop Hm Hp Hc Hrun. apply map_Forall_insert_2; [|done].
    intros _. destruct (Hm n p Hp Hc) as [Hcl [[s Hs] Hr]]. split; [by eapply clients_ok_same|].
    destruct (store_op_ok always A op (p_mem p) s e mem' e' o Hop) as (s' & [Hs' Hr'] & _); [done..|].
    split; [by exists s'|done].
Qed.

#[export] Instance order_flag_free : FlagFree (map_Forall in_order).
Proof.
  split. intros m n b. apply map_Forall_alter. intros p Hp Hc. destruct (Hp Hc). split; [|done].
  by eapply clients_ok_same.
Qed.

Abbreviation order_inv := (sys_inv (E := E) (map_Forall in_order) label).

(** Entries that Raft hands to a process. *)
Lemma order_deliver self evs :
  Forall (entry_event always) evs -> preserves order_inv (kv (E := E) self (on_mem (deliver KVFsm_FSM evs))).
Proof.
  intros Hevs w [Hm Hg]. unfold kv, bind, proc.
  destruct (w_procs w !! self) as [p|] eqn:Hp; [|done]. destruct (p_crashed p) eqn:Hc; [done|].
  destruct (Hm self p Hp Hc) as [Hcl [[s Hs] Hr]]. unfold on_mem. simpl.
  destruct (deliver_ok always evs (p_mem p) s Hevs Hs) as (m' & s' & -> & Hs' & Hkv & _).
  split; [|done]. apply map_Forall_insert_2; [|done]. intros _.
  split; [by eapply clients_ok_same|]. split; [by exists s'|]. simpl. by rewrite Hkv.
Qed.

(** ** Starting *)

Context `{!NoSnapshots E}.

(** [self] is being started: the other processes are in order. *)
Definition starting (self : string) (w : World E) : Prop :=
  map_Forall (fun n p => n <> self -> in_order n p) (w_procs w) /\
  Forall (task_ok label) (w_go w).

(** The process before its store is opened. *)
Definition fresh (self : string) (flags : Flags) (mem : Mem) (w : World E) : Prop :=
  starting self w /\ exists p, w_procs w !! self = Some p /\ p_flags p = flags /\
    p_shardClients p = ∅ /\ p_replicaClients p = ∅ /\ p_mem p = mem /\ p_crashed p = false.

Lemma starting_other self f w :
  starting self w -> starting self (upd_world self f w).
Proof.
  intros [Hm Hg]. split; [|done]. intros n p Hp Hn. simpl in Hp.
  rewrite lookup_alter_ne in Hp by done. by apply (Hm n p Hp).
Qed.

Lemma starting_crashed self w : starting self w -> order_inv (upd_world self (set_p_crashed true) w).
Proof.
  intros [Hm Hg]. split; [|done]. intros n p Hp Hc. simpl in Hp.
  destruct (decide (n = self)) as [->|Hne].
  - rewrite lookup_alter_eq in Hp. destruct (w_procs w !! self); [|done]. by injection Hp as <-.
  - rewrite lookup_alter_ne in Hp by done. by apply (Hm n p Hp).
Qed.

Lemma fresh_upd self flags mem mem' f w :
  (forall p, p_flags (f p) = p_flags p /\ p_shardClients (f p) = p_shardClients p /\
     p_replicaClients (f p) = p_replicaClients p /\ p_crashed (f p) = p_crashed p /\
     (p_mem p = mem -> p_mem (f p) = mem')) ->
  fresh self flags mem w -> fresh self flags mem' (upd_world self f w).
Proof.
  intros Hf [Hs (p & Hp & Hfl & Hsc & Hrc & Hm & Hc)]. split; [by apply starting_other|].
  exists (f p). destruct (Hf p) as (H1' & H2' & H3' & H4' & H5'). simpl.
  rewrite lookup_alter_eq, Hp. split_and!; [done|congruence..|by apply H5'|congruence].
Qed.

(** Code that runs while [self] is started: it returns or ends the process, and leaves
    the others alone. *)
Definition boots {A} (self : string) (P : World E -> Prop) (m : M (World E) A)
    (Q : A -> World E -> Prop) : Prop :=
  forall w, P w ->
  match m w with
  | (w', Ret a) => Q a w'
  | (w', Crash _) => starting self w'
  | (_, Hang) => False
  end.

Lemma boots_bind {A B} self P (m : M (World E) A) (f : A -> M (World E) B) Q1 Q2 :
  boots self P m Q1 -> (forall a, boots self (Q1 a) (f a) Q2) -> boots self P (bind m f) Q2.
Proof.
  intros Hm Hf w Hw. specialize (Hm w Hw). unfold bind.
  destruct (m w) as [w' [a|why|]]; [by apply Hf|done|done].
Qed.

Lemma boots_ret {A} self (P : World E -> Prop) (a : A) (Q : A -> World E -> Prop) :
  (forall w, P w -> Q a w) -> boots self P (ret a) Q.
Proof. intros HQ w Hw. by apply HQ. Qed.

Lemma boots_envc {A} self flags mem (f : E -> E * A) :
  boots self (fresh self flags mem) (envc f) (fun _ => fresh self flags mem).
Proof. intros w Hw. unfold envc. by destruct (f (w_env w)). Qed.

Lemma boots_proc self flags mem :
  boots self (fresh self flags mem) (proc self) (fun p w => fresh self flags mem w /\ p_flags p = flags).
Proof.
  intros w Hw. pose proof Hw as [_ (p & Hp & Hfl & _ & _ & _ & Hc)].
  unfold proc. by rewrite Hp, Hc.
Qed.

Lemma boots_upd self flags mem mem' f :
  (forall p, p_flags (f p) = p_flags p /\ p_shardClients (f p) = p_shardClients p /\
     p_replicaClients (f p) = p_replicaClients p /\ p_crashed (f p) = p_crashed p /\
     (p_mem p = mem -> p_mem (f p) = mem')) ->
  boots self (fresh self flags mem) (upd_proc self f) (fun _ => fresh self flags mem').
Proof. intros Hf w Hw. simpl. by eapply fresh_upd. Qed.

Lemma boots_ReadConfig {A} self flags mem (k : KVStoreConfig -> M (World E) A) Q :
  (forall c, Forall (shard_lab label) (kc_Shards c ++ kc_NewShards c) ->
     boots self (fresh self flags mem) (k c) Q) ->
  boots self (fresh self flags mem) (bind (ReadConfig self) k) Q.
Proof.
  intros Hk. eapply (boots_bind self _ _ _ (fun c w => fresh self flags mem w /\
    Forall (shard_lab label) (kc_Shards c ++ kc_NewShards c))).
  2:{ intros c w [Hw Hc]. by apply (Hk c Hc). }
  unfold ReadConfig. eapply boots_bind; [apply boots_proc|]. intros p.
  eapply (boots_bind self _ _ _ (fun buf w => fresh self flags mem w /\
    forall t, buf = Ok t -> read_text E t)).
  { intros w [Hw _]. destruct (envc (os_ReadFile self (f_configFile (p_flags p))) w) as [w1 o] eqn:Hrun.
    pose proof (boots_envc self flags mem (os_ReadFile self (f_configFile (p_flags p))) w Hw) as Hb.
    rewrite Hrun in Hb. destruct o as [buf|why|]; [|done..]. split; [done|].
    intros t ->. by eapply envc_read_text. }
  intros [buf|err]; [|intros w [Hw _]; apply Hw].
  destruct (yaml_Unmarshal buf) as [c|err] eqn:Hy; [|intros w [Hw _]; apply Hw].
  apply boots_ret. intros w [Hw Ht]. split; [done|]. apply Forall_forall. intros s Hs.
  by eapply (pi_config (E := E) (J := map_Forall in_order) (free := always)); [apply Ht| |].
Qed.

(** Opening the store of the new process. *)
Lemma boots_Open self flags dir ip port shard replica b :
  f_shard flags = node_shard self ->
  boots self (fresh self flags NewKVStore) (kv self (KVStore_Open dir ip port shard replica b))
    (fun err w => starting self w /\ (err = None -> order_inv w)).
Proof.
  intros Hsh w [[Hm Hg] (p & Hp & Hfl & Hsc & Hrc & Hmem & Hc)].
  unfold kv, bind, proc. rewrite Hp, Hc, Hmem.
  destruct (NewKVStore_Open_ok dir ip port shard replica b (w_env w)) as (m' & e' & err & -> & Hok).
  assert (Hst : forall n q, <[self := set_p_mem m' p]> (w_procs w) !! n = Some q -> n <> self ->
    in_order n q).
  { intros n q Hq Hn. rewrite lookup_insert_ne in Hq by done. by apply (Hm n q Hq). }
  split; [by split|]. intros ->. split; [|done]. intros n q Hq.
  destruct (decide (n = self)) as [->|Hn]; [|by apply (Hst n q Hq)].
  simpl in Hq. rewrite lookup_insert_eq in Hq. injection Hq as <-. intros _.
  destruct Hok as (s & Hs & Hr); [done|]. split; [|split; [by exists s|done]].
  unfold clients_ok. simpl. rewrite Hfl, Hsc, Hrc. split_and!; [done| |];
    intros ? ?; by rewrite lookup_empty.
Qed.

Lemma boots_spawn self t (P : World E -> Prop) :
  task_ok label (self, t) -> (forall w, P w -> order_inv w) ->
  boots self P (spawn self t) (fun _ => order_inv).
Proof.
  intros Ht HP w [Hm Hg]%HP. split; [done|]. apply Forall_app. split; [done|]. by constructor.
Qed.

Lemma order_main_start self flags :
  f_shard flags = node_shard self ->
  preserves order_inv (at_process self (main_start (E := E) self flags)).
Proof.
  intros Hsh. enough (Hb : boots self order_inv (main_start (E := E) self flags) (fun _ => order_inv)).
  { intros w Hw. specialize (Hb w Hw). unfold at_process.
    destruct (main_start self flags w) as [w' [a|why|]]; [done|by apply starting_crashed|done]. }
  unfold main_start. set (m0 := p_mem (initial_proc flags)).
  eapply (boots_bind self _ _ _ (fun _ => fresh self flags m0)).
  { intros w [Hm Hg]. split; [split; [|done]|].
    - intros n p Hp Hn. simpl in Hp. rewrite lookup_insert_ne in Hp by done. by apply Hm.
    - exists (initial_proc flags). simpl. by rewrite lookup_insert_eq. }
  intros []. apply boots_ReadConfig. intros c Hc.
  eapply boots_bind; [apply boots_envc|]. intros missing.
  eapply boots_bind; [by apply (boots_upd self flags m0 m0)|]. intros [].
  eapply (boots_bind self _ _ _ (fun _ => fresh self flags m0)).
  { intros w Hw. unfold new_ring. destruct (consistent_New _ _); [exact Hw|apply Hw]. }
  intros r. eapply boots_bind; [by apply (boots_upd self flags m0 m0)|]. intros [].
  eapply boots_bind; [by apply (boots_upd self flags m0 NewKVStore)|]. intros [].
  eapply boots_bind; [apply boots_proc|]. intros p.
  eapply boots_bind; [intros w [Hw _]; by apply (boots_Open self flags _ _ _ _ _ _ Hsh)|].
  intros [err|]; [by intros w [Hw _]|].
  assert (Hnew : forall w, starting self w /\ (None = @None error -> order_inv w) -> order_inv w)
    by (intros w [_ Hw]; auto).
  eapply boots_bind; [by apply boots_spawn; [|exact Hnew]|intros []].
  do 3 (eapply boots_bind; [by apply boots_spawn|intros []]). by apply boots_spawn.
Qed.

(** ** Runs *)

(** A turn without snapshots, in which a process starts under the name of its shard. *)
Definition entry_turn (a : action (E := E)) : Prop :=
  match a with
  | ADeliver _ evs => Forall (entry_event always) evs
  | AStart self flags => f_shard flags = node_shard self
  | _ => True
  end.

Lemma order_turn a : entry_turn a -> turn_ok (E := E) (map_Forall in_order) always label a.
Proof.
  destruct a as [target r|i|self newCh key|self evs|e|self flags|self]; try done; simpl.
  - intros _. unfold request_ok. by destruct (written_key r).
  - apply order_deliver.
  - apply order_main_start.
Qed.

(** C12: a deployment stays in good order. From nothing on, through any sequence of requests,
    goroutines, rounds of redistributions, deliveries of entries, moves of the
    environment, starts, stops and crashes, as long as no snapshot is restored: every
    running process has a client for a shard only at an address of that shard and a
    client for a replica only at a pod of its own shard, its store is open, and its reads
    are served from the map that its FSM writes. *)
Theorem deployment_in_order fuel l e n p :
  Forall entry_turn l ->
  w_procs (run_actions fuel l (empty_world e)) !! n = Some p -> p_crashed p = false ->
  clients_ok n p /\ store_ok p.
Proof.
  intros Hl Hp Hc. assert (Hinv : order_inv (run_actions fuel l (empty_world e))).
  { apply (inv_run_actions fuel _ always label); [| |by split].
    - intros m newCh key. by apply (inv_relocate_free _ always label).
    - eapply Forall_impl; [exact Hl|apply order_turn]. }
  exact (proj1 Hinv n p Hp Hc).
Qed.

End order.

(** ** A run *)

#[export] Instance sim_no_snapshots : NoSnapshots SimEnv.
Proof. split. intros c e e' err evs [= _ _ <-]. constructor. Qed.

(** Both processes of the deployment are up and in order. *)
Lemma deployment_in_order_witness :
  clients_ok "n1" (ex_up_proc "one" "n1") /\ store_ok (ex_up_proc "one" "n1").
Proof.
  apply (deployment_in_order 2 ex_startup (sim_world_env "one")).
  - repeat constructor.
  - vm_compute. reflexivity.
  - vm_compute. reflexivity.
Defined.
