(* ===== verification/SystemKept.v ===== *)
(** * Entries that only redistribution touches

    Along a run of the deployment, an entry whose key no client writes stays stored at some
    process, with its value, however often it is moved. *)

From S2P Require Import Prelude Protos RaftCommon KVStore KVStoreSpec.
From S2P Require Import Shard ShardWorld Redistribution System SystemInv SystemStore.
From S2P Require Import Sim SimNet SystemProps SystemOrder.

Section kept.
Context `{!Proto, !ConsistentHash} {E : Type} `{!Raft E, !RaftSetup E, !Net E, !OS E}.
Context `{!Topology E, !ConfigLabels E, !ProtoLaws, !RaftSerial E}.
Context (k v : string).

(** Every process is in good order and has no other value for [k] than [v]; some
    process has it. *)
Definition agrees (s : KVSpec) : Prop := sp_map s !! k = None \/ sp_map s !! k = Some v.

Definition kept (m : gmap string Proc) : Prop :=
  (forall n p, m !! n = Some p -> clients_ok n p /\ store_ok p) /\
  (forall n p s, m !! n = Some p -> node_ok (p_mem p) s -> agrees s) /\
  exists n p s, m !! n = Some p /\ node_ok (p_mem p) s /\ sp_map s !! k = Some v.

Definition other (key : string) : Prop := key <> k.

(** A change of the variables of one process but its store. *)
Lemma kept_alter f n m :
  (forall p, m !! n = Some p -> clients_ok n p -> clients_ok n (f p)) ->
  (forall p, p_mem (f p) = p_mem p) -> kept m -> kept (alter f n m).
Proof.
  intros Hcl Hmem (Hok & Hag & (n0 & p0 & s0 & Hp0 & Hs0 & Hv)).
  assert (Hback : forall n' p', alter f n m !! n' = Some p' ->
    exists p, m !! n' = Some p /\ p_mem p' = p_mem p /\ (clients_ok n' p -> clients_ok n' p')).
  { intros n' p' Hp'. destruct (decide (n' = n)) as [->|Hne].
    - rewrite lookup_alter_eq in Hp'. destruct (m !! n) as [p|] eqn:Hp; [|done].
      injection Hp' as <-. exists p. split_and!; [done|apply Hmem|by apply Hcl].
    - rewrite lookup_alter_ne in Hp' by done. by exists p'. }
  split_and!.
  - intros n' p' Hp'. destruct (Hback n' p' Hp') as (p & Hp & Hm & Hc).
    destruct (Hok n' p Hp) as [? Hst]. split; [by apply Hc|]. unfold store_ok. by rewrite Hm.
  - intros n' p' s Hp' Hs. destruct (Hback n' p' Hp') as (p & Hp & Hm & Hc).
    rewrite Hm in Hs. by eapply Hag.
  - destruct (decide (n0 = n)) as [->|Hne].
    + exists n, (f p0), s0. rewrite lookup_alter_eq, Hp0. split; [done|]. by rewrite Hmem.
    + exists n0, p0, s0. by rewrite lookup_alter_ne.
Qed.

(** A change of the store of one process that keeps its value for [k]. *)
Lemma kept_store n p m mem' s s' :
  m !! n = Some p -> node_ok (p_mem p) s -> mem_ok mem' s' -> sp_map s' !! k = sp_map s !! k ->
  kept m -> kept (<[n := set_p_mem mem' p]> m).
Proof.
  intros Hp Hs [Hs' Hr'] Hk (Hok & Hag & (n0 & p0 & s0 & Hp0 & Hs0 & Hv)).
  split_and!.
  - intros n' p' [[<- <-]|[_ Hp']]%lookup_insert_Some; [|by apply Hok].
    destruct (Hok n p Hp) as [Hcl _]. split; [by eapply clients_ok_same|].
    split; [by exists s'|done].
  - intros n' p' s1 [[<- <-]|[_ Hp']]%lookup_insert_Some Hs1; [|by eapply Hag].
    simpl in Hs1. rewrite (node_ok_fun _ _ _ Hs1 Hs'). unfold agrees. rewrite Hk.
    by apply (Hag n p s).
  - destruct (decide (n0 = n)) as [->|Hne].
    + rewrite Hp in Hp0. injection Hp0 as <-. rewrite (node_ok_fun _ _ _ Hs0 Hs) in Hv.
      exists n, (set_p_mem mem' p), s'. rewrite lookup_insert_eq. split; [done|]. by rewrite Hk.
    + exists n0, p0, s0. by rewrite lookup_insert_ne.
Qed.

#[export] Instance kept_procs_inv : ProcsInv E kept other label.
Proof.
  split.
  - intros buf c s Ht Hy Hs. split; [by eapply config_labels|by eapply config_replica_labels].
  - intros m n. by apply kept_alter.
  - intros m n c. by apply kept_alter.
  - intros m n name port Hl. apply kept_alter; [|done]. intros. by apply clients_ok_shard.
  - intros m n p r port Hn Hl Hsh. apply kept_alter; [|done]. intros q Hq Hcl.
    rewrite Hn in Hq. injection Hq as <-. by apply clients_ok_replica.
  - intros m m' n p p' (Hm & _) (Hm' & _) Hp Hp' _ _.
    destruct (Hm n p Hp) as ((Hf & _) & _). destruct (Hm' n p' Hp') as ((Hf' & _) & _).
    by rewrite Hf, Hf'.
  - intros A op m n p e mem' e' o Hop Hm Hp Hc Hrun.
    destruct (proj1 Hm n p Hp) as [_ [[s Hs] Hr]].
    destruct (store_op_ok other A op (p_mem p) s e mem' e' o Hop) as (s' & Hs' & Hsame); [done..|].
    eapply kept_store; [exact Hp|exact Hs|exact Hs'| |exact Hm]. apply Hsame. by intros Hk.
Qed.

#[export] Instance kept_flag_free : FlagFree kept.
Proof. split. intros m n b. by apply kept_alter. Qed.

Abbreviation kept_inv := (sys_inv (E := E) kept label).

(** ** Moving the entry *)

Implicit Types (w : World E).

(** [kept] from one world to a later one, by the stores alone. *)
Lemma kept_evolves R w w' :
  evolves R w w' -> kept (w_procs w) ->
  (forall n s s', holds w n s -> R n s s' -> agrees s -> agrees s') ->
  (exists n, stored w' n k v) -> kept (w_procs w').
Proof.
  intros Hev (Hok & Hag & _) HR (n0 & s0 & (p0 & Hp0 & Hs0) & Hv).
  assert (Hinv : world_inv w) by exact Hok.
  split; [exact (evolves_inv R w w' Hinv Hev)|]. split; [|by exists n0, p0, s0].
  intros n p' s' Hp' Hs'.
  destruct (evolves_holds_inv R w w' n s' Hinv Hev) as (s & Hs & HRs); [by exists p'|].
  apply (HR n s s'); [done|done|]. destruct Hs as (p & Hp & Hs). by apply (Hag n p s).
Qed.

Lemma kept_somewhere m :
  kept m -> exists n p s, m !! n = Some p /\ node_ok (p_mem p) s /\ sp_map s !! k = Some v.
Proof. by intros (_ & _ & ?). Qed.

Lemma kept_unchanged w w' : evolves unchanged w w' -> kept (w_procs w) -> kept (w_procs w').
Proof.
  intros Hev Hk. eapply kept_evolves; [exact Hev|done| |].
  - by intros n s s' _ ->.
  - destruct (kept_somewhere _ Hk) as (n & p & s & Hp & Hs & Hv).
    destruct (evolves_holds unchanged w w' n s Hev) as (s' & Hs' & ->); [by exists p|].
    by exists n, s.
Qed.

Lemma kept_put S w w' : evolves (put_at k v S) w w' -> kept (w_procs w) -> kept (w_procs w').
Proof.
  intros Hev Hk. eapply kept_evolves; [exact Hev|done| |].
  - intros n s s' _ [->|[_ ->]] Ha; [done|]. right. simpl. by rewrite lookup_insert_eq.
  - destruct (kept_somewhere _ Hk) as (n & p & s & Hp & Hs & Hv).
    destruct (evolves_holds _ w w' n s Hev) as (s' & Hs' & HR); [by exists p|].
    exists n, s'. split; [done|]. destruct HR as [->|[_ ->]]; [done|]. simpl. by rewrite lookup_insert_eq.
Qed.

Lemma kept_delete self S w w' :
  evolves (deleted_at k self) w w' -> held_by k v S w -> node_shard self <> S ->
  kept (w_procs w) -> kept (w_procs w').
Proof.
  intros Hev (n & Hn & (s & Hs & Hv)) Hne Hk. eapply kept_evolves; [exact Hev|done| |].
  - intros n' s1 s1' _ [->|[_ ->]] Ha; [done|]. left. simpl. by rewrite lookup_delete_eq.
  - destruct (evolves_holds _ w w' n s Hev Hs) as (s' & Hs' & HR). exists n, s'. split; [done|].
    destruct HR as [->|[-> ->]]; [done|]. congruence.
Qed.

(** Sending the entry to another shard and deleting it then. *)
Lemma kept_send self S w p target w' o :
  kept (w_procs w) -> w_procs w !! self = Some p -> p_shardClients p !! S = Some target ->
  node_shard self <> S ->
  (r <- rpc target (fun node => shardRpcServer_Put node
          {| ip_Key := k; ip_Value := v; ip_IsRedistribution := true |}) ;;
   match r with
   | Err _ => ret tt
   | Ok _ => kv self (KVStore_Delete k) ;;; ret tt
   end) w = (w', o) -> kept (w_procs w').
Proof.
  intros Hk Hp Hc Hne Hrun. pose proof (proj1 Hk : world_inv w) as Hinv. unfold bind at 1 in Hrun.
  destruct (rpc target _ w) as [w1 o1] eqn:Hput.
  destruct (moves_remote_Put (fun _ => True) w self p S target k v true Hinv Hp Hc
    w w1 o1 Hinv I Hput) as [Hev Hheld].
  assert (Hk1 : kept (w_procs w1)) by (by eapply kept_put).
  destruct o1 as [[a|err]|why|]; try (by injection Hrun as <- <-).
  specialize (Hheld (Ok a) eq_refl a eq_refl). unfold bind in Hrun.
  destruct (kv self (KVStore_Delete k) w1) as [w2 o2] eqn:Hdel.
  assert (Hk2 : kept (w_procs w2)).
  { eapply kept_delete; [|exact Hheld|exact Hne|exact Hk1].
    exact (kv_Delete_run self k w1 w2 o2 (proj1 Hk1) Hdel). }
  by destruct o2; injection Hrun as <- <-.
Qed.

(** A round for the entry's own key: the stores. *)
Lemma kept_relocate_procs self newCh w w' o :
  kept (w_procs w) -> relocate_key self newCh k w = (w', o) -> kept (w_procs w').
Proof.
  intros Hk Hrun. pose proof (proj1 Hk : world_inv w) as Hinv.
  unfold relocate_key, bind at 1 in Hrun.
  destruct (proc self w) as [w0 o0] eqn:Hproc. apply proc_run in Hproc as [-> Hp].
  destruct o0 as [p|why|]; try (by injection Hrun as <- <-).
  destruct (Hp p eq_refl) as [Hself _]. clear Hp.
  destruct (Hinv _ _ Hself) as ((Hsh & _) & _). unfold locate in Hrun.
  destruct (LocateKey (p_ch p) k) as [old|]; [|by injection Hrun as <- <-].
  destruct (LocateKey newCh k) as [S|]; [|by injection Hrun as <- <-].
  unfold bind at 1, ret at 1, bind at 1, ret at 1 in Hrun.
  case_decide as Hne; [|by injection Hrun as <- <-].
  case_decide as Heq; [|by injection Hrun as <- <-].
  unfold bind at 1 in Hrun. destruct (kv self (KVStore_Get k) w) as [w1 o1] eqn:Hget.
  destruct (kv_Get_run _ _ _ _ _ Hinv Hget) as [Hev1 Hval].
  assert (Hk1 : kept (w_procs w1)) by (by eapply kept_unchanged).
  destruct o1 as [[value|err]|why|]; try (by injection Hrun as <- <-).
  assert (value = v) as ->.
  { destruct (Hval _ eq_refl) as (s & (q & Hq & Hs) & Hvs). unfold spec_get in Hvs.
    destruct (proj1 (proj2 Hk) self q s Hq Hs) as [Hn|Hv]; [by rewrite Hn in Hvs|].
    rewrite Hv in Hvs. by injection Hvs. }
  unfold bind at 1 in Hrun. destruct (proc self w1) as [w2 o2] eqn:Hproc.
  apply proc_run in Hproc as [-> Hp]. destruct o2 as [p1|why|]; try (by injection Hrun as <- <-).
  destruct (Hp p1 eq_refl) as [Hself1 _]. unfold with_client in Hrun.
  destruct (p_shardClients p1 !! S) as [target|] eqn:Hc; [|by injection Hrun as <- <-].
  eapply kept_send; [exact Hk1|exact Hself1|exact Hc| |exact Hrun]. congruence.
Qed.

Lemma kept_relocate self newCh key : preserves kept_inv (relocate_key (E := E) self newCh key).
Proof.
  destruct (decide (key = k)) as [->|Hne]; [|by apply (inv_relocate_free kept other label)].
  intros w [Hk Hg]. destruct (relocate_key self newCh k w) as [w' o] eqn:Hrun.
  assert (Hw' : kept_inv w').
  { split; [by eapply kept_relocate_procs|].
    assert (Hq : sys_inv (E := E) (map_Forall in_order) label w).
    { split; [|done]. intros n p Hp _. by apply (proj1 Hk). }
    pose proof (inv_relocate_free (map_Forall in_order) always label self newCh k I w Hq) as Hpre.
    rewrite Hrun in Hpre. by destruct o as [a|why|]; apply Hpre. }
  by destruct o.
Qed.

(** ** Starting a process *)

(** What [main_start] does to the processes: [self] runs, and the others are those of [m]. *)
Definition only_self (self : string) (m : gmap string Proc) w : Prop :=
  (forall n, n <> self -> w_procs w !! n = m !! n) /\
  exists p, w_procs w !! self = Some p /\ p_crashed p = false.

Lemma only_self_set self m w p' e g :
  p_crashed p' = false -> only_self self m w ->
  only_self self m {| w_procs := <[self := p']> (w_procs w); w_env := e; w_go := g |}.
Proof.
  intros Hc [Ho _]. split; simpl.
  - intros n Hn. rewrite lookup_insert_ne by done. by apply Ho.
  - exists p'. by rewrite lookup_insert_eq.
Qed.

Lemma only_self_upd self m f :
  (forall p, p_crashed (f p) = p_crashed p) -> preserves (only_self self m) (upd_proc self f).
Proof.
  intros Hf. apply preserves_modify. intros w [Ho (p & Hp & Hc)]. split; simpl.
  - intros n Hn. rewrite lookup_alter_ne by done. by apply Ho.
  - exists (f p). rewrite lookup_alter_eq, Hp. by rewrite Hf.
Qed.

Lemma only_self_proc self m : preserves (only_self self m) (proc self).
Proof.
  intros w Hw. unfold proc. destruct (w_procs w !! self) as [p|]; [|done].
  by destruct (p_crashed p).
Qed.

Lemma only_self_envc {A} self m (f : E -> E * A) : preserves (only_self self m) (envc f).
Proof. intros w Hw. unfold envc. by destruct (f (w_env w)). Qed.

Lemma only_self_kv {A} self m (op : M (Mem * E) A) : preserves (only_self self m) (kv self op).
Proof.
  intros w Hw. unfold kv, bind, proc.
  destruct (w_procs w !! self) as [p|]; [|done]. destruct (p_crashed p) eqn:Hc; [done|].
  destruct (op (p_mem p, w_env w)) as [[mem' e'] o].
  pose proof (only_self_set self m w (set_p_mem mem' p) e' (w_go w) Hc Hw) as Hw'. by destruct o.
Qed.

#[local] Hint Resolve only_self_upd only_self_proc only_self_envc only_self_kv : go.

Lemma main_start_only self flags w w' :
  main_start self flags w = (w', Ret tt) -> only_self self (w_procs w) w'.
Proof.
  unfold main_start, bind at 1, modify. set (w0 := {| w_procs := _; w_env := _; w_go := _ |}).
  intros Hrun. eapply (preserves_run (only_self self (w_procs w))); [| |exact Hrun].
  - unfold ReadConfig, new_ring, spawn. go_preserves; by apply preserves_modify.
  - split; simpl.
    + intros n Hn. by rewrite lookup_insert_ne.
    + exists (initial_proc flags). by rewrite lookup_insert_eq.
Qed.

(** A process comes up under the name of its shard, and finds no other value for [k] in
    its log than [v]; another process stores [v]. *)
Definition starts_well (self : string) (flags : Flags) w : Prop :=
  f_shard flags = node_shard self /\ (main_start self flags w).2 = Ret tt /\
  (exists n, n <> self /\ stored w n k v) /\
  forall v', stored (main_start self flags w).1 self k v' -> v' = v.

Lemma kept_start `{!NoSnapshots E} self flags w :
  starts_well self flags w -> kept_inv w -> kept_inv (main_start self flags w).1.
Proof.
  intros (Hsh & Hret & (n & Hn & (s & (p & Hp & Hs) & Hv)) & Hself) [(Hok & Hag & _) Hg].
  destruct (main_start self flags w) as [w' o] eqn:Hrun. simpl in *. subst o.
  assert (Hord : sys_inv (E := E) (map_Forall in_order) label w).
  { split; [|done]. intros n' p' Hp' _. by apply Hok. }
  pose proof (order_main_start self flags Hsh w Hord) as Hord'.
  unfold at_process in Hord'. rewrite Hrun in Hord'. destruct Hord' as [Hin Hg'].
  destruct (main_start_only self flags w w' Hrun) as [Hother (q & Hq & Hc)].
  split; [|done]. split_and!.
  - intros n' p' Hp'. destruct (decide (n' = self)) as [->|Hne].
    + assert (p' = q) as -> by congruence. by apply Hin.
    + rewrite (Hother n' Hne) in Hp'. by apply Hok.
  - intros n' p' s' Hp' Hs'. destruct (decide (n' = self)) as [->|Hne].
    + unfold agrees. destruct (sp_map s' !! k) as [v'|] eqn:Hv'; [right|by left].
      f_equal. apply Hself. exists s'. split; [by exists p'|done].
    + rewrite (Hother n' Hne) in Hp'. by eapply Hag.
  - exists n, p, s. by rewrite (Hother n Hn).
Qed.

(** ** Runs *)

(** A turn that does not write the key: requests write other keys, and Raft delivers
    entries for other keys. *)
Definition untouched (a : action (E := E)) : Prop :=
  match a with
  | ARequest _ r => written_key r <> Some k
  | ADeliver _ evs => Forall (entry_event other) evs
  | AStart _ _ => False
  | _ => True
  end.

(** Such a turn at [w], or the start of a process. *)
Definition safe_turn (a : action (E := E)) w : Prop :=
  match a with AStart self flags => starts_well self flags w | _ => untouched a end.

Lemma kept_turn a : untouched a -> turn_ok (E := E) kept other label a.
Proof.
  destruct a as [target r|i|self newCh key|self evs|e|self flags|self]; try done; simpl.
  - intros Hr. unfold request_ok. destruct (written_key r) as [key|]; [|done]. unfold other. congruence.
  - intros Hevs w [Hm Hg]. unfold kv, bind, proc.
    destruct (w_procs w !! self) as [p|] eqn:Hp; [|done]. destruct (p_crashed p); [done|].
    destruct (proj1 Hm self p Hp) as [_ [[s Hs] Hr]]. unfold on_mem. simpl.
    destruct (deliver_ok other evs (p_mem p) s Hevs Hs) as (m' & s' & -> & Hs' & Hkv & Hsame).
    split; [|done]. eapply kept_store; [exact Hp|exact Hs| |by apply Hsame; intros Hk|done].
    split; [done|]. by rewrite Hkv.
Qed.

Lemma kept_act `{!NoSnapshots E} fuel a w :
  safe_turn a w -> kept_inv w -> kept_inv (act fuel a w).1.
Proof.
  intros Ha Hw.
  assert (Hrun : untouched a -> kept_inv (act fuel a w).1).
  { intros Hu. pose proof (inv_act fuel kept other label kept_relocate a (kept_turn a Hu) w Hw) as Hpre.
    by destruct (act fuel a w) as [w' []]. }
  destruct a as [| | | | |self flags|]; try (by apply Hrun). clear Hrun.
  pose proof (kept_start self flags w Ha Hw) as Hk. destruct Ha as (_ & Hret & _).
  cbn [act]. unfold at_process.
  destruct (main_start self flags w) as [w' o]. simpl in Hret. by subst o.
Qed.

(** A world in good order in which [v] is the only value of [k]. *)
Lemma kept_intro w :
  world_inv w -> Forall (task_ok label) (w_go w) ->
  (forall n v', stored w n k v' -> v' = v) -> (exists n, stored w n k v) -> kept_inv w.
Proof.
  intros Hinv Hg Hag (n0 & s0 & (p0 & Hp0 & Hs0) & Hv0).
  split; [|done]. split; [exact Hinv|]. split; [|by exists n0, p0, s0].
  intros n p s Hp Hs. unfold agrees. destruct (sp_map s !! k) as [v'|] eqn:Hv'; [|by left].
  right. f_equal. apply (Hag n). exists s. split; [by exists p|done].
Qed.

Lemma kept_elim w :
  kept_inv w -> (exists n, stored w n k v) /\ (forall n v', stored w n k v' -> v' = v).
Proof.
  intros [(_ & Hag' & (n & p & s & Hp & Hs & Hv)) _]. split.
  - exists n, s. split; [by exists p|done].
  - intros n' v' (s' & (p' & Hp' & Hs') & Hv'). destruct (Hag' n' p' s' Hp' Hs'); congruence.
Qed.

(** No entry is lost by a deployment. Take a deployment in good order in which some
    process stores [v] under [k] and no process stores anything else under it. However
    many redistributions run, at whichever processes, with whichever rings, cut into
    their rounds and mixed with requests for other keys, reloads of the
    configuration, pauses, failures of the network and crashes: as long as no request
    and no delivered entry writes [k], some process stores [v] under [k], and none
    stores anything else. *)
Theorem deployment_keeps_entry fuel l w :
  world_inv w -> Forall (task_ok label) (w_go w) ->
  (forall n v', stored w n k v' -> v' = v) -> (exists n, stored w n k v) ->
  Forall untouched l ->
  (exists n, stored (run_actions fuel l w) n k v) /\
  (forall n v', stored (run_actions fuel l w) n k v' -> v' = v).
Proof.
  intros Hinv Hg Hag Hst Hl. apply kept_elim.
  apply (inv_run_actions fuel kept other label); [apply kept_relocate| |by apply kept_intro].
  eapply Forall_impl; [exact Hl|apply kept_turn].
Qed.

End kept.

(** ** A run *)

(** From one shard to two: the redistribution moves the entry to the second shard, clients
    write other keys meanwhile, a further round moves one of these, and both processes
    adopt the new ring. *)
Definition ex_scaling : list (action (E := SimEnv)) :=
  [ARequest "kvs-shard-0:8081" ShardRedistributeKeys;
   ATask 0;
   ARequest "kvs-shard-0:8080" (KvPut {| put_Key := "bb"; put_Value := "2" |});
   ARequest "kvs-shard-1:8080" (KvPut {| put_Key := "c"; put_Value := "3" |});
   ARound "n0" ["kvs-shard-0"; "kvs-shard-1"] "c";
   AEnv (sim_world_env "two");
   ARequest "kvs-shard-0:8083" ReplicaReloadConfig;
   ARequest "kvs-shard-1:8083" ReplicaReloadConfig].

Definition ex_stored : World SimEnv := sim_world "scaling" {[ "a" := "1" ]}.

Lemma deployment_keeps_entry_witness :
  exists n, stored (run_actions 1 ex_scaling ex_stored) n "a" "1".
Proof.
  apply (deployment_keeps_entry "a" "1" 1 ex_scaling ex_stored).
  - apply sim_world_inv.
  - constructor.
  - intros n v' (s & (p & Hp & Hs) & Hv). simpl in Hp.
    rewrite lookup_insert in Hp. case_decide; [injection Hp as <-|].
    + rewrite (node_ok_fun _ _ _ Hs (sim_mem_ok _ _)) in Hv. simpl in Hv.
      by apply lookup_singleton_Some in Hv as [_ <-].
    + apply lookup_singleton_Some in Hp as [_ <-].
      rewrite (node_ok_fun _ _ _ Hs (sim_mem_ok _ _)) in Hv. simpl in Hv. by rewrite lookup_empty in Hv.
  - exists "n0", {| sp_map := {[ "a" := "1" ]}; sp_writes := true |}. split; [|done].
    exists (sim_proc "0" ["kvs-shard-0"] {[ "a" := "1" ]}). split; [done|]. apply sim_mem_ok.
  - repeat constructor; discriminate.
Defined.

(** The entry is at the second shard now, and nowhere else. *)
Example ex_moved :
  let w := run_actions 1 ex_scaling ex_stored in
  (fun p => map_entries (m_heap (p_mem p)) (k_store (m_kv (p_mem p)))) <$> w_procs w =
  {[ "n0" := {[ "bb" := "2" ]}; "n1" := {[ "a" := "1"; "c" := "3" ]} ]}.
Proof. vm_compute. reflexivity. Qed.
