(* ===== verification/Kube.v ===== *)
(** * Kubernetes objects and the API of the cluster

    The custom resource of src/kvctl/api/v1/kvstore_types.go, the objects that the
    controller builds, and the API server with the libraries around it as a class
    [Kube] over a type [K] of clusters: every call may move the cluster on. *)

From S2P Require Import Prelude Protos Shard.

(** ** kvstore_types.go *)

(** A pod specification is handed on unread. *)
Class KubeTypes := { PodSpec : Type }.

Abbreviation RedistributionPhase := string (only parsing).

Definition PhaseNormal : RedistributionPhase := "".
Definition PhasePreparingScale : RedistributionPhase := "PreparingScale".
Definition PhaseStoppingWrites : RedistributionPhase := "StoppingWrites".
Definition PhaseRedistributingKeys : RedistributionPhase := "RedistributingKeys".
Definition PhaseResumingWrites : RedistributionPhase := "ResumingWrites".
Definition PhaseFinalizingScale : RedistributionPhase := "FinalizingScale".
Definition PhaseScaleComplete : RedistributionPhase := "ScaleComplete".

(** The fields of [metav1.ObjectMeta] that the code uses; the owner is the
    controller reference: API version, kind and name. *)
Record OwnerRef := { or_APIVersion : string; or_Kind : string; or_Name : string }.

Record ObjectMeta := {
  om_Name : string;
  om_Namespace : string;
  om_Labels : gmap string string;
  om_Annotations : gmap string string;
  om_Controller : option OwnerRef;
  om_ResourceVersion : string
}.

Section types.
Context `{!KubeTypes}.

Record KVStoreSpec := {
  spec_Shards : Z;
  spec_Replicas : Z;
  spec_IngressDomain : string;
  spec_PodSpec : PodSpec
}.

Record KVStoreStatus := {
  st_Phase : RedistributionPhase;
  st_CurrentShards : Z;
  st_TargetShards : Z;
  st_Message : string;
  st_LastTransition : Z
}.

Record KVStore := {
  ks_meta : ObjectMeta;
  ks_Spec : KVStoreSpec;
  ks_Status : KVStoreStatus
}.

(** ** The objects that a shard consists of *)

(** [sts_Replicas] is a pointer; [sts_TemplateAnnotations] may be a [nil] map. *)
Record StatefulSet := {
  sts_meta : ObjectMeta;
  sts_Replicas : option Z;
  sts_ServiceName : string;
  sts_MatchLabels : gmap string string;
  sts_MinReadySeconds : Z;
  sts_TemplateLabels : gmap string string;
  sts_TemplateAnnotations : option (gmap string string);
  sts_TemplateSpec : PodSpec;
  sts_VolumeClaims : list (string * string * string);
  sts_RetentionPolicy : string * string;
  sts_ReadyReplicas : Z
}.

Record IngressPath := {
  ip_Path : string; ip_PathType : string; ip_Service : string; ip_Port : Z
}.

Record Ingress := {
  ing_meta : ObjectMeta;
  ing_ClassName : string;
  ing_Rules : list (string * list IngressPath)
}.

Record ServicePort := {
  sp_Name : string; sp_Protocol : string; sp_Port : Z; sp_TargetPort : Z
}.

Record Service := {
  svc_meta : ObjectMeta;
  svc_Selector : gmap string string;
  svc_ClusterIP : string;
  svc_PublishNotReadyAddresses : bool;
  svc_Ports : list ServicePort
}.

Record ConfigMap := {
  cm_meta : ObjectMeta;
  cm_Data : gmap string string
}.

(** ** The cluster *)

(** A successful status update yields the object as the server has it then. *)
Class Kube (K : Type) := {
  get_KVStore : string -> string -> K -> K * res KVStore;
  update_Status : KVStore -> K -> K * res KVStore;
  list_StatefulSets : string -> string -> K -> K * res (list StatefulSet);
  list_Services : string -> string -> K -> K * res (list Service);
  list_Ingresses : string -> string -> K -> K * res (list Ingress);
  get_ConfigMap : string -> string -> K -> K * res ConfigMap;
  create_ConfigMap : ConfigMap -> K -> K * gerror;
  update_ConfigMap : ConfigMap -> K -> K * gerror;
  create_StatefulSet : StatefulSet -> K -> K * gerror;
  update_StatefulSet : StatefulSet -> K -> K * gerror;
  delete_StatefulSet : StatefulSet -> K -> K * gerror;
  create_Ingress : Ingress -> K -> K * gerror;
  delete_Ingress : Ingress -> K -> K * gerror;
  create_Service : Service -> K -> K * gerror;
  delete_Service : Service -> K -> K * gerror;
  (** [ctrl.SetControllerReference] on the metadata of an object. *)
  SetControllerReference : KVStore -> ObjectMeta -> res ObjectMeta;
  metav1_Now : K -> K * Z;
  yaml_Marshal : KVStoreConfig -> res string;
  (** gRPC to the shards; a client is the address it was dialled with. *)
  kube_Dial : string -> K -> K * gerror;
  kube_Sleep : Z -> K -> K * unit;
  rpc_PauseWrites : string -> PauseWritesRequest -> K -> K * res PauseWritesResponse;
  rpc_RedistributeKeys :
    string -> RedistributeKeysRequest -> K -> K * res RedistributeKeysResponse;
  rpc_ResumeWrites : string -> ResumeWritesRequest -> K -> K * res ResumeWritesResponse;
  (** The manager: an index of a kind by the values of a function, and a controller
      by its name, the kind it is for and the kinds it owns. *)
  IndexField : string -> string -> (ObjectMeta -> list string) -> K -> K * gerror;
  builder_Complete : string -> string -> list string -> K -> K * gerror
}.

(** What the documentation of the client says: a status update succeeds only if the
    object has not been changed since it was read, so that the object which comes
    back has the identity and the specification that were read, and the status
    that was sent. A reference to
    a controller changes nothing else in the metadata. *)
Class KubeLaws (K : Type) `{!Kube K} : Prop := {
  update_Status_same : forall kv k k' kv', update_Status kv k = (k', Ok kv') ->
    ks_Status kv' = ks_Status kv /\ ks_Spec kv' = ks_Spec kv /\ om_Name (ks_meta kv') = om_Name (ks_meta kv) /\
    om_Namespace (ks_meta kv') = om_Namespace (ks_meta kv);
  SetControllerReference_same : forall kv m m', SetControllerReference kv m = Ok m' ->
    om_Name m' = om_Name m /\ om_Namespace m' = om_Namespace m /\ om_Labels m' = om_Labels m
}.

(** [errors.IsNotFound] and [client.IgnoreNotFound] *)
Definition IsNotFound (e : error) : bool :=
  match e with NotFoundErr _ => true | _ => false end.
Definition IgnoreNotFound (e : error) : gerror :=
  if IsNotFound e then None else Some e.

(** ** Setting fields *)

Definition set_status (s : KVStoreStatus) (kv : KVStore) : KVStore :=
  {| ks_meta := ks_meta kv; ks_Spec := ks_Spec kv; ks_Status := s |}.
Definition set_Message (msg : string) (s : KVStoreStatus) : KVStoreStatus :=
  {| st_Phase := st_Phase s; st_CurrentShards := st_CurrentShards s;
     st_TargetShards := st_TargetShards s; st_Message := msg;
     st_LastTransition := st_LastTransition s |}.
Definition set_Phase (ph : RedistributionPhase) (msg : string) (s : KVStoreStatus)
    : KVStoreStatus :=
  {| st_Phase := ph; st_CurrentShards := st_CurrentShards s;
     st_TargetShards := st_TargetShards s; st_Message := msg;
     st_LastTransition := st_LastTransition s |}.
Definition set_Shards (current target : Z) (s : KVStoreStatus) : KVStoreStatus :=
  {| st_Phase := st_Phase s; st_CurrentShards := current; st_TargetShards := target;
     st_Message := st_Message s; st_LastTransition := st_LastTransition s |}.
Definition set_LastTransition (t : Z) (s : KVStoreStatus) : KVStoreStatus :=
  {| st_Phase := st_Phase s; st_CurrentShards := st_CurrentShards s;
     st_TargetShards := st_TargetShards s; st_Message := st_Message s;
     st_LastTransition := t |}.

Definition set_sts_meta (m : ObjectMeta) (s : StatefulSet) : StatefulSet :=
  {| sts_meta := m; sts_Replicas := sts_Replicas s; sts_ServiceName := sts_ServiceName s;
     sts_MatchLabels := sts_MatchLabels s; sts_MinReadySeconds := sts_MinReadySeconds s;
     sts_TemplateLabels := sts_TemplateLabels s;
     sts_TemplateAnnotations := sts_TemplateAnnotations s;
     sts_TemplateSpec := sts_TemplateSpec s; sts_VolumeClaims := sts_VolumeClaims s;
     sts_RetentionPolicy := sts_RetentionPolicy s; sts_ReadyReplicas := sts_ReadyReplicas s |}.
Definition set_sts_replicas (n : Z) (a : gmap string string) (s : StatefulSet) : StatefulSet :=
  {| sts_meta := sts_meta s; sts_Replicas := Some n; sts_ServiceName := sts_ServiceName s;
     sts_MatchLabels := sts_MatchLabels s; sts_MinReadySeconds := sts_MinReadySeconds s;
     sts_TemplateLabels := sts_TemplateLabels s; sts_TemplateAnnotations := Some a;
     sts_TemplateSpec := sts_TemplateSpec s; sts_VolumeClaims := sts_VolumeClaims s;
     sts_RetentionPolicy := sts_RetentionPolicy s; sts_ReadyReplicas := sts_ReadyReplicas s |}.

End types.
