(* ===== verification/Controller.v ===== *)
(** * The controller: src/kvctl/internal/controller/kvstore_controller.go

    The state is the cluster together with the list of calls that changed it, that
    listed the shards or that asked a shard for something, in order ([event]). A [KVStore] is passed
    by value, as the methods of the reconciler do. *)

From S2P Require Import Prelude Protos KVStore Shard Kube.

(** ** Calls *)

Section controller.
Context `{!KubeTypes} {K : Type} `{!Kube K}.

Inductive event :=
| ListShards (r : res (list StatefulSet))
| CreateStatefulSet (s : StatefulSet) (err : gerror)
| UpdateStatefulSet (s : StatefulSet) (err : gerror)
| DeleteStatefulSet (s : StatefulSet) (err : gerror)
| CreateIngress (i : Ingress) (err : gerror)
| DeleteIngress (i : Ingress) (err : gerror)
| CreateService (s : Service) (err : gerror)
| DeleteService (s : Service) (err : gerror)
| CreateConfigMap (c : ConfigMap) (err : gerror)
| WriteConfigMap (c : ConfigMap) (err : gerror)
| UpdateStatus (kv : KVStore) (r : res KVStore)
| CallPauseWrites (target : string) (r : res PauseWritesResponse)
| CallRedistributeKeys (target : string) (r : res RedistributeKeysResponse)
| CallResumeWrites (target : string) (r : res ResumeWritesResponse).

Record Ctl := { c_env : K; c_log : list event }.

(** A call that only reads, and one that is recorded. *)
Definition query {A} (f : K -> K * A) : M Ctl A := fun c =>
  let (k', a) := f (c_env c) in ({| c_env := k'; c_log := c_log c |}, Ret a).
Definition call {A} (ev : A -> event) (f : K -> K * A) : M Ctl A := fun c =>
  let (k', a) := f (c_env c) in ({| c_env := k'; c_log := c_log c ++ [ev a] |}, Ret a).

(** [r.Status().Update(ctx, &kvStore)]: the variable is overwritten with the
    answer of the server, if there is one. *)
Definition status_update (kv : KVStore) : M Ctl (KVStore * gerror) :=
  r <- call (UpdateStatus kv) (update_Status kv) ;;
  match r with
  | Ok kv' => ret (kv', None)
  | Err e => ret (kv, Some e)
  end.

(** [return r.Status().Update(ctx, &kvStore)] *)
Definition return_status (kv : KVStore) : M Ctl gerror :=
  r <- status_update kv ;; ret r.2.

(** ** Names *)

Definition ks_name (kv : KVStore) : string := om_Name (ks_meta kv).
Definition ks_namespace (kv : KVStore) : string := om_Namespace (ks_meta kv).

(** [fmt.Sprintf("%s-shard-%d", name, i)] *)
Definition shard_name (name : string) (i : Z) : string := name +:+ "-shard-" +:+ itoa i.
Definition replica_name (shard : string) (r : Z) : string := shard +:+ "-replica-" +:+ itoa r.

(** The label that ties the objects of a shard together. *)
Definition group_of (m : ObjectMeta) : string := default "" (om_Labels m !! "group").

(** ** Listing; an error is logged and the list taken to be empty *)

Definition GetShards (kv : KVStore) : M Ctl (list StatefulSet) :=
  r <- call ListShards (list_StatefulSets (ks_namespace kv) (ks_name kv)) ;;
  match r with Err _ => ret [] | Ok l => ret l end.

Definition GetServices (kv : KVStore) : M Ctl (list Service) :=
  r <- query (list_Services (ks_namespace kv) (ks_name kv)) ;;
  match r with Err _ => ret [] | Ok l => ret l end.

Definition GetIngresses (kv : KVStore) : M Ctl (list Ingress) :=
  r <- query (list_Ingresses (ks_namespace kv) (ks_name kv)) ;;
  match r with Err _ => ret [] | Ok l => ret l end.

(** ** The configuration of the shards *)

(** The body of the two loops over shards in [UpdateConfigMap]. *)
Definition shard_config (name : string) (replicas s : Z) : KVStoreShard :=
  {| ks_Name := shard_name name s;
     ks_Replicas := map (replica_name (shard_name name s)) (zrange 0 replicas) |}.

Definition config_shards (kv : KVStore) (n : Z) : list KVStoreShard :=
  map (shard_config (ks_name kv) (spec_Replicas (ks_Spec kv))) (zrange 0 n).

(** [kvConfig] when it is marshalled. *)
Definition build_config (kv : KVStore) : KVStoreConfig :=
  let current := st_CurrentShards (ks_Status kv) in
  let target := st_TargetShards (ks_Status kv) in
  let shards := config_shards kv current in
  if decide (current <> target \/ current = 0%Z) then
    if decide (current = 0%Z) then
      {| kc_Shards := shards ++ config_shards kv target; kc_NewShards := [] |}
    else {| kc_Shards := shards; kc_NewShards := config_shards kv target |}
  else {| kc_Shards := shards; kc_NewShards := [] |}.

Definition config_map_meta (kv : KVStore) : ObjectMeta :=
  {| om_Name := ks_name kv +:+ "-config"; om_Namespace := ks_namespace kv;
     om_Labels := {[ "app" := ks_name kv ]}; om_Annotations := ∅;
     om_Controller := None; om_ResourceVersion := "" |}.

Definition UpdateConfigMap (kv : KVStore) : M Ctl gerror :=
  match yaml_Marshal (build_config kv) with
  | Err err => ret (Some err)
  | Ok configYaml =>
      r <- query (get_ConfigMap (ks_namespace kv) (ks_name kv +:+ "-config")) ;;
      match r with
      | Err err =>
          if IsNotFound err then
            match SetControllerReference kv (config_map_meta kv) with
            | Err err => ret (Some err)
            | Ok m =>
                let configMap :=
                  {| cm_meta := m; cm_Data := {[ "config.yaml" := configYaml ]} |} in
                call (CreateConfigMap configMap) (create_ConfigMap configMap)
            end
          else ret (Some err)
      | Ok existingConfigMap =>
          let updatedConfigMap :=
            {| cm_meta := cm_meta existingConfigMap;
               cm_Data := {[ "config.yaml" := configYaml ]} |} in
          call (WriteConfigMap updatedConfigMap) (update_ConfigMap updatedConfigMap)
      end
  end.

(** ** Creating the objects of new shards *)

Definition shard_labels (kv : KVStore) (i : Z) : gmap string string :=
  {[ "app" := ks_name kv; "group" := shard_name (ks_name kv) i ]}.

(** [maps.Copy(labels, kvStore.Labels)]: the labels of the resource win. *)
Definition copied_labels (kv : KVStore) (l : gmap string string) : gmap string string :=
  om_Labels (ks_meta kv) ∪ l.

Definition build_shard (kv : KVStore) (i : Z) : StatefulSet :=
  {| sts_meta :=
       {| om_Name := shard_name (ks_name kv) i +:+ "-replica";
          om_Namespace := ks_namespace kv;
          om_Labels := copied_labels kv (shard_labels kv i);
          om_Annotations := ∅; om_Controller := None; om_ResourceVersion := "" |};
     sts_Replicas := Some (spec_Replicas (ks_Spec kv));
     sts_ServiceName := shard_name (ks_name kv) i;
     sts_MatchLabels := shard_labels kv i;
     sts_MinReadySeconds := 10;
     sts_TemplateLabels := shard_labels kv i;
     sts_TemplateAnnotations := Some {[ "replicas" := itoa (spec_Replicas (ks_Spec kv)) ]};
     sts_TemplateSpec := spec_PodSpec (ks_Spec kv);
     sts_VolumeClaims := [("data-shard", "ReadWriteOnce", "10Mi")];
     sts_RetentionPolicy := ("Delete", "Delete");
     sts_ReadyReplicas := 0 |}.

Definition build_ingress (kv : KVStore) (i : Z) : Ingress :=
  {| ing_meta :=
       {| om_Name := shard_name (ks_name kv) i +:+ "-ingress";
          om_Namespace := ks_namespace kv;
          om_Labels := copied_labels kv (shard_labels kv i);
          om_Annotations :=
            {[ "nginx.ingress.kubernetes.io/ssl-redirect" := "false";
               "nginx.ingress.kubernetes.io/backend-protocol" := "GRPC";
               "nginx.ingress.kubernetes.io/upstream-vhost" := shard_name (ks_name kv) i ]};
          om_Controller := None; om_ResourceVersion := "" |};
     ing_ClassName := "nginx";
     ing_Rules :=
       [(shard_name (ks_name kv) i +:+ "." +:+ spec_IngressDomain (ks_Spec kv),
         [{| ip_Path := "/"; ip_PathType := "Prefix";
             ip_Service := shard_name (ks_name kv) i; ip_Port := 8080 |}])] |}.

Definition tcp_port (name : string) (port : Z) : ServicePort :=
  {| sp_Name := name; sp_Protocol := "TCP"; sp_Port := port; sp_TargetPort := port |}.

Definition build_service (kv : KVStore) (i : Z) : Service :=
  {| svc_meta :=
       {| om_Name := shard_name (ks_name kv) i;
          om_Namespace := ks_namespace kv;
          om_Labels := copied_labels kv (shard_labels kv i);
          om_Annotations := ∅; om_Controller := None; om_ResourceVersion := "" |};
     svc_Selector := shard_labels kv i;
     svc_ClusterIP := "None";
     svc_PublishNotReadyAddresses := true;
     svc_Ports := [tcp_port "kvrpc" 8080; tcp_port "shardrpc" 8081;
                   tcp_port "raftrpc" 8082; tcp_port "leaderrpc" 8083] |}.

(** [for i := CurrentShards; i < TargetShards; i++] with the first error returned *)
Definition spin_up (kv : KVStore) (create : Z -> M Ctl gerror) : M Ctl gerror :=
  for_return (zrange (st_CurrentShards (ks_Status kv)) (st_TargetShards (ks_Status kv)))
    create.

Definition SpinUpShards (kv : KVStore) : M Ctl gerror :=
  spin_up kv (fun i =>
    match SetControllerReference kv (sts_meta (build_shard kv i)) with
    | Err err => ret (Some err)
    | Ok m =>
        let shard := set_sts_meta m (build_shard kv i) in
        call (CreateStatefulSet shard) (create_StatefulSet shard)
    end).

Definition SpinUpShardIngresses (kv : KVStore) : M Ctl gerror :=
  spin_up kv (fun i =>
    match SetControllerReference kv (ing_meta (build_ingress kv i)) with
    | Err err => ret (Some err)
    | Ok m =>
        let ingress := {| ing_meta := m; ing_ClassName := ing_ClassName (build_ingress kv i);
                          ing_Rules := ing_Rules (build_ingress kv i) |} in
        call (CreateIngress ingress) (create_Ingress ingress)
    end).

Definition SpinUpShardServices (kv : KVStore) : M Ctl gerror :=
  spin_up kv (fun i =>
    match SetControllerReference kv (svc_meta (build_service kv i)) with
    | Err err => ret (Some err)
    | Ok m =>
        let b := build_service kv i in
        let service := {| svc_meta := m; svc_Selector := svc_Selector b;
                          svc_ClusterIP := svc_ClusterIP b;
                          svc_PublishNotReadyAddresses := svc_PublishNotReadyAddresses b;
                          svc_Ports := svc_Ports b |} in
        call (CreateService service) (create_Service service)
    end).

(** ** Handlers of the phases *)

(** Reading [*shard.Spec.Replicas]; a [nil] pointer panics. *)
Definition deref_replicas (s : StatefulSet) : M Ctl Z :=
  match sts_Replicas s with
  | Some n => ret n
  | None => crash "invalid memory address or nil pointer dereference"
  end.

(** Entering a phase with a message and the time of the transition. *)
Definition enter_phase (ph : RedistributionPhase) (msg : string) (kv : KVStore)
    : M Ctl KVStore :=
  t <- query metav1_Now ;;
  ret (set_status (set_LastTransition t (set_Phase ph msg (ks_Status kv))) kv).

Definition with_message (msg : string) (kv : KVStore) : KVStore :=
  set_status (set_Message msg (ks_Status kv)) kv.

Definition with_shards (current target : Z) (kv : KVStore) : KVStore :=
  set_status (set_Shards current target (ks_Status kv)) kv.

Definition PrepareScale (kv : KVStore) : M Ctl gerror :=
  shards <- GetShards kv ;;
  early <- for_return shards (fun shard =>
    replicas <- deref_replicas shard ;;
    if decide (sts_ReadyReplicas shard <> replicas) then
      e <- return_status (with_message "Waiting for shards to be ready" kv) ;; ret (Some e)
    else ret None) ;;
  match early with
  | Some result => ret result
  | None =>
      if decide (st_CurrentShards (ks_Status kv) = 0%Z) then
        kv' <- enter_phase PhaseNormal "Ready"
          (with_shards (st_TargetShards (ks_Status kv)) (st_TargetShards (ks_Status kv)) kv) ;;
        return_status kv'
      else
        kv' <- enter_phase PhaseStoppingWrites "Starting to disable writes" kv ;;
        return_status kv'
  end.

(** The bound on the number of attempts to dial. *)
Context (fuel : nat).

Definition shard_target (shard : StatefulSet) : string :=
  sts_ServiceName shard +:+ "." +:+ om_Namespace (sts_meta shard) +:+ ":" +:+ itoa 8081.

Definition GetShardClient (shard : StatefulSet) : M Ctl string :=
  loop fuel (
    err <- query (kube_Dial (shard_target shard)) ;;
    match err with
    | Some _ => query (kube_Sleep 1) ;;; ret None
    | None => ret (Some (shard_target shard))
    end).

Definition StopWrites (kv : KVStore) : M Ctl gerror :=
  shards <- GetShards kv ;;
  early <- for_return shards (fun shard =>
    client <- GetShardClient shard ;;
    r <- call (CallPauseWrites client) (rpc_PauseWrites client mkPauseWritesRequest) ;;
    match r with
    | Err err =>
        status_update (with_message
          ("Failed to pause writes: " +:+ Error err +:+ ". Retrying") kv) ;;;
        ret (Some (Some err))
    | Ok resp =>
        if pw_IsPaused resp then ret None
        else
          e <- return_status (with_message "Waiting for shards to pause writes" kv) ;;
          ret (Some e)
    end) ;;
  match early with
  | Some result => ret result
  | None =>
      kv' <- enter_phase PhaseRedistributingKeys "Starting to redistribute keys" kv ;;
      return_status kv'
  end.

(** The loop of [RedistributeKeys]: the sum of the pending keys, or the error
    that ends the function. *)
Fixpoint sum_pending (kv : KVStore) (shards : list StatefulSet) (pendingKeys : Z)
    : M Ctl (Z + error) :=
  match shards with
  | [] => ret (inl pendingKeys)
  | shard :: shards' =>
      client <- GetShardClient shard ;;
      r <- call (CallRedistributeKeys client)
             (rpc_RedistributeKeys client mkRedistributeKeysRequest) ;;
      match r with
      | Err err =>
          status_update (with_message
            ("Failed to initiate key redistribution: " +:+ Error err) kv) ;;;
          ret (inr err)
      | Ok resp => sum_pending kv shards' (pendingKeys + rk_PendingKeys resp)%Z
      end
  end.

Definition RedistributeKeys (kv : KVStore) : M Ctl gerror :=
  shards <- GetShards kv ;;
  r <- sum_pending kv shards 0%Z ;;
  match r with
  | inr err => ret (Some err)
  | inl pendingKeys =>
      if decide (pendingKeys = 0%Z) then
        kv' <- enter_phase PhaseFinalizingScale "Starting to finalize scaling operation" kv ;;
        return_status kv'
      else
        return_status (with_message
          ("Pending keys to be redistributed: " +:+ itoa pendingKeys) kv)
  end.

Definition groupsToBeDeleted (kv : KVStore) : list string :=
  map (shard_name (ks_name kv))
    (filter (fun i => (st_TargetShards (ks_Status kv) <= i)%Z)
       (zrange 0 (st_CurrentShards (ks_Status kv)))).

(** Deleting the objects of a list whose group is to be deleted. *)
Definition delete_groups {A} (groups : list string) (meta : A -> ObjectMeta)
    (del : A -> M Ctl gerror) (l : list A) : M Ctl (option error) :=
  for_return l (fun x =>
    if decide (group_of (meta x) ∈ groups) then del x else ret None).

(** Both ends of [FinalizeScale]. *)
Definition finish_scale (kv : KVStore) : M Ctl gerror :=
  kv' <- enter_phase PhaseResumingWrites "Starting to resume writes"
    (with_shards (st_TargetShards (ks_Status kv)) (st_TargetShards (ks_Status kv)) kv) ;;
  err <- UpdateConfigMap kv' ;;
  match err with
  | Some err => ret (Some err)
  | None => return_status kv'
  end.

Definition FinalizeScale (kv : KVStore) : M Ctl gerror :=
  if decide (st_TargetShards (ks_Status kv) > st_CurrentShards (ks_Status kv))%Z then
    finish_scale kv
  else
    let groups := groupsToBeDeleted kv in
    shards <- GetShards kv ;;
    err <- delete_groups groups sts_meta
      (fun s => call (DeleteStatefulSet s) (delete_StatefulSet s)) shards ;;
    match err with
    | Some err => ret (Some err)
    | None =>
    ingresses <- GetIngresses kv ;;
    err <- delete_groups groups ing_meta
      (fun i => call (DeleteIngress i) (delete_Ingress i)) ingresses ;;
    match err with
    | Some err => ret (Some err)
    | None =>
    services <- GetServices kv ;;
    err <- delete_groups groups svc_meta
      (fun s => call (DeleteService s) (delete_Service s)) services ;;
    match err with
    | Some err => ret (Some err)
    | None => finish_scale kv
    end end end.

Definition ResumeWrites (kv : KVStore) : M Ctl gerror :=
  shards <- GetShards kv ;;
  early <- for_return shards (fun shard =>
    client <- GetShardClient shard ;;
    r <- call (CallResumeWrites client) (rpc_ResumeWrites client mkResumeWritesRequest) ;;
    match r with
    | Err err =>
        status_update (with_message
          ("Failed to resume writes: " +:+ Error err +:+ ". Retrying") kv) ;;;
        ret (Some (Some err))
    | Ok resp =>
        if rw_IsResumed resp then ret None
        else
          e <- return_status (with_message "Waiting for shards to resume writes" kv) ;;
          ret (Some e)
    end) ;;
  match early with
  | Some result => ret result
  | None =>
      kv' <- enter_phase PhaseNormal "Ready"
        (with_shards (st_TargetShards (ks_Status kv)) (st_TargetShards (ks_Status kv)) kv) ;;
      return_status kv'
  end.

(** ** Reconcile *)

(** [ctrl.Result] is the delay of the next run, zero if none is asked for. *)
Record Result := { RequeueAfter : Z }.
Definition no_requeue : Result := {| RequeueAfter := 0 |}.
Definition requeue : Result := {| RequeueAfter := 1 |}.

(** The loop that brings the number of replicas of existing shards up to date:
    the first shard that differs is updated, and the run ends there. *)
Definition sync_replicas (kv : KVStore) (shards : list StatefulSet)
    : M Ctl (option (Result * gerror)) :=
  for_return shards (fun shard =>
    replicas <- deref_replicas shard ;;
    if decide (replicas <> spec_Replicas (ks_Spec kv)) then
      let n := spec_Replicas (ks_Spec kv) in
      let shard' := set_sts_replicas n
        (<["replicas" := itoa n]> (default ∅ (sts_TemplateAnnotations shard))) shard in
      err <- call (UpdateStatefulSet shard') (update_StatefulSet shard') ;;
      match err with
      | Some err => ret (Some (no_requeue, Some err))
      | None => ret (Some (requeue, None))
      end
    else ret None).

(** The start of a scaling operation; the error of the update is dropped. *)
Definition begin_scale (kv : KVStore) (items : list StatefulSet) : M Ctl KVStore :=
  kv' <- enter_phase PhasePreparingScale "Spinning up shards"
    (with_shards (Z.of_nat (length items)) (spec_Shards (ks_Spec kv)) kv) ;;
  r <- status_update kv' ;;
  ret r.1.

(** The branch of a normal phase with too few shards. *)
Definition scale_up (kv : KVStore) : M Ctl (Result * gerror) :=
  err <- UpdateConfigMap kv ;;
  match err with
  | Some err => ret (no_requeue, Some err)
  | None =>
  err <- SpinUpShardIngresses kv ;;
  match err with
  | Some err => ret (no_requeue, Some err)
  | None =>
  err <- SpinUpShardServices kv ;;
  match err with
  | Some err => ret (no_requeue, Some err)
  | None =>
  err <- SpinUpShards kv ;;
  match err with
  | Some err => ret (no_requeue, Some err)
  | None => ret (requeue, None)
  end end end end.

(** The [switch] on the phase. *)
Definition dispatch (kv : KVStore) : M Ctl (Result * gerror) :=
  let ph := st_Phase (ks_Status kv) in
  if decide (ph = PhaseNormal) then ret (no_requeue, None)
  else
    err <- (if decide (ph = PhasePreparingScale) then PrepareScale kv
            else if decide (ph = PhaseStoppingWrites) then StopWrites kv
            else if decide (ph = PhaseRedistributingKeys) then RedistributeKeys kv
            else if decide (ph = PhaseResumingWrites) then ResumeWrites kv
            else if decide (ph = PhaseFinalizingScale) then FinalizeScale kv
            else ret None) ;;
    match err with
    | Some err => ret (no_requeue, Some err)
    | None => ret (requeue, None)
    end.

(** [Reconcile] from the point where the resource has been fetched. *)
Definition reconcile_store (name : string) (kv : KVStore) : M Ctl (Result * gerror) :=
  r <- call ListShards (list_StatefulSets (ks_namespace kv) name) ;;
  match r with
  | Err err => ret (no_requeue, Some err)
  | Ok items =>
      early <- sync_replicas kv items ;;
      match early with
      | Some result => ret result
      | None =>
          let n := Z.of_nat (length items) in
          if decide (st_Phase (ks_Status kv) = PhaseNormal) then
            if decide (n < spec_Shards (ks_Spec kv))%Z then
              kv' <- begin_scale kv items ;; scale_up kv'
            else if decide (n > spec_Shards (ks_Spec kv))%Z then
              kv' <- begin_scale kv items ;;
              err <- UpdateConfigMap kv' ;;
              match err with
              | Some err => ret (no_requeue, Some err)
              | None => dispatch kv'
              end
            else dispatch kv
          else dispatch kv
      end
  end.

Definition Reconcile (namespace name : string) : M Ctl (Result * gerror) :=
  r <- query (get_KVStore namespace name) ;;
  match r with
  | Err err => ret (no_requeue, IgnoreNotFound err)
  | Ok kv => reconcile_store name kv
  end.

(** ** SetupWithManager *)

Definition apiGVStr : string := "kvctl.captainirs.dev/v1".

(** The function that the three indexes are built with: the name of the owner. *)
Definition index_owner (m : ObjectMeta) : list string :=
  match om_Controller m with
  | None => []
  | Some owner =>
      if decide (or_APIVersion owner <> apiGVStr \/ or_Kind owner <> "KVStore") then []
      else [or_Name owner]
  end.

Definition shardOwnerKey : string := ".metadata.controller".

(** The three indexes, and the kinds that the controller watches. *)
Definition SetupWithManager : M Ctl gerror :=
  early <- for_return ["StatefulSet"; "Ingress"; "Service"] (fun kind =>
    query (IndexField kind shardOwnerKey index_owner)) ;;
  match early with
  | Some err => ret (Some err)
  | None =>
      query (builder_Complete "kvstore" "KVStore"
        ["StatefulSet"; "Service"; "Ingress"; "ConfigMap"])
  end.

End controller.

Arguments Ctl {_} K.
