(* ===== verification/ControllerTrace.v ===== *)
(** * Reasoning about the calls of the controller

    [traces m Q]: whatever the cluster answers, a run of [m] appends calls to the
    log such that [Q] holds of the result (if it returns) and of these calls. *)

From S2P Require Import Prelude Protos KVStore Shard Kube Controller.

Section traces.
Context `{!KubeTypes} {K : Type} `{!Kube K}.

Definition result {A} (o : outcome A) : option A :=
  match o with Ret a => Some a | _ => None end.

Definition traces {A} (m : M (Ctl K) A) (Q : option A -> list event -> Prop) : Prop :=
  forall c c' o, m c = (c', o) ->
    exists evs, c_log c' = c_log c ++ evs /\ Q (result o) evs.

(** ** Rules *)

Lemma traces_conseq {A} (m : M (Ctl K) A) (Q Q' : option A -> list event -> Prop) :
  traces m Q -> (forall o evs, Q o evs -> Q' o evs) -> traces m Q'.
Proof. intros Hm HQ c c' o Hrun. destruct (Hm c c' o Hrun) as (evs & ? & ?). eauto. Qed.

Lemma traces_ret {A} (a : A) (Q : option A -> list event -> Prop) :
  Q (Some a) [] -> traces (ret a) Q.
Proof. intros HQ c c' o [= <- <-]. exists []. by rewrite app_nil_r. Qed.

Lemma traces_hang {A} (Q : option A -> list event -> Prop) : Q None [] -> traces hang Q.
Proof. intros HQ c c' o [= <- <-]. exists []. by rewrite app_nil_r. Qed.

Lemma traces_query {A} (f : K -> K * A) (Q : option A -> list event -> Prop) :
  (forall k k' a, f k = (k', a) -> Q (Some a) []) -> traces (query f) Q.
Proof.
  intros HQ c c' o. unfold query. destruct (f (c_env c)) as [k' a] eqn:Hf.
  intros [= <- <-]. exists []. rewrite app_nil_r. eauto.
Qed.

Lemma traces_call {A} ev (f : K -> K * A) (Q : option A -> list event -> Prop) :
  (forall k k' a, f k = (k', a) -> Q (Some a) [ev a]) -> traces (call ev f) Q.
Proof.
  intros HQ c c' o. unfold call. destruct (f (c_env c)) as [k' a] eqn:Hf.
  intros [= <- <-]. exists [ev a]. eauto.
Qed.

Lemma traces_bind {A B} (m : M (Ctl K) A) (f : A -> M (Ctl K) B) Q1 (Q2 : option B -> list event -> Prop) :
  traces m Q1 -> (forall evs, Q1 None evs -> Q2 None evs) ->
  (forall a evs, Q1 (Some a) evs -> traces (f a) (fun o evs' => Q2 o (evs ++ evs'))) ->
  traces (bind m f) Q2.
Proof.
  intros Hm Hnone Hf c c' o Hrun. unfold bind in Hrun.
  destruct (m c) as [c1 o1] eqn:Hrun1. destruct (Hm _ _ _ Hrun1) as (evs & Hlog & HQ1).
  destruct o1 as [a|why|].
  - destruct (Hf a evs HQ1 _ _ _ Hrun) as (evs' & Hlog' & HQ2).
    exists (evs ++ evs'). split; [|done]. by rewrite Hlog', Hlog, app_assoc.
  - injection Hrun as <- <-. exists evs. split; [done|]. by apply Hnone.
  - injection Hrun as <- <-. exists evs. split; [done|]. by apply Hnone.
Qed.

(** A call first, then the rest. *)
Lemma traces_call_bind {A B} ev (f : K -> K * A) (g : A -> M (Ctl K) B) Q :
  (forall k k' a, f k = (k', a) -> traces (g a) (fun o evs => Q o (ev a :: evs))) ->
  traces (bind (call ev f) g) Q.
Proof.
  intros Hg. eapply (traces_bind _ _
    (fun o evs => exists k k' a, f k = (k', a) /\ o = Some a /\ evs = [ev a])).
  - apply traces_call. eauto 10.
  - intros evs (? & ? & ? & _ & [=] & _).
  - intros a evs (k & k' & a' & Hf & [= <-] & ->). by apply (Hg k k').
Qed.

Lemma traces_query_bind {A B} (f : K -> K * A) (g : A -> M (Ctl K) B) Q :
  (forall k k' a, f k = (k', a) -> traces (g a) Q) -> traces (bind (query f) g) Q.
Proof.
  intros Hg. eapply (traces_bind _ _
    (fun o evs => exists k k' a, f k = (k', a) /\ o = Some a /\ evs = [])).
  - apply traces_query. eauto 10.
  - intros evs (? & ? & ? & _ & [=] & _).
  - intros a evs (k & k' & a' & Hf & [= <-] & ->). by apply (Hg k k').
Qed.

(** A [range] loop whose body either goes on, with calls in [ok x], or leaves. *)
Lemma traces_for_return {A R} (l : list A) (body : A -> M (Ctl K) (option R))
    (ok : A -> list event -> Prop) (bad : option R -> list event -> Prop) :
  (forall x, traces (body x) (fun o evs =>
     match o with
     | Some None => ok x evs
     | Some (Some r) => bad (Some r) evs
     | None => bad None evs
     end)) ->
  traces (for_return l body) (fun o evs =>
    match o with
    | Some None => exists evss, Forall2 ok l evss /\ evs = concat evss
    | _ => exists l1 l2 evss tail r, l = l1 ++ l2 /\ Forall2 ok l1 evss /\
             evs = concat evss ++ tail /\ bad r tail /\ r = mjoin o
    end).
Proof.
  intros Hb. induction l as [|x l IH]; simpl.
  { apply traces_ret. by exists []. }
  eapply traces_bind; [apply Hb| |].
  - intros evs Hbad. by exists [], (x :: l), [], evs, None.
  - intros [r|] evs Hev.
    + apply traces_ret. rewrite app_nil_r. by exists [], (x :: l), [], evs, (Some r).
    + eapply traces_conseq; [exact IH|]. intros o evs' Ho.
      destruct o as [[r|]|].
      * destruct Ho as (l1 & l2 & evss & tail & r' & -> & Hall & -> & Hbad & ->).
        exists (x :: l1), l2, (evs :: evss), tail, (Some r).
        split_and!; try done; [by constructor|simpl; by rewrite <- app_assoc].
      * destruct Ho as (evss & Hall & ->). exists (evs :: evss). split; [by constructor|done].
      * destruct Ho as (l1 & l2 & evss & tail & r' & -> & Hall & -> & Hbad & ->).
        exists (x :: l1), l2, (evs :: evss), tail, None.
        split_and!; try done; [by constructor|simpl; by rewrite <- app_assoc].
Qed.

(** ** Statuses *)

(** The statuses that a list of calls tries to write. *)
Definition statuses (evs : list event) : list KVStoreStatus :=
  omap (fun ev => match ev with UpdateStatus kv _ => Some (ks_Status kv) | _ => None end) evs.

Lemma statuses_app evs1 evs2 : statuses (evs1 ++ evs2) = statuses evs1 ++ statuses evs2.
Proof. unfold statuses. by rewrite omap_app. Qed.

Lemma traces_status_update kv :
  traces (status_update kv) (fun o evs => exists r, evs = [UpdateStatus kv r] /\
    o = Some (match r with Ok kv' => (kv', None) | Err e => (kv, Some e) end)).
Proof.
  unfold status_update. apply traces_call_bind. intros k k' [kv'|e] _; apply traces_ret.
  - by exists (Ok kv').
  - by exists (Err e).
Qed.

Lemma traces_return_status kv :
  traces (return_status kv) (fun o evs => exists r, evs = [UpdateStatus kv r] /\ is_Some o).
Proof.
  unfold return_status. eapply traces_bind; [apply traces_status_update| |].
  - intros evs (r & _ & [=]).
  - intros p evs (r & -> & _). apply traces_ret. simpl. eauto.
Qed.

Lemma traces_enter_phase {A} ph msg kv (g : KVStore -> M (Ctl K) A) Q :
  (forall t, traces (g (set_status (set_LastTransition t (set_Phase ph msg (ks_Status kv))) kv)) Q) ->
  traces (kv' <- enter_phase ph msg kv ;; g kv') Q.
Proof.
  intros Hg c c' o Hrun. unfold enter_phase, bind, query in Hrun.
  destruct (metav1_Now (c_env c)) as [k' t]. exact (Hg t _ _ _ Hrun).
Qed.

(** Entering a phase and writing the status. *)
Lemma traces_enter_return ph msg kv :
  traces (kv' <- enter_phase ph msg kv ;; return_status kv') (fun o evs =>
    exists t r, evs = [UpdateStatus
      (set_status (set_LastTransition t (set_Phase ph msg (ks_Status kv))) kv) r] /\ is_Some o).
Proof.
  apply traces_enter_phase. intros t. eapply traces_conseq; [apply traces_return_status|].
  intros o evs (r & -> & ?). eauto.
Qed.

Lemma traces_deref_replicas {A} s (g : Z -> M (Ctl K) A) Q :
  Q None [] -> (forall n, sts_Replicas s = Some n -> traces (g n) Q) ->
  traces (n <- deref_replicas s ;; g n) Q.
Proof.
  intros HQ Hg c c' o Hrun. unfold deref_replicas, bind in Hrun.
  destruct (sts_Replicas s) as [n|]; [by apply (Hg n eq_refl c)|].
  injection Hrun as <- <-. exists []. by rewrite app_nil_r.
Qed.

(** The list that [GetShards] goes on with. *)
Definition listed {A} (r : res (list A)) : list A :=
  match r with Ok l => l | Err _ => [] end.

Lemma traces_GetShards {A} kv (g : list StatefulSet -> M (Ctl K) A) Q :
  (forall r, traces (g (listed r)) (fun o evs => Q o (ListShards r :: evs))) ->
  traces (l <- GetShards kv ;; g l) Q.
Proof.
  intros Hg c c' o Hrun. unfold GetShards, bind, call in Hrun.
  destruct (list_StatefulSets _ _ (c_env c)) as [k' r] eqn:Hl.
  destruct (Hg r {| c_env := k'; c_log := c_log c ++ [ListShards r] |} c' o) as (evs & Hlog & HQ).
  { by destruct r. }
  exists (ListShards r :: evs). split; [|done]. rewrite Hlog. simpl. by rewrite <- app_assoc.
Qed.

End traces.
