(* ===== verification/ControllerSpec.v ===== *)
(** * The phases of a scaling operation

    [transition] is the state machine that a scaling operation is meant to follow,
    on the status of the resource alone. The lemmas of this file say which calls
    each handler of the controller makes; ControllerProps concludes that the
    statuses it writes follow the machine. *)

From S2P Require Import Prelude Protos KVStore Shard Kube Controller ControllerTrace.

(** ** The machine *)

(** A status with a new phase, message and time. *)
Definition entered (ph : RedistributionPhase) (msg : string) (t : Z) (s : KVStoreStatus)
    : KVStoreStatus :=
  set_LastTransition t (set_Phase ph msg s).

(** The target has become the current number of shards. *)
Definition reached (s : KVStoreStatus) : KVStoreStatus :=
  set_Shards (st_TargetShards s) (st_TargetShards s) s.

(** [desired] is the number of shards that the resource asks for. *)
Inductive transition (desired : Z) : KVStoreStatus -> KVStoreStatus -> Prop :=
| tr_message s msg : transition desired s (set_Message msg s)
| tr_begin s n msg t :
    st_Phase s = PhaseNormal -> n <> desired ->
    transition desired s (entered PhasePreparingScale msg t (set_Shards n desired s))
| tr_created s msg t :
    st_Phase s = PhasePreparingScale -> st_CurrentShards s = 0%Z ->
    transition desired s (entered PhaseNormal msg t (reached s))
| tr_stop s msg t :
    st_Phase s = PhasePreparingScale -> st_CurrentShards s <> 0%Z ->
    transition desired s (entered PhaseStoppingWrites msg t s)
| tr_redistribute s msg t :
    st_Phase s = PhaseStoppingWrites ->
    transition desired s (entered PhaseRedistributingKeys msg t s)
| tr_finalize s msg t :
    st_Phase s = PhaseRedistributingKeys ->
    transition desired s (entered PhaseFinalizingScale msg t s)
| tr_resume s msg t :
    st_Phase s = PhaseFinalizingScale ->
    transition desired s (entered PhaseResumingWrites msg t (reached s))
| tr_done s msg t :
    st_Phase s = PhaseResumingWrites ->
    transition desired s (entered PhaseNormal msg t (reached s)).

(** A sequence of statuses, each reached from the one before. *)
Fixpoint path (desired : Z) (s : KVStoreStatus) (l : list KVStoreStatus) : Prop :=
  match l with
  | [] => True
  | s' :: l' => transition desired s s' /\ path desired s' l'
  end.

(** The numbers of shards of an operation under way: its target is the number that
    the resource asks for; while writes are stopped or
    keys are redistributed there are two different numbers of shards, so that the
    configuration has both the old and the new ones. *)
Definition status_inv (desired : Z) (s : KVStoreStatus) : Prop :=
  (st_Phase s <> PhaseNormal -> st_TargetShards s = desired) /\
  (st_Phase s = PhaseStoppingWrites \/ st_Phase s = PhaseRedistributingKeys \/
   st_Phase s = PhaseFinalizingScale ->
   st_CurrentShards s <> 0%Z /\ st_CurrentShards s <> st_TargetShards s) /\
  (st_Phase s = PhasePreparingScale -> st_CurrentShards s <> st_TargetShards s) /\
  (st_Phase s = PhaseResumingWrites -> st_CurrentShards s = st_TargetShards s).

Lemma transition_inv d s s' : status_inv d s -> transition d s s' -> status_inv d s'.
Proof.
  unfold status_inv. intros (H0 & H1 & H2 & H3) Ht.
  destruct Ht as [s msg|s n msg t Hp Hne|s msg t Hp Hc|s msg t Hp Hc|s msg t Hp
    |s msg t Hp|s msg t Hp|s msg t Hp]; simpl in *; try done;
    (assert (Ht : st_TargetShards s = d \/ st_Phase s = PhaseNormal)
       by (destruct (decide (st_Phase s = PhaseNormal)); auto));
    rewrite Hp in *; (destruct Ht as [Ht|Ht]; [|try done]);
    split_and!; try done; try (by intros [|[|]]); intros _; auto.
Qed.

Lemma path_inv d s l : status_inv d s -> path d s l -> Forall (status_inv d) l.
Proof.
  revert s. induction l as [|s' l IH]; intros s Hs; [constructor|].
  intros [Ht Hp]. pose proof (transition_inv _ _ _ Hs Ht).
  constructor; [done|by apply (IH s')].
Qed.

(** ** Asking every shard *)

Section handlers.
Context `{!KubeTypes} {K : Type} `{!Kube K} (fuel : nat).
Implicit Types (kv : KVStore) (evs : list event).

Lemma traces_GetShardClient {A} shard (g : string -> M (Ctl K) A) Q :
  Q None [] -> traces (g (shard_target shard)) Q ->
  traces (t <- GetShardClient fuel shard ;; g t) Q.
Proof.
  intros HQ Hg. eapply (traces_bind _ _
    (fun o evs => evs = [] /\ forall t, o = Some t -> t = shard_target shard)).
  - unfold GetShardClient. induction fuel as [|n IH]; simpl; [by apply traces_hang|].
    eapply (traces_bind _ _ (fun o evs => evs = [] /\
      forall r, o = Some (Some r) -> r = shard_target shard)).
    + apply traces_query_bind. intros _ _ [err|] _.
      * apply traces_query_bind. intros _ _ _ _. by apply traces_ret.
      * apply traces_ret. split; [done|]. congruence.
    + by intros evs [-> _].
    + intros [t|] evs [-> Ht]; [|exact IH].
      apply traces_ret. split; [done|]. intros t' [= <-]. by apply Ht.
  - by intros evs [-> _].
  - intros t evs [-> Ht]. rewrite (Ht t eq_refl). exact Hg.
Qed.

Section ask.
Context {Resp : Type} (Ev : string -> res Resp -> event)
  (rpc : string -> K -> K * res Resp) (test : Resp -> bool)
  (failed : error -> string) (waiting : string) (kv : KVStore).

(** The body of the loops of [StopWrites] and [ResumeWrites]. *)
Definition ask (shard : StatefulSet) : M (Ctl K) (option gerror) :=
  client <- GetShardClient fuel shard ;;
  r <- call (Ev client) (rpc client) ;;
  match r with
  | Err err => status_update (with_message (failed err) kv) ;;; ret (Some (Some err))
  | Ok resp =>
      if test resp then ret None
      else e <- return_status (with_message waiting kv) ;; ret (Some e)
  end.

Definition agreed (shard : StatefulSet) (ev : event) : Prop :=
  exists resp, ev = Ev (shard_target shard) (Ok resp) /\ test resp = true.

Definition asked (ev : event) : Prop := exists t r, ev = Ev t r.

(** A loop that ends early has written a message, or nothing. *)
Definition gave_up (evs : list event) : Prop :=
  exists calls w, evs = calls ++ w /\ Forall asked calls /\
    (w = [] \/ exists msg r, w = [UpdateStatus (with_message msg kv) r]).

Lemma traces_ask_one shard :
  traces (ask shard) (fun o evs =>
    match o with
    | Some None => exists ev, evs = [ev] /\ agreed shard ev
    | _ => gave_up evs
    end).
Proof.
  unfold ask. apply traces_GetShardClient.
  { exists [], []. split_and!; [done|constructor|by left]. }
  apply traces_call_bind. intros _ _ [resp|err] _.
  - destruct (test resp) eqn:Ht.
    + apply traces_ret. eexists. split; [done|]. by exists resp.
    + eapply traces_bind; [apply traces_return_status| |].
      * intros evs (r & _ & [? [=]]).
      * intros e evs (r & -> & _). apply traces_ret. rewrite app_nil_r.
        exists [Ev (shard_target shard) (Ok resp)], [UpdateStatus (with_message waiting kv) r].
        split_and!; [done|by repeat econstructor|eauto].
  - eapply traces_bind; [apply traces_status_update| |].
    + intros evs (r & _ & [=]).
    + intros p evs (r & -> & _). apply traces_ret. rewrite app_nil_r.
      exists [Ev (shard_target shard) (Err err)],
        [UpdateStatus (with_message (failed err) kv) r].
      split_and!; [done|by repeat econstructor|eauto].
Qed.

Lemma traces_ask shards :
  traces (for_return shards ask) (fun o evs =>
    match o with
    | Some None => Forall2 agreed shards evs
    | _ => gave_up evs
    end).
Proof.
  eapply traces_conseq; [apply (traces_for_return _ _
    (fun s evs => exists ev, evs = [ev] /\ agreed s ev) (fun _ evs => gave_up evs))|].
  - intros s. eapply traces_conseq; [apply traces_ask_one|]. by intros [[]|].
  - assert (Hcat : forall l evss,
      Forall2 (fun s evs => exists ev, evs = [ev] /\ agreed s ev) l evss ->
      Forall2 agreed l (concat evss)).
    { induction 1 as [|s evs l evss (ev & -> & Hev) _ IH]; simpl; by constructor. }
    assert (Hbad : forall l1 evss tail,
      Forall2 (fun s evs => exists ev, evs = [ev] /\ agreed s ev) l1 evss ->
      gave_up tail -> gave_up (concat evss ++ tail)).
    { intros l1 evss tail Hall (calls & w & -> & Hcalls & Hw).
      exists (concat evss ++ calls), w. split_and!; [by rewrite app_assoc| |done].
      apply Forall_app. split; [|done].
      eapply Forall2_Forall_r; [by apply Hcat|]. apply Forall_true.
      intros s ev (resp & -> & _). by repeat eexists. }
    intros [[r|]|] evs Ho.
    + destruct Ho as (l1 & l2 & evss & tail & r' & _ & Hall & -> & Ht & _).
      by apply (Hbad l1).
    + destruct Ho as (evss & Hall & ->). by apply Hcat.
    + destruct Ho as (l1 & l2 & evss & tail & r' & _ & Hall & -> & Ht & _).
      by apply (Hbad l1).
Qed.

End ask.

(** ** The handlers of the phases *)

(** The status is left alone, or only its message is written. *)
Definition waits (kv : KVStore) (w : list event) : Prop :=
  w = [] \/ exists msg r, w = [UpdateStatus (with_message msg kv) r].

(** A phase is entered. *)
Definition enters (ph : RedistributionPhase) (kv : KVStore) (w : list event) : Prop :=
  exists msg t r, w = [UpdateStatus (set_status (entered ph msg t (ks_Status kv)) kv) r].

Lemma traces_enters ph msg kv :
  traces (kv' <- enter_phase ph msg kv ;; return_status kv')
    (fun _ evs => enters ph kv evs).
Proof.
  eapply traces_conseq; [apply traces_enter_return|]. intros o evs (t & r & -> & _).
  by exists msg, t, r.
Qed.

(** The resource with its target as the current number of shards. *)
Definition at_target (kv : KVStore) : KVStore :=
  with_shards (st_TargetShards (ks_Status kv)) (st_TargetShards (ks_Status kv)) kv.

Definition ready (s : StatefulSet) : Prop := sts_Replicas s = Some (sts_ReadyReplicas s).

Lemma traces_wait_ready kv shards :
  traces (for_return shards (fun shard =>
    replicas <- deref_replicas shard ;;
    if decide (sts_ReadyReplicas shard <> replicas) then
      e <- return_status (with_message "Waiting for shards to be ready" kv) ;; ret (Some e)
    else ret None)) (fun o evs =>
    match o with
    | Some None => evs = [] /\ Forall ready shards
    | _ => waits kv evs
    end).
Proof.
  eapply traces_conseq; [apply (traces_for_return _ _
    (fun s evs => evs = [] /\ ready s) (fun _ evs => waits kv evs))|].
  - intros s. apply traces_deref_replicas; [by left|]. intros n Hn.
    case_decide as Hr.
    + eapply traces_bind; [apply traces_return_status| |].
      * intros evs (r & _ & [? [=]]).
      * intros e evs (r & -> & _). apply traces_ret. right. eauto.
    + apply traces_ret. split; [done|]. unfold ready.
      destruct (decide (sts_ReadyReplicas s = n)); [congruence|done].
  - assert (Hcat : forall l evss,
      Forall2 (fun s evs => evs = [] /\ ready s) l evss -> concat evss = [] /\ Forall ready l).
    { induction 1 as [|s evs l evss [-> Hs] _ [Hc IH]]; [done|].
      split; [done|by constructor]. }
    intros [[r|]|] evs Ho; [| |].
    + destruct Ho as (l1 & l2 & evss & tail & r' & _ & Hall & -> & Ht & _).
      by destruct (Hcat _ _ Hall) as [-> _].
    + destruct Ho as (evss & Hall & ->). by apply Hcat.
    + destruct Ho as (l1 & l2 & evss & tail & r' & _ & Hall & -> & Ht & _).
      by destruct (Hcat _ _ Hall) as [-> _].
Qed.

Lemma PrepareScale_trace kv :
  traces (PrepareScale kv) (fun _ evs => exists r w, evs = ListShards r :: w /\
    (waits kv w \/
     Forall ready (listed r) /\
     if decide (st_CurrentShards (ks_Status kv) = 0%Z)
     then enters PhaseNormal (at_target kv) w else enters PhaseStoppingWrites kv w)).
Proof.
  unfold PrepareScale. apply traces_GetShards. intros r.
  eapply traces_bind; [apply traces_wait_ready| |].
  - intros evs Hw. exists r, evs. auto.
  - intros [result|] evs Hev.
    + apply traces_ret. rewrite app_nil_r. exists r, evs. auto.
    + destruct Hev as [-> Hall]. case_decide;
        (eapply traces_conseq; [apply traces_enters|]); intros o evs Hen; exists r, evs; auto.
Qed.

Lemma StopWrites_trace kv :
  traces (StopWrites fuel kv) (fun _ evs => exists r calls w, evs = ListShards r :: calls ++ w /\
    Forall (asked CallPauseWrites) calls /\
    (waits kv w \/
     Forall2 (agreed CallPauseWrites pw_IsPaused) (listed r) calls /\
     enters PhaseRedistributingKeys kv w)).
Proof.
  unfold StopWrites. apply traces_GetShards. intros r.
  eapply traces_bind; [apply (traces_ask CallPauseWrites
    (fun t => rpc_PauseWrites t mkPauseWritesRequest) pw_IsPaused)| |].
  - intros evs (calls & w & -> & Hc & Hw). exists r, calls, w. auto.
  - intros [result|] evs Hev.
    + destruct Hev as (calls & w & -> & Hc & Hw). apply traces_ret. rewrite app_nil_r.
      exists r, calls, w. auto.
    + eapply traces_conseq; [apply traces_enters|]. intros o evs' Hen.
      exists r, evs, evs'. split_and!; [done| |by right].
      eapply Forall2_Forall_r; [exact Hev|]. apply Forall_true.
      intros s ev (resp & -> & _). by repeat eexists.
Qed.

Lemma ResumeWrites_trace kv :
  traces (ResumeWrites fuel kv) (fun _ evs => exists r calls w, evs = ListShards r :: calls ++ w /\
    Forall (asked CallResumeWrites) calls /\
    (waits kv w \/
     Forall2 (agreed CallResumeWrites rw_IsResumed) (listed r) calls /\
     enters PhaseNormal (at_target kv) w)).
Proof.
  unfold ResumeWrites. apply traces_GetShards. intros r.
  eapply traces_bind; [apply (traces_ask CallResumeWrites
    (fun t => rpc_ResumeWrites t mkResumeWritesRequest) rw_IsResumed)| |].
  - intros evs (calls & w & -> & Hc & Hw). exists r, calls, w. auto.
  - intros [result|] evs Hev.
    + destruct Hev as (calls & w & -> & Hc & Hw). apply traces_ret. rewrite app_nil_r.
      exists r, calls, w. auto.
    + eapply traces_conseq; [apply traces_enters|]. intros o evs' Hen.
      exists r, evs, evs'. split_and!; [done| |by right].
      eapply Forall2_Forall_r; [exact Hev|]. apply Forall_true.
      intros s ev (resp & -> & _). by repeat eexists.
Qed.

(** The answers [ns] of the shards to [RedistributeKeys]. *)
Definition answers (shards : list StatefulSet) (ns : list Z) : list event :=
  zip_with (fun s n => CallRedistributeKeys (shard_target s) (Ok {| rk_PendingKeys := n |}))
    shards ns.

Definition total (ns : list Z) : Z := foldr Z.add 0%Z ns.

Lemma traces_sum_pending kv shards acc :
  traces (sum_pending fuel kv shards acc) (fun o evs =>
    match o with
    | Some (inl pending) => exists ns, length ns = length shards /\
        evs = answers shards ns /\ pending = (acc + total ns)%Z
    | _ => exists calls w, evs = calls ++ w /\ Forall (asked CallRedistributeKeys) calls /\
        waits kv w
    end).
Proof.
  revert acc. induction shards as [|s shards IH]; intros acc; simpl.
  { apply traces_ret. exists []. split_and!; [done|done|]. simpl. lia. }
  assert (Hnil : waits kv []) by (by left).
  apply traces_GetShardClient.
  { exists [], []. split_and!; [done|constructor|done]. }
  apply traces_call_bind. intros _ _ [resp|err] _.
  - eapply traces_conseq; [apply IH|]. intros [[pending|err]|] evs Ho.
    + destruct Ho as (ns & Hlen & -> & ->). exists (rk_PendingKeys resp :: ns).
      split_and!; [simpl; lia| |simpl; lia]. unfold answers. simpl. by destruct resp.
    + destruct Ho as (calls & w & -> & Hc & Hw).
      exists (CallRedistributeKeys (shard_target s) (Ok resp) :: calls), w.
      split_and!; [done| |done]. constructor; [by repeat eexists|done].
    + destruct Ho as (calls & w & -> & Hc & Hw).
      exists (CallRedistributeKeys (shard_target s) (Ok resp) :: calls), w.
      split_and!; [done| |done]. constructor; [by repeat eexists|done].
  - eapply traces_bind; [apply traces_status_update| |].
    + intros evs (r & _ & [=]).
    + intros p evs (r & -> & _). apply traces_ret. rewrite app_nil_r.
      eexists [_], [_]. split_and!; [done|by repeat econstructor|]. right. eauto.
Qed.

Lemma answers_asked shards ns : Forall (asked CallRedistributeKeys) (answers shards ns).
Proof.
  revert ns. induction shards as [|s shards IH]; intros [|n ns]; simpl; try constructor.
  - by repeat eexists.
  - apply IH.
Qed.

Lemma RedistributeKeys_trace kv :
  traces (RedistributeKeys fuel kv) (fun _ evs => exists r calls w, evs = ListShards r :: calls ++ w /\
    Forall (asked CallRedistributeKeys) calls /\
    (waits kv w \/
     exists ns, length ns = length (listed r) /\ calls = answers (listed r) ns /\
       total ns = 0%Z /\ enters PhaseFinalizingScale kv w)).
Proof.
  unfold RedistributeKeys. apply traces_GetShards. intros r.
  eapply traces_bind; [apply traces_sum_pending| |].
  - intros evs (calls & w & -> & Hc & Hw). exists r, calls, w. auto.
  - intros [pending|err] evs Hev.
    + destruct Hev as (ns & Hlen & -> & ->). case_decide as Hz.
      * eapply traces_conseq; [apply traces_enters|]. intros o evs Hen.
        eexists r, _, evs. split_and!; [done|apply answers_asked|]. right.
        exists ns. split_and!; [done|done|lia|done].
      * eapply traces_conseq; [apply traces_return_status|]. intros o evs (r' & -> & _).
        eexists r, _, _. split_and!; [done|apply answers_asked|]. left. right. eauto.
    + destruct Hev as (calls & w & -> & Hc & Hw). apply traces_ret. rewrite app_nil_r.
      exists r, calls, w. auto.
Qed.

End handlers.
