(* ===== verification/ControllerCalls.v ===== *)
(** * The calls of the controller outside the status

    Which objects [UpdateConfigMap], the three [SpinUp...] methods and
    [FinalizeScale] write, create and delete, and the calls of a whole run of
    [Reconcile]. *)

From S2P Require Import Prelude Protos KVStore Shard Kube Controller ControllerTrace.
From S2P Require Import ControllerSpec.

Section calls.
Context `{!KubeTypes} {K : Type} `{!Kube K} (fuel : nat).
Implicit Types (kv : KVStore) (evs : list event).

(** ** The configuration *)

(** The call writes the configuration of [kv], with outcome [err]. *)
Definition config_written (kv : KVStore) (err : gerror) (ev : event) : Prop :=
  exists cm y, yaml_Marshal (build_config kv) = Ok y /\
    cm_Data cm = {[ "config.yaml" := y ]} /\
    (ev = CreateConfigMap cm err \/ ev = WriteConfigMap cm err).

Lemma UpdateConfigMap_trace kv :
  traces (UpdateConfigMap kv) (fun o evs =>
    evs = [] /\ o <> Some None \/
    exists err ev, o = Some err /\ evs = [ev] /\ config_written kv err ev).
Proof.
  unfold UpdateConfigMap. destruct (yaml_Marshal (build_config kv)) as [y|e] eqn:Hy.
  2:{ apply traces_ret. by left. }
  apply traces_query_bind. intros _ _ [cm|e] _.
  - apply traces_call. intros _ _ err _. right. eexists err, _. split_and!; [done|done|].
    eexists _, y. split_and!; [done| |by right]. done.
  - destruct (IsNotFound e); [|apply traces_ret; by left].
    destruct (SetControllerReference _ _) as [m|e']; [|apply traces_ret; by left].
    apply traces_call. intros _ _ err _. right. eexists err, _. split_and!; [done|done|].
    eexists _, y. split_and!; [done| |by left]. done.
Qed.

(** ** Creating shards *)

(** The loop over the new shards: each of them is made, or the loop ends at the
    first one that is not. *)
Definition made_all (made : Z -> event -> Prop) (failed : event -> Prop) (l : list Z)
    (o : option gerror) (evs : list event) : Prop :=
  match o with
  | Some None => Forall2 made l evs
  | _ => exists l1 l2 evs1 tail, l = l1 ++ l2 /\ Forall2 made l1 evs1 /\
           evs = evs1 ++ tail /\ (tail = [] \/ exists ev, tail = [ev] /\ failed ev)
  end.

Lemma spin_up_trace made failed kv create :
  (forall i, traces (create i) (fun o evs =>
     match o with
     | Some None => exists ev, evs = [ev] /\ made i ev
     | _ => evs = [] \/ exists ev, evs = [ev] /\ failed ev
     end)) ->
  traces (K := K) (spin_up kv create)
    (made_all made failed (zrange (st_CurrentShards (ks_Status kv))
       (st_TargetShards (ks_Status kv)))).
Proof.
  intros Hc. unfold spin_up. eapply traces_conseq; [apply (traces_for_return _ _
    (fun i evs => exists ev, evs = [ev] /\ made i ev)
    (fun _ evs => evs = [] \/ exists ev, evs = [ev] /\ failed ev))|].
  - intros i. eapply traces_conseq; [apply Hc|]. by intros [[]|].
  - assert (Hcat : forall l evss, Forall2 (fun i evs => exists ev, evs = [ev] /\ made i ev) l evss ->
      Forall2 made l (concat evss)).
    { induction 1 as [|s evs l evss (ev & -> & Hev) _ IH]; simpl; by constructor. }
    intros [[e|]|] evs Ho; unfold made_all.
    + destruct Ho as (l1 & l2 & evss & tail & r & Hl & Hall & -> & Hb & _).
      exists l1, l2, (concat evss), tail. auto.
    + destruct Ho as (evss & Hall & ->). by apply Hcat.
    + destruct Ho as (l1 & l2 & evss & tail & r & Hl & Hall & -> & Hb & _).
      exists l1, l2, (concat evss), tail. auto.
Qed.

Definition shard_made kv (i : Z) (ev : event) : Prop :=
  exists m, SetControllerReference kv (sts_meta (build_shard kv i)) = Ok m /\
    ev = CreateStatefulSet (set_sts_meta m (build_shard kv i)) None.
Definition shard_failed (ev : event) : Prop := exists s e, ev = CreateStatefulSet s (Some e).

Definition ingress_made kv (i : Z) (ev : event) : Prop :=
  exists g, om_Name (ing_meta g) = shard_name (ks_name kv) i +:+ "-ingress" /\
    ing_Rules g = ing_Rules (build_ingress kv i) /\ ev = CreateIngress g None.
Definition ingress_failed (ev : event) : Prop := exists g e, ev = CreateIngress g (Some e).

Definition service_made kv (i : Z) (ev : event) : Prop :=
  exists s, om_Name (svc_meta s) = shard_name (ks_name kv) i /\
    svc_Selector s = shard_labels kv i /\ ev = CreateService s None.
Definition service_failed (ev : event) : Prop := exists s e, ev = CreateService s (Some e).

Lemma SpinUpShards_trace kv :
  traces (SpinUpShards kv) (made_all (shard_made kv) shard_failed
    (zrange (st_CurrentShards (ks_Status kv)) (st_TargetShards (ks_Status kv)))).
Proof.
  apply spin_up_trace. intros i.
  destruct (SetControllerReference _ _) as [m|e] eqn:Hm; [|apply traces_ret; by left].
  apply traces_call. intros _ _ [e|] _.
  - right. eexists. split; [done|]. by repeat eexists.
  - eexists. split; [done|]. by exists m.
Qed.

Context `{!KubeLaws K}.

Lemma SpinUpShardIngresses_trace kv :
  traces (SpinUpShardIngresses kv) (made_all (ingress_made kv) ingress_failed
    (zrange (st_CurrentShards (ks_Status kv)) (st_TargetShards (ks_Status kv)))).
Proof.
  apply spin_up_trace. intros i.
  destruct (SetControllerReference _ _) as [m|e] eqn:Hm; [|apply traces_ret; by left].
  apply SetControllerReference_same in Hm as (Hn & _).
  apply traces_call. intros _ _ [e|] _.
  - right. eexists. split; [done|]. by repeat eexists.
  - eexists. split; [done|]. eexists. split; [|split; [|reflexivity]]; done.
Qed.

Lemma SpinUpShardServices_trace kv :
  traces (SpinUpShardServices kv) (made_all (service_made kv) service_failed
    (zrange (st_CurrentShards (ks_Status kv)) (st_TargetShards (ks_Status kv)))).
Proof.
  apply spin_up_trace. intros i.
  destruct (SetControllerReference _ _) as [m|e] eqn:Hm; [|apply traces_ret; by left].
  apply SetControllerReference_same in Hm as (Hn & _).
  apply traces_call. intros _ _ [e|] _.
  - right. eexists. split; [done|]. by repeat eexists.
  - eexists. split; [done|]. eexists. split; [|split; [|reflexivity]]; done.
Qed.

(** ** Finalizing *)

(** The name of a shard that the resource no longer wants. *)
Definition surplus kv (g : string) : Prop :=
  exists i, (st_TargetShards (ks_Status kv) <= i < st_CurrentShards (ks_Status kv))%Z /\
    g = shard_name (ks_name kv) i.

Lemma elem_of_groupsToBeDeleted kv g : g ∈ groupsToBeDeleted kv -> surplus kv g.
Proof.
  unfold groupsToBeDeleted. rewrite list_elem_of_fmap. intros (i & -> & [Hle Hr]%list_elem_of_filter).
  apply elem_of_zrange in Hr. exists i. split; [lia|done].
Qed.

(** The metadata of an object that a call deletes, and its group. *)
Definition deleted_meta (ev : event) : option ObjectMeta :=
  match ev with
  | DeleteStatefulSet s _ => Some (sts_meta s)
  | DeleteIngress i _ => Some (ing_meta i)
  | DeleteService s _ => Some (svc_meta s)
  | _ => None
  end.
Definition deleted_group (ev : event) : option string := group_of <$> deleted_meta ev.

(** A call that lists objects or deletes one of a surplus shard. *)
Definition removal kv (ev : event) : Prop :=
  match ev with
  | ListShards _ => True
  | _ => exists g, deleted_group ev = Some g /\ surplus kv g
  end.

Lemma delete_groups_trace {A} (P : event -> Prop) kv (meta : A -> ObjectMeta)
    (Ev : A -> gerror -> event) (del : A -> K -> K * gerror) l :
  (forall x err, surplus kv (group_of (meta x)) -> P (Ev x err)) ->
  traces (delete_groups (groupsToBeDeleted kv) meta (fun x => call (Ev x) (del x)) l)
    (fun _ evs => Forall P evs).
Proof.
  intros HEv. unfold delete_groups. eapply traces_conseq; [apply (traces_for_return _ _
    (fun _ evs => Forall P evs) (fun _ evs => Forall P evs))|].
  - intros x. case_decide as Hg.
    + apply traces_call. intros _ _ [e|] _; (constructor; [by apply HEv, elem_of_groupsToBeDeleted|constructor]).
    + apply traces_ret. constructor.
  - assert (Hcat : forall l' evss, Forall2 (fun (_ : A) evs => Forall P evs) l' evss ->
      Forall P (concat evss)).
    { induction 1 as [|x evs l' evss Hev _ IH]; simpl; [constructor|by apply Forall_app]. }
    intros [[e|]|] evs Ho.
    + destruct Ho as (l1 & l2 & evss & tail & r & _ & Hall & -> & Hb & _).
      apply Forall_app. split; [by apply (Hcat l1)|done].
    + destruct Ho as (evss & Hall & ->). by apply (Hcat l).
    + destruct Ho as (l1 & l2 & evss & tail & r & _ & Hall & -> & Hb & _).
      apply Forall_app. split; [by apply (Hcat l1)|done].
Qed.

(** The end of [FinalizeScale]: the status follows the configuration. *)
Definition finishes kv (evs : list event) : Prop :=
  evs = [] \/
  exists err ev w, evs = ev :: w /\ config_written (at_target kv) err ev /\
    (w = [] \/ err = None /\ enters PhaseResumingWrites (at_target kv) w).

Lemma finish_scale_trace kv : traces (finish_scale kv) (fun _ evs => finishes kv evs).
Proof.
  unfold finish_scale. apply traces_enter_phase. intros t.
  match goal with |- context [UpdateConfigMap ?k] => set (kv' := k) end.
  assert (Hcfg : forall err ev, config_written kv' err ev -> config_written (at_target kv) err ev)
    by done.
  eapply traces_bind; [apply UpdateConfigMap_trace| |].
  - intros evs [[-> _]|(err & ev & [=] & _)]. by left.
  - intros err evs [[-> Herr]|(err' & ev & [= <-] & -> & Hev)].
    + destruct err as [e|]; [|done]. apply traces_ret. by left.
    + destruct err as [e|].
      * apply traces_ret. right. exists (Some e), ev, []. auto.
      * eapply traces_conseq; [apply traces_return_status|]. intros o evs (r & -> & _).
        right. exists None, ev, [UpdateStatus kv' r]. split_and!; [done|auto|].
        right. split; [done|]. by repeat eexists.
Qed.

Lemma GetIngresses_trace kv : traces (GetIngresses kv) (fun _ evs => evs = []).
Proof. apply traces_query_bind. intros _ _ [l|?] _; by apply traces_ret. Qed.

Lemma GetServices_trace kv : traces (GetServices kv) (fun _ evs => evs = []).
Proof. apply traces_query_bind. intros _ _ [l|?] _; by apply traces_ret. Qed.

Ltac all_removals :=
  repeat first [done | apply Forall_cons_2; [done|] | apply Forall_app_2 | progress simpl].

Lemma FinalizeScale_trace kv :
  traces (FinalizeScale kv) (fun _ evs => exists pre post, evs = pre ++ post /\
    Forall (removal kv) pre /\ finishes kv post).
Proof.
  assert (Hfin : forall pre, Forall (removal kv) pre ->
    traces (finish_scale kv) (fun _ evs => exists p q, pre ++ evs = p ++ q /\
      Forall (removal kv) p /\ finishes kv q)).
  { intros pre Hpre. eapply traces_conseq; [apply finish_scale_trace|]. intros o evs Hf.
    by exists pre, evs. }
  assert (Hstop : forall evs, Forall (removal kv) evs -> exists p q, evs = p ++ q /\
      Forall (removal kv) p /\ finishes kv q).
  { intros evs Hevs. exists evs, []. rewrite app_nil_r. split_and!; [done|done|by left]. }
  unfold FinalizeScale. case_decide; [by apply (Hfin [])|].
  apply traces_GetShards. intros r.
  eapply traces_bind; [apply (delete_groups_trace (removal kv) kv sts_meta); by eexists|intros; apply Hstop; all_removals|].
  intros [e|] evs Hevs; [apply traces_ret; apply Hstop; all_removals|].
  eapply traces_bind; [apply GetIngresses_trace|intros ? ->; apply Hstop; all_removals|].
  intros ingresses ? ->.
  eapply traces_bind; [apply (delete_groups_trace (removal kv) kv ing_meta); by eexists|intros; apply Hstop; all_removals|].
  intros [e|] evs' Hevs'; [apply traces_ret; apply Hstop; all_removals|].
  eapply traces_bind; [apply GetServices_trace|intros ? ->; apply Hstop; all_removals|].
  intros services ? ->.
  eapply traces_bind; [apply (delete_groups_trace (removal kv) kv svc_meta); by eexists|intros; apply Hstop; all_removals|].
  intros [e|] evs3 Hevs3; [apply traces_ret; apply Hstop; all_removals|].
  eapply traces_conseq; [apply (Hfin (ListShards r :: evs ++ evs' ++ evs3)); all_removals|].
  intros o evs4 Hp. simpl in Hp. simpl. rewrite <- !app_assoc in Hp. exact Hp.
Qed.

(** ** Which stateful sets are deleted *)

(** A call that deletes no stateful set. *)
Definition keeps_sets (ev : event) : Prop := forall s err, ev <> DeleteStatefulSet s err.

Lemma finishes_keeps_sets kv evs : finishes kv evs -> Forall keeps_sets evs.
Proof.
  intros [->|(err & ev & w & -> & (cm & y & _ & _ & Hev) & Hw)]; [constructor|].
  constructor; [by destruct Hev as [-> | ->]|].
  destruct Hw as [->|(_ & msg & t & r & ->)]; by repeat constructor.
Qed.

(** What [FinalizeScale] does after it has gone through the stateful sets. *)
Lemma finalize_tail_trace kv :
  traces (
    ingresses <- GetIngresses kv ;;
    err <- delete_groups (groupsToBeDeleted kv) ing_meta
      (fun i => call (DeleteIngress i) (delete_Ingress i)) ingresses ;;
    match err with
    | Some err => ret (Some err)
    | None =>
    services <- GetServices kv ;;
    err <- delete_groups (groupsToBeDeleted kv) svc_meta
      (fun s => call (DeleteService s) (delete_Service s)) services ;;
    match err with
    | Some err => ret (Some err)
    | None => finish_scale kv
    end end) (fun _ evs => Forall keeps_sets evs).
Proof.
  eapply traces_bind; [apply GetIngresses_trace|by intros ? ->|]. intros ingresses ? ->.
  eapply traces_bind; [by apply (delete_groups_trace keeps_sets kv ing_meta)|done|].
  intros [e|] evs Hevs; [apply traces_ret; all_removals|].
  eapply traces_bind; [apply GetServices_trace|intros ? ->; all_removals|]. intros services ? ->.
  eapply traces_bind; [by apply (delete_groups_trace keeps_sets kv svc_meta)|
    intros; all_removals|].
  intros [e|] evs' Hevs'; [apply traces_ret; all_removals|].
  eapply traces_conseq; [apply finish_scale_trace|]. intros o evs3 Hf%finishes_keeps_sets.
  all_removals.
Qed.

(** The stateful sets that are deleted are those that going through the listed sets deletes. *)
Lemma FinalizeScale_sets kv c c' o k1 l c2 r :
  (st_TargetShards (ks_Status kv) <= st_CurrentShards (ks_Status kv))%Z ->
  list_StatefulSets (ks_namespace kv) (ks_name kv) (c_env c) = (k1, Ok l) ->
  delete_groups (groupsToBeDeleted kv) sts_meta
    (fun s => call (DeleteStatefulSet s) (delete_StatefulSet s)) l
    {| c_env := k1; c_log := c_log c ++ [ListShards (Ok l)] |} = (c2, Ret r) ->
  FinalizeScale kv c = (c', o) ->
  exists evs, c_log c' = c_log c2 ++ evs /\ Forall keeps_sets evs.
Proof.
  intros Hle Hl Hdel Hrun. unfold FinalizeScale in Hrun. rewrite decide_False in Hrun by lia.
  assert (Hget : GetShards kv c =
    ({| c_env := k1; c_log := c_log c ++ [ListShards (Ok l)] |}, Ret l)).
  { unfold GetShards, bind, call, ret. by rewrite Hl. }
  cbv zeta in Hrun. rewrite (bind_Ret _ _ _ _ _ Hget) in Hrun.
  rewrite (bind_Ret _ _ _ _ _ Hdel) in Hrun. destruct r as [e|].
  - injection Hrun as <- <-. exists []. by rewrite app_nil_r.
  - exact (finalize_tail_trace kv c2 c' o Hrun).
Qed.

(** No set is in a group that is to be deleted. *)
Lemma delete_groups_none groups (l : list StatefulSet) c :
  Forall (fun s => group_of (sts_meta s) ∉ groups) l ->
  delete_groups groups sts_meta (fun s => call (DeleteStatefulSet s) (delete_StatefulSet s)) l c =
    (c, Ret None).
Proof.
  unfold delete_groups. induction 1 as [|s l Hs _ IH]; [done|]. cbn [for_return].
  unfold bind at 1. by rewrite decide_False.
Qed.

(** Every set is in such a group, and deletions succeed. *)
Lemma delete_groups_all groups (l : list StatefulSet) c :
  (forall s k, (delete_StatefulSet s k).2 = None) ->
  Forall (fun s => group_of (sts_meta s) ∈ groups) l ->
  exists k, delete_groups groups sts_meta
      (fun s => call (DeleteStatefulSet s) (delete_StatefulSet s)) l c =
    ({| c_env := k; c_log := c_log c ++ map (fun s => DeleteStatefulSet s None) l |}, Ret None).
Proof.
  intros Hok Hall. revert c. unfold delete_groups.
  induction Hall as [|s l Hs _ IH]; intros c; cbn [for_return].
  { exists (c_env c). simpl. rewrite app_nil_r. by destruct c. }
  unfold bind at 1. rewrite decide_True by done. unfold call at 1.
  pose proof (Hok s (c_env c)) as Hnone.
  destruct (delete_StatefulSet s (c_env c)) as [k' r]. simpl in Hnone. subst r.
  destruct (IH {| c_env := k'; c_log := c_log c ++ [DeleteStatefulSet s None] |}) as [k Hrun].
  exists k. rewrite Hrun. cbn [c_log map]. by rewrite <- app_assoc.
Qed.

End calls.
