(* ===== verification/ControllerRun.v ===== *)
(** * A run of Reconcile

    Every call of a run is one that the phase of the resource permits, and the
    statuses that it writes follow the machine of ControllerSpec. *)

From S2P Require Import Prelude Protos KVStore Shard Kube Controller ControllerTrace.
From S2P Require Import ControllerSpec ControllerCalls.

Section run.
Context `{!KubeTypes} {K : Type} `{!Kube K, !KubeLaws K} (fuel : nat).
Implicit Types (kv : KVStore) (evs : list event).

(** The calls that a phase permits. *)
Definition permitted (kv : KVStore) (ev : event) : Prop :=
  let ph := st_Phase (ks_Status kv) in
  match ev with
  | ListShards _ | UpdateStatefulSet _ _ | UpdateStatus _ _ => True
  | CreateStatefulSet _ _ | CreateIngress _ _ | CreateService _ _ => ph = PhaseNormal
  | CreateConfigMap _ _ | WriteConfigMap _ _ =>
      ph = PhaseNormal \/ ph = PhaseFinalizingScale
  | CallPauseWrites _ _ => ph = PhaseStoppingWrites
  | CallRedistributeKeys _ _ => ph = PhaseRedistributingKeys
  | CallResumeWrites _ _ => ph = PhaseResumingWrites
  | DeleteStatefulSet s _ =>
      ph = PhaseFinalizingScale /\ surplus kv (group_of (sts_meta s))
  | DeleteIngress i _ =>
      ph = PhaseFinalizingScale /\ surplus kv (group_of (ing_meta i))
  | DeleteService s _ =>
      ph = PhaseFinalizingScale /\ surplus kv (group_of (svc_meta s))
  end.

(** The discipline of a run that starts with the resource [kv]. *)
Definition disciplined (kv : KVStore) (evs : list event) : Prop :=
  path (spec_Shards (ks_Spec kv)) (ks_Status kv) (statuses evs) /\ Forall (permitted kv) evs.

(** Calls that write no status. *)
Definition silent (ev : event) : Prop := statuses [ev] = [].

Lemma statuses_silent evs : Forall silent evs -> statuses evs = [].
Proof.
  induction 1 as [|ev evs Hev _ IH]; [done|]. change (ev :: evs) with ([ev] ++ evs).
  by rewrite statuses_app, Hev, IH.
Qed.

Lemma disciplined_app kv evs1 evs2 :
  Forall (fun ev => permitted kv ev /\ silent ev) evs1 ->
  disciplined kv evs2 -> disciplined kv (evs1 ++ evs2).
Proof.
  intros H1 [Hp Hf]. apply Forall_and in H1 as [Hperm Hsil]. split.
  - by rewrite statuses_app, (statuses_silent evs1 Hsil).
  - by apply Forall_app.
Qed.

Lemma disciplined_nil kv : disciplined kv [].
Proof. by split. Qed.

Lemma disciplined_waits kv w : waits kv w -> disciplined kv w.
Proof.
  intros [->|(msg & r & ->)]; [apply disciplined_nil|]. split.
  - simpl. split; [apply tr_message|done].
  - by repeat constructor.
Qed.

Lemma disciplined_enters ph kv kv0 w :
  enters ph kv0 w ->
  (forall msg t, transition (spec_Shards (ks_Spec kv)) (ks_Status kv) (entered ph msg t (ks_Status kv0))) ->
  disciplined kv w.
Proof.
  intros (msg & t & r & ->) Ht. split; [|by repeat constructor].
  simpl. split; [apply Ht|done].
Qed.

(** ** The switch on the phase *)

Lemma asked_permitted {Resp} (Ev : string -> res Resp -> event) kv calls :
  (forall t r, permitted kv (Ev t r) /\ silent (Ev t r)) -> Forall (asked Ev) calls ->
  Forall (fun ev => permitted kv ev /\ silent ev) calls.
Proof.
  intros HEv Hc. eapply Forall_impl; [exact Hc|]. intros ev (t & r & ->). apply HEv.
Qed.

Lemma finishes_disciplined kv evs :
  st_Phase (ks_Status kv) = PhaseFinalizingScale -> finishes kv evs -> disciplined kv evs.
Proof.
  intros Hph [->|(err & ev & w & -> & (cm & y & _ & _ & Hev) & Hw)];
    [apply disciplined_nil|].
  apply (disciplined_app kv [ev]).
  - constructor; [|done]. destruct Hev as [-> | ->]; (split; [by right|done]).
  - destruct Hw as [->|[_ Hen]]; [apply disciplined_nil|].
    eapply disciplined_enters; [exact Hen|]. intros msg t. by apply tr_resume.
Qed.

Lemma handler_disciplined kv :
  st_Phase (ks_Status kv) <> PhaseNormal ->
  traces (dispatch (K := K) fuel kv) (fun _ evs => disciplined kv evs).
Proof.
  intros Hn. unfold dispatch. rewrite decide_False by done.
  eapply (traces_bind _ _ (fun _ evs => disciplined kv evs)).
  2:{ done. }
  2:{ intros [e|] evs Hevs; apply traces_ret; by rewrite app_nil_r. }
  repeat case_decide.
  - eapply traces_conseq; [apply PrepareScale_trace|]. intros o evs (r & w & -> & Hw).
    apply (disciplined_app kv [_]); [by repeat constructor|].
    destruct Hw as [Hw|[_ Hw]]; [by apply disciplined_waits|].
    case_decide; (eapply disciplined_enters; [exact Hw|]); intros msg t;
      [by apply tr_created|by apply tr_stop].
  - eapply traces_conseq; [apply StopWrites_trace|].
    intros o evs (r & calls & w & -> & Hc & Hw).
    apply (disciplined_app kv (ListShards r :: calls)).
    { constructor; [done|]. by apply (asked_permitted CallPauseWrites). }
    destruct Hw as [Hw|[_ Hw]]; [by apply disciplined_waits|].
    eapply disciplined_enters; [exact Hw|]. intros msg t. by apply tr_redistribute.
  - eapply traces_conseq; [apply RedistributeKeys_trace|].
    intros o evs (r & calls & w & -> & Hc & Hw).
    apply (disciplined_app kv (ListShards r :: calls)).
    { constructor; [done|]. by apply (asked_permitted CallRedistributeKeys). }
    destruct Hw as [Hw|(ns & _ & _ & _ & Hw)]; [by apply disciplined_waits|].
    eapply disciplined_enters; [exact Hw|]. intros msg t. by apply tr_finalize.
  - eapply traces_conseq; [apply ResumeWrites_trace|].
    intros o evs (r & calls & w & -> & Hc & Hw).
    apply (disciplined_app kv (ListShards r :: calls)).
    { constructor; [done|]. by apply (asked_permitted CallResumeWrites). }
    destruct Hw as [Hw|[_ Hw]]; [by apply disciplined_waits|].
    eapply disciplined_enters; [exact Hw|]. intros msg t. by apply tr_done.
  - eapply traces_conseq; [apply FinalizeScale_trace|].
    intros o evs (pre & post & -> & Hpre & Hpost).
    apply disciplined_app; [|by apply finishes_disciplined].
    eapply Forall_impl; [exact Hpre|]. 
    intros [] Hev; simpl in Hev; try done; by destruct Hev as (g & [= <-] & Hs).
  - apply traces_ret. apply disciplined_nil.
Qed.

Lemma dispatch_disciplined kv :
  traces (dispatch (K := K) fuel kv) (fun _ evs => disciplined kv evs).
Proof.
  destruct (decide (st_Phase (ks_Status kv) = PhaseNormal)) as [Hn|Hn];
    [|by apply handler_disciplined].
  unfold dispatch. rewrite decide_True by done. apply traces_ret, disciplined_nil.
Qed.

(** ** The start of a scaling operation *)

Lemma sync_replicas_trace kv shards :
  traces (K := K) (sync_replicas kv shards)
    (fun _ evs => Forall (fun ev => permitted kv ev /\ silent ev) evs).
Proof.
  unfold sync_replicas. eapply traces_conseq; [apply (traces_for_return _ _
    (fun _ evs => evs = []) (fun _ evs => Forall (fun ev => permitted kv ev /\ silent ev) evs))|].
  - intros s. apply traces_deref_replicas; [constructor|]. intros n _. case_decide.
    + apply traces_call_bind. intros _ _ [e|] _; apply traces_ret; by repeat constructor.
    + by apply traces_ret.
  - assert (Hcat : forall (l : list StatefulSet) evss,
      Forall2 (fun _ evs => evs = []) l evss -> concat evss = @nil event).
    { by induction 1 as [|s evs l evss -> _ IH]. }
    intros [[e|]|] evs Ho.
    + destruct Ho as (l1 & l2 & evss & tail & r & _ & Hall & -> & Hb & _).
      by rewrite (Hcat _ _ Hall).
    + destruct Ho as (evss & Hall & ->). rewrite (Hcat _ _ Hall). constructor.
    + destruct Ho as (l1 & l2 & evss & tail & r & _ & Hall & -> & Hb & _).
      by rewrite (Hcat _ _ Hall).
Qed.

(** The status that [begin_scale] writes. *)
Definition begun kv (n t : Z) : KVStoreStatus :=
  entered PhasePreparingScale "Spinning up shards" t
    (set_Shards n (spec_Shards (ks_Spec kv)) (ks_Status kv)).

Lemma begin_scale_trace {A} kv items (g : KVStore -> M (Ctl K) A) Q :
  (forall t kv' kv1 r, ks_Status kv1 = begun kv (Z.of_nat (length items)) t ->
     ks_Status kv' = ks_Status kv1 -> ks_Spec kv' = ks_Spec kv ->
     traces (g kv') (fun o evs => Q o (UpdateStatus kv1 r :: evs))) ->
  traces (kv' <- begin_scale kv items ;; g kv') Q.
Proof.
  intros Hg c c' o Hrun. unfold begin_scale, enter_phase, status_update, bind, query, call, ret in Hrun.
  destruct (metav1_Now (c_env c)) as [k1 t]. simpl in Hrun.
  match type of Hrun with context [update_Status ?k] => set (kv1 := k) in * end.
  destruct (update_Status kv1 k1) as [k2 r] eqn:Hup.
  destruct (Hg t (match r with Ok kv' => kv' | Err _ => kv1 end) kv1 r eq_refl)
    with (c := {| c_env := k2; c_log := c_log c ++ [UpdateStatus kv1 r] |}) (c' := c') (o := o)
    as (evs & Hlog & HQ).
  - destruct r as [kv'|e]; [|done]. by apply update_Status_same in Hup as [-> _].
  - destruct r as [kv'|e]; [|done]. by apply update_Status_same in Hup as (_ & -> & _).
  - by destruct r.
  - exists (UpdateStatus kv1 r :: evs). split; [|done]. rewrite Hlog. simpl.
    by rewrite <- app_assoc.
Qed.

(** Calls that create the objects of shards or write the configuration. *)
Definition sets_up (ev : event) : Prop :=
  match ev with
  | CreateStatefulSet _ _ | CreateIngress _ _ | CreateService _ _
  | CreateConfigMap _ _ | WriteConfigMap _ _ => True
  | _ => False
  end.

Lemma made_all_sets_up made failed l o evs :
  (forall i ev, made i ev -> sets_up ev) -> (forall ev, failed ev -> sets_up ev) ->
  made_all made failed l o evs -> Forall sets_up evs.
Proof.
  intros Hm Hf Hall.
  assert (Hok : forall l evs, Forall2 made l evs -> Forall sets_up evs).
  { intros l' evs' H2. eapply Forall2_Forall_r; [exact H2|]. apply Forall_true. eauto. }
  assert (Hbad : (exists l1 l2 evs1 tail, l = l1 ++ l2 /\ Forall2 made l1 evs1 /\
    evs = evs1 ++ tail /\ (tail = [] \/ exists ev, tail = [ev] /\ failed ev)) ->
    Forall sets_up evs).
  { intros (l1 & l2 & evs1 & tail & _ & H2 & -> & Ht). apply Forall_app.
    split; [by apply (Hok l1)|]. destruct Ht as [->|(ev & -> & Hev)]; [done|].
    constructor; [by apply Hf|done]. }
  destruct o as [[e|]|]; simpl in Hall; eauto.
Qed.

Lemma config_sets_up kv (o : option gerror) evs :
  (evs = [] /\ o <> Some None \/
   exists err ev, o = Some err /\ evs = [ev] /\ config_written kv err ev) -> Forall sets_up evs.
Proof.
  intros [[-> _]|(err & ev & _ & -> & (cm & y & _ & _ & Hev))]; [done|].
  constructor; [|done]. by destruct Hev as [-> | ->].
Qed.

Lemma scale_up_trace kv :
  traces (K := K) (scale_up kv) (fun _ evs => Forall sets_up evs).
Proof.
  unfold scale_up. eapply traces_bind; [apply UpdateConfigMap_trace| |].
  { intros evs. apply config_sets_up. }
  intros err evs Hcfg%config_sets_up.
  destruct err; [apply traces_ret; by rewrite app_nil_r|].
  eapply (traces_bind _ _ (fun _ evs => Forall sets_up evs)).
  { eapply traces_conseq; [apply SpinUpShardIngresses_trace|]. intros o evs'.
    apply made_all_sets_up; [by intros i ev (g & _ & _ & ->)|by intros ev (g & e & ->)]. }
  { intros evs' ?. by apply Forall_app. }
  intros err evs1 H1. destruct err; [apply traces_ret; rewrite app_nil_r; by apply Forall_app|].
  eapply (traces_bind _ _ (fun _ evs => Forall sets_up evs)).
  { eapply traces_conseq; [apply SpinUpShardServices_trace|]. intros o evs'.
    apply made_all_sets_up; [by intros i ev (g & _ & _ & ->)|by intros ev (g & e & ->)]. }
  { intros evs' ?. by repeat (apply Forall_app; split). }
  intros err evs2 H2.
  destruct err; [apply traces_ret; rewrite app_nil_r; by repeat (apply Forall_app; split)|].
  eapply (traces_bind _ _ (fun _ evs => Forall sets_up evs)).
  { eapply traces_conseq; [apply SpinUpShards_trace|]. intros o evs'.
    apply made_all_sets_up; [by intros i ev (m & _ & ->)|by intros ev (g & e & ->)]. }
  { intros evs' ?. by repeat (apply Forall_app; split). }
  intros err evs3 H3. destruct err; apply traces_ret; rewrite app_nil_r;
    by repeat (apply Forall_app; split).
Qed.

(** ** The whole run *)

Lemma sets_up_permitted kv evs :
  st_Phase (ks_Status kv) = PhaseNormal -> Forall sets_up evs ->
  Forall (fun ev => permitted kv ev /\ silent ev) evs.
Proof.
  intros Hn Hall. eapply Forall_impl; [exact Hall|].
  intros [] Hev; simpl in Hev; try done; (split; [simpl; auto|done]).
Qed.

(** What follows the status that has just been begun. *)
Lemma begun_disciplined kv kv' kv1 r n t evs1 evs2 :
  st_Phase (ks_Status kv) = PhaseNormal -> n <> spec_Shards (ks_Spec kv) ->
  ks_Status kv1 = begun kv n t -> ks_Status kv' = ks_Status kv1 ->
  ks_Spec kv' = ks_Spec kv -> Forall sets_up evs1 -> disciplined kv' evs2 ->
  disciplined kv (UpdateStatus kv1 r :: evs1 ++ evs2).
Proof.
  intros Hn Hne Hkv1 Hkv' Hspec Hup [Hp Hf]. apply (sets_up_permitted kv) in Hup; [|done].
  apply Forall_and in Hup as [Hperm Hsil]. split.
  - change (path (spec_Shards (ks_Spec kv)) (ks_Status kv) (ks_Status kv1 :: statuses (evs1 ++ evs2))).
    rewrite statuses_app, (statuses_silent evs1 Hsil). split.
    + rewrite Hkv1. by apply tr_begin.
    + by rewrite <- Hkv', <- Hspec.
  - constructor; [done|]. apply Forall_app. split; [done|].
    eapply Forall_impl; [exact Hf|].
    intros ev. unfold permitted. rewrite Hkv', Hkv1, Hn. simpl.
    by destruct ev; intuition.
Qed.

Lemma reconcile_disciplined name kv :
  traces (reconcile_store (K := K) fuel name kv) (fun _ evs => disciplined kv evs).
Proof.
  unfold reconcile_store. apply traces_call_bind. intros _ _ [items|e] _.
  2:{ apply traces_ret. by split; [|repeat constructor]. }
  assert (Hgo : forall evs evs', Forall (fun ev => permitted kv ev /\ silent ev) evs ->
    disciplined kv evs' -> disciplined kv (ListShards (Ok items) :: evs ++ evs')).
  { intros evs evs' Hevs. apply (disciplined_app kv (_ :: evs)). by constructor. }
  eapply traces_bind; [apply sync_replicas_trace| |].
  { intros evs Hevs. rewrite <- (app_nil_r evs). apply Hgo; [done|apply disciplined_nil]. }
  intros [result|] evs Hevs; [apply traces_ret, Hgo; [done|apply disciplined_nil]|].
  assert (Hd : traces (dispatch fuel kv)
    (fun _ evs' => disciplined kv (ListShards (Ok items) :: evs ++ evs'))).
  { eapply traces_conseq; [apply dispatch_disciplined|]. auto. }
  case_decide as Hn; [|exact Hd]. repeat case_decide; [| |exact Hd].
  - apply begin_scale_trace. intros t kv' kv1 r Hkv1 Hkv' Hspec.
    eapply traces_conseq; [apply scale_up_trace|]. intros o evs' Hup. apply Hgo; [done|].
    rewrite <- (app_nil_r evs').
    eapply begun_disciplined; [done| |exact Hkv1|exact Hkv'|exact Hspec|done|apply disciplined_nil]. lia.
  - apply begin_scale_trace. intros t kv' kv1 r Hkv1 Hkv' Hspec.
    assert (Hbeg : forall evs1 evs2, Forall sets_up evs1 -> disciplined kv' evs2 ->
      disciplined kv (ListShards (Ok items) :: evs ++ UpdateStatus kv1 r :: evs1 ++ evs2)).
    { intros evs1 evs2 Hone Htwo. apply Hgo; [done|].
      eapply begun_disciplined; [done| |exact Hkv1|exact Hkv'|exact Hspec|done|done]. lia. }
    eapply traces_bind; [apply UpdateConfigMap_trace| |].
    + intros evs1 Hup%config_sets_up. rewrite <- (app_nil_r evs1).
      apply Hbeg; [done|apply disciplined_nil].
    + intros [e|] evs1 Hup%config_sets_up.
      * apply traces_ret, Hbeg; [done|apply disciplined_nil].
      * eapply traces_conseq; [apply dispatch_disciplined|]. auto.
Qed.

(** ** Leaving the phases in which shards are asked *)

(** Asking the shards writes no status. *)
Lemma statuses_asking {A} (Ev : string -> res A -> event) r calls w :
  (forall t a, silent (Ev t a)) -> Forall (asked Ev) calls ->
  statuses (ListShards r :: calls ++ w) = statuses w.
Proof.
  intros HEv Hc. change (ListShards r :: calls ++ w) with ((ListShards r :: calls) ++ w).
  rewrite statuses_app, (statuses_silent (_ :: calls)); [done|].
  constructor; [done|]. eapply Forall_impl; [exact Hc|]. by intros ev (t & a & ->).
Qed.

Lemma total_zero ns :
  Forall (fun n => 0 <= n)%Z ns -> total ns = 0%Z -> Forall (fun n => n = 0%Z) ns.
Proof.
  intros Hpos Hz. assert (Hsum : (total ns <= 0)%Z) by lia. clear Hz.
  induction Hpos as [|n ns Hn Hpos IH]; [constructor|]. simpl in Hsum.
  assert (0 <= total ns)%Z by (clear -Hpos; induction Hpos; simpl; lia).
  constructor; [lia|]. apply IH. lia.
Qed.

(** The calls of a run of [RedistributeKeys] that tries to enter the next phase. *)
Lemma RedistributeKeys_finalizes kv c c' o s :
  RedistributeKeys fuel kv c = (c', o) ->
  st_Phase (ks_Status kv) = PhaseRedistributingKeys ->
  exists evs, c_log c' = c_log c ++ evs /\
    (s ∈ statuses evs -> st_Phase s = PhaseFinalizingScale ->
     exists r ns kv' a,
       evs = ListShards r :: answers (listed r) ns ++ [UpdateStatus kv' a] /\
       length ns = length (listed r) /\ ks_Status kv' = s /\ total ns = 0%Z).
Proof.
  intros Hrun Hph. destruct (RedistributeKeys_trace fuel kv c c' o Hrun)
    as (evs & Hlog & r & calls & w & -> & Hc & Hw). exists (ListShards r :: calls ++ w).
  split; [done|]. intros Hs Hsp. rewrite (statuses_asking CallRedistributeKeys _ _ _ (fun _ _ => eq_refl) Hc) in Hs.
  destruct Hw as [[->|(msg & a & ->)]|(ns & Hlen & -> & Hz & (msg & t & a & ->))].
  - by apply elem_of_nil in Hs.
  - apply list_elem_of_singleton in Hs as ->. simpl in Hsp. rewrite Hph in Hsp. discriminate.
  - apply list_elem_of_singleton in Hs as ->. by eexists r, ns, _, _.
Qed.

End run.
