(* ===== verification/ControllerProgress.v ===== *)
(** * A scaling operation in a cluster that cooperates

    If the API server answers, shards are ready, pause, report no pending keys and
    resume, then each run of [Reconcile] enters the next phase, and a scaling
    operation is over after five of them. *)

From S2P Require Import Prelude Protos KVStore Shard Kube Controller ControllerTrace.
From S2P Require Import ControllerSpec.

(** [coop m kv l k]: the cluster [k] cooperates and holds the resource [kv] with the
    stateful sets [l], all of them ready. The API server leaves the mode [m] alone, which
    stands for whatever else there is in the cluster. *)
Class CooperativeServer `{!KubeTypes} (K : Type) `{!Kube K} := {
  mode : Type;
  coop : mode -> KVStore -> list StatefulSet -> K -> Prop;
  coop_ready : forall m kv l k, coop m kv l k ->
    Forall (fun s => ready s /\ sts_Replicas s = Some (spec_Replicas (ks_Spec kv))) l;
  coop_get : forall m kv l k, coop m kv l k ->
    exists k', get_KVStore (ks_namespace kv) (ks_name kv) k = (k', Ok kv) /\ coop m kv l k';
  coop_list : forall m kv l k, coop m kv l k ->
    exists k', list_StatefulSets (ks_namespace kv) (ks_name kv) k = (k', Ok l) /\
      coop m kv l k';
  coop_list_ingresses : forall m kv l k, coop m kv l k ->
    exists k' i, list_Ingresses (ks_namespace kv) (ks_name kv) k = (k', Ok i) /\
      coop m kv l k';
  coop_list_services : forall m kv l k, coop m kv l k ->
    exists k' s, list_Services (ks_namespace kv) (ks_name kv) k = (k', Ok s) /\
      coop m kv l k';
  coop_status : forall m kv l s k, coop m kv l k ->
    exists k' kv', update_Status (set_status s kv) k = (k', Ok kv') /\ coop m kv' l k' /\
      ks_Status kv' = s /\ ks_name kv' = ks_name kv /\ ks_namespace kv' = ks_namespace kv;
  coop_now : forall m kv l k, coop m kv l k -> coop m kv l (metav1_Now k).1;
  coop_yaml : forall c, is_ok (yaml_Marshal c) = true;
  coop_config : forall m kv l k, coop m kv l k ->
    exists k' cm, get_ConfigMap (ks_namespace kv) (ks_name kv +:+ "-config") k = (k', Ok cm) /\
      coop m kv l k';
  coop_write_config : forall m kv l cm k, coop m kv l k ->
    exists k', update_ConfigMap cm k = (k', None) /\ coop m kv l k';
  coop_delete_sts : forall m kv l s k, coop m kv l k ->
    exists k', delete_StatefulSet s k = (k', None) /\
      coop m kv (filter (fun x => om_Name (sts_meta x) <> om_Name (sts_meta s)) l) k';
  coop_delete_ing : forall m kv l s k, coop m kv l k ->
    exists k', delete_Ingress s k = (k', None) /\ coop m kv l k';
  coop_delete_svc : forall m kv l s k, coop m kv l k ->
    exists k', delete_Service s k = (k', None) /\ coop m kv l k'
}.

(** Shards can be dialled. *)
Class CooperativeDial `{!KubeTypes} (K : Type) `{!Kube K, !CooperativeServer K} : Prop := {
  coop_dial : forall m kv l t k, coop m kv l k ->
    exists k', kube_Dial t k = (k', None) /\ coop m kv l k'
}.

(** Shards do what they are asked at once. *)
Class Cooperative `{!KubeTypes} (K : Type) `{!Kube K, !CooperativeServer K} : Prop := {
  coop_pause : forall m kv l s k, coop m kv l k -> s ∈ l ->
    exists k', rpc_PauseWrites (shard_target s) mkPauseWritesRequest k =
      (k', Ok {| pw_IsPaused := true |}) /\ coop m kv l k';
  coop_redistribute : forall m kv l s k, coop m kv l k -> s ∈ l ->
    exists k', rpc_RedistributeKeys (shard_target s) mkRedistributeKeysRequest k =
      (k', Ok {| rk_PendingKeys := 0 |}) /\ coop m kv l k';
  coop_resume : forall m kv l s k, coop m kv l k -> s ∈ l ->
    exists k', rpc_ResumeWrites (shard_target s) mkResumeWritesRequest k =
      (k', Ok {| rw_IsResumed := true |}) /\ coop m kv l k'
}.

(** ** Runs that return *)

Section goes.
Context `{!KubeTypes} {K : Type} `{!Kube K}.
Implicit Types (c : Ctl K) (Q : K -> Prop).

(** [m] returns [a] in a cluster with [Q]. *)
Definition goes {A} (m : M (Ctl K) A) c (a : A) Q : Prop :=
  exists c', m c = (c', Ret a) /\ Q (c_env c').

Lemma goes_bind {A B} (m : M (Ctl K) A) (f : A -> M (Ctl K) B) c a b Q Q' :
  goes m c a Q -> (forall c', Q (c_env c') -> goes (f a) c' b Q') ->
  goes (bind m f) c b Q'.
Proof.
  intros (c1 & Hm & Hk) Hf. destruct (Hf c1 Hk) as (c' & Hrun & Hk').
  exists c'. split; [|done]. by rewrite (bind_Ret _ _ _ _ _ Hm).
Qed.

Lemma goes_ret {A} (a : A) c Q : Q (c_env c) -> goes (ret a) c a Q.
Proof. intros Hk. by exists c. Qed.

Lemma goes_query {A} (f : K -> K * A) c a Q :
  (exists k', f (c_env c) = (k', a) /\ Q k') -> goes (query f) c a Q.
Proof. intros (k' & Hf & Hk). unfold goes, query. rewrite Hf. by eexists. Qed.

Lemma goes_call {A} ev (f : K -> K * A) c a Q :
  (exists k', f (c_env c) = (k', a) /\ Q k') -> goes (call ev f) c a Q.
Proof. intros (k' & Hf & Hk). unfold goes, call. rewrite Hf. by eexists. Qed.

(** A loop over a list whose body always goes on; [Q] may depend on the part of the list
    that is done. *)
Lemma goes_for_return {A R} (l : list A) (body : A -> M (Ctl K) (option R)) c
    (Q : list A -> K -> Prop) :
  (forall pre x post c, l = pre ++ x :: post -> Q pre (c_env c) ->
     goes (body x) c None (Q (pre ++ [x]))) ->
  Q [] (c_env c) -> goes (for_return l body) c None (Q l).
Proof.
  intros Hb. cut (forall pre post c, l = pre ++ post -> Q pre (c_env c) ->
    goes (for_return post body) c None (Q l)); [intros Hcut; by apply (Hcut [])|].
  intros pre post. revert pre. induction post as [|x post IH]; intros pre c0 Hl Hk; simpl.
  - apply goes_ret. by rewrite Hl, app_nil_r.
  - eapply goes_bind; [by eapply Hb|]. intros c1 Hk1.
    apply (IH (pre ++ [x])); [by rewrite <- app_assoc|done].
Qed.

End goes.

Section progress.
Context `{!KubeTypes} {K : Type} `{!Kube K, !CooperativeServer K} (fuel : nat).
Implicit Types (kv : KVStore) (c : Ctl K) (m : mode) (l : list StatefulSet).

Lemma goes_GetShards m kv l c :
  coop m kv l (c_env c) -> goes (GetShards kv) c l (coop m kv l).
Proof.
  intros Hk. eapply goes_bind; [apply goes_call, (coop_list m kv l _ Hk)|].
  intros c' Hc'. by apply goes_ret.
Qed.

(** Writing a status. *)
Lemma goes_status m kv l s c :
  coop m kv l (c_env c) ->
  exists kv', goes (return_status (set_status s kv)) c None (coop m kv' l) /\
    ks_Status kv' = s /\ ks_name kv' = ks_name kv /\ ks_namespace kv' = ks_namespace kv.
Proof.
  intros Hk. destruct (coop_status m kv l s _ Hk) as (k' & kv' & Hup & Hk' & Hs & Hn & Hns).
  exists kv'. split; [|done]. unfold goes, return_status, status_update, bind, call, ret.
  rewrite Hup. by eexists.
Qed.

(** Entering a phase and writing it. *)
Lemma goes_enter m kv0 kv l ph msg c :
  coop m kv l (c_env c) -> (exists s, kv0 = set_status s kv) ->
  exists t kv', goes (kv1 <- enter_phase ph msg kv0 ;; return_status kv1) c None (coop m kv' l) /\
    ks_Status kv' = entered ph msg t (ks_Status kv0) /\
    ks_name kv' = ks_name kv /\ ks_namespace kv' = ks_namespace kv.
Proof.
  intros Hk [s ->]. pose proof (coop_now m kv l (c_env c) Hk) as Hk1.
  destruct (metav1_Now (c_env c)) as [k1 t] eqn:Ht. simpl in Hk1.
  destruct (goes_status m kv l (entered ph msg t s) {| c_env := k1; c_log := c_log c |} Hk1)
    as (kv' & Hgo & Hs & Hn & Hns).
  exists t, kv'. split; [|done]. destruct Hgo as (c' & Hrun & Hc'). exists c'. split; [|done].
  erewrite bind_Ret; [exact Hrun|]. unfold enter_phase, bind, query. by rewrite Ht.
Qed.

Hypothesis fuel_pos : fuel <> 0%nat.

Lemma goes_UpdateConfigMap m kv0 kv l c :
  coop m kv l (c_env c) -> (exists s, kv0 = set_status s kv) ->
  goes (UpdateConfigMap kv0) c None (coop m kv l).
Proof.
  intros Hk [s ->]. unfold UpdateConfigMap. pose proof (coop_yaml (build_config (set_status s kv))) as Hy.
  destruct (yaml_Marshal _) as [y|]; [|done].
  destruct (coop_config m kv l (c_env c) Hk) as (k' & cm & Hg & Hk').
  eapply goes_bind; [apply goes_query; eauto|]. intros c1 Hk1.
  apply goes_call. by apply coop_write_config.
Qed.

(** ** One run of [Reconcile] outside the normal phase *)

(** The status that the next run writes. *)
Definition next (s : KVStoreStatus) : RedistributionPhase * Z :=
  let ph := st_Phase s in
  if decide (ph = PhasePreparingScale) then
    if decide (st_CurrentShards s = 0%Z) then (PhaseNormal, st_TargetShards s)
    else (PhaseStoppingWrites, st_CurrentShards s)
  else if decide (ph = PhaseStoppingWrites) then (PhaseRedistributingKeys, st_CurrentShards s)
  else if decide (ph = PhaseRedistributingKeys) then (PhaseFinalizingScale, st_CurrentShards s)
  else if decide (ph = PhaseFinalizingScale) then (PhaseResumingWrites, st_TargetShards s)
  else (PhaseNormal, st_TargetShards s).

(** The resource after a handler that advanced it. *)
Definition advanced (kv kv' : KVStore) : Prop :=
  (st_Phase (ks_Status kv'), st_CurrentShards (ks_Status kv')) = next (ks_Status kv) /\
  st_TargetShards (ks_Status kv') = st_TargetShards (ks_Status kv) /\
  ks_name kv' = ks_name kv /\ ks_namespace kv' = ks_namespace kv.

(** The resource after a handler that has to wait. *)
Definition waited (kv kv' : KVStore) : Prop :=
  (st_Phase (ks_Status kv'), st_CurrentShards (ks_Status kv')) =
    (st_Phase (ks_Status kv), st_CurrentShards (ks_Status kv)) /\
  st_TargetShards (ks_Status kv') = st_TargetShards (ks_Status kv) /\
  ks_name kv' = ks_name kv /\ ks_namespace kv' = ks_namespace kv.

(** A phase of a scaling operation. *)
Definition scaling (ph : RedistributionPhase) : Prop :=
  ph = PhasePreparingScale \/ ph = PhaseStoppingWrites \/ ph = PhaseRedistributingKeys \/
  ph = PhaseFinalizingScale \/ ph = PhaseResumingWrites.

Lemma at_target_status kv : exists s, at_target kv = set_status s kv.
Proof. by eexists. Qed.

Lemma same_status kv : exists s, kv = set_status s kv.
Proof. exists (ks_Status kv). by destruct kv. Qed.

Lemma goes_PrepareScale m kv l c :
  coop m kv l (c_env c) -> st_Phase (ks_Status kv) = PhasePreparingScale ->
  exists kv', goes (PrepareScale kv) c None (coop m kv' l) /\ advanced kv kv'.
Proof.
  intros Hk Hph. unfold PrepareScale.
  destruct (goes_GetShards m kv l c Hk) as (c1 & Hl & Hk1).
  assert (Hw : goes (for_return l (fun shard =>
    replicas <- deref_replicas shard ;;
    if decide (sts_ReadyReplicas shard <> replicas) then
      e <- return_status (with_message "Waiting for shards to be ready" kv) ;; ret (Some e)
    else ret None)) c1 None (coop m kv l)).
  { apply (goes_for_return l _ c1 (fun _ => coop m kv l)); [|done]. intros pre s post c2 Heq Hk2.
    pose proof (coop_ready m kv l _ Hk) as Hall. rewrite Forall_forall in Hall.
    destruct (Hall s) as [Hr _]; [rewrite Heq; set_solver|]. unfold ready in Hr.
    exists c2. split; [|done]. unfold deref_replicas. rewrite Hr.
    unfold bind, ret. by rewrite decide_False by auto. }
  destruct Hw as (c2 & Hw & Hk2).
  destruct (decide (st_CurrentShards (ks_Status kv) = 0%Z)) as [Hz|Hz].
  - destruct (goes_enter m (at_target kv) kv l PhaseNormal "Ready" c2 Hk2 (at_target_status kv))
      as (t & kv' & Hgo & Hs & Hn & Hns).
    exists kv'. split; [|unfold advanced, next; rewrite Hs, Hph, decide_True by done;
      by rewrite decide_True by done].
    destruct Hgo as (c3 & Hrun & Hk3). exists c3. split; [|done].
    rewrite (bind_Ret _ _ _ _ _ Hl), (bind_Ret _ _ _ _ _ Hw). exact Hrun.
  - destruct (goes_enter m kv kv l PhaseStoppingWrites "Starting to disable writes" c2 Hk2
      (same_status kv)) as (t & kv' & Hgo & Hs & Hn & Hns).
    exists kv'. split; [|unfold advanced, next; rewrite Hs, Hph, decide_True by done;
      by rewrite decide_False by done].
    destruct Hgo as (c3 & Hrun & Hk3). exists c3. split; [|done].
    rewrite (bind_Ret _ _ _ _ _ Hl), (bind_Ret _ _ _ _ _ Hw). exact Hrun.
Qed.

Section asking.
Context `{!CooperativeDial K}.

Lemma goes_GetShardClient m kv l shard c :
  coop m kv l (c_env c) -> goes (GetShardClient fuel shard) c (shard_target shard) (coop m kv l).
Proof.
  intros Hk. unfold GetShardClient. destruct fuel as [|n]; [done|]. simpl.
  eapply goes_bind.
  - eapply goes_bind; [apply goes_query, (coop_dial m kv l _ _ Hk)|].
    intros c' Hc'. by apply goes_ret.
  - intros c' Hc'. by apply goes_ret.
Qed.

(** Asking every shard; the mode may change from call to call. *)
Lemma goes_ask {Resp} (Ev : string -> res Resp -> event) rpc test failed waiting kv resp l
    (ms : list StatefulSet -> mode) c :
  (forall pre s post k, l = pre ++ s :: post -> coop (ms pre) kv l k ->
     exists k', rpc (shard_target s) k = (k', Ok resp) /\ coop (ms (pre ++ [s])) kv l k') ->
  test resp = true -> coop (ms []) kv l (c_env c) ->
  goes (for_return l (ask fuel Ev rpc test failed waiting kv)) c None (coop (ms l) kv l).
Proof.
  intros Hrpc Ht. apply (goes_for_return l _ c (fun pre => coop (ms pre) kv l)).
  intros pre s post c1 Heq Hk. unfold ask.
  eapply goes_bind; [by apply goes_GetShardClient|]. intros c2 Hk2.
  eapply goes_bind; [apply goes_call, (Hrpc pre s post _ Heq Hk2)|].
  intros c3 Hk3. simpl. rewrite Ht. by apply goes_ret.
Qed.

Lemma goes_StopWrites (ms : list StatefulSet -> mode) kv l c :
  (forall pre s post k, l = pre ++ s :: post -> coop (ms pre) kv l k ->
     exists k', rpc_PauseWrites (shard_target s) mkPauseWritesRequest k =
       (k', Ok {| pw_IsPaused := true |}) /\ coop (ms (pre ++ [s])) kv l k') ->
  coop (ms []) kv l (c_env c) -> st_Phase (ks_Status kv) = PhaseStoppingWrites ->
  exists kv', goes (StopWrites fuel kv) c None (coop (ms l) kv' l) /\ advanced kv kv'.
Proof.
  intros Hrpc Hk Hph. destruct (goes_GetShards _ kv l c Hk) as (c1 & Hl & Hk1).
  destruct (goes_ask CallPauseWrites (fun t => rpc_PauseWrites t mkPauseWritesRequest) pw_IsPaused
    (fun err => "Failed to pause writes: " +:+ Error err +:+ ". Retrying")
    "Waiting for shards to pause writes" kv {| pw_IsPaused := true |} l ms c1 Hrpc eq_refl Hk1)
    as (c2 & Hw & Hk2).
  destruct (goes_enter _ kv kv l PhaseRedistributingKeys "Starting to redistribute keys" c2 Hk2
    (same_status kv)) as (t & kv' & (c3 & Hrun & Hk3) & Hs & Hn & Hns).
  exists kv'. split; [|unfold advanced, next; rewrite Hs, Hph; done].
  exists c3. split; [|done]. unfold StopWrites.
  rewrite (bind_Ret _ _ _ _ _ Hl). by rewrite (bind_Ret _ _ _ _ _ Hw).
Qed.

Lemma goes_ResumeWrites (ms : list StatefulSet -> mode) kv l c :
  (forall pre s post k, l = pre ++ s :: post -> coop (ms pre) kv l k ->
     exists k', rpc_ResumeWrites (shard_target s) mkResumeWritesRequest k =
       (k', Ok {| rw_IsResumed := true |}) /\ coop (ms (pre ++ [s])) kv l k') ->
  coop (ms []) kv l (c_env c) -> st_Phase (ks_Status kv) = PhaseResumingWrites ->
  exists kv', goes (ResumeWrites fuel kv) c None (coop (ms l) kv' l) /\ advanced kv kv'.
Proof.
  intros Hrpc Hk Hph. destruct (goes_GetShards _ kv l c Hk) as (c1 & Hl & Hk1).
  destruct (goes_ask CallResumeWrites (fun t => rpc_ResumeWrites t mkResumeWritesRequest) rw_IsResumed
    (fun err => "Failed to resume writes: " +:+ Error err +:+ ". Retrying")
    "Waiting for shards to resume writes" kv {| rw_IsResumed := true |} l ms c1 Hrpc eq_refl Hk1)
    as (c2 & Hw & Hk2).
  destruct (goes_enter _ (at_target kv) kv l PhaseNormal "Ready" c2 Hk2 (at_target_status kv))
    as (t & kv' & (c3 & Hrun & Hk3) & Hs & Hn & Hns).
  exists kv'. split; [|unfold advanced, next; rewrite Hs, Hph; done].
  exists c3. split; [|done]. unfold ResumeWrites.
  rewrite (bind_Ret _ _ _ _ _ Hl). by rewrite (bind_Ret _ _ _ _ _ Hw).
Qed.

(** Shards that report the numbers [pend] of pending keys. *)
Definition pending_sum (pend : StatefulSet -> Z) (l : list StatefulSet) : Z :=
  foldr (fun s n => pend s + n)%Z 0%Z l.

Lemma goes_sum_pending (ms : list StatefulSet -> mode) (pend : StatefulSet -> Z) kv l c :
  (forall pre s post k, l = pre ++ s :: post -> coop (ms pre) kv l k ->
     exists k', rpc_RedistributeKeys (shard_target s) mkRedistributeKeysRequest k =
       (k', Ok {| rk_PendingKeys := pend s |}) /\ coop (ms (pre ++ [s])) kv l k') ->
  coop (ms []) kv l (c_env c) ->
  goes (sum_pending fuel kv l 0) c (inl (pending_sum pend l)) (coop (ms l) kv l).
Proof.
  intros Hrpc. cut (forall pre post acc c, l = pre ++ post -> coop (ms pre) kv l (c_env c) ->
    goes (sum_pending fuel kv post acc) c (inl (acc + pending_sum pend post)%Z)
      (coop (ms l) kv l)); [intros Hcut; by apply (Hcut [])|].
  intros pre post. revert pre. induction post as [|s post IH]; intros pre acc c0 Hl Hk; simpl.
  - rewrite Z.add_0_r. apply goes_ret. by rewrite Hl, app_nil_r in *.
  - eapply goes_bind; [by apply goes_GetShardClient|]. intros c1 Hk1.
    eapply goes_bind; [apply goes_call, (Hrpc pre s post _ Hl Hk1)|]. intros c2 Hk2. simpl.
    rewrite Z.add_assoc. apply (IH (pre ++ [s])); [by rewrite <- app_assoc|done].
Qed.

(** The operation goes on exactly if nothing is pending. *)
Lemma goes_RedistributeKeys (ms : list StatefulSet -> mode) (pend : StatefulSet -> Z) kv l c :
  (forall pre s post k, l = pre ++ s :: post -> coop (ms pre) kv l k ->
     exists k', rpc_RedistributeKeys (shard_target s) mkRedistributeKeysRequest k =
       (k', Ok {| rk_PendingKeys := pend s |}) /\ coop (ms (pre ++ [s])) kv l k') ->
  coop (ms []) kv l (c_env c) -> st_Phase (ks_Status kv) = PhaseRedistributingKeys ->
  exists kv', goes (RedistributeKeys fuel kv) c None (coop (ms l) kv' l) /\
    if decide (pending_sum pend l = 0%Z) then advanced kv kv' else waited kv kv'.
Proof.
  intros Hrpc Hk Hph. destruct (goes_GetShards _ kv l c Hk) as (c1 & Hl & Hk1).
  destruct (goes_sum_pending ms pend kv l c1 Hrpc Hk1) as (c2 & Hw & Hk2).
  unfold RedistributeKeys. case_decide as Hz.
  - destruct (goes_enter _ kv kv l PhaseFinalizingScale "Starting to finalize scaling operation"
      c2 Hk2 (same_status kv)) as (t & kv' & (c3 & Hrun & Hk3) & Hs & Hn & Hns).
    exists kv'. split; [|unfold advanced, next; rewrite Hs, Hph; done].
    exists c3. split; [|done]. rewrite (bind_Ret _ _ _ _ _ Hl), (bind_Ret _ _ _ _ _ Hw).
    by rewrite decide_True.
  - destruct (goes_status _ kv l (set_Message ("Pending keys to be redistributed: " +:+
      itoa (pending_sum pend l)) (ks_Status kv)) c2 Hk2) as (kv' & (c3 & Hrun & Hk3) & Hs & Hn & Hns).
    exists kv'. split; [|unfold waited; rewrite Hs; done].
    exists c3. split; [|done]. rewrite (bind_Ret _ _ _ _ _ Hl), (bind_Ret _ _ _ _ _ Hw).
    by rewrite decide_False.
Qed.

End asking.

(** ** Deleting surplus shards *)

(** The names of the sets that [FinalizeScale] deletes. *)
Definition surplus_names kv l : list string :=
  map (fun s => om_Name (sts_meta s))
    (filter (fun s => group_of (sts_meta s) ∈ groupsToBeDeleted kv) l).

(** The sets that are left. *)
Definition surviving kv l : list StatefulSet :=
  if decide (st_TargetShards (ks_Status kv) > st_CurrentShards (ks_Status kv))%Z then l
  else filter (fun s => om_Name (sts_meta s) ∉ surplus_names kv l) l.

Lemma surviving_sub kv l s : s ∈ surviving kv l -> s ∈ l.
Proof. unfold surviving. case_decide; [done|]. by intros [_ ?]%list_elem_of_filter. Qed.

(** A set whose group is not to be deleted stays, if names are unique. *)
Lemma surviving_stays kv l s :
  NoDup (map (fun s => om_Name (sts_meta s)) l) -> s ∈ l ->
  group_of (sts_meta s) ∉ groupsToBeDeleted kv -> s ∈ surviving kv l.
Proof.
  intros Hnd Hs Hg. unfold surviving. case_decide; [done|].
  apply list_elem_of_filter. split; [|done]. unfold surplus_names.
  intros (s' & Hn & [Hg' Hs']%list_elem_of_filter)%list_elem_of_fmap.
  apply Hg. replace s with s'; [done|]. clear -Hnd Hs Hs' Hn.
  induction l as [|x l IH]; [by apply elem_of_nil in Hs|].
  cbn [map] in Hnd. apply NoDup_cons in Hnd as [Hx Hnd].
  apply elem_of_cons in Hs as [->|Hs], Hs' as [->|Hs']; try done.
  - destruct Hx. apply list_elem_of_fmap. by exists s'.
  - destruct Hx. apply list_elem_of_fmap. by exists s.
  - by apply IH.
Qed.

(** Deleting some sets of [shards], one by one. *)
Lemma goes_delete_sts m kv l groups shards c :
  coop m kv l (c_env c) ->
  goes (delete_groups groups sts_meta
      (fun s => call (DeleteStatefulSet s) (delete_StatefulSet s)) shards) c None
    (coop m kv (filter (fun s => om_Name (sts_meta s) ∉
       map (fun s => om_Name (sts_meta s))
         (filter (fun s => group_of (sts_meta s) ∈ groups) shards)) l)).
Proof.
  intros Hk. unfold delete_groups.
  apply (goes_for_return shards _ c (fun pre => coop m kv
    (filter (fun s => om_Name (sts_meta s) ∉ map (fun s => om_Name (sts_meta s))
       (filter (fun s => group_of (sts_meta s) ∈ groups) pre)) l))).
  - intros pre s post c1 _ Hk1. rewrite filter_app. case_decide as Hg.
    + rewrite filter_cons_True, filter_nil by done. apply goes_call.
      destruct (coop_delete_sts m kv _ s _ Hk1) as (k' & Hd & Hk'). exists k'. split; [done|].
      rewrite list_filter_filter in Hk'. erewrite list_filter_iff; [exact Hk'|].
      intros x. rewrite map_app, elem_of_app. simpl. rewrite list_elem_of_singleton. tauto.
    + rewrite filter_cons_False, filter_nil, app_nil_r by done. by apply goes_ret.
  - simpl. rewrite list_filter_all; [done|]. intros x _. apply not_elem_of_nil.
Qed.

Lemma goes_delete_groups {A} groups meta (Ev : A -> gerror -> event) del xs Q c :
  (forall x k, Q k -> exists k', del x k = (k', None) /\ Q k') ->
  Q (c_env c) ->
  goes (delete_groups groups meta (fun x => call (Ev x) (del x)) xs) c None Q.
Proof.
  intros Hd. apply (goes_for_return xs _ c (fun _ => Q)). intros pre x post c1 _ Hk. case_decide.
  - by apply goes_call, Hd.
  - by apply goes_ret.
Qed.

Lemma goes_finish_scale m kv l c :
  coop m kv l (c_env c) -> st_Phase (ks_Status kv) = PhaseFinalizingScale ->
  exists kv', goes (finish_scale kv) c None (coop m kv' l) /\ advanced kv kv'.
Proof.
  intros Hk Hph. pose proof (coop_now m kv l (c_env c) Hk) as Hk1.
  destruct (metav1_Now (c_env c)) as [k1 t] eqn:Ht. simpl in Hk1.
  set (s1 := entered PhaseResumingWrites "Starting to resume writes" t (reached (ks_Status kv))).
  destruct (goes_UpdateConfigMap m (set_status s1 kv) kv l {| c_env := k1; c_log := c_log c |} Hk1)
    as (c2 & Hcfg & Hk2); [by eexists|].
  destruct (goes_status m kv l s1 c2 Hk2) as (kv' & (c3 & Hup & Hk3) & Hs & Hn & Hns).
  exists kv'. split; [|unfold advanced, next; rewrite Hs, Hph; done].
  exists c3. split; [|done]. unfold finish_scale.
  assert (He : enter_phase PhaseResumingWrites "Starting to resume writes"
    (with_shards (st_TargetShards (ks_Status kv)) (st_TargetShards (ks_Status kv)) kv) c =
    ({| c_env := k1; c_log := c_log c |}, Ret (set_status s1 kv))).
  { unfold enter_phase, bind, query. by rewrite Ht. }
  by rewrite (bind_Ret _ _ _ _ _ He), (bind_Ret _ _ _ _ _ Hcfg).
Qed.

Lemma goes_FinalizeScale m kv l c :
  coop m kv l (c_env c) -> st_Phase (ks_Status kv) = PhaseFinalizingScale ->
  exists kv', goes (FinalizeScale kv) c None (coop m kv' (surviving kv l)) /\ advanced kv kv'.
Proof.
  intros Hk Hph. unfold FinalizeScale, surviving, surplus_names.
  case_decide; [by apply goes_finish_scale|].
  destruct (goes_GetShards m kv l c Hk) as (c1 & Hl & Hk1).
  destruct (goes_delete_sts m kv l (groupsToBeDeleted kv) l c1 Hk1) as (c2 & Hd2 & Hk2).
  set (l' := filter _ l) in *.
  destruct (coop_list_ingresses m kv l' (c_env c2) Hk2) as (k3 & li & Hli & Hk3).
  set (c3 := {| c_env := k3; c_log := c_log c2 |}).
  assert (Hgi : GetIngresses kv c2 = (c3, Ret li)).
  { unfold GetIngresses, bind, query. by rewrite Hli. }
  destruct (goes_delete_groups (groupsToBeDeleted kv) ing_meta DeleteIngress
    delete_Ingress li (coop m kv l') c3) as (c4 & Hd4 & Hk4);
    [by intros; apply coop_delete_ing|done|].
  destruct (coop_list_services m kv l' (c_env c4) Hk4) as (k5 & ls & Hls & Hk5).
  set (c5 := {| c_env := k5; c_log := c_log c4 |}).
  assert (Hgs : GetServices kv c4 = (c5, Ret ls)).
  { unfold GetServices, bind, query. by rewrite Hls. }
  destruct (goes_delete_groups (groupsToBeDeleted kv) svc_meta DeleteService
    delete_Service ls (coop m kv l') c5) as (c6 & Hd6 & Hk6);
    [by intros; apply coop_delete_svc|done|].
  destruct (goes_finish_scale m kv l' c6 Hk6 Hph) as (kv' & (c7 & Hrun & Hk7) & Hadv).
  exists kv'. split; [|done]. exists c7. split; [|done].
  rewrite (bind_Ret _ _ _ _ _ Hl), (bind_Ret _ _ _ _ _ Hd2), (bind_Ret _ _ _ _ _ Hgi).
  by rewrite (bind_Ret _ _ _ _ _ Hd4), (bind_Ret _ _ _ _ _ Hgs), (bind_Ret _ _ _ _ _ Hd6).
Qed.

(** ** From a handler to [Reconcile] *)

Lemma goes_sync_replicas m kv l c :
  coop m kv l (c_env c) -> goes (sync_replicas kv l) c None (coop m kv l).
Proof.
  intros Hk. apply (goes_for_return l _ c (fun _ => coop m kv l)); [|done].
  intros pre s post c1 Heq Hk1.
  pose proof (coop_ready m kv l _ Hk) as Hall. rewrite Forall_forall in Hall.
  destruct (Hall s) as [_ Hr]; [rewrite Heq; set_solver|].
  exists c1. split; [|done]. unfold deref_replicas. rewrite Hr.
  unfold bind, ret. by rewrite decide_False by auto.
Qed.

(** The handler of a phase. *)
Definition phase_handler (ph : RedistributionPhase) kv : M (Ctl K) gerror :=
  if decide (ph = PhasePreparingScale) then PrepareScale kv
  else if decide (ph = PhaseStoppingWrites) then StopWrites fuel kv
  else if decide (ph = PhaseRedistributingKeys) then RedistributeKeys fuel kv
  else if decide (ph = PhaseResumingWrites) then ResumeWrites fuel kv
  else if decide (ph = PhaseFinalizingScale) then FinalizeScale kv
  else ret None.

Lemma scaling_not_normal ph : scaling ph -> ph <> PhaseNormal.
Proof. by intros [-> | [-> | [-> | [-> | ->]]]]. Qed.

(** A run in a phase of a scaling operation is a run of the handler of the phase. *)
Lemma goes_Reconcile m kv l c Q :
  coop m kv l (c_env c) -> scaling (st_Phase (ks_Status kv)) ->
  (forall c', coop m kv l (c_env c') ->
     goes (phase_handler (st_Phase (ks_Status kv)) kv) c' None Q) ->
  goes (Reconcile fuel (ks_namespace kv) (ks_name kv)) c (requeue, None) Q.
Proof.
  intros Hk Hph%scaling_not_normal Hh. destruct (coop_get m kv l (c_env c) Hk) as (k1 & Hg & Hk1).
  destruct (coop_list m kv l k1 Hk1) as (k2 & Hl & Hk2).
  set (c2 := {| c_env := k2; c_log := c_log c ++ [ListShards (Ok l)] |}).
  destruct (goes_sync_replicas m kv l c2 Hk2) as (c3 & Hsync & Hk3).
  destruct (Hh c3 Hk3) as (c4 & Hrun & Hk4). exists c4. split; [|done].
  unfold Reconcile, bind at 1, query. rewrite Hg. unfold reconcile_store, bind at 1, call.
  simpl. rewrite Hl. rewrite (bind_Ret _ _ _ _ _ Hsync).
  rewrite decide_False by done. unfold dispatch. rewrite decide_False by done.
  unfold phase_handler in Hrun. by rewrite (bind_Ret _ _ _ _ _ Hrun).
Qed.

(** [n] runs in a row. *)
Fixpoint reconcile_n (n : nat) (namespace name : string) : M (Ctl K) unit :=
  match n with
  | O => ret tt
  | S n' => Reconcile fuel namespace name ;;; reconcile_n n' namespace name
  end.

(** The number of runs that a status is away from the end of the operation. *)
Definition runs_left (s : KVStoreStatus) : nat :=
  let ph := st_Phase s in
  if decide (ph = PhasePreparingScale) then
    if decide (st_CurrentShards s = 0%Z) then 1 else 5
  else if decide (ph = PhaseStoppingWrites) then 4
  else if decide (ph = PhaseRedistributingKeys) then 3
  else if decide (ph = PhaseFinalizingScale) then 2
  else if decide (ph = PhaseResumingWrites) then 1
  else 0.

Lemma advanced_runs_left kv kv' :
  scaling (st_Phase (ks_Status kv)) -> advanced kv kv' ->
  runs_left (ks_Status kv) = S (runs_left (ks_Status kv')) /\
  (scaling (st_Phase (ks_Status kv')) \/
   st_Phase (ks_Status kv') = PhaseNormal /\
   st_CurrentShards (ks_Status kv') = st_TargetShards (ks_Status kv)).
Proof.
  intros Hph (Hn & _). unfold next, runs_left, scaling in *.
  destruct Hph as [Hph|[Hph|[Hph|[Hph|Hph]]]]; rewrite Hph in *; simpl in *;
    try (destruct (decide (st_CurrentShards (ks_Status kv) = 0%Z)));
    injection Hn as -> ->; simpl; auto 10.
Qed.

Context `{!CooperativeDial K, !Cooperative K}.

(** The resource has been advanced. *)
Definition advances m kv (k : K) : Prop :=
  exists kv' l', coop m kv' l' k /\ advanced kv kv'.

Lemma goes_on m kv l c :
  coop m kv l (c_env c) -> scaling (st_Phase (ks_Status kv)) ->
  goes (Reconcile fuel (ks_namespace kv) (ks_name kv)) c (requeue, None) (advances m kv).
Proof.
  intros Hk Hph. apply (goes_Reconcile m kv l); [done|done|]. intros c' Hk'.
  assert (Hadv : forall h l', (exists kv', goes h c' (None : gerror) (coop m kv' l') /\ advanced kv kv') ->
    goes h c' None (advances m kv)).
  { intros h l' (kv' & (c1 & Hrun & Hc1) & Hkv'). exists c1. split; [done|]. by exists kv', l'. }
  assert (Hin : forall pre (s : StatefulSet) post, l = pre ++ s :: post -> s ∈ l) by set_solver.
  destruct Hph as [Hph|[Hph|[Hph|[Hph|Hph]]]]; rewrite Hph; unfold phase_handler; simpl.
  - by eapply Hadv, goes_PrepareScale.
  - eapply Hadv, (goes_StopWrites (fun _ => m)); [|done|done].
    intros pre s post k Heq Hk1. by eapply coop_pause, Hin.
  - assert (Hz : pending_sum (fun _ => 0%Z) l = 0%Z) by (clear; induction l; simpl; lia).
    destruct (goes_RedistributeKeys (fun _ => m) (fun _ => 0%Z) kv l c') as (kv' & Hgo & Hkv');
      [|done|done|].
    { intros pre s post k Heq Hk1. by eapply coop_redistribute, Hin. }
    rewrite Hz in Hkv'. by eapply Hadv; exists kv'.
  - by eapply Hadv, goes_FinalizeScale.
  - eapply Hadv, (goes_ResumeWrites (fun _ => m)); [|done|done].
    intros pre s post k Heq Hk1. by eapply coop_resume, Hin.
Qed.

Lemma goes_all m kv l c :
  coop m kv l (c_env c) -> scaling (st_Phase (ks_Status kv)) ->
  exists kv' l', goes (reconcile_n (runs_left (ks_Status kv)) (ks_namespace kv) (ks_name kv)) c tt
      (coop m kv' l') /\
    st_Phase (ks_Status kv') = PhaseNormal /\
    st_CurrentShards (ks_Status kv') = st_TargetShards (ks_Status kv).
Proof.
  remember (runs_left (ks_Status kv)) as n eqn:Hn. revert kv l c Hn.
  induction n as [|n IH]; intros kv l c Hn Hk Hph;
    destruct (goes_on m kv l c Hk Hph) as (c1 & Hrun & (kv1 & l1 & Hk1 & Hadv));
    destruct (advanced_runs_left kv kv1 Hph Hadv) as [Hleft Hcase];
    [congruence|].
  destruct Hadv as (_ & Ht & Hname & Hns). cbn [reconcile_n].
  destruct Hcase as [Hsc|[Hnorm Hcur]].
  - destruct (IH kv1 l1 c1) as (kv' & l' & (c' & Hrun' & Hk') & Hp & Hc); [congruence|done|done|].
    rewrite Hname, Hns in Hrun'. rewrite Ht in Hc.
    exists kv', l'. split; [|done]. exists c'. split; [|done].
    by rewrite (bind_Ret _ _ _ _ _ Hrun).
  - assert (n = 0%nat) as ->.
    { rewrite Hleft in Hn. unfold runs_left in Hn. rewrite Hnorm in Hn. by injection Hn. }
    exists kv1, l1. split; [|done]. exists c1. split; [|done].
    by rewrite (bind_Ret _ _ _ _ _ Hrun).
Qed.

End progress.
