(* ===== verification/SimKube.v ===== *)
(** * A concrete cluster

    A small API server for runs of the controller: one resource, a list of stateful
    sets that are ready as soon as they are created, and shards that do what they
    are asked. Listing the sets can be made to fail. *)

From S2P Require Import Prelude Protos KVStore Shard Kube Controller ControllerTrace.
From S2P Require Import ControllerSpec ControllerProgress.

#[export] Instance sim_kube_types : KubeTypes := {| PodSpec := unit |}.

Record SimKube := {
  sk_store : option KVStore;
  sk_sets : list StatefulSet;
  sk_config : option ConfigMap;
  sk_list_fails : bool;
  sk_time : Z
}.

Definition sk_set_store (s : option KVStore) (k : SimKube) : SimKube :=
  {| sk_store := s; sk_sets := sk_sets k; sk_config := sk_config k;
     sk_list_fails := sk_list_fails k; sk_time := sk_time k |}.
Definition sk_set_sets (l : list StatefulSet) (k : SimKube) : SimKube :=
  {| sk_store := sk_store k; sk_sets := l; sk_config := sk_config k;
     sk_list_fails := sk_list_fails k; sk_time := sk_time k |}.
Definition sk_set_config (c : option ConfigMap) (k : SimKube) : SimKube :=
  {| sk_store := sk_store k; sk_sets := sk_sets k; sk_config := c;
     sk_list_fails := sk_list_fails k; sk_time := sk_time k |}.
Definition sk_tick (k : SimKube) : SimKube :=
  {| sk_store := sk_store k; sk_sets := sk_sets k; sk_config := sk_config k;
     sk_list_fails := sk_list_fails k; sk_time := sk_time k + 1 |}.

Definition same_id (a b : KVStore) : bool :=
  bool_decide (ks_name a = ks_name b) && bool_decide (ks_namespace a = ks_namespace b).

Definition sts_name (s : StatefulSet) : string := om_Name (sts_meta s).

Definition started (s : StatefulSet) : StatefulSet :=
  {| sts_meta := sts_meta s; sts_Replicas := sts_Replicas s; sts_ServiceName := sts_ServiceName s;
     sts_MatchLabels := sts_MatchLabels s; sts_MinReadySeconds := sts_MinReadySeconds s;
     sts_TemplateLabels := sts_TemplateLabels s;
     sts_TemplateAnnotations := sts_TemplateAnnotations s;
     sts_TemplateSpec := sts_TemplateSpec s; sts_VolumeClaims := sts_VolumeClaims s;
     sts_RetentionPolicy := sts_RetentionPolicy s;
     sts_ReadyReplicas := default 0%Z (sts_Replicas s) |}.

#[export] Instance sim_kube : Kube SimKube := {|
  get_KVStore ns name k :=
    (k, match sk_store k with
        | Some kv => if decide (ks_namespace kv = ns /\ ks_name kv = name) then Ok kv
                     else Err (NotFoundErr name)
        | None => Err (NotFoundErr name)
        end);
  update_Status kv k :=
    match sk_store k with
    | Some old =>
        if same_id old kv then
          (sk_set_store (Some kv) k, Ok kv)
        else (k, Err (NotFoundErr (ks_name kv)))
    | None => (k, Err (NotFoundErr (ks_name kv)))
    end;
  list_StatefulSets ns name k :=
    (k, if sk_list_fails k then Err (LibErr "timeout") else Ok (sk_sets k));
  list_Services ns name k := (k, Ok []);
  list_Ingresses ns name k := (k, Ok []);
  get_ConfigMap ns name k :=
    (k, match sk_config k with Some c => Ok c | None => Err (NotFoundErr name) end);
  create_ConfigMap c k := (sk_set_config (Some c) k, None);
  update_ConfigMap c k := (sk_set_config (Some c) k, None);
  create_StatefulSet s k :=
    if decide (sts_name s ∈ map sts_name (sk_sets k)) then
      (k, Some (LibErr "already exists"))
    else (sk_set_sets (sk_sets k ++ [started s]) k, None);
  update_StatefulSet s k :=
    (sk_set_sets (map (fun s' => if decide (sts_name s' = sts_name s) then started s else s')
       (sk_sets k)) k, None);
  delete_StatefulSet s k :=
    (sk_set_sets (filter (fun s' => sts_name s' <> sts_name s) (sk_sets k)) k, None);
  create_Ingress i k := (k, None);
  delete_Ingress i k := (k, None);
  create_Service s k := (k, None);
  delete_Service s k := (k, None);
  SetControllerReference kv m := Ok
    {| om_Name := om_Name m; om_Namespace := om_Namespace m; om_Labels := om_Labels m;
       om_Annotations := om_Annotations m;
       om_Controller := Some {| or_APIVersion := apiGVStr; or_Kind := "KVStore";
                                or_Name := ks_name kv |};
       om_ResourceVersion := om_ResourceVersion m |};
  metav1_Now k := (sk_tick k, sk_time k);
  yaml_Marshal c := Ok (itoa (Z.of_nat (length (kc_Shards c))) +:+ "/" +:+
                        itoa (Z.of_nat (length (kc_NewShards c))));
  kube_Dial t k := (k, None);
  kube_Sleep t k := (k, tt);
  rpc_PauseWrites t i k := (k, Ok {| pw_IsPaused := true |});
  rpc_RedistributeKeys t i k := (k, Ok {| rk_PendingKeys := 0 |});
  rpc_ResumeWrites t i k := (k, Ok {| rw_IsResumed := true |});
  IndexField kind key f k := (k, None);
  builder_Complete name for_kind owns k := (k, None)
|}.

#[export] Instance sim_kube_laws : KubeLaws SimKube.
Proof.
  split; simpl.
  - intros kv k k' kv'. destruct (sk_store k) as [old|]; [|done].
    destruct (same_id old kv); [|done]. by intros [= _ <-].
  - by intros kv m m' [= <-].
Qed.

Lemma same_id_status kv s : same_id kv (set_status s kv) = true.
Proof. apply andb_true_iff. split; by apply bool_decide_eq_true. Qed.

#[export] Instance sim_cooperative_server : CooperativeServer SimKube.
Proof.
  refine {| mode := unit;
            coop _ kv l k := sk_store k = Some kv /\ sk_list_fails k = false /\
              is_Some (sk_config k) /\ sk_sets k = l /\
              Forall (fun s => ready s /\ sts_Replicas s = Some (spec_Replicas (ks_Spec kv)))
                l |}; simpl.
  - by intros _ kv l k (_ & _ & _ & _ & Hall).
  - intros _ kv l k (Hs & Hrest). exists k. rewrite Hs. by rewrite decide_True.
  - intros _ kv l k (Hs & Hl & Hc & <- & Hall). exists k. rewrite Hl. by split_and!.
  - intros _ kv l k Hk. by exists k, [].
  - intros _ kv l k Hk. by exists k, [].
  - intros _ kv l s k (Hs & Hl & Hc & <- & Hall). rewrite Hs, same_id_status. by eexists _, _.
  - done.
  - done.
  - intros _ kv l k (Hs & Hl & [cm Hcm] & <- & Hall). exists k, cm. rewrite Hcm. by split_and!.
  - intros _ kv l cm k (Hs & Hl & Hc & <- & Hall). eexists. split; [done|]. by split_and!.
  - intros _ kv l s k (Hs & Hl & Hc & <- & Hall). eexists. split; [done|]. split_and!; try done.
    simpl. rewrite Forall_forall in *. intros x [_ Hx]%list_elem_of_filter. by apply Hall.
  - intros _ kv l s k Hk. by exists k.
  - intros _ kv l s k Hk. by exists k.
Defined.

#[export] Instance sim_cooperative_dial : CooperativeDial SimKube.
Proof. split. intros m kv l t k Hk. by exists k. Qed.

#[export] Instance sim_cooperative : Cooperative SimKube.
Proof. split; intros m kv l s k Hk _; by exists k. Qed.
