(* ===== verification/Webhook.v ===== *)
(** * The admission webhook: src/kvctl/internal/webhook/v1/kvstore_webhook.go

    The checks that the API server runs before it stores a change of a resource. *)

From S2P Require Import Prelude Protos KVStore Shard Kube Controller ControllerTrace.
From S2P Require Import ControllerSpec.

Section webhook.
Context `{!KubeTypes}.

(** [runtime.Object]: a resource, or a value of another type. *)
Inductive Object :=
| ObjKVStore (kv : KVStore)
| ObjOther (type : string).

(** The verb [%T]. *)
Definition type_name (obj : Object) : string :=
  match obj with ObjKVStore _ => "*v1.KVStore" | ObjOther t => t end.

(** The validators return no warnings: [None] admits the object. *)
Definition ValidateCreate (obj : Object) : gerror :=
  match obj with
  | ObjKVStore kvstore => None
  | ObjOther _ => Some (Errorf ("expected a KVStore object but got " +:+ type_name obj))
  end.

Definition ValidateUpdate (oldObj newObj : Object) : gerror :=
  match newObj with
  | ObjOther _ => Some (Errorf
      ("expected a KVStore object for the newObj but got " +:+ type_name newObj))
  | ObjKVStore kvstore =>
      match oldObj with
      | ObjOther _ => Some (Errorf
          ("expected a KVStore object for the oldObj but got " +:+ type_name newObj))
      | ObjKVStore oldKvstore =>
          if decide (st_Phase (ks_Status oldKvstore) <> PhaseNormal) then
            Some (Errorf "cannot change while shards are redistributing")
          else None
      end
  end.

Definition ValidateDelete (obj : Object) : gerror :=
  match obj with
  | ObjKVStore kvstore => None
  | ObjOther _ => Some (Errorf ("expected a KVStore object but got " +:+ type_name obj))
  end.

(** [webhook.CustomValidator], the interface that the webhook server calls, and the empty
    struct that implements it. *)
Class CustomValidator (V : Type) := {
  validate_create : V -> Object -> gerror;
  validate_update : V -> Object -> Object -> gerror;
  validate_delete : V -> Object -> gerror
}.

Record KVStoreCustomValidator := mkKVStoreCustomValidator {}.

#[export] Instance KVStore_validates : CustomValidator KVStoreCustomValidator := {|
  validate_create _ := ValidateCreate;
  validate_update _ := ValidateUpdate;
  validate_delete _ := ValidateDelete
|}.

(** What the webhook builder is given before [Complete]: the type of the resources and
    their validator. *)
Record WebhookBuilder := {
  wb_For : option string;
  wb_Validator : option KVStoreCustomValidator
}.

Definition NewWebhookManagedBy : WebhookBuilder := {| wb_For := None; wb_Validator := None |}.
Definition For (apiType : string) (b : WebhookBuilder) : WebhookBuilder :=
  {| wb_For := Some apiType; wb_Validator := wb_Validator b |}.
Definition WithValidator (v : KVStoreCustomValidator) (b : WebhookBuilder) : WebhookBuilder :=
  {| wb_For := wb_For b; wb_Validator := Some v |}.

(** [Complete], a call of the library, is given the builder; what it answers is returned. *)
Definition SetupKVStoreWebhookWithManager {K : Type} (Complete : WebhookBuilder -> K -> K * gerror)
    (k : K) : K * gerror :=
  Complete (WithValidator mkKVStoreCustomValidator (For "KVStore" NewWebhookManagedBy)) k.

(** The status of a new resource. *)
Definition zero_status : KVStoreStatus :=
  {| st_Phase := PhaseNormal; st_CurrentShards := 0; st_TargetShards := 0;
     st_Message := ""; st_LastTransition := 0 |}.

End webhook.
