(* ===== verification/ControllerProps.v ===== *)
(** * Properties of the controller and its webhook

    The main theorems about the controller, each with a run on the cluster
    of SimKube. *)

From S2P Require Import Prelude Protos KVStore Shard Kube Controller ControllerTrace.
From S2P Require Import ControllerSpec ControllerCalls ControllerRun ControllerProgress.
From S2P Require Import SimKube Webhook.

(** ** Names *)

Lemma shard_name_inj name i j : shard_name name i = shard_name name j -> i = j.
Proof.
  unfold shard_name. intros H%string_app_inj_l%string_app_inj_l. by apply itoa_inj.
Qed.

Lemma replica_name_inj shard i j : replica_name shard i = replica_name shard j -> i = j.
Proof.
  unfold replica_name. intros H%string_app_inj_l%string_app_inj_l. by apply itoa_inj.
Qed.

Section props.
Context `{!KubeTypes} {K : Type} `{!Kube K}.
Implicit Types (kv : KVStore) (c : Ctl K).

(** What a run of [Reconcile] on a resource appends to the log. *)
Lemma Reconcile_log `{!KubeLaws K} fuel ns name c c' o k1 kv :
  get_KVStore ns name (c_env c) = (k1, Ok kv) ->
  Reconcile fuel ns name c = (c', o) ->
  exists evs, c_log c' = c_log c ++ evs /\ disciplined kv evs.
Proof.
  intros Hg Hrun. unfold Reconcile, bind at 1, query in Hrun. rewrite Hg in Hrun.
  exact (reconcile_disciplined fuel name kv {| c_env := k1; c_log := c_log c |} c' o Hrun).
Qed.

(** C10: a scaling operation follows its phases. Whatever the API server and the
    shards answer, the statuses that a run of [Reconcile] tries to write, one after
    the other, are steps of the phase machine from the status that it read. *)
Theorem Reconcile_follows_phases `{!KubeLaws K} fuel ns name c c' o k1 kv :
  get_KVStore ns name (c_env c) = (k1, Ok kv) ->
  Reconcile fuel ns name c = (c', o) ->
  exists evs, c_log c' = c_log c ++ evs /\
    path (spec_Shards (ks_Spec kv)) (ks_Status kv) (statuses evs).
Proof.
  intros Hg Hrun. destruct (Reconcile_log fuel ns name c c' o k1 kv Hg Hrun)
    as (evs & Hlog & Hp & _). eauto.
Qed.

(** C11: every phase does its own work only. A run of [Reconcile] creates stateful
    sets, ingresses and services only in the normal phase, creates or writes the config map
    only in the normal and the finalizing phase, asks shards to pause, redistribute
    and resume only in the phase of that name, and deletes objects only in the finalizing
    phase and only those whose label "group" names a shard between the target and the current
    number. *)
Theorem Reconcile_phase_discipline `{!KubeLaws K} fuel ns name c c' o k1 kv :
  get_KVStore ns name (c_env c) = (k1, Ok kv) ->
  Reconcile fuel ns name c = (c', o) ->
  exists evs, c_log c' = c_log c ++ evs /\ Forall (permitted kv) evs.
Proof.
  intros Hg Hrun. destruct (Reconcile_log fuel ns name c c' o k1 kv Hg Hrun)
    as (evs & Hlog & _ & Hp). eauto.
Qed.

(** The life of a resource. An update that the webhook admits leaves the status alone; a
    run of [Reconcile] that reads the resource, and whose write of a status the API server
    accepts, leaves the rest alone: the status is a subresource. *)
Inductive life : KVStore -> KVStore -> Prop :=
| life_update old new :
    ValidateUpdate (ObjKVStore old) (ObjKVStore new) = None ->
    ks_Status new = ks_Status old -> life old new
| life_reconcile fuel ns name c c' o k1 kv evs written stored :
    get_KVStore ns name (c_env c) = (k1, Ok kv) ->
    Reconcile fuel ns name c = (c', o) -> c_log c' = c_log c ++ evs ->
    UpdateStatus written (Ok stored) ∈ evs ->
    life kv (set_status (ks_Status written) kv).

Lemma life_inv `{!KubeLaws K} kv kv' :
  life kv kv' -> status_inv (spec_Shards (ks_Spec kv)) (ks_Status kv) ->
  status_inv (spec_Shards (ks_Spec kv')) (ks_Status kv').
Proof.
  intros Hl Hinv.
  destruct Hl as [old new Hval Hst|fuel ns name c c' o k1 kv evs written stored Hg Hrun Hlog Hw].
  - simpl in Hval. case_decide as Hn; [done|].
    assert (Hn' : st_Phase (ks_Status new) = PhaseNormal) by (by rewrite Hst).
    unfold status_inv. rewrite Hn'. split_and!; [done|by intros [|[|]]|done|done].
  - destruct (Reconcile_log fuel ns name c c' o k1 kv Hg Hrun) as (evs' & Hlog' & Hp & _).
    rewrite Hlog in Hlog'. apply app_inv_head in Hlog' as <-.
    pose proof (path_inv _ _ _ Hinv Hp) as Hall. rewrite Forall_forall in Hall.
    simpl. apply Hall. apply list_elem_of_omap. by eexists.
Qed.

(** C19: the target of a scaling operation is the number of shards that the
    resource asks for, for as long as the operation lasts. From a new resource on, through
    updates that the webhook admits and runs of [Reconcile], whatever the API
    server and the shards answer in them: outside the normal phase the target is the
    desired number; while writes are stopped, keys redistributed or shards finalized, there
    are old shards and their number differs from the target. *)
Theorem scaling_numbers_invariant `{!KubeLaws K} kv kv' :
  ks_Status kv = zero_status -> rtc life kv kv' ->
  (st_Phase (ks_Status kv') <> PhaseNormal ->
   st_TargetShards (ks_Status kv') = spec_Shards (ks_Spec kv')) /\
  (st_Phase (ks_Status kv') = PhaseStoppingWrites \/
   st_Phase (ks_Status kv') = PhaseRedistributingKeys \/
   st_Phase (ks_Status kv') = PhaseFinalizingScale ->
   st_CurrentShards (ks_Status kv') <> 0%Z /\
   st_CurrentShards (ks_Status kv') <> st_TargetShards (ks_Status kv')).
Proof.
  intros Hz Hreach.
  assert (Hinv : status_inv (spec_Shards (ks_Spec kv)) (ks_Status kv)).
  { rewrite Hz. unfold status_inv. simpl. split_and!; [done|by intros [|[|]]|done|done]. }
  clear Hz. assert (status_inv (spec_Shards (ks_Spec kv')) (ks_Status kv')) as (H1 & H2 & _).
  { induction Hreach; eauto using life_inv. }
  by split.
Qed.

(** Keys are redistributed only after every shard has paused. If a run of
    [StopWrites] tries to enter the next phase, it has listed the shards and got
    the answer that writes are paused from each of them before. *)
Theorem redistribution_after_pause fuel kv c c' o s :
  StopWrites fuel kv c = (c', o) ->
  st_Phase (ks_Status kv) = PhaseStoppingWrites ->
  exists evs, c_log c' = c_log c ++ evs /\
    (s ∈ statuses evs -> st_Phase s = PhaseRedistributingKeys ->
     exists r calls w, evs = ListShards r :: calls ++ w /\
       Forall2 (agreed CallPauseWrites pw_IsPaused) (listed r) calls /\
       statuses w = [s]).
Proof.
  intros Hrun Hph. destruct (StopWrites_trace fuel kv c c' o Hrun)
    as (evs & Hlog & r & calls & w & -> & Hc & Hw). exists (ListShards r :: calls ++ w).
  split; [done|]. intros Hs Hsp.
  rewrite (statuses_asking CallPauseWrites _ _ _ (fun _ _ => eq_refl) Hc) in Hs.
  destruct Hw as [[->|(msg & a & ->)]|[Hall (msg & t & a & ->)]].
  - by apply elem_of_nil in Hs.
  - apply list_elem_of_singleton in Hs as ->. simpl in Hsp. rewrite Hph in Hsp. discriminate.
  - apply list_elem_of_singleton in Hs as ->. eexists r, calls, _. by split_and!.
Qed.

(** Shards are finalized only when no key is pending. If a run of the
    controller's [RedistributeKeys] tries to enter the next phase, it has listed
    the shards and each of them has answered; if no answer is negative, each of
    them has answered that no key is pending. *)
Theorem finalize_only_without_pending fuel kv c c' o s :
  RedistributeKeys fuel kv c = (c', o) ->
  st_Phase (ks_Status kv) = PhaseRedistributingKeys ->
  exists evs, c_log c' = c_log c ++ evs /\
    (s ∈ statuses evs -> st_Phase s = PhaseFinalizingScale ->
     exists r ns w, evs = ListShards r :: answers (listed r) ns ++ w /\
       length ns = length (listed r) /\ statuses w = [s] /\
       (Forall (fun n => 0 <= n)%Z ns -> Forall (fun n => n = 0%Z) ns)).
Proof.
  intros Hrun Hph.
  destruct (RedistributeKeys_finalizes fuel kv c c' o s Hrun Hph) as (evs & Hlog & Hfin).
  exists evs. split; [done|]. intros Hs Hsp.
  destruct (Hfin Hs Hsp) as (r & ns & kv' & a & -> & Hlen & <- & Hz).
  exists r, ns, [UpdateStatus kv' a]. split_and!; [done|done|done|].
  intros Hpos. by apply total_zero.
Qed.

(** C32: a failed listing counts as an empty one. If the shards cannot be listed
    when their keys are to be redistributed, the controller asks no shard, and
    goes on to the phase that deletes shards. *)
Theorem failed_listing_skips_redistribution fuel kv c k1 err :
  list_StatefulSets (ks_namespace kv) (ks_name kv) (c_env c) = (k1, Err err) ->
  exists c' e t a, RedistributeKeys fuel kv c = (c', Ret e) /\
    c_log c' = c_log c ++ [ListShards (Err err); UpdateStatus (set_status
      (entered PhaseFinalizingScale "Starting to finalize scaling operation" t (ks_Status kv))
      kv) a].
Proof.
  intros Hl. unfold RedistributeKeys, GetShards, bind, call, query, ret. rewrite Hl. simpl.
  unfold enter_phase, return_status, status_update, bind, call, query, ret. simpl.
  destruct (metav1_Now k1) as [k2 t]. simpl. destruct (update_Status _ k2) as [k3 a].
  exists {| c_env := k3; c_log := c_log c ++ [ListShards (Err err); UpdateStatus (set_status
      (entered PhaseFinalizingScale "Starting to finalize scaling operation" t (ks_Status kv))
      kv) a] |}.
  destruct a as [kv'|e]; [exists None|exists (Some e)]; exists t; eexists;
    (split; [|reflexivity]); simpl; by rewrite <- app_assoc.
Qed.

(** C18: what a run of [FinalizeScale] deletes. Every stateful set, ingress and service that
    it deletes has a label "group" that names a shard with an index between the target
    and the current number. So an object with the labels that the controller builds for
    shard [j] of a resource of that name is deleted only if [j] is between the target and
    the current number, as long as the resource had no label "group" of its own. *)
Theorem FinalizeScale_deletes_only_surplus kv c c' o :
  FinalizeScale kv c = (c', o) ->
  exists evs, c_log c' = c_log c ++ evs /\
    forall ev m, ev ∈ evs -> deleted_meta ev = Some m ->
      (exists i, (st_TargetShards (ks_Status kv) <= i < st_CurrentShards (ks_Status kv))%Z /\
         om_Labels m !! "group" = Some (shard_name (ks_name kv) i)) /\
      forall kv0 j, ks_name kv0 = ks_name kv -> om_Labels (ks_meta kv0) !! "group" = None ->
        om_Labels m = copied_labels kv0 (shard_labels kv0 j) ->
        (st_TargetShards (ks_Status kv) <= j < st_CurrentShards (ks_Status kv))%Z.
Proof.
  intros Hrun. destruct (FinalizeScale_trace kv c c' o Hrun)
    as (evs & Hlog & pre & post & -> & Hpre & Hpost). exists (pre ++ post).
  split; [done|]. intros ev m [Hin|Hin]%elem_of_app Hm.
  - rewrite Forall_forall in Hpre. apply Hpre in Hin.
    assert (surplus kv (group_of m)) as (i & Hi & Hg).
    { unfold removal, deleted_group in Hin. rewrite Hm in Hin.
      destruct ev; try done; by destruct Hin as (g & [= <-] & Hs). }
    assert (Hl : om_Labels m !! "group" = Some (shard_name (ks_name kv) i)).
    { revert Hg. unfold group_of. destruct (om_Labels m !! "group"); simpl; [by intros ->|].
      unfold shard_name. by destruct (ks_name kv). }
    split; [by exists i|]. intros kv0 j Hn Hnone Heq. rewrite Heq in Hl. unfold copied_labels in Hl.
    rewrite lookup_union_r in Hl by done. unfold shard_labels in Hl.
    rewrite lookup_insert_ne, lookup_singleton in Hl by done. injection Hl as Hl.
    rewrite Hn in Hl. apply shard_name_inj in Hl. lia.
  - destruct Hpost as [->|(e & ev' & w & -> & (cm & y & _ & _ & Hev) & Hw)].
    { by apply elem_of_nil in Hin. }
    apply elem_of_cons in Hin as [->|Hin]; [by destruct Hev; subst|].
    destruct Hw as [->|[_ (msg & t & r & ->)]]; [by apply elem_of_nil in Hin|].
    apply list_elem_of_singleton in Hin. by subst.
Qed.

(** A stateful set as the controller creates it for shard [i]. *)
Definition set_of_shard kv (i : Z) (s : StatefulSet) : Prop :=
  om_Name (sts_meta s) = shard_name (ks_name kv) i +:+ "-replica" /\
  om_Namespace (sts_meta s) = ks_namespace kv /\
  om_Labels (sts_meta s) =
    om_Labels (ks_meta kv) ∪ {[ "app" := ks_name kv; "group" := shard_name (ks_name kv) i ]} /\
  sts_ServiceName s = shard_name (ks_name kv) i /\
  sts_MatchLabels s = {[ "app" := ks_name kv; "group" := shard_name (ks_name kv) i ]} /\
  sts_TemplateLabels s = sts_MatchLabels s /\
  sts_Replicas s = Some (spec_Replicas (ks_Spec kv)).

(** The names of the sets that were created. *)
Definition sets_created (evs : list event) : list string :=
  omap (fun ev => match ev with
    | CreateStatefulSet s None => Some (om_Name (sts_meta s)) | _ => None end) evs.

Lemma NoDup_map_inj {A B} (f : A -> B) (l : list A) :
  (forall x y, f x = f y -> x = y) -> NoDup l -> NoDup (map f l).
Proof.
  intros Hf. induction 1 as [|x l Hx Hl IH]; simpl; constructor; [|done].
  intros (y & Heq & Hy)%list_elem_of_fmap. apply Hf in Heq. by subst.
Qed.

Lemma shard_made_set `{!KubeLaws K} kv i ev :
  shard_made kv i ev -> exists s, ev = CreateStatefulSet s None /\ set_of_shard kv i s.
Proof.
  intros (m & Hm & ->). apply SetControllerReference_same in Hm as (Hn & Hns & Hlb).
  eexists. split; [reflexivity|]. split_and!; [exact Hn|exact Hns|exact Hlb|done..].
Qed.

Lemma made_all_impl (made made' : Z -> event -> Prop) failed l r evs :
  (forall i ev, made i ev -> made' i ev) ->
  made_all made failed l r evs -> made_all made' failed l r evs.
Proof.
  intros Himp Hall.
  destruct r as [[e|]|]; simpl in Hall |- *;
    [destruct Hall as (l1 & l2 & evs1 & tail & ? & Hall & ? & ?); exists l1, l2, evs1, tail;
     split_and!; try done; by eapply Forall2_impl
    |by eapply Forall2_impl
    |destruct Hall as (l1 & l2 & evs1 & tail & ? & Hall & ? & ?); exists l1, l2, evs1, tail;
     split_and!; try done; by eapply Forall2_impl].
Qed.

(** The sets of different shards have different names. *)
Lemma made_all_names kv l r evs :
  made_all (fun i ev => exists s, ev = CreateStatefulSet s None /\ set_of_shard kv i s)
    (fun ev => exists s e, ev = CreateStatefulSet s (Some e)) l r evs ->
  NoDup l -> NoDup (sets_created evs).
Proof.
  assert (Hnames : forall l evs, Forall2 (fun i ev => exists s, ev = CreateStatefulSet s None /\
    set_of_shard kv i s) l evs ->
    sets_created evs = map (fun i => shard_name (ks_name kv) i +:+ "-replica") l).
  { induction 1 as [|i ev l' evs' (s & -> & Hn & _) _ IH]; [done|].
    cbn. unfold sets_created in IH. by rewrite Hn, IH. }
  assert (Hnd : forall l', NoDup l' ->
    NoDup (map (fun i => shard_name (ks_name kv) i +:+ "-replica") l')).
  { intros l'. apply NoDup_map_inj. intros i j Heq%string_app_inj_r. by apply shard_name_inj in Heq. }
  assert (Hpart : forall l1 l2 evs1 tail, l = l1 ++ l2 -> Forall2 (fun i ev => exists s,
      ev = CreateStatefulSet s None /\ set_of_shard kv i s) l1 evs1 ->
    (tail = [] \/ exists ev, tail = [ev] /\ exists s e, ev = CreateStatefulSet s (Some e)) ->
    NoDup l -> NoDup (sets_created (evs1 ++ tail))).
  { intros l1 l2 evs1 tail -> Hall Ht [Hd _]%NoDup_app. unfold sets_created. rewrite omap_app.
    assert (omap (fun ev => match ev with CreateStatefulSet s None => Some (om_Name (sts_meta s))
      | _ => None end) tail = []) as ->
      by (destruct Ht as [->|(ev & -> & s & e & ->)]; done).
    rewrite app_nil_r. fold (sets_created evs1). rewrite (Hnames _ _ Hall). by apply Hnd. }
  destruct r as [[e|]|]; simpl.
  - intros (l1 & l2 & evs1 & tail & Hl & Hall & -> & Ht). by eapply Hpart.
  - intros Hall Hl. rewrite (Hnames _ _ Hall). by apply Hnd.
  - intros (l1 & l2 & evs1 & tail & Hl & Hall & -> & Ht). by eapply Hpart.
Qed.

(** C22: scaling up creates exactly the new shards. A run of [SpinUpShards] that
    succeeds creates one stateful set for each index from the current number to
    the target, in order, whose name is that of the shard followed by "-replica" and whose
    labels are those of the resource, over the name of the resource and of the shard, with
    the service of the shard and the number of replicas of the resource; a run that fails has
    done so for some of the first of them. No two of the sets have the same name. *)
Theorem SpinUpShards_creates_new_shards `{!KubeLaws K} kv c c' o :
  SpinUpShards kv c = (c', o) ->
  exists evs, c_log c' = c_log c ++ evs /\
    made_all (fun i ev => exists s, ev = CreateStatefulSet s None /\ set_of_shard kv i s)
      (fun ev => exists s e, ev = CreateStatefulSet s (Some e))
      (zrange (st_CurrentShards (ks_Status kv)) (st_TargetShards (ks_Status kv)))
      (result o) evs /\
    NoDup (sets_created evs).
Proof.
  intros Hrun. destruct (SpinUpShards_trace kv c c' o Hrun) as (evs & Hlog & Hall).
  exists evs. split; [done|].
  apply made_all_impl with (made' := fun i ev => exists s, ev = CreateStatefulSet s None /\
    set_of_shard kv i s) in Hall; [|apply shard_made_set].
  split; [exact Hall|]. eapply made_all_names; [exact Hall|apply NoDup_zrange].
Qed.

Lemma config_shards_names kv n :
  map ks_Name (config_shards kv n) = map (shard_name (ks_name kv)) (zrange 0 n).
Proof. unfold config_shards. rewrite map_map. done. Qed.

Lemma config_shards_nil kv n : (n <= 0)%Z <-> config_shards kv n = [].
Proof.
  unfold config_shards. split.
  - intros Hn. destruct (zrange 0 n) as [|i l] eqn:Hl; [done|].
    assert (Hi : i ∈ zrange 0 n) by (rewrite Hl; by left). apply elem_of_zrange in Hi. lia.
  - intros Hnil%map_eq_nil. destruct (decide (n <= 0)%Z) as [|Hgt]; [done|].
    assert (Hi : 0%Z ∈ zrange 0 n) by (apply elem_of_zrange; lia). rewrite Hnil in Hi.
    by apply elem_of_nil in Hi.
Qed.

(** C23: the configuration announces new shards exactly during a scaling operation
    between two numbers of shards. For non-negative numbers: the configured shards
    are the first ones by number, with as many replicas as the resource asks for
    and names that are all different; new shards are listed exactly if the current
    number is neither zero nor the target and the target is not zero, and then they
    are the first ones up to the target. *)
Theorem config_lists_old_and_new kv :
  (0 <= st_CurrentShards (ks_Status kv))%Z -> (0 <= st_TargetShards (ks_Status kv))%Z ->
  let current := st_CurrentShards (ks_Status kv) in
  let target := st_TargetShards (ks_Status kv) in
  let cfg := build_config kv in
  map ks_Name (kc_Shards cfg) =
    map (shard_name (ks_name kv)) (zrange 0 (if decide (current = 0%Z) then target else current)) /\
  NoDup (map ks_Name (kc_Shards cfg)) /\ NoDup (map ks_Name (kc_NewShards cfg)) /\
  (forall d, d ∈ kc_Shards cfg ++ kc_NewShards cfg ->
     ks_Replicas d = map (replica_name (ks_Name d)) (zrange 0 (spec_Replicas (ks_Spec kv))) /\
     NoDup (ks_Replicas d)) /\
  (kc_NewShards cfg <> [] <-> current <> 0%Z /\ current <> target /\ target <> 0%Z) /\
  (kc_NewShards cfg <> [] ->
     map ks_Name (kc_NewShards cfg) = map (shard_name (ks_name kv)) (zrange 0 target)).
Proof.
  intros Hc Ht current target cfg.
  assert (Hnames : forall n, NoDup (map ks_Name (config_shards kv n))).
  { intros n. rewrite config_shards_names. apply NoDup_map_inj; [|apply NoDup_zrange].
    apply shard_name_inj. }
  assert (Hrep : forall n d, d ∈ config_shards kv n ->
    ks_Replicas d = map (replica_name (ks_Name d)) (zrange 0 (spec_Replicas (ks_Spec kv))) /\
    NoDup (ks_Replicas d)).
  { intros n d (i & -> & _)%list_elem_of_fmap. split; [done|]. simpl.
    apply NoDup_map_inj; [apply replica_name_inj|apply NoDup_zrange]. }
  assert (Hzero : zrange 0 0 = []) by reflexivity.
  assert (Hnil : config_shards kv 0 = []) by reflexivity.
  unfold cfg, build_config. fold current target.
  destruct (decide (current = 0%Z)) as [Hz|Hz].
  - rewrite decide_True by auto. simpl. rewrite Hz, Hnil. simpl.
    rewrite config_shards_names. split_and!; try done.
    + rewrite <- config_shards_names. apply Hnames.
    + constructor.
    + intros d. rewrite app_nil_r. apply Hrep.
    + tauto.
  - destruct (decide (current <> target \/ current = 0%Z)) as [Hd|Hd]; simpl.
    + destruct Hd as [Hd|]; [|done]. split_and!; try apply config_shards_names; try apply Hnames.
      * intros d [Hin|Hin]%elem_of_app; eauto.
      * rewrite <- config_shards_nil. unfold target. split; [lia|]. lia.
      * intros _. apply config_shards_names.
    + split_and!; try apply config_shards_names; try apply Hnames; try done.
      * constructor.
      * intros d. rewrite app_nil_r. apply Hrep.
      * split; [done|]. intros (_ & Hne & _). exfalso. auto.
Qed.

(** C9: a scaling operation comes to an end. If the cluster cooperates, the number
    of runs of [Reconcile] that the phase is away from the end - five from the
    preparing phase on, or one if there were no shards - brings the resource to
    the normal phase with the target as its number of shards. *)
Theorem scaling_completes `{!CooperativeServer K, !CooperativeDial K, !Cooperative K}
    fuel m kv l c :
  fuel <> 0%nat -> coop m kv l (c_env c) -> scaling (st_Phase (ks_Status kv)) ->
  exists c' kv' l', reconcile_n fuel (runs_left (ks_Status kv)) (ks_namespace kv) (ks_name kv) c =
      (c', Ret tt) /\ coop m kv' l' (c_env c') /\
    st_Phase (ks_Status kv') = PhaseNormal /\
    st_CurrentShards (ks_Status kv') = st_TargetShards (ks_Status kv) /\
    (runs_left (ks_Status kv) <= 5)%nat.
Proof.
  intros Hf Hk Hph.
  destruct (goes_all fuel Hf m kv l c Hk Hph) as (kv' & l' & (c' & Hrun & Hk') & Hp & Hc).
  exists c', kv', l'. split_and!; try done. unfold runs_left. repeat case_decide; lia.
Qed.

(** Missing shards go unnoticed. [PrepareScale] looks only at the shards that
    exist: if these are ready, it goes on with the operation, also when there are
    fewer of them than the target - after a failed attempt to create them - and
    declares a new resource ready when there are none. *)
Theorem PrepareScale_ignores_missing_shards kv c k1 l :
  list_StatefulSets (ks_namespace kv) (ks_name kv) (c_env c) = (k1, Ok l) -> Forall ready l ->
  exists c' o s a, PrepareScale kv c = (c', o) /\
    c_log c' = c_log c ++ [ListShards (Ok l); UpdateStatus (set_status s kv) a] /\
    if decide (st_CurrentShards (ks_Status kv) = 0%Z)
    then st_Phase s = PhaseNormal /\ st_CurrentShards s = st_TargetShards (ks_Status kv)
    else st_Phase s = PhaseStoppingWrites.
Proof.
  intros Hl Hall. unfold PrepareScale, GetShards, bind at 1, bind at 1, call. rewrite Hl. simpl.
  assert (Hloop : forall c0, for_return l (fun shard =>
    replicas <- deref_replicas shard ;;
    if decide (sts_ReadyReplicas shard <> replicas) then
      e <- return_status (with_message "Waiting for shards to be ready" kv) ;; ret (Some e)
    else ret None) c0 = (c0, Ret None)).
  { intros c0. clear Hl. induction Hall as [|s l Hs _ IH]; [done|]. cbn [for_return].
    unfold bind at 1, deref_replicas, bind at 1. rewrite Hs. unfold ret at 1.
    rewrite decide_False by auto. unfold ret at 1. exact IH. }
  unfold bind at 1. rewrite Hloop.
  case_decide; unfold enter_phase, return_status, status_update, bind, call, query, ret; simpl;
    destruct (metav1_Now k1) as [k2 t]; simpl; destruct (update_Status _ k2) as [k3 a];
    (destruct a as [kv'|e]; simpl; eexists _, _, _, _;
     (split; [reflexivity|]; split; [simpl; rewrite <- app_assoc; reflexivity|done])).
Qed.

(** The webhook freezes a resource while it is scaled. An update is admitted
    exactly if both versions are resources of the right kind and the stored one is
    in the normal phase; creations and deletions of resources are admitted always. *)
Theorem webhook_freezes_while_scaling (old new : Object) :
  (ValidateUpdate old new = None <->
   exists kv kv', old = ObjKVStore kv /\ new = ObjKVStore kv' /\
     st_Phase (ks_Status kv) = PhaseNormal) /\
  (ValidateCreate new = None <-> exists kv, new = ObjKVStore kv) /\
  (ValidateDelete old = None <-> exists kv, old = ObjKVStore kv).
Proof.
  split_and!.
  - destruct new as [kv'|t], old as [kv|t']; simpl;
      try (split; [done|by intros (? & ? & [=] & [=] & _)]).
    case_decide as Hn; split; try done; [by intros (? & ? & [= <-] & _ & ?)|].
    intros _. by eexists _, _.
  - destruct new as [kv|t]; simpl; split; try done; [by exists kv|by intros [? [=]]].
  - destruct old as [kv|t]; simpl; split; try done; [by exists kv|by intros [? [=]]].
Qed.

(** C33: a label of the resource decides for all shards. If the resource itself has a label
    "group", the stateful sets that are built for it carry that label instead of the
    name of their shard. So when [FinalizeScale] reduces the number of shards and lists sets
    with such labels, it deletes none of them, the surplus ones included; or, if the label
    happens to name a surplus shard and deletions succeed, it deletes all of them, those of
    the shards that are to stay included. *)
Theorem group_label_hides_shards kv g c c' o k1 l :
  om_Labels (ks_meta kv) !! "group" = Some g ->
  (st_TargetShards (ks_Status kv) <= st_CurrentShards (ks_Status kv))%Z ->
  list_StatefulSets (ks_namespace kv) (ks_name kv) (c_env c) = (k1, Ok l) ->
  Forall (fun s => exists i, om_Labels (sts_meta s) = om_Labels (sts_meta (build_shard kv i))) l ->
  FinalizeScale kv c = (c', o) ->
  exists evs, c_log c' = c_log c ++ evs /\
    if decide (g ∈ groupsToBeDeleted kv)
    then (forall s k, (delete_StatefulSet s k).2 = None) ->
         forall s, s ∈ l -> DeleteStatefulSet s None ∈ evs
    else forall s err, DeleteStatefulSet s err ∉ evs.
Proof.
  intros Hg Hle Hl Hall Hrun.
  assert (Hgrp : Forall (fun s => group_of (sts_meta s) = g) l).
  { eapply Forall_impl; [exact Hall|]. intros s (i & Hi). unfold group_of. rewrite Hi. simpl.
    unfold copied_labels. by rewrite (lookup_union_Some_l _ _ _ _ Hg). }
  set (c1 := {| c_env := k1; c_log := c_log c ++ [ListShards (Ok l)] |}).
  destruct (FinalizeScale_trace kv c c' o Hrun) as (evs & Hlog & _).
  exists evs. split; [done|]. case_decide as Hin.
  - intros Hok s Hs. destruct (delete_groups_all (groupsToBeDeleted kv) l c1 Hok) as [k2 Hdel].
    { eapply Forall_impl; [exact Hgrp|]. intros x Hx. by rewrite Hx. }
    destruct (FinalizeScale_sets kv c c' o k1 l _ _ Hle Hl Hdel Hrun) as (evs2 & Hlog2 & _).
    rewrite Hlog in Hlog2. cbn [c_log c1] in Hlog2. rewrite <- !app_assoc in Hlog2.
    apply app_inv_head in Hlog2 as ->. right. apply elem_of_app. left.
    apply list_elem_of_fmap. by exists s.
  - assert (Hdel := delete_groups_none (groupsToBeDeleted kv) l c1).
    destruct (FinalizeScale_sets kv c c' o k1 l _ _ Hle Hl (Hdel ltac:(
      eapply Forall_impl; [exact Hgrp|]; intros x Hx; by rewrite Hx)) Hrun) as (evs2 & Hlog2 & Hk).
    rewrite Hlog in Hlog2. cbn [c_log c1] in Hlog2. rewrite <- !app_assoc in Hlog2.
    apply app_inv_head in Hlog2 as ->. intros s err [Heq|He]%elem_of_cons; [done|].
    rewrite Forall_forall in Hk. exact (Hk _ He s err eq_refl).
Qed.

End props.

(** ** Witnesses *)

(** A resource that asks for [desired] shards, in a given status. *)
Definition ex_status (ph : RedistributionPhase) (current target : Z) : KVStoreStatus :=
  {| st_Phase := ph; st_CurrentShards := current; st_TargetShards := target;
     st_Message := ""; st_LastTransition := 0 |}.

Definition ex_kv (desired : Z) (labels : gmap string string) (s : KVStoreStatus) : KVStore :=
  {| ks_meta := {| om_Name := "kvs"; om_Namespace := "default"; om_Labels := labels;
                   om_Annotations := ∅; om_Controller := None; om_ResourceVersion := "1" |};
     ks_Spec := {| spec_Shards := desired; spec_Replicas := 1;
                   spec_IngressDomain := "example.org"; spec_PodSpec := tt |};
     ks_Status := s |}.

Definition ex_set (i : Z) : StatefulSet := started (build_shard (ex_kv 2 ∅ zero_status) i).

Definition ex_cluster (kv : KVStore) (sets : list StatefulSet) (fails : bool) : Ctl SimKube :=
  {| c_env := {| sk_store := Some kv; sk_sets := sets;
                 sk_config := Some {| cm_meta := config_map_meta kv; cm_Data := ∅ |};
                 sk_list_fails := fails; sk_time := 0 |};
     c_log := [] |}.

(** Two shards, the second of which is no longer wanted. *)
Definition ex_down (ph : RedistributionPhase) : KVStore := ex_kv 1 ∅ (ex_status ph 2 1).
Definition ex_down_cluster (ph : RedistributionPhase) : Ctl SimKube :=
  ex_cluster (ex_down ph) [ex_set 0; ex_set 1] false.

Lemma Reconcile_follows_phases_witness :
  exists evs, c_log (Reconcile 1 "default" "kvs" (ex_down_cluster PhaseFinalizingScale)).1 = evs /\
    path 1 (ex_status PhaseFinalizingScale 2 1) (statuses evs) /\ statuses evs <> [].
Proof.
  destruct (Reconcile_follows_phases 1 "default" "kvs" (ex_down_cluster PhaseFinalizingScale)
    (Reconcile 1 "default" "kvs" (ex_down_cluster PhaseFinalizingScale)).1
    (Reconcile 1 "default" "kvs" (ex_down_cluster PhaseFinalizingScale)).2
    (c_env (ex_down_cluster PhaseFinalizingScale)) (ex_down PhaseFinalizingScale))
    as (evs & Hlog & Hp).
  - vm_compute. reflexivity.
  - apply surjective_pairing.
  - exists evs. split; [exact Hlog|]. split; [exact Hp|].
    simpl in Hlog. rewrite <- Hlog. vm_compute. discriminate.
Defined.

Lemma Reconcile_phase_discipline_witness :
  exists evs, c_log (Reconcile 1 "default" "kvs" (ex_down_cluster PhaseFinalizingScale)).1 = evs /\
    Forall (permitted (ex_down PhaseFinalizingScale)) evs /\
    existsb (fun ev => match ev with DeleteStatefulSet _ _ => true | _ => false end) evs = true.
Proof.
  destruct (Reconcile_phase_discipline 1 "default" "kvs" (ex_down_cluster PhaseFinalizingScale)
    (Reconcile 1 "default" "kvs" (ex_down_cluster PhaseFinalizingScale)).1
    (Reconcile 1 "default" "kvs" (ex_down_cluster PhaseFinalizingScale)).2
    (c_env (ex_down_cluster PhaseFinalizingScale)) (ex_down PhaseFinalizingScale))
    as (evs & Hlog & Hp).
  - vm_compute. reflexivity.
  - apply surjective_pairing.
  - exists evs. split; [exact Hlog|]. split; [exact Hp|].
    simpl in Hlog. rewrite <- Hlog. vm_compute. reflexivity.
Defined.

(** A run of the controller finds the new resource and begins to scale it. *)
Definition ex_new_run : Ctl SimKube * outcome (Result * gerror) :=
  Reconcile 1 "default" "kvs" (ex_cluster (ex_kv 2 ∅ zero_status) [] false).
Definition ex_begun : KVStore :=
  set_status {| st_Phase := PhasePreparingScale; st_CurrentShards := 0; st_TargetShards := 2;
                st_Message := "Spinning up shards"; st_LastTransition := 0 |}
    (ex_kv 2 ∅ zero_status).

Lemma scaling_numbers_invariant_witness :
  st_TargetShards (ks_Status ex_begun) = spec_Shards (ks_Spec ex_begun).
Proof.
  apply (scaling_numbers_invariant (K := SimKube) (ex_kv 2 ∅ zero_status) ex_begun).
  - reflexivity.
  - apply rtc_once. apply (life_reconcile 1 "default" "kvs"
      (ex_cluster (ex_kv 2 ∅ zero_status) [] false) ex_new_run.1 ex_new_run.2
      (c_env (ex_cluster (ex_kv 2 ∅ zero_status) [] false)) (ex_kv 2 ∅ zero_status)
      (c_log ex_new_run.1) ex_begun ex_begun).
    + reflexivity.
    + exact (surjective_pairing ex_new_run).
    + exact (eq_refl (c_log ex_new_run.1)).
    + vm_compute. right. left.
  - discriminate.
Defined.

Lemma redistribution_after_pause_witness :
  exists r calls w, c_log (StopWrites 1 (ex_down PhaseStoppingWrites)
      (ex_down_cluster PhaseStoppingWrites)).1 = ListShards r :: calls ++ w /\
    Forall2 (agreed CallPauseWrites pw_IsPaused) (listed r) calls /\
    statuses w = [entered PhaseRedistributingKeys "Starting to redistribute keys" 0
                    (ex_status PhaseStoppingWrites 2 1)].
Proof.
  destruct (redistribution_after_pause 1 (ex_down PhaseStoppingWrites)
    (ex_down_cluster PhaseStoppingWrites)
    (StopWrites 1 (ex_down PhaseStoppingWrites) (ex_down_cluster PhaseStoppingWrites)).1
    (StopWrites 1 (ex_down PhaseStoppingWrites) (ex_down_cluster PhaseStoppingWrites)).2
    (entered PhaseRedistributingKeys "Starting to redistribute keys" 0
       (ex_status PhaseStoppingWrites 2 1))) as (evs & Hlog & Himp).
  - apply surjective_pairing.
  - reflexivity.
  - destruct Himp as (r & calls & w & Hevs & Hall & Hw).
    + simpl in Hlog. rewrite <- Hlog. vm_compute. left.
    + reflexivity.
    + exists r, calls, w. split; [|split; [exact Hall|exact Hw]].
      exact (eq_trans Hlog Hevs).
Defined.

Lemma finalize_only_without_pending_witness :
  exists r ns w, c_log (RedistributeKeys 1 (ex_down PhaseRedistributingKeys)
      (ex_down_cluster PhaseRedistributingKeys)).1 = ListShards r :: answers (listed r) ns ++ w /\
    length ns = length (listed r).
Proof.
  destruct (finalize_only_without_pending 1 (ex_down PhaseRedistributingKeys)
    (ex_down_cluster PhaseRedistributingKeys)
    (RedistributeKeys 1 (ex_down PhaseRedistributingKeys) (ex_down_cluster PhaseRedistributingKeys)).1
    (RedistributeKeys 1 (ex_down PhaseRedistributingKeys) (ex_down_cluster PhaseRedistributingKeys)).2
    (entered PhaseFinalizingScale "Starting to finalize scaling operation" 0
       (ex_status PhaseRedistributingKeys 2 1))) as (evs & Hlog & Himp).
  - apply surjective_pairing.
  - reflexivity.
  - destruct Himp as (r & ns & w & Hevs & Hlen & _).
    + simpl in Hlog. rewrite <- Hlog. vm_compute. left.
    + reflexivity.
    + exists r, ns, w. split; [exact (eq_trans Hlog Hevs)|exact Hlen].
Defined.

Lemma failed_listing_skips_redistribution_witness :
  exists c' e t a, RedistributeKeys 1 (ex_down PhaseRedistributingKeys)
      (ex_cluster (ex_down PhaseRedistributingKeys) [ex_set 0; ex_set 1] true) = (c', Ret e) /\
    c_log c' = [ListShards (Err (LibErr "timeout")); UpdateStatus (set_status
      (entered PhaseFinalizingScale "Starting to finalize scaling operation" t
         (ex_status PhaseRedistributingKeys 2 1)) (ex_down PhaseRedistributingKeys)) a].
Proof.
  apply (failed_listing_skips_redistribution 1 (ex_down PhaseRedistributingKeys)
    (ex_cluster (ex_down PhaseRedistributingKeys) [ex_set 0; ex_set 1] true)
    (c_env (ex_cluster (ex_down PhaseRedistributingKeys) [ex_set 0; ex_set 1] true))).
  reflexivity.
Defined.

Lemma FinalizeScale_deletes_only_surplus_witness :
  exists evs, c_log (FinalizeScale (ex_down PhaseFinalizingScale)
      (ex_down_cluster PhaseFinalizingScale)).1 = evs /\
    DeleteStatefulSet (ex_set 1) None ∈ evs /\
    forall kv0 j, ks_name kv0 = "kvs" -> om_Labels (ks_meta kv0) !! "group" = None ->
      om_Labels (sts_meta (ex_set 1)) = copied_labels kv0 (shard_labels kv0 j) -> (1 <= j < 2)%Z.
Proof.
  destruct (FinalizeScale_deletes_only_surplus (ex_down PhaseFinalizingScale)
    (ex_down_cluster PhaseFinalizingScale)
    (FinalizeScale (ex_down PhaseFinalizingScale) (ex_down_cluster PhaseFinalizingScale)).1
    (FinalizeScale (ex_down PhaseFinalizingScale) (ex_down_cluster PhaseFinalizingScale)).2)
    as (evs & Hlog & Hdel).
  - apply surjective_pairing.
  - simpl in Hlog. exists evs. split; [exact Hlog|].
    assert (Hin : DeleteStatefulSet (ex_set 1) None ∈ evs)
      by (rewrite <- Hlog; vm_compute; right; left).
    split; [exact Hin|]. exact (proj2 (Hdel _ (sts_meta (ex_set 1)) Hin eq_refl)).
Defined.

(** From one shard to three. *)
Definition ex_up : KVStore := ex_kv 3 ∅ (ex_status PhasePreparingScale 1 3).

Lemma SpinUpShards_creates_new_shards_witness :
  exists evs, c_log (SpinUpShards ex_up (ex_cluster ex_up [ex_set 0] false)).1 = evs /\
    sets_created evs = ["kvs-shard-1-replica"; "kvs-shard-2-replica"] /\
    made_all (fun i ev => exists s, ev = CreateStatefulSet s None /\ set_of_shard ex_up i s)
      (fun ev => exists s e, ev = CreateStatefulSet s (Some e)) (zrange 1 3) (Some None) evs.
Proof.
  destruct (SpinUpShards_creates_new_shards ex_up (ex_cluster ex_up [ex_set 0] false)
    (SpinUpShards ex_up (ex_cluster ex_up [ex_set 0] false)).1 (Ret None))
    as (evs & Hlog & Hall & _).
  - vm_compute. reflexivity.
  - exists evs. simpl in Hlog. split; [exact Hlog|]. split; [|exact Hall].
    rewrite <- Hlog. vm_compute. reflexivity.
Defined.

Lemma config_lists_old_and_new_witness :
  map ks_Name (kc_NewShards (build_config ex_up)) =
  map (shard_name "kvs") (zrange 0 3).
Proof.
  apply (config_lists_old_and_new ex_up); [vm_compute; discriminate..|].
  vm_compute. discriminate.
Defined.

Lemma scaling_completes_witness :
  exists c' kv', reconcile_n 1 5 "default" "kvs" (ex_down_cluster PhasePreparingScale) =
      (c', Ret tt) /\ sk_store (c_env c') = Some kv' /\
    st_Phase (ks_Status kv') = PhaseNormal /\ st_CurrentShards (ks_Status kv') = 1%Z.
Proof.
  destruct (scaling_completes (CooperativeServer0 := sim_cooperative_server) 1 tt
    (ex_down PhasePreparingScale) [ex_set 0; ex_set 1]
    (ex_down_cluster PhasePreparingScale)) as (c' & kv' & l' & Hrun & (Hk & _) & Hp & Hc & _).
  - lia.
  - split; [reflexivity|]. split; [reflexivity|]. split; [by eexists|].
    split; [reflexivity|]. repeat constructor.
  - by left.
  - exists c', kv'. split; [exact Hrun|]. split; [exact Hk|]. split; [exact Hp|exact Hc].
Defined.

Lemma PrepareScale_ignores_missing_shards_witness :
  exists c' o s a, PrepareScale (ex_kv 2 ∅ (ex_status PhasePreparingScale 0 2))
      (ex_cluster (ex_kv 2 ∅ (ex_status PhasePreparingScale 0 2)) [] false) = (c', o) /\
    c_log c' = [ListShards (Ok []); UpdateStatus
      (set_status s (ex_kv 2 ∅ (ex_status PhasePreparingScale 0 2))) a] /\
    st_Phase s = PhaseNormal /\ st_CurrentShards s = 2%Z.
Proof.
  apply (PrepareScale_ignores_missing_shards (ex_kv 2 ∅ (ex_status PhasePreparingScale 0 2))
    (ex_cluster (ex_kv 2 ∅ (ex_status PhasePreparingScale 0 2)) [] false)
    (c_env (ex_cluster (ex_kv 2 ∅ (ex_status PhasePreparingScale 0 2)) [] false)) []).
  - reflexivity.
  - constructor.
Defined.

(** Two shards, one of them surplus, of a resource with a label "group". *)
Definition ex_grouped (g : string) : KVStore :=
  ex_kv 1 {[ "group" := g ]} (ex_status PhaseFinalizingScale 2 1).
Definition ex_grouped_sets (g : string) : list StatefulSet :=
  [started (build_shard (ex_grouped g) 0); started (build_shard (ex_grouped g) 1)].
Definition ex_grouped_run (g : string) : Ctl SimKube * outcome gerror :=
  FinalizeScale (ex_grouped g) (ex_cluster (ex_grouped g) (ex_grouped_sets g) false).

(** The label "blue" hides both shards; with the name of the second one, the first one is
    deleted too. *)
Lemma group_label_hides_shards_witness :
  (forall s err, DeleteStatefulSet s err ∉ c_log (ex_grouped_run "blue").1) /\
  DeleteStatefulSet (started (build_shard (ex_grouped "kvs-shard-1") 0)) None ∈
    c_log (ex_grouped_run "kvs-shard-1").1.
Proof.
  assert (Hlb : forall g, Forall (fun s => exists i, om_Labels (sts_meta s) =
    om_Labels (sts_meta (build_shard (ex_grouped g) i))) (ex_grouped_sets g)).
  { intros g. repeat constructor; by eexists. }
  split.
  - destruct (group_label_hides_shards (ex_grouped "blue") "blue"
      (ex_cluster (ex_grouped "blue") (ex_grouped_sets "blue") false)
      (ex_grouped_run "blue").1 (ex_grouped_run "blue").2
      (c_env (ex_cluster (ex_grouped "blue") (ex_grouped_sets "blue") false))
      (ex_grouped_sets "blue")) as (evs & Hlog & Hno).
    + reflexivity.
    + simpl. lia.
    + reflexivity.
    + apply Hlb.
    + apply surjective_pairing.
    + simpl in Hlog. rewrite Hlog. rewrite decide_False in Hno; [exact Hno|].
      by apply (bool_decide_unpack _); vm_compute.
  - destruct (group_label_hides_shards (ex_grouped "kvs-shard-1") "kvs-shard-1"
      (ex_cluster (ex_grouped "kvs-shard-1") (ex_grouped_sets "kvs-shard-1") false)
      (ex_grouped_run "kvs-shard-1").1 (ex_grouped_run "kvs-shard-1").2
      (c_env (ex_cluster (ex_grouped "kvs-shard-1") (ex_grouped_sets "kvs-shard-1") false))
      (ex_grouped_sets "kvs-shard-1")) as (evs & Hlog & Hyes).
    + reflexivity.
    + simpl. lia.
    + reflexivity.
    + apply Hlb.
    + apply surjective_pairing.
    + simpl in Hlog. rewrite Hlog. rewrite decide_True in Hyes.
      * apply Hyes; [done|]. left.
      * by apply (bool_decide_unpack _); vm_compute.
Defined.
