(* ===== verification/ConfigNames.v ===== *)
(** * The names in the configuration

    The shards read the names of all shards and replicas from the file that the
    controller writes ([UpdateConfigMap] of kvstore_controller.go), and dial the
    addresses that they build from these names ([PopulateShardClients],
    [PopulateReplicaClients] of shard.go and [Join] of kvstore.go). Both steps are
    plain string concatenation. For a resource whose name is a label, this file
    shows that the names are labels and the addresses unambiguous, and from there
    the assumption [ConfigLabels] of the theorems on the shards. *)

From Stdlib Require Import Ascii.
From S2P Require Import Prelude Protos RaftCommon KVStore Shard ShardWorld.
From S2P Require Import Kube Controller ControllerProps SimKube.

(** ** Labels *)

Lemma is_label_app a b : is_label (a +:+ b) = is_label a && is_label b.
Proof.
  unfold is_label. induction a as [|x a IH]; [done|].
  change (String x a +:+ b) with (String x (a +:+ b)). cbn [String.list_ascii_of_string forallb].
  rewrite IH. by rewrite andb_assoc.
Qed.

Lemma is_label_cons x s :
  is_label (String x s) = negb (Ascii.eqb x ".") && negb (Ascii.eqb x ":") && is_label s.
Proof. done. Qed.

Lemma pretty_N_go_label x s : is_label s = true -> is_label (pretty_N_go x s) = true.
Proof.
  revert s. induction (N.lt_wf_0 x) as [x _ IH]. intros s Hs.
  destruct (decide (0 < x)%N) as [Hx|Hx]; [|by replace x with 0%N by lia].
  rewrite pretty_N_go_step by done. apply IH; [by apply N.div_lt|].
  rewrite is_label_cons, Hs, andb_true_r. unfold pretty_N_char. by repeat case_match.
Qed.

Lemma itoa_label z : is_label (itoa z) = true.
Proof.
  assert (Hpos : forall x, is_label (pretty (N.pos x)) = true).
  { intros x. unfold pretty, pretty_N. case_decide; [done|]. by apply pretty_N_go_label. }
  destruct z as [|x|x]; [done|apply Hpos|]. unfold itoa, pretty, pretty_Z.
  rewrite is_label_app. apply (Hpos x).
Qed.

(** A label ends at the first dot or colon. *)
Lemma label_cut x a b t t' :
  negb (Ascii.eqb x ".") && negb (Ascii.eqb x ":") = false ->
  is_label a = true -> is_label b = true -> a +:+ String x t = b +:+ String x t' ->
  a = b /\ t = t'.
Proof.
  intros Hx. revert b. induction a as [|y a IH]; intros [|z b] Ha Hb Heq.
  - by injection Heq as ->.
  - injection Heq as <- _. rewrite is_label_cons, Hx in Hb. done.
  - injection Heq as -> _. rewrite is_label_cons, Hx in Ha. done.
  - injection Heq as -> Heq. rewrite is_label_cons in Ha, Hb.
    apply andb_true_iff in Ha as [_ Ha], Hb as [_ Hb]. by destruct (IH b Ha Hb Heq) as [-> ->].
Qed.

Lemma host_addr_inj s s' port port' :
  is_label s = true -> is_label s' = true ->
  host_addr s port = host_addr s' port' -> s = s' /\ port = port'.
Proof.
  intros Hs Hs' Heq. by destruct (label_cut ":" s s' _ _ eq_refl Hs Hs' Heq) as [-> ->%itoa_inj].
Qed.

Lemma replica_addr_inj r r' s s' port port' :
  is_label r = true -> is_label r' = true -> is_label s = true -> is_label s' = true ->
  replica_addr r s port = replica_addr r' s' port' -> r = r' /\ s = s' /\ port = port'.
Proof.
  intros Hr Hr' Hs Hs' Heq. destruct (label_cut "." r r' _ _ eq_refl Hr Hr' Heq) as [-> Hrest].
  by destruct (host_addr_inj s s' port port' Hs Hs' Hrest) as [-> ->].
Qed.

(** ** The controller's configuration *)

Section names.
Context `{!KubeTypes}.
Implicit Types (kv : KVStore) (d : KVStoreShard).

(** The lists of shards of a configuration. *)
Definition config_lists (c : KVStoreConfig) : list (list KVStoreShard) :=
  [kc_Shards c; kc_NewShards c].

(** Both lists of the controller's configuration are numbered from zero. *)
Lemma config_list kv l :
  l ∈ config_lists (build_config kv) -> exists n, l = config_shards kv n.
Proof.
  unfold config_lists, build_config.
  repeat (case_decide || match goal with Hz : _ = 0%Z |- _ => rewrite Hz end);
    intros [->|[->|[]%elem_of_nil]%elem_of_cons]%elem_of_cons;
    first [by exists 0%Z | by eexists].
Qed.

Lemma lookup_numbered {A} (f : Z -> A) n (i : nat) x :
  map f (zrange 0 n) !! i = Some x -> x = f (Z.of_nat i).
Proof.
  intros Hx. apply list_lookup_fmap_Some in Hx as (z & -> & Hz).
  apply lookup_seqZ in Hz as [-> _]. by rewrite Z.add_0_l.
Qed.

Lemma config_at kv l (i : nat) d :
  l ∈ config_lists (build_config kv) -> l !! i = Some d ->
  d = shard_config (ks_name kv) (spec_Replicas (ks_Spec kv)) (Z.of_nat i).
Proof. intros [n ->]%config_list. apply lookup_numbered. Qed.

Lemma shard_name_label name i : is_label name = true -> is_label (shard_name name i) = true.
Proof. intros Hn. unfold shard_name. by rewrite !is_label_app, Hn, itoa_label. Qed.

Lemma replica_name_label s i : is_label s = true -> is_label (replica_name s i) = true.
Proof. intros Hs. unfold replica_name. by rewrite !is_label_app, Hs, itoa_label. Qed.

Lemma shard_config_labels name n i :
  is_label name = true ->
  is_label (ks_Name (shard_config name n i)) = true /\
  Forall (fun r => is_label r = true) (ks_Replicas (shard_config name n i)).
Proof.
  intros Hn. simpl. pose proof (shard_name_label _ i Hn) as Hs.
  split; [done|]. apply Forall_forall. intros r (j & -> & _)%list_elem_of_fmap.
  by apply replica_name_label.
Qed.

Lemma config_member_labels kv d :
  is_label (ks_name kv) = true ->
  d ∈ kc_Shards (build_config kv) ++ kc_NewShards (build_config kv) ->
  is_label (ks_Name d) = true /\ Forall (fun r => is_label r = true) (ks_Replicas d).
Proof.
  intros Hn Hd. assert (exists l, l ∈ config_lists (build_config kv) /\ d ∈ l) as (l & Hl & Hin).
  { apply elem_of_app in Hd as [Hd|Hd]; eexists; (split; [|exact Hd]); [left|right; left]. }
  apply list_elem_of_lookup_1 in Hin as [i Hi]. rewrite (config_at kv l i d Hl Hi).
  by apply shard_config_labels.
Qed.

(** C24: the addresses that shards dial are unambiguous. For a resource whose name is a
    label, take the entry at position [i] of a list of shards in the configuration that the
    controller writes, old or new, and the one at position [j] of the same or the other list.
    They are named by labels; they have the same address, whatever the ports, exactly
    if the positions are the same and the ports are; and their replicas at positions [a] and
    [b] have the same address exactly if also [a] is [b]. *)
Theorem config_addresses_distinct kv l l' (i j : nat) d d' :
  is_label (ks_name kv) = true ->
  l ∈ config_lists (build_config kv) -> l' ∈ config_lists (build_config kv) ->
  l !! i = Some d -> l' !! j = Some d' ->
  (is_label (ks_Name d) = true /\ Forall (fun r => is_label r = true) (ks_Replicas d)) /\
  (forall port port', host_addr (ks_Name d) port = host_addr (ks_Name d') port' <->
     i = j /\ port = port') /\
  (forall (a b : nat) r r' port port', ks_Replicas d !! a = Some r -> ks_Replicas d' !! b = Some r' ->
     replica_addr r (ks_Name d) port = replica_addr r' (ks_Name d') port' <->
     i = j /\ a = b /\ port = port').
Proof.
  intros Hn Hl Hl' Hd Hd'. rewrite (config_at kv l i d Hl Hd), (config_at kv l' j d' Hl' Hd').
  set (n := spec_Replicas (ks_Spec kv)).
  pose proof (shard_config_labels _ n (Z.of_nat i) Hn) as [Hs Hr].
  pose proof (shard_config_labels _ n (Z.of_nat j) Hn) as [Hs' Hr'].
  split; [done|]. rewrite Forall_forall in Hr, Hr'. split.
  - intros port port'. split; [|by intros [-> ->]].
    intros [Heq ->]%host_addr_inj; [|done..]. apply shard_name_inj in Heq. split; [lia|done].
  - intros a b r r' port port' Ha Hb. pose proof (lookup_numbered _ _ _ _ Ha) as Hra.
    pose proof (lookup_numbered _ _ _ _ Hb) as Hrb. split.
    + intros (Hrr & Heq & ->)%replica_addr_inj;
        [|eauto using list_elem_of_lookup_2..]. apply shard_name_inj in Heq.
      assert (i = j) as -> by lia. rewrite Hra, Hrb in Hrr. apply replica_name_inj in Hrr.
      split_and!; [done|lia|done].
    + intros (-> & -> & ->). by rewrite Hra, Hrb.
Qed.

(** ** The assumption of the shards

    The shards assume that the configurations they read name shards and replicas by
    labels. That holds where the texts they read are the ones the controller wrote, with
    the [yaml_Marshal] of its library, for resources whose names are labels, and the
    library of the shards reads what that of the controller writes. *)
Class MountedConfig (marshal : KVStoreConfig -> res string) (E : Type) `{!OS E} : Prop := {
  mounted_written : forall buf, read_text E buf ->
    exists kv, is_label (ks_name kv) = true /\ marshal (build_config kv) = Ok buf;
  mounted_agrees : forall c buf, marshal c = Ok buf -> yaml_Unmarshal (E := E) buf = Ok c
}.

Lemma mounted_config_labels marshal (E : Type) `{!OS E, !MountedConfig marshal E} :
  ConfigLabels E.
Proof.
  split; intros buf c s (kv & Hn & Hw)%(mounted_written (marshal := marshal)) Hy Hs;
    rewrite (mounted_agrees _ _ Hw) in Hy; injection Hy as <-; by apply (config_member_labels kv).
Qed.

End names.

(** ** Concrete instances *)

(** A cluster with one resource, whose configuration is mounted everywhere. *)
Definition ex_text : string := "shards: 1 of 3".
Definition ex_marshal (c : KVStoreConfig) : res string :=
  if decide (c = build_config ex_up) then Ok ex_text else Err (LibErr "yaml: not this one").

Definition ex_os : OS unit := {|
  os_ReadFile n p e := (e, Ok ex_text);
  os_Stat_IsNotExist n p e := (e, true);
  yaml_Unmarshal t :=
    if decide (t = ex_text) then Ok (build_config ex_up) else Err (LibErr "yaml: cannot unmarshal");
  time_Sleep t e := (e, tt);
  range_order keys e := (e, keys)
|}.

Lemma ex_mounted : @MountedConfig _ ex_marshal unit ex_os.
Proof.
  split.
  - intros buf (n & f & e & e' & [= _ <-]). exists ex_up. split; [reflexivity|].
    unfold ex_marshal. by rewrite decide_True.
  - intros c buf. unfold ex_marshal. case_decide as Hc; intros [= <-].
    by rewrite Hc.
Qed.

Lemma config_addresses_distinct_witness :
  host_addr "kvs-shard-0" 8081 <> host_addr "kvs-shard-2" 8081 /\
  replica_addr "kvs-shard-0-replica-0" "kvs-shard-0" 8083 <>
    replica_addr "kvs-shard-2-replica-0" "kvs-shard-2" 8083.
Proof.
  destruct (config_addresses_distinct ex_up (kc_Shards (build_config ex_up))
    (kc_NewShards (build_config ex_up)) 0 2
    (shard_config "kvs" 1 0) (shard_config "kvs" 1 2)) as (_ & Hhost & Hrep).
  - reflexivity.
  - left.
  - right. left.
  - reflexivity.
  - reflexivity.
  - split; intros Heq.
    + by apply Hhost in Heq as [? _].
    + by apply (Hrep 0%nat 0%nat "kvs-shard-0-replica-0" "kvs-shard-2-replica-0") in Heq as [? _].
Defined.
