(* ===== verification/ControllerInv.v ===== *)
(** * Invariants of the cluster under the controller

    A property of the cluster that every call of its API keeps is kept by every
    reconciliation, whatever its outcome. The properties may look at the calls that the
    controller has recorded as well. *)

From S2P Require Import Prelude Protos KVStore Shard Kube Controller.

(** [P log k]: a property of the calls made so far and of the cluster. Each call of the
    controller keeps it, with the event that is recorded for it. *)
Class KubeInv `{!KubeTypes} (K : Type) `{!Kube K} (P : list event -> K -> Prop) : Prop := {
  ki_get_KVStore : forall l k a b, P l k -> P l (get_KVStore a b k).1;
  ki_update_Status : forall l k kv, P l k ->
    P (l ++ [UpdateStatus kv (update_Status kv k).2]) (update_Status kv k).1;
  ki_list_StatefulSets : forall l k a b, P l k ->
    P (l ++ [ListShards (list_StatefulSets a b k).2]) (list_StatefulSets a b k).1;
  ki_list_Services : forall l k a b, P l k -> P l (list_Services a b k).1;
  ki_list_Ingresses : forall l k a b, P l k -> P l (list_Ingresses a b k).1;
  ki_get_ConfigMap : forall l k a b, P l k -> P l (get_ConfigMap a b k).1;
  ki_create_ConfigMap : forall l k x, P l k ->
    P (l ++ [CreateConfigMap x (create_ConfigMap x k).2]) (create_ConfigMap x k).1;
  ki_update_ConfigMap : forall l k x, P l k ->
    P (l ++ [WriteConfigMap x (update_ConfigMap x k).2]) (update_ConfigMap x k).1;
  ki_create_StatefulSet : forall l k x, P l k ->
    P (l ++ [CreateStatefulSet x (create_StatefulSet x k).2]) (create_StatefulSet x k).1;
  ki_update_StatefulSet : forall l k x, P l k ->
    P (l ++ [UpdateStatefulSet x (update_StatefulSet x k).2]) (update_StatefulSet x k).1;
  ki_delete_StatefulSet : forall l k x, P l k ->
    P (l ++ [DeleteStatefulSet x (delete_StatefulSet x k).2]) (delete_StatefulSet x k).1;
  ki_create_Ingress : forall l k x, P l k ->
    P (l ++ [CreateIngress x (create_Ingress x k).2]) (create_Ingress x k).1;
  ki_delete_Ingress : forall l k x, P l k ->
    P (l ++ [DeleteIngress x (delete_Ingress x k).2]) (delete_Ingress x k).1;
  ki_create_Service : forall l k x, P l k ->
    P (l ++ [CreateService x (create_Service x k).2]) (create_Service x k).1;
  ki_delete_Service : forall l k x, P l k ->
    P (l ++ [DeleteService x (delete_Service x k).2]) (delete_Service x k).1;
  ki_Now : forall l k, P l k -> P l (metav1_Now k).1;
  ki_Dial : forall l k t, P l k -> P l (kube_Dial t k).1;
  ki_Sleep : forall l k t, P l k -> P l (kube_Sleep t k).1;
  ki_PauseWrites : forall l k t i, P l k ->
    P (l ++ [CallPauseWrites t (rpc_PauseWrites t i k).2]) (rpc_PauseWrites t i k).1;
  ki_RedistributeKeys : forall l k t i, P l k ->
    P (l ++ [CallRedistributeKeys t (rpc_RedistributeKeys t i k).2])
      (rpc_RedistributeKeys t i k).1;
  ki_ResumeWrites : forall l k t i, P l k ->
    P (l ++ [CallResumeWrites t (rpc_ResumeWrites t i k).2]) (rpc_ResumeWrites t i k).1
}.

Section invariant.
Context `{!KubeTypes} {K : Type} `{!Kube K} (P : list event -> K -> Prop) `{!KubeInv K P}.
Context (fuel : nat).

Definition ctl_inv (c : Ctl K) : Prop := P (c_log c) (c_env c).

Lemma inv_query {A} (f : K -> K * A) :
  (forall l k, P l k -> P l (f k).1) -> preserves ctl_inv (query f).
Proof.
  intros Hf c Hc. unfold query. specialize (Hf _ _ Hc). by destruct (f (c_env c)).
Qed.

Lemma inv_call {A} (ev : A -> event) (f : K -> K * A) :
  (forall l k, P l k -> P (l ++ [ev (f k).2]) (f k).1) -> preserves ctl_inv (call ev f).
Proof.
  intros Hf c Hc. unfold call. specialize (Hf _ _ Hc). by destruct (f (c_env c)).
Qed.

#[local] Hint Extern 1 (preserves _ (query _)) =>
  apply inv_query; intros ? ? ?; first
    [ by apply ki_get_KVStore | by apply ki_list_Services | by apply ki_list_Ingresses
    | by apply ki_get_ConfigMap | by apply ki_Now | by apply ki_Dial | by apply ki_Sleep ]
  : go.
#[local] Hint Extern 1 (preserves _ (call _ _)) =>
  apply inv_call; intros ? ? ?; first
    [ by apply ki_update_Status | by apply ki_list_StatefulSets
    | by apply ki_create_ConfigMap | by apply ki_update_ConfigMap
    | by apply ki_create_StatefulSet | by apply ki_update_StatefulSet
    | by apply ki_delete_StatefulSet | by apply ki_create_Ingress
    | by apply ki_delete_Ingress | by apply ki_create_Service | by apply ki_delete_Service
    | by apply ki_PauseWrites | by apply ki_RedistributeKeys | by apply ki_ResumeWrites ]
  : go.

Lemma inv_status_update kv : preserves ctl_inv (status_update kv).
Proof. unfold status_update. go_preserves. Qed.

Lemma inv_return_status kv : preserves ctl_inv (return_status kv).
Proof. apply preserves_bind; [apply inv_status_update|]. intros r. apply preserves_ret. Qed.

Lemma inv_enter_phase ph msg kv : preserves ctl_inv (enter_phase ph msg kv).
Proof. unfold enter_phase. go_preserves. Qed.

Lemma inv_GetShards kv : preserves ctl_inv (GetShards kv).
Proof. unfold GetShards. go_preserves. Qed.

Lemma inv_GetShardClient s : preserves ctl_inv (GetShardClient fuel s).
Proof. apply preserves_loop. go_preserves. Qed.

Lemma inv_UpdateConfigMap kv : preserves ctl_inv (UpdateConfigMap kv).
Proof. unfold UpdateConfigMap. go_preserves. Qed.

Lemma inv_deref_replicas s : preserves ctl_inv (deref_replicas s).
Proof. unfold deref_replicas. go_preserves. Qed.

#[local] Hint Resolve inv_status_update inv_return_status inv_enter_phase inv_GetShards : go.
#[local] Hint Resolve inv_GetShardClient inv_UpdateConfigMap inv_deref_replicas : go.

(** A [range] loop whose body keeps the invariant. *)
#[local] Ltac ctl_go :=
  repeat first
    [ progress go_cases
    | match goal with
      | |- preserves _ (bind _ _) => apply preserves_bind; [|intros ?]
      | |- preserves _ (for_return _ _) => apply preserves_for_return; intros ? _
      end
    | solve [eauto with go] ].

Lemma inv_PrepareScale kv : preserves ctl_inv (PrepareScale kv).
Proof. unfold PrepareScale. ctl_go. Qed.

Lemma inv_StopWrites kv : preserves ctl_inv (StopWrites fuel kv).
Proof. unfold StopWrites. ctl_go. Qed.

Lemma inv_sum_pending kv shards n : preserves ctl_inv (sum_pending fuel kv shards n).
Proof. revert n. induction shards as [|s l IH]; intros n; simpl; ctl_go. Qed.

Lemma ctl_RedistributeKeys kv : preserves ctl_inv (RedistributeKeys fuel kv).
Proof. unfold RedistributeKeys. pose proof inv_sum_pending. ctl_go. Qed.

Lemma inv_finish_scale kv : preserves ctl_inv (finish_scale kv).
Proof. unfold finish_scale. ctl_go. Qed.

Lemma inv_FinalizeScale kv : preserves ctl_inv (FinalizeScale kv).
Proof.
  unfold FinalizeScale, GetIngresses, GetServices, delete_groups.
  pose proof inv_finish_scale. ctl_go.
Qed.

Lemma inv_ResumeWrites kv : preserves ctl_inv (ResumeWrites fuel kv).
Proof. unfold ResumeWrites. ctl_go. Qed.

#[local] Hint Resolve inv_PrepareScale inv_StopWrites ctl_RedistributeKeys : go.
#[local] Hint Resolve inv_FinalizeScale inv_ResumeWrites : go.

Lemma inv_dispatch kv : preserves ctl_inv (dispatch fuel kv).
Proof. unfold dispatch. ctl_go. Qed.

Lemma inv_scale_up kv : preserves ctl_inv (scale_up kv).
Proof.
  unfold scale_up, SpinUpShards, SpinUpShardIngresses, SpinUpShardServices, spin_up. ctl_go.
Qed.

Lemma inv_reconcile_store name kv : preserves ctl_inv (reconcile_store fuel name kv).
Proof.
  pose proof inv_dispatch. pose proof inv_scale_up.
  unfold reconcile_store, sync_replicas, begin_scale. ctl_go.
Qed.

Lemma inv_Reconcile namespace name : preserves ctl_inv (Reconcile fuel namespace name).
Proof. pose proof inv_reconcile_store. unfold Reconcile. ctl_go. Qed.

End invariant.
