(* ===== verification/Joint.v ===== *)
(** * The controller and the shards together

    A cluster whose shards are the processes of Shard: the calls that the controller
    makes to the API server go to an arbitrary cluster, and the calls that it makes to
    shards are calls to the handlers of the processes. [joint_kube] is thus an instance of
    the interface [Kube] that the controller is written against, with its gRPC part
    implemented by the other half of the program.

    The state also keeps, for each request to redistribute keys, the processes at the
    time of the request. *)

From S2P Require Import Prelude Protos RaftCommon KVStore Shard System.
From S2P Require Import Kube Controller ControllerInv.

Section joint.
Context `{!Proto, !ConsistentHash} {E : Type} `{!Raft E, !RaftSetup E, !Net E, !OS E}.
Context `{!KubeTypes} {K : Type} `{!Kube K}.
(** The bound on the loops of the processes. *)
Context (fuel : nat).

Record Joint := {
  j_kube : K;
  j_world : World E;
  j_asked : list (string * World E)
}.

(** A call of the API server. *)
Definition at_kube {A} (f : K -> K * A) (j : Joint) : Joint * A :=
  let (k', a) := f (j_kube j) in
  ({| j_kube := k'; j_world := j_world j; j_asked := j_asked j |}, a).

(** A call that only moves the environment of the processes. *)
Definition at_env {A} (f : E -> E * A) (j : Joint) : Joint * A :=
  let (e', a) := f (w_env (j_world j)) in
  ({| j_kube := j_kube j;
      j_world := {| w_procs := w_procs (j_world j); w_env := e'; w_go := w_go (j_world j) |};
      j_asked := j_asked j |}, a).

(** What a caller outside the processes gets: the answer, or that it gave up when none
    came. *)
Definition answer {A} (o : outcome (res A)) : res A :=
  match o with Ret r => r | _ => Err (StatusErr "Canceled" "context canceled") end.

(** A call of a shard. *)
Definition at_shard {A} (target : string) (handler : string -> M (World E) (res A))
    (j : Joint) : Joint * res A :=
  let (w', o) := rpc target handler (j_world j) in
  ({| j_kube := j_kube j; j_world := w'; j_asked := j_asked j |}, answer o).

(** A call that asks a shard to redistribute keys. *)
Definition redistribute (target : string) (i : RedistributeKeysRequest) (j : Joint)
    : Joint * res RedistributeKeysResponse :=
  let (w', o) := rpc target (fun node => shardRpcServer_RedistributeKeys node i) (j_world j) in
  ({| j_kube := j_kube j; j_world := w';
      j_asked := j_asked j ++ [(target, j_world j)] |}, answer o).

Definition joint_kube : Kube Joint := {|
  get_KVStore a b := at_kube (get_KVStore a b);
  update_Status kv := at_kube (update_Status kv);
  list_StatefulSets a b := at_kube (list_StatefulSets a b);
  list_Services a b := at_kube (list_Services a b);
  list_Ingresses a b := at_kube (list_Ingresses a b);
  get_ConfigMap a b := at_kube (get_ConfigMap a b);
  create_ConfigMap x := at_kube (create_ConfigMap x);
  update_ConfigMap x := at_kube (update_ConfigMap x);
  create_StatefulSet x := at_kube (create_StatefulSet x);
  update_StatefulSet x := at_kube (update_StatefulSet x);
  delete_StatefulSet x := at_kube (delete_StatefulSet x);
  create_Ingress x := at_kube (create_Ingress x);
  delete_Ingress x := at_kube (delete_Ingress x);
  create_Service x := at_kube (create_Service x);
  delete_Service x := at_kube (delete_Service x);
  SetControllerReference := SetControllerReference (K := K);
  metav1_Now := at_kube metav1_Now;
  yaml_Marshal := yaml_Marshal (K := K);
  kube_Dial t := at_env (grpc_Dial t);
  kube_Sleep t := at_env (time_Sleep t);
  rpc_PauseWrites t i := at_shard t (fun node => shardRpcServer_PauseWrites node i);
  rpc_RedistributeKeys t i := redistribute t i;
  rpc_ResumeWrites t i := at_shard t (fun node => shardRpcServer_ResumeWrites fuel node i);
  IndexField a b f := at_kube (IndexField a b f);
  builder_Complete a b l := at_kube (builder_Complete a b l)
|}.
#[local] Existing Instance joint_kube.

(** ** Turns *)

(** Is [n] a process of another shard than [shard]? *)
Definition elsewhere (shard : string) (procs : gmap string Proc) (n : string) : bool :=
  match procs !! n with
  | Some p => bool_decide (f_shard (p_flags p) <> shard)
  | None => false
  end.

(** The pods of a shard and their volumes are gone: its processes with what they store, and
    the goroutines of these processes. *)
Definition gone (shard : string) (w : World E) : World E :=
  {| w_procs := filter (fun np => f_shard (p_flags np.2) <> shard) (w_procs w);
     w_env := w_env w;
     w_go := filter (fun nt => elsewhere shard (w_procs w) nt.1 = true) (w_go w) |}.

(** The cluster removes the pods and the volumes of the shard [i] of a resource when no
    stateful set has them: the sets retain no volume when they are deleted. *)
Definition collect (namespace name : string) (i : Z) (j : Joint) : Joint :=
  match list_StatefulSets namespace name (j_kube j) with
  | (k, Ok l) =>
      {| j_kube := k;
         j_world := if decide (shard_name name i ∈ map sts_ServiceName l) then j_world j
                    else gone (shard_name name i) (j_world j);
         j_asked := j_asked j |}
  | (k, Err _) => {| j_kube := k; j_world := j_world j; j_asked := j_asked j |}
  end.

(** A reconciliation of a resource; a turn of the processes; a move of the cluster; the end
    of a shard that has no stateful set. *)
Inductive joint_turn :=
| JReconcile (rounds : nat) (namespace name : string)
| JAct (a : action (E := E))
| JKube (k : K)
| JCollect (namespace name : string) (i : Z).

Definition joint_act (t : joint_turn) (c : Ctl Joint) : Ctl Joint :=
  match t with
  | JReconcile rounds namespace name => (Reconcile rounds namespace name c).1
  | JAct a =>
      {| c_env := {| j_kube := j_kube (c_env c); j_world := (act fuel a (j_world (c_env c))).1;
                     j_asked := j_asked (c_env c) |};
         c_log := c_log c |}
  | JKube k =>
      {| c_env := {| j_kube := k; j_world := j_world (c_env c); j_asked := j_asked (c_env c) |};
         c_log := c_log c |}
  | JCollect namespace name i =>
      {| c_env := collect namespace name i (c_env c); c_log := c_log c |}
  end.

Definition joint_run (l : list joint_turn) (c : Ctl Joint) : Ctl Joint :=
  foldl (fun c t => joint_act t c) c l.

(** The turns of the processes that the controller causes. *)
Definition controller_turn (a : action (E := E)) : Prop :=
  match a with
  | ARequest _ (ShardPauseWrites | ShardRedistributeKeys | ShardResumeWrites) => True
  | AEnv _ => True
  | _ => False
  end.

(** ** Runs of the controller are runs of the deployment *)

Implicit Types (w : World E) (j : Joint).

(** [w'] comes from [w0] by turns that the controller causes. *)
Definition driven w0 w' : Prop :=
  exists l, Forall controller_turn l /\ w' = run_actions fuel l w0.

Lemma driven_refl w : driven w w.
Proof. by exists []. Qed.

Lemma driven_act w0 w' a : driven w0 w' -> controller_turn a -> driven w0 (act fuel a w').1.
Proof.
  intros (l & Hl & ->) Ha. exists (l ++ [a]). split.
  - apply Forall_app. split; [done|]. by constructor.
  - unfold run_actions. by rewrite foldl_app.
Qed.

(** Dropping the answer of a handler changes nothing else. *)
Lemma rpc_void {A} target (h : string -> M (World E) (res A)) w :
  (rpc target (fun node => void (h node)) w).1 = (rpc target h w).1.
Proof.
  unfold rpc, bind, envc, get, ret, void, bind, ret.
  destruct (net_route target (w_env w)) as [e' [code desc|node lost]]; [done|].
  destruct (alive _ node); [|done]. by destruct (h node _) as [w' [r|why|]].
Qed.

(** The turn of a request is a call of its handler. *)
Lemma act_request {A} target (h : string -> M (World E) (res A)) r w :
  (forall node, handle fuel r node = void (h node)) ->
  (act fuel (ARequest target r) w).1 = (rpc target h w).1.
Proof.
  intros Hh. rewrite <- (rpc_void target h w). unfold act, bind, ret.
  assert (Hr : rpc target (handle fuel r) w = rpc target (fun node => void (h node)) w).
  { unfold rpc, bind, envc, get, ret.
    destruct (net_route target (w_env w)) as [e' [code desc|node lost]]; [done|].
    by rewrite Hh. }
  rewrite Hr. by destruct (rpc target (fun node => void (h node)) w) as [w' []].
Qed.

(** A call of a shard is a turn of the processes. *)
Lemma driven_request {A} w0 w target (h : string -> M (World E) (res A)) r :
  driven w0 w -> controller_turn (ARequest target r) ->
  (forall node, handle fuel r node = void (h node)) ->
  driven w0 (rpc target h w).1.
Proof.
  intros Hw Ht Hh. pose proof (driven_act w0 w _ Hw Ht) as Hd.
  by rewrite <- (act_request target h r w Hh).
Qed.

Lemma driven_env {A} w0 (f : E -> E * A) j :
  driven w0 (j_world j) -> driven w0 (j_world (at_env f j).1).
Proof.
  intros Hw. unfold at_env. destruct (f (w_env (j_world j))) as [e' a]. simpl.
  exact (driven_act w0 _ (AEnv e') Hw I).
Qed.

Lemma at_kube_world {A} (f : K -> K * A) j : j_world (at_kube f j).1 = j_world j.
Proof. unfold at_kube. by destruct (f (j_kube j)). Qed.

Lemma at_shard_world {A} target (h : string -> M (World E) (res A)) j :
  j_world (at_shard target h j).1 = (rpc target h (j_world j)).1.
Proof. unfold at_shard. by destruct (rpc target h (j_world j)). Qed.

Lemma redistribute_world target i j : j_world (redistribute target i j).1 =
  (rpc target (fun node => shardRpcServer_RedistributeKeys node i) (j_world j)).1.
Proof. unfold redistribute. by destruct (rpc target _ (j_world j)). Qed.

#[local] Instance driven_inv w0 : KubeInv Joint (fun _ j => driven w0 (j_world j)).
Proof.
  split; intros l j; intros; simpl; try (by rewrite at_kube_world);
    try (by apply driven_env).
  - rewrite at_shard_world. destruct i. by eapply (driven_request _ _ _ _ ShardPauseWrites).
  - rewrite redistribute_world. destruct i.
    by eapply (driven_request _ _ _ _ ShardRedistributeKeys).
  - rewrite at_shard_world. destruct i. by eapply (driven_request _ _ _ _ ShardResumeWrites).
Qed.

(** What a reconciliation does to the processes is a sequence of turns. *)
Lemma Reconcile_driven rounds namespace name (c : Ctl Joint) :
  driven (j_world (c_env c)) (j_world (c_env (Reconcile rounds namespace name c).1)).
Proof.
  destruct (Reconcile rounds namespace name c) as [c' o] eqn:Hrun.
  exact (preserves_run _ _ _ _ _ (inv_Reconcile _ rounds namespace name)
    (driven_refl (j_world (c_env c)) : ctl_inv _ c) Hrun).
Qed.

(** ** The history of requests to redistribute *)

(** A call that asks for a redistribution, with its answer. *)
Definition redistribution (ev : event) : option (string * res RedistributeKeysResponse) :=
  match ev with CallRedistributeKeys t r => Some (t, r) | _ => None end.

(** What the processes [x.2] answer at the address [x.1]. *)
Definition answered (x : string * World E) : string * res RedistributeKeysResponse :=
  (x.1, answer (rpc x.1 (fun node =>
     shardRpcServer_RedistributeKeys node mkRedistributeKeysRequest) x.2).2).

(** A property of the processes that the turns of the controller keep. *)
Context (Q : World E -> Prop) (HQ : forall w w', driven w w' -> Q w -> Q w').

(** The recorded calls are answers of the recorded processes, and [Q] holds of these and
    of the processes now. *)
Definition history_ok (l : list event) (j : Joint) : Prop :=
  omap redistribution l = map answered (j_asked j) /\ Q (j_world j) /\
  Forall (fun x => Q x.2) (j_asked j).

(** A call that is no request to redistribute. *)
Lemma history_other l evs (j j' : Joint) :
  history_ok l j -> Forall (fun ev => redistribution ev = None) evs ->
  j_asked j' = j_asked j -> Q (j_world j') -> history_ok (l ++ evs) j'.
Proof.
  intros (Hl & _ & Ha) Hevs Has HQ'. unfold history_ok.
  rewrite omap_app, (proj2 (omap_nil_iff _ _) Hevs), app_nil_r, Has. done.
Qed.

Lemma history_kube {A} l evs (f : K -> K * A) j :
  history_ok l j -> Forall (fun ev => redistribution ev = None) evs ->
  history_ok (l ++ evs) (at_kube f j).1.
Proof.
  intros Hj Hevs. unfold at_kube. destruct (f (j_kube j)) as [k' a].
  eapply history_other; [done|done|done|apply Hj].
Qed.

Lemma history_env {A} l (f : E -> E * A) j : history_ok l j -> history_ok l (at_env f j).1.
Proof.
  intros Hj. rewrite <- (app_nil_r l). eapply history_other; [exact Hj|done| |].
  - unfold at_env. by destruct (f (w_env (j_world j))).
  - eapply HQ; [|apply Hj]. apply driven_env, driven_refl.
Qed.

Lemma history_shard {A} l ev target (h : string -> M (World E) (res A)) r j :
  history_ok l j -> redistribution ev = None -> controller_turn (ARequest target r) ->
  (forall node, handle fuel r node = void (h node)) ->
  history_ok (l ++ [ev]) (at_shard target h j).1.
Proof.
  intros Hj Hev Hr Hh. eapply history_other; [exact Hj|by constructor| |].
  - unfold at_shard. by destruct (rpc target h (j_world j)).
  - rewrite at_shard_world. eapply HQ; [|apply Hj].
    eapply driven_request; [apply driven_refl|done|done].
Qed.

#[export] Instance history_inv : KubeInv Joint history_ok.
Proof.
  split; intros l j; intros; simpl;
    try (by apply history_kube; [done|repeat constructor]);
    try (by apply history_env);
    try (by rewrite <- (app_nil_r l); apply history_kube).
  - destruct i. by eapply (history_shard _ _ _ _ ShardPauseWrites).
  - destruct i. match goal with H : history_ok l j |- _ => destruct H as (Hl & Hq & Ha) end.
    assert (Hw : Q (j_world (redistribute t mkRedistributeKeysRequest j).1)).
    { rewrite redistribute_world. eapply HQ; [|exact Hq].
      by eapply (driven_request _ _ _ _ ShardRedistributeKeys); [apply driven_refl|..]. }
    unfold redistribute in *.
    destruct (rpc t _ (j_world j)) as [w' o] eqn:Hrun. split_and!; simpl in *; [|done|].
    + rewrite omap_app, map_app, Hl. unfold answered. simpl. by rewrite Hrun.
    + apply Forall_app. split; [done|]. by constructor.
  - destruct i. by eapply (history_shard _ _ _ _ ShardResumeWrites).
Qed.

Lemma at_kube_asked {A} (f : K -> K * A) j : j_asked (at_kube f j).1 = j_asked j.
Proof. unfold at_kube. by destruct (f (j_kube j)). Qed.

Lemma at_env_asked {A} (f : E -> E * A) j : j_asked (at_env f j).1 = j_asked j.
Proof. unfold at_env. by destruct (f (w_env (j_world j))). Qed.

Lemma at_shard_asked {A} target (h : string -> M (World E) (res A)) j :
  j_asked (at_shard target h j).1 = j_asked j.
Proof. unfold at_shard. by destruct (rpc target h (j_world j)). Qed.

(** The history only grows. *)
Definition grown (xs : list (string * World E)) (l : list event) (j : Joint) : Prop :=
  exists ys, j_asked j = xs ++ ys.

#[export] Instance grown_inv xs : KubeInv Joint (grown xs).
Proof.
  split; intros l j; intros; simpl;
    try (unfold grown; by rewrite ?at_kube_asked, ?at_env_asked, ?at_shard_asked).
  match goal with H : grown xs l j |- _ => destruct H as [ys Hys] end.
  unfold redistribute. destruct (rpc t _ (j_world j)) as [w' o].
  exists (ys ++ [(t, j_world j)]). simpl. by rewrite Hys, app_assoc.
Qed.

(** Along a run whose other turns keep [Q]. *)
Lemma joint_history l c :
  (forall shard w, Q w -> Q (gone shard w)) ->
  Forall (fun t => match t with
    | JAct a => forall w, Q w -> Q (act fuel a w).1 | _ => True end) l ->
  history_ok (c_log c) (c_env c) ->
  history_ok (c_log (joint_run l c)) (c_env (joint_run l c)).
Proof.
  intros Hgone Hl. revert c. induction Hl as [|t l Ht _ IH]; intros c Hc; [done|].
  apply IH. destruct t as [rounds ns name|a|k|ns name i]; simpl.
  - destruct (Reconcile rounds ns name c) as [c' o] eqn:Hrun.
    exact (preserves_run _ _ _ _ _ (inv_Reconcile history_ok rounds ns name)
      (Hc : ctl_inv _ c) Hrun).
  - destruct Hc as (Hlog & Hq & Ha). split_and!; [done|by apply Ht|done].
  - done.
  - destruct Hc as (Hlog & Hq & Ha). unfold collect.
    destruct (list_StatefulSets ns name (j_kube (c_env c))) as [k [sts|err]]; [|done].
    split_and!; [done| |done]. simpl. case_decide; [done|]. by apply Hgone.
Qed.

End joint.
Arguments Joint {_} E K.
Arguments joint_turn {_ _} E K.
