(* ===== verification/JointProps.v ===== *)
(** * The controller and the shards together: theorems

    What the controller does to the processes are turns of the deployment, so what
    holds along every run of the deployment holds when the controller takes part; and
    when the controller goes on to delete shards, the processes that it asked had no
    entry left to move. *)

From S2P Require Import Prelude Protos RaftCommon KVStore KVStoreSpec.
From S2P Require Import Shard ShardWorld Redistribution Pending Answers.
From S2P Require Import System SystemInv SystemStore.
From S2P Require Import Sim SimNet SystemProps SystemOrder SystemKept.
From S2P Require Import Kube Controller ControllerTrace ControllerSpec ControllerRun.
From S2P Require Import ControllerInv Joint.
From S2P Require Import SimKube.

(** ** Keeping entries while the controller scales *)

(** Kubernetes resolves the name of a service, qualified by its namespace, to the pods of
    its shard: the address that the controller dials. *)
Class ControllerTopology (E : Type) `{!Net E, !Topology E} (namespace : string) : Prop := {
  route_qualified : forall s port e e' node lost,
    is_label s = true ->
    net_route (replica_addr s namespace port) e = (e', Reach node lost) ->
    node_shard node = s
}.

Section joint.
Context `{!Proto, !ConsistentHash} {E : Type} `{!Raft E, !RaftSetup E, !Net E, !OS E}.
Context `{!Topology E, !ConfigLabels E, !ProtoLaws, !RaftSerial E}.
Context `{!KubeTypes} {K : Type} `{!Kube K}.
Context (fuel : nat).
#[local] Instance joint_instance : Kube (Joint E K) := joint_kube fuel.
Implicit Types (w : World E) (c : Ctl (Joint E K)).

Lemma controller_untouched k a : controller_turn (E := E) a -> untouched k a.
Proof. by destruct a as [target []| | | | | |]. Qed.

(** The turns of the processes in a run do not write [k], and processes start well. *)
Fixpoint safe_run (k v : string) (l : list (joint_turn E K)) c : Prop :=
  match l with
  | [] => True
  | t :: l =>
      match t with
      | JAct a => safe_turn k v a (j_world (c_env c))
      | JCollect ns name i =>
          exists n, stored (j_world (collect ns name i (c_env c))) n k v
      | _ => True
      end /\
      safe_run k v l (joint_act fuel t c)
  end.

(** Processes that disappear leave the others as they are. *)
Lemma gone_lookup shard w n p :
  w_procs (gone shard w) !! n = Some p <->
  w_procs w !! n = Some p /\ f_shard (p_flags p) <> shard.
Proof. unfold gone. simpl. by rewrite map_lookup_filter_Some. Qed.

Lemma kept_collect k v ns name i (j : Joint E K) :
  (exists n, stored (j_world (collect ns name i j)) n k v) ->
  sys_inv (kept k v) label (j_world j) ->
  sys_inv (kept k v) label (j_world (collect ns name i j)).
Proof.
  intros Hst Hk. unfold collect in *.
  destruct (list_StatefulSets ns name (j_kube j)) as [k' [l|err]]; [|done].
  cbn [j_world] in *. case_decide; [done|]. destruct Hk as [(Hok & Hag & _) Hg]. split.
  - split_and!.
    + intros n p [Hp _]%gone_lookup. by apply Hok.
    + intros n p s [Hp _]%gone_lookup. by apply (Hag n p s).
    + destruct Hst as (n & s & (p & Hp & Hs) & Hv). by exists n, p, s.
  - unfold gone. simpl. rewrite Forall_forall in *.
    intros x [_ Hx]%list_elem_of_filter. by apply Hg.
Qed.

(** Scaling keeps entries. Take a deployment in good order in which some process
    stores [v] under [k] and no process stores anything else under it, and let the
    controller reconcile whatever resources it finds, as often as it likes, whatever the
    API server answers; mix in moves of the cluster, turns of the processes that do not
    write [k], and starts of processes: one that starts comes up with a log that has no other
    value for [k], while another process stores [v]; and let shards that have no stateful
    set disappear as long as a process that remains stores [v]. Then some process stores [v] under [k],
    and none stores anything else. *)
Theorem scaling_keeps_entries `{!NoSnapshots E} l c k v :
  let w := j_world (c_env c) in
  let w' := j_world (c_env (joint_run fuel l c)) in
  world_inv w -> Forall (task_ok label) (w_go w) ->
  (forall n v', stored w n k v' -> v' = v) -> (exists n, stored w n k v) ->
  safe_run k v l c ->
  (exists n, stored w' n k v) /\ (forall n v', stored w' n k v' -> v' = v).
Proof.
  intros w w' Hinv Hg Hag Hst Hl. apply kept_elim. subst w'.
  pose proof (kept_intro k v w Hinv Hg Hag Hst) as Hk. subst w. clear Hinv Hg Hag Hst.
  revert c Hl Hk. induction l as [|t l IH]; intros c Hl Hk; [done|]. destruct Hl as [Ht Hl].
  apply (IH (joint_act fuel t c)); [done|]. clear IH Hl.
  destruct t as [rounds ns name|a|x|ns name i]; [|by apply kept_act|done|by apply kept_collect].
  destruct (Reconcile_driven fuel rounds ns name c) as (acts & Hacts & Hw).
  cbn [joint_act]. rewrite Hw.
  apply (inv_run_actions fuel (kept k v) (other k) label); [apply kept_relocate| |done].
  eapply Forall_impl; [exact Hacts|]. intros a Ha. by apply kept_turn, controller_untouched.
Qed.

(** ** Shards are finalized when nothing is left to move *)

Context `{!NoSnapshots E, !OSLaws E} (namespace : string) `{!ControllerTopology E namespace}.

Abbreviation order w := (sys_inv (E := E) (map_Forall in_order) label w).

Lemma order_act a w : entry_turn a -> order w -> order (act fuel a w).1.
Proof.
  intros Ha Hw. pose proof (inv_act fuel (map_Forall in_order) always label
    (fun m newCh key => inv_relocate_free (map_Forall in_order) always label m newCh key I)
    a (order_turn a Ha) w Hw) as Hact.
  by destruct (act fuel a w) as [w1 []].
Qed.

Lemma order_driven w w' : driven fuel w w' -> order w -> order w'.
Proof.
  intros (l & Hl & ->). revert w. induction Hl as [|a l Ha _ IH]; intros w Hw; [done|].
  apply IH, order_act; [|done]. by destruct a as [target []| | | | | |].
Qed.

Lemma order_gone shard w : order w -> order (gone shard w).
Proof.
  intros [Hm Hg]. split.
  - intros n p [Hp _]%gone_lookup. by apply Hm.
  - unfold gone. simpl. rewrite Forall_forall in *.
    intros x [_ Hx]%list_elem_of_filter. by apply Hg.
Qed.

(** The process [n] of the deployment, which leads the shard at [target], counts the entries
    of its store with the ring of the new shards in the configuration that it reads. *)
Definition counts (target : string) w (n : string) (p : Proc) (s : KVSpec) (newCh : ring)
    : Prop :=
  ring_asked target w = Some (n, newCh) /\
  w_procs w !! n = Some p /\ p_crashed p = false /\ node_ok (p_mem p) s.

(** A shard's answer is the count of its leader. *)
Lemma shard_answer target w w' a :
  order w ->
  rpc target (fun node => shardRpcServer_RedistributeKeys node mkRedistributeKeysRequest) w =
    (w', Ret (Ok a)) ->
  exists e node lost n p s newCh, net_route target (w_env w) = (e, Reach node lost) /\
    node_shard n = node_shard node /\ counts target w n p s newCh /\
    rk_PendingKeys a = int32 (Z.of_nat (size (moving_entries p newCh (sp_map s)))).
Proof.
  intros [Hw _] Hrun.
  destruct (rpc_Ok_inv _ _ _ _ _ Hrun) as (node & w1 & lost & Hr1 & Hs1 & Ha1 & Hrun1).
  destruct (at_leader_Ok_inv _ _ _ _ _ Hrun1)
    as (w2 & p0 & r0 & addr & leader & t2 & Hs2 & Hp0 & Hr0 & Hlead & Ht2 & Hrun2).
  destruct (rpc_Ok_inv _ _ _ _ _ Hrun2) as (n & w3 & lost2 & Hr2 & Hs3 & Ha3 & Hrun3).
  destruct (alive_proc _ _ Ha1) as (p0' & Hp0' & Hc0). rewrite Hp0 in Hp0'. injection Hp0' as <-.
  destruct (alive_proc _ _ Ha3) as (p & Hp & Hc).
  assert (Hpw : w_procs w !! n = Some p) by (rewrite <- Hs1, <- Hs2, <- Hs3; done).
  rewrite Hs1 in Hp0. destruct (Hw _ _ Hp0 Hc0) as [(Hsh & _ & Hrc) _].
  destruct (Hw _ _ Hpw Hc) as [_ [[s Hs] _]].
  assert (Hasked : leader_asked target w = Some (n, w_env w3)).
  { unfold leader_asked. rewrite Hr1, Hp0. simpl. rewrite Hr0. simpl. rewrite Hlead. simpl.
    rewrite Ht2. simpl. by rewrite Hr2. }
  destruct (Hrc _ _ Ht2) as (r & port & Hr & Hl & ->). rewrite Hsh in Hl, Hr2.
  pose proof (route_pod _ _ _ _ _ _ _ Hr Hl Hr2) as Hsame.
  destruct (replica_answer_inv n _ w3 w' a p s Hp Hc Hs Hrun3)
    as (e4 & buf & c & newCh & Hf & Hy & Hring & Hn).
  exists (w_env w1), node, lost, n, p, s, newCh. split_and!; [done|done| |done].
  split_and!; [|done|done|done]. unfold ring_asked. rewrite Hasked. simpl. rewrite Hpw. simpl.
  rewrite Hf. simpl. by rewrite Hy, Hring.
Qed.

(** No store has as many as 2^31 entries. *)
Definition small w : Prop := forall n p s,
  w_procs w !! n = Some p -> node_ok (p_mem p) s -> (Z.of_nat (size (sp_map s)) < 2 ^ 31)%Z.

(** The leader of the shard has counted, and none of its entries has to move. *)
Definition drained (shard : StatefulSet) w : Prop :=
  exists n p s newCh, counts (shard_target shard) w n p s newCh /\ moving_entries p newCh (sp_map s) = ∅ /\
    (om_Namespace (sts_meta shard) = namespace -> is_label (sts_ServiceName shard) = true ->
     node_shard n = sts_ServiceName shard).

(** What the answer [n] of a shard says of the processes that were asked. *)
Definition counted (shard : StatefulSet) w (n : Z) : Prop :=
  small w -> (0 <= n)%Z /\ (n = 0%Z -> drained shard w).

Lemma answered_counted shard w n :
  order w -> answered (shard_target shard, w) =
    (shard_target shard, Ok {| rk_PendingKeys := n |}) -> counted shard w n.
Proof.
  intros Hw Hans Hsmall. unfold answered in Hans. simpl in Hans.
  destruct (rpc (shard_target shard) _ w) as [w' o] eqn:Hrun.
  assert (o = Ret (Ok {| rk_PendingKeys := n |})) as ->.
  { injection Hans as Ho. destruct o as [r|why|]; simpl in Ho; [by rewrite Ho|done|done]. }
  destruct (shard_answer _ _ _ _ Hw Hrun) as (e & node & lost & m & p & s & newCh & Hr & Hm & Hct & Hn).
  simpl in Hn. pose proof Hct as (_ & Hp & Hc & Hs).
  pose proof (map_subseteq_size (moving_entries p newCh (sp_map s)) (sp_map s)
    (map_filter_subseteq _ _)) as Hle.
  specialize (Hsmall m p s Hp Hs). rewrite int32_id in Hn by lia. split; [lia|].
  intros ->. exists m, p, s, newCh. split_and!; [done| |].
  - apply map_size_empty_iff. lia.
  - intros Hns Hl. rewrite Hm. unfold shard_target in Hr. rewrite Hns in Hr.
    exact (route_qualified _ 8081 _ _ _ _ Hl Hr).
Qed.

(** Both sides of the history, shard by shard. *)
Lemma answers_counted shards ns (xs : list (string * World E)) :
  length ns = length shards -> Forall (fun x => order x.2) xs ->
  omap redistribution (answers shards ns) = map answered xs ->
  Forall2 (fun shard x => x.1 = shard_target shard) shards xs /\
  (Forall (fun x => small x.2) xs -> total ns = 0%Z ->
   Forall2 (fun shard x => drained shard x.2) shards xs).
Proof.
  intros Hlen Hord Hmap.
  assert (Hall : Forall2 (fun shard x => x.1 = shard_target shard) shards xs /\
    (Forall (fun x => small x.2) xs -> Forall (fun n => 0 <= n)%Z ns /\
      (Forall (fun n => n = 0%Z) ns -> Forall2 (fun shard x => drained shard x.2) shards xs))).
  { revert ns xs Hlen Hord Hmap. induction shards as [|shard shards IH];
      intros [|n ns] xs Hlen Hord Hmap; try done.
    { destruct xs; [|done]. split; [constructor|]. by split. }
    destruct xs as [|[t w] xs]; [done|]. inversion Hord as [|? ? Ho Hord']; subst.
    assert (Ha : answered (t, w) = (shard_target shard, Ok {| rk_PendingKeys := n |}) /\
      omap redistribution (answers shards ns) = map answered xs).
    { pose proof (f_equal head Hmap) as Hhd. pose proof (f_equal tail Hmap) as Htl.
      split; [|exact Htl]. apply (inj Some). symmetry. exact Hhd. }
    destruct Ha as [Ha Hmap']. assert (t = shard_target shard) as -> by (by injection Ha).
    destruct (IH ns xs) as [Hx Hrest]; [by injection Hlen|done|done|].
    split; [by constructor|]. intros Hsm. inversion Hsm as [|? ? Hs Hsm']; subst.
    destruct (Hrest Hsm') as [Hpos Hz].
    destruct (answered_counted shard w n Ho Ha Hs) as [Hn Hd].
    split; [by constructor|]. intros Hzero. inversion Hzero; subst. constructor; auto. }
  destruct Hall as [Hx Hrest]. split; [done|]. intros Hsm Hz.
  destruct (Hrest Hsm) as [Hpos Hd]. apply Hd. by apply total_zero.
Qed.

(** A controller and a deployment that have just been started. *)
Definition fresh (k : K) (e : E) : Ctl (Joint E K) :=
  {| c_env := {| j_kube := k; j_world := empty_world e; j_asked := [] |}; c_log := [] |}.


End joint.

(** ** A scaling operation from one shard to two *)

#[export] Instance sim_controller_topology : ControllerTopology SimEnv "default".
Proof.
  split. intros s port e e' node lost Hs Hr. apply sim_route_shard in Hr.
  by rewrite shard_of_qualified in Hr.
Qed.

Definition ex_resource (ph : RedistributionPhase) (current target : Z) : Kube.KVStore :=
  {| ks_meta := {| om_Name := "kvs"; om_Namespace := "default"; om_Labels := ∅;
                   om_Annotations := ∅; om_Controller := None; om_ResourceVersion := "1" |};
     ks_Spec := {| spec_Shards := 2; spec_Replicas := 1;
                   spec_IngressDomain := "example.org"; spec_PodSpec := tt |};
     ks_Status := {| st_Phase := ph; st_CurrentShards := current; st_TargetShards := target;
                     st_Message := ""; st_LastTransition := 0 |} |}.

Definition ex_kube : SimKube :=
  let kv := ex_resource PhaseNormal 1 1 in
  {| sk_store := Some kv; sk_sets := [started (build_shard kv 0)];
     sk_config := Some {| cm_meta := config_map_meta kv; cm_Data := ∅ |};
     sk_list_fails := false; sk_time := 0 |}.

(** The process of the first shard runs, and has an entry. *)
Definition ex_alone : World SimEnv :=
  {| w_procs := {[ "n0" := sim_proc "0" ["kvs-shard-0"] {[ "a" := "1" ]} ]};
     w_env := sim_world_env "one"; w_go := [] |}.
Definition ex_joint : Ctl (Joint SimEnv SimKube) :=
  {| c_env := {| j_kube := ex_kube; j_world := ex_alone; j_asked := [] |}; c_log := [] |}.

(** The controller takes six rounds; the configuration is mounted, the process of the second
    shard starts, and the redistributions run, in between. *)
Definition ex_reconcile : joint_turn SimEnv SimKube := JReconcile 1 "default" "kvs".
Definition ex_start (i : string) : list (joint_turn SimEnv SimKube) :=
  map JAct (AStart ("n" +:+ i) (sim_flags i) :: replicate 5 (ATask 0)).
Definition ex_until_asked : list (joint_turn SimEnv SimKube) :=
  [ex_reconcile; JAct (AEnv (sim_world_env "scaling"))] ++ ex_start "1" ++
  [ex_reconcile; ex_reconcile; ex_reconcile; JAct (ATask 0); JAct (ATask 0)].
Definition ex_operation : list (joint_turn SimEnv SimKube) :=
  ex_until_asked ++
  [ex_reconcile; ex_reconcile; JAct (AEnv (sim_world_env "two")); ex_reconcile].

(** The resource is ready, the entry is at the second shard, and both rings are new. *)
Example ex_scaled :
  let c := c_env (joint_run 2 ex_operation ex_joint) in
  (fun kv => st_Message (ks_Status kv)) <$> sk_store (j_kube c) = Some "Ready" /\
  (fun p => (p_ch p, map_entries (m_heap (p_mem p)) (k_store (m_kv (p_mem p))))) <$>
    w_procs (j_world c) =
  {[ "n0" := (["kvs-shard-0"; "kvs-shard-1"], ∅);
     "n1" := (["kvs-shard-0"; "kvs-shard-1"], {[ "a" := "1" ]}) ]}.
Proof. vm_compute. split; reflexivity. Qed.

Lemma ex_alone_stored n k v :
  stored ex_alone n k v -> n = "n0" /\ ({[ "a" := "1" ]} : gmap string string) !! k = Some v.
Proof.
  intros (s & (p & Hp & Hs) & Hv). simpl in Hp. apply lookup_singleton_Some in Hp as [<- <-].
  by rewrite (node_ok_fun _ _ _ Hs (sim_mem_ok _ _)) in Hv.
Qed.

Lemma ex_holder (w : World SimEnv) :
  w_procs w !! "n0" = Some (sim_proc "0" ["kvs-shard-0"] {[ "a" := "1" ]}) -> stored w "n0" "a" "1".
Proof.
  intros Hp. exists {| sp_map := {[ "a" := "1" ]}; sp_writes := true |}. split; [|done].
  eexists. split; [exact Hp|]. apply sim_mem_ok.
Qed.

Lemma scaling_keeps_entries_witness :
  exists n, stored (j_world (c_env (joint_run 2 ex_operation ex_joint))) n "a" "1".
Proof.
  apply (scaling_keeps_entries 2 ex_operation ex_joint "a" "1").
  - intros n p Hp. simpl in Hp. apply lookup_singleton_Some in Hp as [<- <-]. by apply sim_proc_ok.
  - constructor.
  - intros n v' [_ Hv]%ex_alone_stored. by apply lookup_singleton_Some in Hv as [_ <-].
  - exists "n0". by apply ex_holder.
  - do 2 (split; [exact I|]). split; [|repeat (split; [exact I|]); exact I].
    split_and!; [reflexivity|vm_compute; reflexivity| |].
    + exists "n0". split; [done|]. apply ex_holder. vm_compute. reflexivity.
    + intros v' (s & (p & Hp & Hs) & Hv). rewrite <- (node_ok_entries _ _ Hs) in Hv.
      vm_compute in Hp. injection Hp as <-. by vm_compute in Hv.
Defined.

(** The same operation from the start of the processes on, up to the moved entry: the
    second shard comes up when the configuration names it. *)
Definition ex_from_start : list (joint_turn SimEnv SimKube) :=
  ex_start "0" ++
  [JAct (ARequest "kvs-shard-0:8080" (KvPut {| put_Key := "a"; put_Value := "1" |}));
   ex_reconcile; JAct (AEnv (sim_world_env "scaling"))] ++
  ex_start "1" ++
  [ex_reconcile; ex_reconcile; ex_reconcile; JAct (ATask 0); JAct (ATask 0)].
Abbreviation ex_asked :=
  (joint_run 2 ex_from_start (fresh ex_kube (sim_world_env "one"))).
Abbreviation ex_redistribution :=
  (RedistributeKeys (Kube0 := joint_instance 2) 1 (ex_resource PhaseRedistributingKeys 1 2)
     ex_asked).

