(* ===== verification/JointLive.v ===== *)
(** * A scaling operation of both halves comes to an end

    The controller and the processes of the shards together, in a cluster that keeps
    working: an instance of the interface [CooperativeServer] that the controller's
    progress is proved against, whose shards are the processes. *)

From S2P Require Import Prelude Protos RaftCommon KVStore KVStoreSpec.
From S2P Require Import Shard ShardWorld Redistribution Pending Stable StableCalls Completion.
From S2P Require Import System Sweep.
From S2P Require Import Kube Controller ControllerTrace ControllerSpec ControllerProgress.
From S2P Require Import ControllerInv Joint.

Section live.
Context `{!Proto, !ConsistentHash} {E : Type} `{!Raft E, !RaftSetup E, !Net E, !OS E}.
Context `{!Topology E, !ProtoLaws, !OSLaws E, !ConfigLabels E, !ConsistentLaws}.
Context `{!KubeTypes} {K : Type} `{!Kube K, !CooperativeServer K}.
Context (fuel : nat) (Hfuel : fuel <> 0%nat).
#[local] Instance joint_instance : Kube (Joint E K) := joint_kube fuel.
Implicit Types (w : World E) (c : Ctl (Joint E K)) (kv : Kube.KVStore) (l : list StatefulSet).

(** ** The cluster with the processes as its shards *)

Definition with_env w (e : E) : World E :=
  {| w_procs := w_procs w; w_env := e; w_go := w_go w |}.

(** Dialling a shard succeeds and keeps [W]. *)
Definition dials (W : World E -> Prop) : Prop := forall t w, W w ->
  exists e', grpc_Dial t (w_env w) = (e', None) /\ W (with_env w e').

(** The mode is a property of the processes. *)
Definition joint_coop (m : mode (K := K) * (World E -> Prop)) kv l (j : Joint E K) : Prop :=
  coop m.1 kv l (j_kube j) /\ dials m.2 /\ m.2 (j_world j).

Lemma joint_kube_call {A} (f : K -> K * A) (j : Joint E K) k' a :
  f (j_kube j) = (k', a) -> at_kube f j =
    ({| j_kube := k'; j_world := j_world j; j_asked := j_asked j |}, a).
Proof. unfold at_kube. by intros ->. Qed.

#[local] Instance joint_server : CooperativeServer (Joint E K).
Proof.
  refine {| mode := mode (K := K) * (World E -> Prop); coop := joint_coop |}.
  - intros m kv l j (Hk & HW). exact (coop_ready _ _ _ _ Hk).
  - intros m kv l j (Hk & HW). destruct (coop_get _ _ _ _ Hk) as (k' & Hf & Hk'). eexists.
    split; [exact (joint_kube_call _ _ _ _ Hf)|by split].
  - intros m kv l j (Hk & HW). destruct (coop_list _ _ _ _ Hk) as (k' & Hf & Hk'). eexists.
    split; [exact (joint_kube_call _ _ _ _ Hf)|by split].
  - intros m kv l j (Hk & HW). destruct (coop_list_ingresses _ _ _ _ Hk) as (k' & i & Hf & Hk').
    eexists _, i.
    split; [exact (joint_kube_call _ _ _ _ Hf)|by split].
  - intros m kv l j (Hk & HW). destruct (coop_list_services _ _ _ _ Hk) as (k' & i & Hf & Hk').
    eexists _, i.
    split; [exact (joint_kube_call _ _ _ _ Hf)|by split].
  - intros m kv l x j (Hk & HW). destruct (coop_status _ _ _ x _ Hk) as (k' & kv' & Hf & Hk' & Hrest).
    eexists _, kv'.
    split; [exact (joint_kube_call _ _ _ _ Hf)|by split].
  - intros m kv l j (Hk & HW). pose proof (coop_now _ _ _ _ Hk) as Hk'. simpl. unfold at_kube.
    destruct (metav1_Now (j_kube j)) as [k' t]. by split.
  - intros cfg. exact (coop_yaml (K := K) cfg).
  - intros m kv l j (Hk & HW). destruct (coop_config _ _ _ _ Hk) as (k' & cm & Hf & Hk'). eexists _, cm.
    split; [exact (joint_kube_call _ _ _ _ Hf)|by split].
  - intros m kv l x j (Hk & HW). destruct (coop_write_config _ _ _ x _ Hk) as (k' & Hf & Hk'). eexists.
    split; [exact (joint_kube_call _ _ _ _ Hf)|by split].
  - intros m kv l x j (Hk & HW). destruct (coop_delete_sts _ _ _ x _ Hk) as (k' & Hf & Hk'). eexists.
    split; [exact (joint_kube_call _ _ _ _ Hf)|by split].
  - intros m kv l x j (Hk & HW). destruct (coop_delete_ing _ _ _ x _ Hk) as (k' & Hf & Hk'). eexists.
    split; [exact (joint_kube_call _ _ _ _ Hf)|by split].
  - intros m kv l x j (Hk & HW). destruct (coop_delete_svc _ _ _ x _ Hk) as (k' & Hf & Hk'). eexists.
    split; [exact (joint_kube_call _ _ _ _ Hf)|by split].
Defined.

#[local] Instance joint_dial : CooperativeDial (Joint E K).
Proof.
  split. intros m kv l t j (Hk & HW & Hj). destruct (HW t _ Hj) as (e' & Hd & HW').
  exists {| j_kube := j_kube j; j_world := with_env (j_world j) e'; j_asked := j_asked j |}.
  split; [|split; [exact Hk|split; [exact HW|exact HW']]].
  simpl. unfold at_env. by rewrite Hd.
Qed.

Lemma at_shard_call {A} t (h : string -> M (World E) (res A)) (j : Joint E K) w' a :
  rpc t h (j_world j) = (w', Ret (Ok a)) -> at_shard t h j =
    ({| j_kube := j_kube j; j_world := w'; j_asked := j_asked j |}, Ok a).
Proof. unfold at_shard. by intros ->. Qed.

(** ** The calls of the controller while the environment is stable *)

Section calls.
Context `{!StableCluster E} (cfg : KVStoreConfig).
Context (Hcfg : yaml_Unmarshal config_text = Ok cfg).
(** The leader of the shard of a stateful set. *)
Context (lead : StatefulSet -> string).

(** From [b] on no entry has moved, and the goroutines are [g]. *)
Definition stay (b : World E) (g : list (string * task)) w : Prop :=
  calm eq b w /\ w_go w = g.

Lemma dials_stay b g : dials (stay b g).
Proof.
  intros t w [Hc Hg]. destruct (Hc) as ((Hinv & Hst & Hcr) & _).
  destruct (stable_Dial t (w_env w) Hst) as (e' & Hd & He'). exists e'. split; [done|].
  split; [|done]. exact (calm_trans eq _ _ _ Hc (calm_env eq w e' (w_go w) (proj1 Hc) He')).
Qed.

Lemma pause_step m b g kv l s (j : Joint E K) :
  kc_NewShards cfg <> [] -> encodable (toggle_entry false) ->
  leader_at b (shard_target s) (lead s) -> joint_coop (m, stay b g) kv l j ->
  exists j', rpc_PauseWrites (shard_target s) mkPauseWritesRequest j =
    (j', Ok {| pw_IsPaused := true |}) /\ joint_coop (m, stay b g) kv l j'.
Proof.
  intros Hnew Henc Hat (Hk & Hd & Hc & Hg).
  destruct (PauseWrites_stable cfg Hcfg (shard_target s) (lead s) (j_world j))
    as (w' & Hrun & Hc' & Hg'); [done|done|apply Hc|eapply leader_at_framed; [apply Hc|done]|].
  eexists. split; [exact (at_shard_call _ _ _ _ _ Hrun)|].
  split; [done|]. split; [done|]. split; [exact (calm_trans eq _ _ _ Hc Hc')|].
  simpl. by rewrite Hg'.
Qed.

(** The entries that the process [n] has to give away. *)
Definition pending (newCh : ring) w (n : string) : gmap string string :=
  match w_procs w !! n with
  | Some p => moving_entries p newCh (map_entries (m_heap (p_mem p)) (k_store (m_kv (p_mem p))))
  | None => ∅
  end.

Lemma pending_holds newCh w n p s :
  w_procs w !! n = Some p -> node_ok (p_mem p) s ->
  pending newCh w n = moving_entries p newCh (sp_map s).
Proof.
  intros Hp Hs. unfold pending. by rewrite Hp, (node_ok_entries _ _ Hs).
Qed.

Lemma pending_calm newCh b w n : healthy b -> calm eq b w -> pending newCh w n = pending newCh b n.
Proof.
  intros Hb (Hh & Hf & Hm). destruct (w_procs b !! n) as [p|] eqn:Hp.
  - destruct (proj1 Hb n p Hp) as (_ & (s & Hs) & _).
    destruct (framed_proc _ _ _ Hf n p Hp) as (p' & Hp' & (Hfl & Hch & _)).
    destruct (Hm n s) as (s' & (p1 & Hp1 & Hs') & Hmap); [by exists p|].
    assert (p1 = p') as -> by congruence.
    rewrite (pending_holds newCh w n _ s' Hp1 Hs'), (pending_holds newCh b n _ s Hp Hs), Hmap.
    unfold moving_entries. apply map_filter_ext. intros k v _. simpl. unfold moves_key.
    by rewrite Hfl, <- Hch.
  - unfold pending. by rewrite Hp, (framed_None _ _ _ Hf n Hp).
Qed.

Lemma redistribute_step m b g kv l newCh s (j : Joint E K) :
  healthy b -> leader_at b (shard_target s) (lead s) ->
  consistent_New (map ks_Name (kc_NewShards cfg)) consistentHashCfg = Some newCh ->
  (forall p k, w_procs b !! lead s = Some p ->
     is_Some (LocateKey (p_ch p) k) /\ is_Some (LocateKey newCh k)) ->
  joint_coop (m, stay b g) kv l j ->
  exists j', rpc_RedistributeKeys (shard_target s) mkRedistributeKeysRequest j =
    (j', Ok {| rk_PendingKeys := int32 (Z.of_nat (size (pending newCh b (lead s)))) |}) /\
    joint_coop (m, stay b (g ++ [go_redistribute (lead s)])) kv l j'.
Proof.
  intros Hb Hat Hring Hloc (Hk & Hd & Hc & Hg).
  pose proof (leader_at_framed _ _ _ _ _ (proj1 (proj2 Hc)) Hat) as Hat'.
  destruct (Hat') as (? & ? & ? & ? & _ & _ & _ & _ & _ & _ & Hlead).
  destruct (leading_proc _ _ Hlead) as [p Hp].
  destruct (proj1 (proj1 Hc) _ _ Hp) as (_ & (t & Ht) & _).
  destruct (framed_back_proc _ _ _ (proj1 (proj2 Hc)) _ _ Hp) as (p0 & Hp0 & (_ & Hch & _)).
  destruct (RedistributeKeys_asked cfg Hcfg (shard_target s) (lead s) (j_world j) p t newCh)
    as (w' & Hrun & Hc' & Hg'); [apply Hc|done|done|done|done| |].
  { intros k _. rewrite <- Hch. by apply Hloc. }
  rewrite <- (pending_holds newCh _ _ _ _ Hp Ht), (pending_calm newCh b _ _ Hb Hc) in Hrun.
  eexists. split.
  - simpl. unfold redistribute. rewrite Hrun. reflexivity.
  - split; [exact Hk|]. split; [apply dials_stay|].
    split; [exact (calm_trans eq _ _ _ Hc Hc')|]. simpl. by rewrite Hg', Hg.
Qed.

(** From [b] on the shards of [pre] have resumed with the ring [r]. *)
Definition resumed (r : ring) (b : World E) (g : list (string * task)) (pre : list StatefulSet) w
    : Prop :=
  calm (adopts r) b w /\ w_go w = g /\
  forall s m, s ∈ pre -> replica_of b (lead s) m -> serving cfg r w m.

Lemma dials_resumed r b g pre : dials (resumed r b g pre).
Proof.
  intros t w (Hc & Hg & Hs). destruct (Hc) as ((Hinv & Hst & Hcr) & _).
  destruct (stable_Dial t (w_env w) Hst) as (e' & Hd & He'). exists e'. split; [done|].
  pose proof (calm_env (adopts r) w e' (w_go w) (proj1 Hc) He') as Hc1.
  split; [exact (calm_trans _ _ _ _ Hc Hc1)|]. split; [done|].
  intros s m Hin Hm. eapply serving_calm; [exact Hc1|]. by apply (Hs s).
Qed.

Lemma resume_step m r b g pre kv l s (j : Joint E K) :
  kc_NewShards cfg = [] -> encodable (toggle_entry true) -> linked b ->
  consistent_New (map ks_Name (kc_Shards cfg)) consistentHashCfg = Some r ->
  leader_at b (shard_target s) (lead s) -> joint_coop (m, resumed r b g pre) kv l j ->
  exists j', rpc_ResumeWrites (shard_target s) mkResumeWritesRequest j =
    (j', Ok {| rw_IsResumed := true |}) /\ joint_coop (m, resumed r b g (pre ++ [s])) kv l j'.
Proof.
  intros Hnone Henc Hlk Hring Hat (Hk & Hd & Hc & Hg & Hs).
  destruct (ResumeWrites_stable cfg Hcfg fuel Hfuel Hnone r Hring (shard_target s) (lead s)
    (j_world j)) as (w' & Hrun & Hc' & Hg' & Hs');
    [done|apply Hc|eapply linked_framed; [apply Hc|done]|eapply leader_at_framed; [apply Hc|done]|].
  eexists. split; [exact (at_shard_call _ _ _ _ _ Hrun)|].
  split; [done|]. split; [apply dials_resumed|]. split; [exact (calm_trans _ _ _ _ Hc Hc')|].
  split; [by simpl; rewrite Hg'|]. simpl. intros s' n [Hin| ->%list_elem_of_singleton]%elem_of_app Hn.
  - eapply serving_calm; [exact Hc'|]. by apply (Hs s').
  - apply Hs'. eapply replica_of_framed; [apply Hc|done].
Qed.

End calls.

(** ** One run of the controller after the other *)

Context (rounds : nat) (Hrounds : rounds <> 0%nat).

(** The same operation, in whatever phase. *)
Definition same_op kv kv' : Prop :=
  st_CurrentShards (ks_Status kv') = st_CurrentShards (ks_Status kv) /\
  st_TargetShards (ks_Status kv') = st_TargetShards (ks_Status kv) /\
  ks_name kv' = ks_name kv /\ ks_namespace kv' = ks_namespace kv.

(** The resource is in phase [ph] of the operation of [kv]. *)
Definition in_phase (ph : RedistributionPhase) kv m l (j : Joint E K) : Prop :=
  exists kv', joint_coop m kv' l j /\ st_Phase (ks_Status kv') = ph /\ same_op kv kv'.

Definition reconcile kv : joint_turn E K := JReconcile rounds (ks_namespace kv) (ks_name kv).

Lemma reconcile_turn ph kv m l c Q :
  scaling ph -> in_phase ph kv m l (c_env c) ->
  (forall kv' c', joint_coop m kv' l (c_env c') -> st_Phase (ks_Status kv') = ph ->
     same_op kv kv' -> goes (phase_handler rounds ph kv') c' None Q) ->
  Q (c_env (joint_act fuel (reconcile kv) c)).
Proof.
  intros Hsc (kv' & Hk & Hph & Hop) Hh.
  destruct (goes_Reconcile (CooperativeServer0 := joint_server) rounds Hrounds m kv' l c Q Hk)
    as (c' & Hrun & HQ).
  { by rewrite Hph. }
  { intros c' Hk'. rewrite Hph. by apply Hh. }
  destruct Hop as (_ & _ & Hn & Hns).
  change (Q (c_env (Reconcile rounds (ks_namespace kv) (ks_name kv) c).1)).
  rewrite <- Hn, <- Hns, Hrun. exact HQ.
Qed.

(** A handler that advances the resource leads to the next phase. *)
Lemma advanced_phase kv kv' kv1 ph m l (j : Joint E K) :
  st_Phase (ks_Status kv') = ph -> same_op kv kv' -> advanced kv' kv1 -> joint_coop m kv1 l j ->
  (next (ks_Status kv')).2 = st_CurrentShards (ks_Status kv') ->
  in_phase (next (ks_Status kv')).1 kv m l j.
Proof.
  intros Hph (Hc & Ht & Hn & Hns) (Hnx & Ht1 & Hn1 & Hns1) Hk Hcur. exists kv1. split; [done|].
  rewrite <- Hnx in *. simpl in *. split; [done|]. split_and!; congruence.
Qed.

Section stage.
Context `{!StableCluster E} (cfg : KVStoreConfig).
Context (Hcfg : yaml_Unmarshal config_text = Ok cfg) (Hnew : kc_NewShards cfg <> []).
Context (lead : StatefulSet -> string) (sets : list StatefulSet).
Context (Henc : encodable (toggle_entry false)).

Lemma prepare_turn kv m W c :
  st_CurrentShards (ks_Status kv) <> 0%Z ->
  in_phase PhasePreparingScale kv (m, W) sets (c_env c) ->
  in_phase PhaseStoppingWrites kv (m, W) sets (c_env (joint_act fuel (reconcile kv) c)).
Proof.
  intros Hcur Hin. apply (reconcile_turn PhasePreparingScale kv (m, W) sets); [by left|done|].
  intros kv' c' Hk Hph Hop. unfold phase_handler. rewrite decide_True by done.
  destruct (goes_PrepareScale (CooperativeServer0 := joint_server) rounds Hrounds (m, W) kv' sets c'
    Hk Hph) as (kv1 & (c1 & Hrun & Hk1) & Hadv).
  exists c1. split; [done|].
  assert (Hnx : next (ks_Status kv') = (PhaseStoppingWrites, st_CurrentShards (ks_Status kv'))).
  { unfold next. rewrite decide_True by done. destruct Hop as (Hc & _). rewrite Hc.
    by rewrite decide_False. }
  pose proof (advanced_phase kv kv' kv1 _ _ _ _ Hph Hop Hadv Hk1) as Hres. rewrite Hnx in Hres.
  by apply Hres.
Qed.

Lemma stop_turn kv m b g c :
  (forall s, s ∈ sets -> leader_at b (shard_target s) (lead s)) ->
  in_phase PhaseStoppingWrites kv (m, stay b g) sets (c_env c) ->
  in_phase PhaseRedistributingKeys kv (m, stay b g) sets
    (c_env (joint_act fuel (reconcile kv) c)).
Proof.
  intros Hat Hin. apply (reconcile_turn PhaseStoppingWrites kv (m, stay b g) sets);
    [by right; left|done|].
  intros kv' c' Hk Hph Hop. unfold phase_handler. simpl.
  destruct (goes_StopWrites (CooperativeServer0 := joint_server) rounds Hrounds
    (fun _ => (m, stay b g)) kv' sets c')
    as (kv1 & (c1 & Hrun & Hk1) & Hadv); [|done|done|].
  { intros pre s post j Heq Hj. apply (pause_step cfg Hcfg lead); try done.
    apply Hat. rewrite Heq. set_solver. }
  exists c1. split; [done|].
  pose proof (advanced_phase kv kv' kv1 _ _ _ _ Hph Hop Hadv Hk1) as Hres.
  unfold next in Hres. rewrite Hph in Hres. by apply Hres.
Qed.

(** The number of keys that are reported as pending. *)
Definition reported (newCh : ring) (b : World E) : Z :=
  pending_sum (fun s => int32 (Z.of_nat (size (pending newCh b (lead s))))) sets.

Lemma redistribute_turn kv m b g newCh c :
  healthy b -> (forall s, s ∈ sets -> leader_at b (shard_target s) (lead s)) ->
  consistent_New (map ks_Name (kc_NewShards cfg)) consistentHashCfg = Some newCh ->
  (forall s p k, s ∈ sets -> w_procs b !! lead s = Some p ->
     is_Some (LocateKey (p_ch p) k) /\ is_Some (LocateKey newCh k)) ->
  in_phase PhaseRedistributingKeys kv (m, stay b g) sets (c_env c) ->
  in_phase (if decide (reported newCh b = 0%Z) then PhaseFinalizingScale
            else PhaseRedistributingKeys) kv
    (m, stay b (g ++ map (fun s => go_redistribute (lead s)) sets)) sets
    (c_env (joint_act fuel (reconcile kv) c)).
Proof.
  intros Hb Hat Hring Hloc Hin.
  apply (reconcile_turn PhaseRedistributingKeys kv (m, stay b g) sets); [by right; right; left|done|].
  intros kv' c' Hk Hph Hop. unfold phase_handler. simpl.
  destruct (goes_RedistributeKeys (CooperativeServer0 := joint_server) rounds Hrounds
    (fun pre => (m, stay b (g ++ map (fun s => go_redistribute (lead s)) pre)))
    (fun s => int32 (Z.of_nat (size (pending newCh b (lead s))))) kv' sets c')
    as (kv1 & (c1 & Hrun & Hk1) & Hadv); [|by rewrite app_nil_r|done|].
  { intros pre s post j Heq Hj. rewrite map_app, app_assoc. simpl.
    assert (s ∈ sets) by (rewrite Heq; set_solver).
    apply (redistribute_step cfg Hcfg lead); try done; [by apply Hat|].
    intros p k Hp. by apply (Hloc s). }
  exists c1. split; [done|]. fold (reported newCh b) in Hadv. case_decide as Hz.
  - pose proof (advanced_phase kv kv' kv1 _ _ _ _ Hph Hop Hadv Hk1) as Hres.
    unfold next in Hres. rewrite Hph in Hres. by apply Hres.
  - exists kv1. split; [done|]. destruct Hadv as (Hsame & Ht & Hn & Hns). injection Hsame as Hp Hc.
    destruct Hop as (? & ? & ? & ?). split; [congruence|]. split_and!; congruence.
Qed.

End stage.

(** Turns of the processes only. *)
Lemma acts_run (acts : list (action (E := E))) c :
  c_env (joint_run fuel (map JAct acts) c) =
  {| j_kube := j_kube (c_env c); j_world := run_actions fuel acts (j_world (c_env c));
     j_asked := j_asked (c_env c) |}.
Proof.
  revert c. induction acts as [|a acts IH]; intros c; [by destruct c as [[] ?]|].
  change (joint_run fuel (map JAct (a :: acts)) c) with
    (joint_run fuel (map JAct acts) (joint_act fuel (JAct a) c)).
  by rewrite IH.
Qed.

Lemma surviving_same kv kv' l : same_op kv kv' -> surviving kv' l = surviving kv l.
Proof.
  intros (Hc & Ht & Hn & _). unfold surviving, surplus_names, groupsToBeDeleted.
  by rewrite Hc, Ht, Hn.
Qed.

Lemma finalize_turn kv m W l c :
  in_phase PhaseFinalizingScale kv (m, W) l (c_env c) ->
  in_phase PhaseResumingWrites (at_target kv) (m, W) (surviving kv l)
    (c_env (joint_act fuel (reconcile kv) c)).
Proof.
  intros Hin. apply (reconcile_turn PhaseFinalizingScale kv (m, W) l);
    [by right; right; right; left|done|].
  intros kv' c' Hk Hph Hop. unfold phase_handler. simpl.
  destruct (goes_FinalizeScale (CooperativeServer0 := joint_server) (m, W) kv' l c'
    Hk Hph) as (kv1 & (c1 & Hrun & Hk1) & (Hnx & Ht & Hn & Hns)).
  exists c1. split; [done|]. rewrite (surviving_same kv kv' l Hop) in Hk1.
  exists kv1. split; [done|]. unfold next in Hnx. rewrite Hph in Hnx. injection Hnx as Hp Hc.
  split; [done|]. destruct Hop as (? & ? & ? & ?).
  unfold same_op, at_target, ks_name, ks_namespace in *. simpl. split_and!; congruence.
Qed.

Lemma resume_turn `{!StableCluster E} cfg lead kv m r b g l c :
  yaml_Unmarshal config_text = Ok cfg -> kc_NewShards cfg = [] ->
  encodable (toggle_entry true) -> linked b ->
  consistent_New (map ks_Name (kc_Shards cfg)) consistentHashCfg = Some r ->
  (forall s, s ∈ l -> leader_at b (shard_target s) (lead s)) ->
  st_CurrentShards (ks_Status kv) = st_TargetShards (ks_Status kv) ->
  in_phase PhaseResumingWrites kv (m, resumed cfg lead r b g []) l (c_env c) ->
  in_phase PhaseNormal kv (m, resumed cfg lead r b g l) l
    (c_env (joint_act fuel (reconcile kv) c)).
Proof.
  intros Hcfg Hnone Henc Hlk Hring Hat Hcur Hin.
  apply (reconcile_turn PhaseResumingWrites kv (m, resumed cfg lead r b g []) l);
    [by right; right; right; right|done|].
  intros kv' c' Hk Hph Hop. unfold phase_handler. simpl.
  destruct (goes_ResumeWrites (CooperativeServer0 := joint_server) rounds Hrounds
    (fun pre => (m, resumed cfg lead r b g pre)) kv' l c')
    as (kv1 & (c1 & Hrun & Hk1) & Hadv); [|done|done|].
  { intros pre s post j Heq Hj. apply (resume_step cfg Hcfg lead); try done.
    apply Hat. rewrite Heq. set_solver. }
  exists c1. split; [done|].
  pose proof (advanced_phase kv kv' kv1 _ _ _ _ Hph Hop Hadv Hk1) as Hres.
  unfold next in Hres. rewrite Hph in Hres. apply Hres. simpl. destruct Hop as (-> & -> & _). done.
Qed.

End live.
