(* ===== verification/JointScale.v ===== *)
(** * Scaling from end to end

    The theorem that a scaling operation of the controller and the shards together comes
    to an end, with every entry at the shard where the new ring locates it and the
    replicas of the shards using that ring; and a run of it. *)

From S2P Require Import Prelude Protos RaftCommon KVStore KVStoreSpec.
From S2P Require Import Shard ShardWorld Redistribution Pending Stable StableCalls Completion Serving.
From S2P Require Import System Sweep.
From S2P Require Import Kube Controller ControllerTrace ControllerSpec ControllerProgress.
From S2P Require Import ControllerInv Joint JointProps JointLive Sim SimNet SimKube.

Section scale.
Context `{!Proto, !ConsistentHash} {E : Type} `{!Raft E, !RaftSetup E, !Net E, !OS E}.
Context `{!Topology E, !ProtoLaws, !OSLaws E, !ConfigLabels E, !ConsistentLaws}.
Context `{!KubeTypes} {K : Type} `{!Kube K, !CooperativeServer K}.
Implicit Types (w b : World E) (c : Ctl (Joint E K)) (kv : Kube.KVStore) (s : StatefulSet).

(** ** The configurations of an operation *)

Lemma config_scaling kv :
  st_CurrentShards (ks_Status kv) <> 0%Z ->
  st_CurrentShards (ks_Status kv) <> st_TargetShards (ks_Status kv) ->
  kc_NewShards (build_config kv) = config_shards kv (st_TargetShards (ks_Status kv)).
Proof.
  intros Hc Hne. unfold build_config. rewrite decide_True by auto.
  by rewrite decide_False.
Qed.

Lemma config_scaled kv :
  (0 < st_TargetShards (ks_Status kv))%Z -> build_config (at_target kv) =
  {| kc_Shards := config_shards kv (st_TargetShards (ks_Status kv)); kc_NewShards := [] |}.
Proof.
  intros Ht. unfold build_config, at_target. simpl.
  rewrite decide_False; [done|]. intros [|]; [done|lia].
Qed.

Lemma config_shards_nonempty kv n : (0 < n)%Z -> config_shards kv n <> [].
Proof.
  intros Hn He. apply (f_equal length) in He. unfold config_shards in He.
  rewrite length_map in He. pose proof (length_zrange 0 n). simpl in He. lia.
Qed.

(** ** What the operation relies on *)

(** [SA] and [SB] are the environment before and after the configuration without new
    shards is mounted: in both of them leaders and routes do not change. [sets] are the
    stateful sets, [lead s] is the process that leads the shard of [s], and [leader S]
    the one that leads the new shard [S]. *)
Context (SA SB : StableCluster E).

Record scalable kv (sets : list StatefulSet) (lead : StatefulSet -> string)
    (leader : string -> string) (oldCh newCh : ring) w : Prop := {
  (** The number of shards changes from one positive number to another. *)
  sc_current : st_CurrentShards (ks_Status kv) <> 0%Z;
  sc_target : (0 < st_TargetShards (ks_Status kv))%Z;
  sc_differ : st_CurrentShards (ks_Status kv) <> st_TargetShards (ks_Status kv);
  (** The processes see the configurations that the controller writes. *)
  sc_cfgA : yaml_Unmarshal (config_text (StableCluster := SA)) = Ok (build_config kv);
  sc_cfgB : yaml_Unmarshal (config_text (StableCluster := SB)) = Ok (build_config (at_target kv));
  (** Both rings locate every key. *)
  sc_ring : consistent_New (map ks_Name (config_shards kv (st_TargetShards (ks_Status kv))))
    consistentHashCfg = Some newCh;
  sc_old : forall k, is_Some (LocateKey oldCh k);
  sc_new : forall k, is_Some (LocateKey newCh k);
  (** Every shard has a leader that can redistribute its keys, no two shards have the
      same one, and nothing else is going on. *)
  sc_sound : sound (StableCluster0 := SA) (build_config kv) oldCh (map lead sets) leader w;
  sc_go : w_go w = [];
  sc_leaderA : forall s, s ∈ sets ->
    leader_at (StableCluster0 := SA) w (shard_target s) (lead s);
  sc_leaderB : forall s, s ∈ sets ->
    leader_at (StableCluster0 := SB) w (shard_target s) (lead s);
  sc_linked : linked (StableCluster0 := SB) w;
  sc_distinct : NoDup (map (fun s => node_shard (lead s)) sets);
  sc_same : forall s, s ∈ sets ->
    node_shard (lead s) ∈ map ks_Name (config_shards kv (st_TargetShards (ks_Status kv))) ->
    leader (node_shard (lead s)) = lead s;
  (** Numbers of pending keys fit into 32 bits, and flags can be encoded. *)
  sc_small : forall s, s ∈ sets -> (Z.of_nat (size (pending newCh w (lead s))) < 2 ^ 31)%Z;
  sc_toggle : forall b : bool, encodable (toggle_entry b)
}.

(** Does any leader have an entry that has to move? *)
Definition something_moves (sets : list StatefulSet) (lead : StatefulSet -> string)
    (newCh : ring) w : bool :=
  negb (forallb (fun s => bool_decide (pending newCh w (lead s) = ∅)) sets).

(** The turns up to the report that no key is pending: runs of the controller, and the
    redistributions that it has started at [n] shards. *)
Definition turns_before (rounds : nat) kv (moves : bool) (n : nat) : list (joint_turn E K) :=
  let R := reconcile rounds kv in
  [R; R; R] ++ (if moves then map JAct (replicate n (ATask 0)) ++ [R] else []).

(** From there on, with the mount of the new configuration. *)
Definition turns_after (rounds : nat) kv (e' : E) : list (joint_turn E K) :=
  let R := reconcile rounds kv in [R; JAct (AEnv e'); R].

Definition scaling_turns (rounds : nat) kv (moves : bool) (n : nat) (e' : E)
    : list (joint_turn E K) :=
  turns_before rounds kv moves n ++ turns_after rounds kv e'.

Lemma pending_sum_nonneg (pend : StatefulSet -> Z) (sets : list StatefulSet) :
  Forall (fun s => (0 <= pend s)%Z) sets -> (0 <= pending_sum pend sets)%Z.
Proof. induction 1; simpl; lia. Qed.

Lemma pending_sum_zero (pend : StatefulSet -> Z) (sets : list StatefulSet) :
  Forall (fun s => (0 <= pend s)%Z) sets ->
  pending_sum pend sets = 0%Z <-> Forall (fun s => pend s = 0%Z) sets.
Proof.
  induction 1 as [|s sets Hs Hsets IH]; simpl; [done|].
  pose proof (pending_sum_nonneg pend sets Hsets). rewrite Forall_cons, <- IH. lia.
Qed.

Lemma reported_zero sets lead newCh w :
  (forall s, s ∈ sets -> (Z.of_nat (size (pending newCh w (lead s))) < 2 ^ 31)%Z) ->
  reported (E := E) lead sets newCh w = 0%Z <-> something_moves sets lead newCh w = false.
Proof.
  intros Hsmall. unfold reported.
  assert (Hid : forall s, s ∈ sets -> int32 (Z.of_nat (size (pending newCh w (lead s)))) =
    Z.of_nat (size (pending newCh w (lead s)))).
  { intros s Hs. specialize (Hsmall s Hs). apply int32_id. lia. }
  rewrite pending_sum_zero; [|apply Forall_forall; intros s Hs; rewrite (Hid s Hs); lia].
  unfold something_moves. rewrite negb_false_iff, forallb_forall, Forall_forall. split.
  - intros Hz s Hs%list_elem_of_In. specialize (Hz s Hs). rewrite (Hid s Hs) in Hz.
    apply bool_decide_eq_true, map_size_empty_iff. lia.
  - intros Hz s Hs. specialize (Hz s (proj1 (list_elem_of_In _ _) Hs)).
    apply bool_decide_eq_true in Hz. by rewrite Hz.
Qed.

(** ** The stages of the operation *)

Section operation.
Context (fuel rounds : nat) (Hfuel : fuel <> 0%nat) (Hrounds : rounds <> 0%nat).
Context kv (sets : list StatefulSet) (lead : StatefulSet -> string) (leader : string -> string).
Context (oldCh newCh : ring) w (Hsc : scalable kv sets lead leader oldCh newCh w).
Context (m : mode (K := K)).

Abbreviation turns l c := (joint_run (K := K) fuel l c).
Abbreviation R := (reconcile (E := E) (K := K) rounds kv).
Abbreviation new_names := (map ks_Name (config_shards kv (st_TargetShards (ks_Status kv)))).

Lemma sc_newA : kc_NewShards (build_config kv) = config_shards kv (st_TargetShards (ks_Status kv)).
Proof. apply config_scaling; apply Hsc. Qed.

Lemma sc_nonempty : kc_NewShards (build_config kv) <> [].
Proof. rewrite sc_newA. apply config_shards_nonempty, Hsc. Qed.

Lemma lead_in s : s ∈ sets -> lead s ∈ map lead sets.
Proof. intros Hs. apply list_elem_of_fmap. by exists s. Qed.

Lemma lead_inj l l' :
  l ∈ map lead sets -> l' ∈ map lead sets -> node_shard l = node_shard l' -> l = l'.
Proof.
  intros (s & -> & Hs)%list_elem_of_fmap (s' & -> & Hs')%list_elem_of_fmap Heq.
  pose proof (sc_distinct _ _ _ _ _ _ _ Hsc) as Hnd. clear Hsc.
  induction sets as [|x l IH]; [by apply elem_of_nil in Hs|].
  cbn [map] in Hnd. apply NoDup_cons in Hnd as [Hx Hnd].
  apply elem_of_cons in Hs as [->|Hs], Hs' as [->|Hs']; try done.
  - destruct Hx. apply list_elem_of_fmap. by exists s'.
  - destruct Hx. apply list_elem_of_fmap. by exists s.
  - by apply IH.
Qed.

Lemma lead_NoDup : NoDup (map lead sets).
Proof.
  apply (NoDup_fmap_1 node_shard). rewrite <- list_fmap_compose.
  exact (sc_distinct _ _ _ _ _ _ _ Hsc).
Qed.

(** Calls that move no entry keep leaders in order. *)
Lemma sound_calm b b' :
  sound (StableCluster0 := SA) (build_config kv) oldCh (map lead sets) leader b ->
  calm (StableCluster0 := SA) eq b b' ->
  sound (StableCluster0 := SA) (build_config kv) oldCh (map lead sets) leader b'.
Proof.
  intros [_ Hs] (Hh & Hf & Hm). split; [done|]. intros l Hl.
  destruct (Hs l Hl) as (p & t & Hp & Ht & Hlead & Hfree & Hdl & Hch & Henc & Hw).
  destruct (framed_proc _ _ _ Hf l p Hp) as (p' & Hp' & (Hfl & Hch' & _ & _ & Hfl' & _ & _ & Hdl')).
  destruct (Hm l t) as (t' & (p1 & Hp1 & Ht') & Hmap); [by exists p|].
  assert (p1 = p') as -> by congruence.
  exists p', t'. rewrite (framed_leading (StableCluster0 := SA) _ _ _ Hf), Hfl', Hmap, <- Hch'.
  split_and!; try done; [by apply Hdl'|]. intros d Hd. rewrite <- (Hw d Hd). unfold writer.
  rewrite Hfl. destruct (entry_node _); simpl; [|done].
  by rewrite (framed_put_node (StableCluster0 := SA) _ _ _ Hf).
Qed.

(** The shards are asked to redistribute their keys. *)
Lemma ask_turn b g c :
  sound (StableCluster0 := SA) (build_config kv) oldCh (map lead sets) leader b ->
  (forall s, s ∈ sets -> leader_at (StableCluster0 := SA) b (shard_target s) (lead s)) ->
  (forall s, s ∈ sets -> (Z.of_nat (size (pending newCh b (lead s))) < 2 ^ 31)%Z) ->
  in_phase PhaseRedistributingKeys kv (m, stay (StableCluster0 := SA) b g) sets (c_env c) ->
  in_phase (if something_moves sets lead newCh b then PhaseRedistributingKeys
            else PhaseFinalizingScale) kv
    (m, stay (StableCluster0 := SA) b (g ++ map (fun s => go_redistribute (lead s)) sets)) sets
    (c_env (joint_act fuel R c)).
Proof.
  intros [Hh Hs] Hat Hsmall Hin.
  apply (redistribute_turn (StableCluster0 := SA) fuel Hfuel rounds Hrounds (build_config kv)
    (sc_cfgA _ _ _ _ _ _ _ Hsc) sc_nonempty lead sets (sc_toggle _ _ _ _ _ _ _ Hsc false)
    kv m b g newCh) in Hin; [|done|done| |].
  - destruct (something_moves sets lead newCh b) eqn:Hmv.
    + rewrite decide_False in Hin; [done|]. rewrite reported_zero by done. by rewrite Hmv.
    + rewrite decide_True in Hin; [done|]. by apply reported_zero.
  - rewrite sc_newA. apply Hsc.
  - intros s p k Hs' Hp. destruct (Hs _ (lead_in s Hs')) as (p' & t & Hp' & _ & _ & _ & _ & Hch & _).
    assert (p' = p) as -> by congruence. rewrite Hch.
    split; [by eapply sc_old|by eapply sc_new].
Qed.

(** Until the shards have been asked for the first time. *)
Lemma first_turns c :
  j_world (c_env c) = w -> coop m kv sets (j_kube (c_env c)) ->
  st_Phase (ks_Status kv) = PhasePreparingScale ->
  in_phase (if something_moves sets lead newCh w then PhaseRedistributingKeys
            else PhaseFinalizingScale) kv
    (m, stay (StableCluster0 := SA) w (map (fun s => go_redistribute (lead s)) sets)) sets
    (c_env (turns [R; R; R] c)).
Proof.
  intros Hw Hk Hph. destruct (sc_sound _ _ _ _ _ _ _ Hsc) as [Hh Hs].
  assert (Hp0 : in_phase PhasePreparingScale kv (m, stay (StableCluster0 := SA) w []) sets (c_env c)).
  { exists kv. split; [|by split; [|split_and!]]. split; [done|]. split; [apply dials_stay|].
    rewrite Hw. split; [|apply Hsc]. by apply (calm_refl (StableCluster0 := SA) eq w). }
  apply (prepare_turn fuel rounds Hrounds) in Hp0; [|apply Hsc].
  apply (stop_turn (StableCluster0 := SA) fuel Hfuel rounds Hrounds (build_config kv)
    (sc_cfgA _ _ _ _ _ _ _ Hsc) sc_nonempty lead sets (sc_toggle _ _ _ _ _ _ _ Hsc false))
    in Hp0; [|apply Hsc].
  apply ask_turn in Hp0; [exact Hp0|apply Hsc..].
Qed.

(** An entry that was where the old ring locates it is where the new one does. *)
Definition brought (b : World E) : Prop := forall s k v S,
  s ∈ sets -> stored w (lead s) k v -> LocateKey oldCh k = Some (node_shard (lead s)) ->
  LocateKey newCh k = Some S -> stored b (leader S) k v.

Lemma something_moves_none b :
  something_moves sets lead newCh b = false <->
  forall s, s ∈ sets -> pending newCh b (lead s) = ∅.
Proof.
  unfold something_moves. rewrite negb_false_iff, forallb_forall. split.
  - intros Hb s Hs. apply list_elem_of_In in Hs. exact (bool_decide_eq_true_1 _ (Hb s Hs)).
  - intros Hb s Hs%list_elem_of_In. by apply bool_decide_eq_true, Hb.
Qed.

Lemma leader_home s k :
  s ∈ sets -> LocateKey newCh k = Some (node_shard (lead s)) ->
  leader (node_shard (lead s)) = lead s.
Proof.
  intros Hs Hk. apply (sc_same _ _ _ _ _ _ _ Hsc s Hs).
  exact (LocateKey_member _ _ _ _ _ (sc_ring _ _ _ _ _ _ _ Hsc) Hk).
Qed.

(** The leader of a new shard is one of its processes. *)
Lemma new_shard_led s k S :
  s ∈ sets -> LocateKey newCh k = Some S -> node_shard (leader S) = S.
Proof.
  intros Hs HS.
  eapply (leader_shard (StableCluster0 := SA) fuel Hfuel (build_config kv)
    (sc_cfgA _ _ _ _ _ _ _ Hsc) sc_nonempty oldCh newCh) with (l := lead s) (k := k);
    try apply Hsc.
  - rewrite sc_newA. apply Hsc.
  - by apply lead_in.
  - exact HS.
Qed.

(** Nothing has to move. *)
Lemma brought_still : something_moves sets lead newCh w = false -> brought w.
Proof.
  rewrite something_moves_none. intros Hno s k v S Hs (t & (p & Hp & Ht) & Hv) Ho HS.
  destruct (sc_sound _ _ _ _ _ _ _ Hsc) as [Hh Hsl].
  destruct (Hsl _ (lead_in s Hs)) as (p' & _ & Hp' & _ & _ & _ & _ & Hch & _).
  assert (p' = p) as -> by congruence.
  assert (S = node_shard (lead s)) as ->.
  { destruct (decide (S = node_shard (lead s))) as [|Hne]; [done|exfalso].
    specialize (Hno s Hs). rewrite (pending_holds newCh w _ p t Hp Ht) in Hno.
    assert (Hm : moving_entries p newCh (sp_map t) !! k = Some v); [|by rewrite Hno in Hm].
    unfold moving_entries. apply map_lookup_filter_Some. split; [done|]. simpl.
    apply (moves_key_iff (StableCluster0 := SA) oldCh newCh (sc_old _ _ _ _ _ _ _ Hsc)
      (sc_new _ _ _ _ _ _ _ Hsc) w (lead s)); [done..|]. split; [done|congruence]. }
  rewrite (leader_home s k Hs HS). exists t. split; [by exists p|done].
Qed.

Lemma settled_pending b s :
  sound (StableCluster0 := SA) (build_config kv) oldCh (map lead sets) leader b -> s ∈ sets ->
  settled newCh b (lead s) -> pending newCh b (lead s) = ∅.
Proof.
  intros [_ Hsl] Hs Hset. destruct (Hsl _ (lead_in s Hs)) as (p & t & Hp & Ht & _).
  rewrite (pending_holds newCh b _ p t Hp Ht). by apply Hset.
Qed.

(** The redistributions that were started run, and the shards are asked again. *)
Lemma moving_turns c :
  in_phase PhaseRedistributingKeys kv
    (m, stay (StableCluster0 := SA) w (map (fun s => go_redistribute (lead s)) sets)) sets
    (c_env c) ->
  exists b, in_phase PhaseFinalizingScale kv
      (m, stay (StableCluster0 := SA) b (map (fun s => go_redistribute (lead s)) sets)) sets
      (c_env (turns (map JAct (replicate (length sets) (ATask 0)) ++ [R]) c)) /\
    sound (StableCluster0 := SA) (build_config kv) oldCh (map lead sets) leader b /\
    framed eq w b /\ brought b.
Proof.
  intros (kv1 & (Hk & _ & Hcalm & Hg) & Hph & Hop). cbn [snd] in *.
  destruct (tasks_run (StableCluster0 := SA) fuel Hfuel (build_config kv)
    (sc_cfgA _ _ _ _ _ _ _ Hsc) sc_nonempty oldCh newCh) with (leaders := map lead sets)
    (leader := leader) (ls := map lead sets) (w := j_world (c_env c))
    as (Hsd & Hg' & Hf & Hset & Hent & _).
  { rewrite sc_newA. apply Hsc. }
  { apply Hsc. }
  { apply Hsc. }
  { exact lead_inj. }
  { eapply sound_calm; [apply Hsc|exact Hcalm]. }
  { exact lead_NoDup. }
  { done. }
  { rewrite Hg, map_map. done. }
  rewrite length_map in *.
  set (b := run_actions fuel (replicate (length sets) (ATask 0)) (j_world (c_env c))) in *.
  assert (Hf' : framed eq w b) by (etrans; [apply Hcalm|exact Hf]).
  assert (Hnone : forall s, s ∈ sets -> pending newCh b (lead s) = ∅).
  { intros s Hs. apply settled_pending; [done..|]. apply Hset; [|left]; by apply lead_in. }
  exists b. split_and!; [|done|done|].
  - unfold joint_run. rewrite foldl_app. cbn [foldl].
    pose proof (ask_turn b [] (turns (map JAct (replicate (length sets) (ATask 0))) c)) as Hask.
    rewrite (proj2 (something_moves_none b) Hnone) in Hask. apply Hask; [done|..].
    + intros s Hs. eapply leader_at_framed; [exact Hf'|]. by apply Hsc.
    + intros s Hs. rewrite (Hnone s Hs), map_size_empty. lia.
    + exists kv1. split; [|done]. rewrite acts_run. split; [exact Hk|]. split; [apply dials_stay|].
      cbn [snd j_world]. split; [|exact Hg'].
      apply (calm_refl (StableCluster0 := SA) eq b), Hsd.
  - intros s k v S Hs (t & Ht & Hv) Ho HS.
    destruct (proj2 (proj2 Hcalm) _ _ Ht) as (t1 & Ht1 & Hmap).
    specialize (Hent (lead s) k v S (lead_in s Hs)). case_decide as Hd.
    + apply Hent; [|done..]. exists t1. by rewrite Hmap.
    + destruct (decide (S = node_shard (lead s))) as [->|Hne].
      * rewrite (leader_home s k Hs HS). apply Hent; [|done..]. exists t1. by rewrite Hmap.
      * destruct Hd. split; [by apply lead_in|done].
Qed.

(** Up to the phase that deletes shards. *)
Lemma until_final c :
  j_world (c_env c) = w -> coop m kv sets (j_kube (c_env c)) ->
  st_Phase (ks_Status kv) = PhasePreparingScale ->
  exists b, in_phase PhaseFinalizingScale kv
      (m, stay (StableCluster0 := SA) b (map (fun s => go_redistribute (lead s)) sets)) sets
      (c_env (turns (turns_before rounds kv (something_moves sets lead newCh w) (length sets)) c)) /\
    world_inv b /\ (forall n p, w_procs b !! n = Some p -> p_crashed p = false) /\
    framed eq w b /\ brought b.
Proof.
  intros Hw Hk Hph. pose proof (first_turns c Hw Hk Hph) as Hin.
  unfold turns_before, joint_run in *. rewrite foldl_app.
  destruct (something_moves sets lead newCh w) eqn:Hmv.
  - destruct (moving_turns _ Hin) as (b & Hfin & ((Hinv & _ & Hcr) & _) & Hf & Hb).
    exists b. by split_and!.
  - destruct (sc_sound _ _ _ _ _ _ _ Hsc) as [(Hinv & _ & Hcr) _].
    exists w. split_and!; [exact Hin|done|done|reflexivity|by apply brought_still].
Qed.

(** Shards are deleted, the new configuration is mounted, and writes resume. *)
Lemma final_turns c b g e' :
  stable (StableCluster := SB) e' ->
  in_phase PhaseFinalizingScale kv (m, stay (StableCluster0 := SA) b g) sets (c_env c) ->
  framed eq w b -> brought b ->
  let j := c_env (turns (turns_after rounds kv e') c) in
  (exists kv', coop m kv' (surviving kv sets) (j_kube j) /\
     st_Phase (ks_Status kv') = PhaseNormal /\ same_op (at_target kv) kv') /\
  healthy (StableCluster0 := SB) (j_world j) /\ framed (adopts newCh) w (j_world j) /\
  brought (j_world j) /\
  forall s n, s ∈ surviving kv sets -> replica_of (StableCluster0 := SB) w (lead s) n ->
    serving (build_config (at_target kv)) newCh (j_world j) n.
Proof.
  intros He' Hin Hf Hb. apply (finalize_turn fuel rounds Hrounds) in Hin.
  set (c1 := joint_act fuel R c) in *. destruct Hin as (kv1 & (Hk1 & _ & Hcalm & Hg) & Hph1 & Hop1).
  cbn [snd] in *. set (c2 := joint_act fuel (JAct (AEnv e')) c1).
  set (b2 := j_world (c_env c2)).
  assert (Hps : w_procs b2 = w_procs (j_world (c_env c1))) by done.
  assert (Hf2 : framed eq w b2).
  { etrans; [exact Hf|]. etrans; [apply Hcalm|]. intros n. rewrite Hps.
    destruct (w_procs _ !! n); [reflexivity|done]. }
  assert (Hh2 : healthy (StableCluster0 := SB) b2).
  { destruct (Hcalm) as ((Hinv & _ & Hcr) & _). split; [exact Hinv|]. by split. }
  assert (Hcfg := config_scaled kv (sc_target _ _ _ _ _ _ _ Hsc)).
  assert (Hres : in_phase PhaseResumingWrites (at_target kv) (m, resumed (StableCluster0 := SB)
    (build_config (at_target kv)) lead newCh b2 g []) (surviving kv sets) (c_env c2)).
  { exists kv1. split; [|done]. split; [exact Hk1|]. split; [apply dials_resumed|].
    cbn [snd]. split; [by apply calm_refl; [apply _|]|]. split; [exact Hg|].
    intros s n Hs. by apply elem_of_nil in Hs. }
  apply (resume_turn (StableCluster0 := SB) fuel Hfuel rounds Hrounds) in Hres as
    (kv2 & (Hk2 & _ & Hcalm2 & Hg2 & Hserve) & Hph2 & Hop2).
  - split_and!; [by exists kv2|apply Hcalm2| | |].
    + etrans; [|apply Hcalm2]. eapply framed_weaken; [|exact Hf2]. by left.
    + intros s k v S Hs Hst Ho HS. destruct (Hb s k v S Hs Hst Ho HS) as (t & Ht & Hv).
      destruct (proj2 (proj2 Hcalm) _ _ Ht) as (t1 & Ht1 & Hm1).
      destruct (proj2 (proj2 Hcalm2) (leader S) t1 Ht1) as (t2 & Ht2 & Hm2).
      exists t2. by rewrite Hm2, Hm1.
    + intros s n Hs Hn. apply (Hserve s n Hs). by eapply replica_of_framed.
  - apply Hsc.
  - by rewrite Hcfg.
  - apply Hsc.
  - eapply linked_framed; [exact Hf2|apply Hsc].
  - rewrite Hcfg. apply Hsc.
  - intros s Hs. eapply leader_at_framed; [exact Hf2|]. eapply sc_leaderB; [exact Hsc|].
    by eapply surviving_sub.
  - done.
Qed.

End operation.

(** Keys are read through a replica that uses the new ring. *)
Lemma read_moved kv newCh leader w n k v S :
  healthy (StableCluster0 := SB) w -> serving (build_config (at_target kv)) newCh w n ->
  (0 < st_TargetShards (ks_Status kv))%Z ->
  consistent_New (map ks_Name (config_shards kv (st_TargetShards (ks_Status kv))))
    consistentHashCfg = Some newCh ->
  (forall p, w_procs w !! n = Some p ->
     entry_node (StableCluster := SB) (host_addr S (f_shardPort (p_flags p))) =
       Some (leader S)) ->
  LocateKey newCh k = Some S -> stored w (leader S) k v ->
  exists w', kvServer_Get n {| get_Key := k |} w = (w', Ret (Ok {| get_Value := v |})) /\
    w_procs w' = w_procs w.
Proof.
  intros Hh (p & Hp & Hch & Hcl) Hpos Hring Hent HS (t & Ht & Hv).
  destruct (kvServer_Get_run (StableCluster0 := SB) n (leader S) k w t Hh) as (w' & Hrun & Hps & _);
    [|done|].
  - exists p, S, (host_addr S (f_shardPort (p_flags p))). rewrite Hch.
    pose proof (LocateKey_member _ _ _ _ _ Hring HS) as Hmem.
    apply list_elem_of_fmap in Hmem as (d & -> & Hd). split_and!; try done; [|by apply Hent].
    apply Hcl. by rewrite (config_scaled kv Hpos).
  - exists w'. split; [|done]. rewrite Hrun. unfold get_answer. by rewrite Hv.
Qed.

(** After an operation, the replicas of the shards that remain read the entries that it brought. *)
Lemma read_brought kv sets lead leader oldCh newCh w b s k v S s' n p :
  scalable kv sets lead leader oldCh newCh w ->
  healthy (StableCluster0 := SB) b -> framed (adopts newCh) w b ->
  brought sets lead leader oldCh newCh w b ->
  serving (build_config (at_target kv)) newCh b n ->
  s ∈ sets -> stored w (lead s) k v ->
  LocateKey oldCh k = Some (node_shard (lead s)) -> LocateKey newCh k = Some S ->
  s' ∈ surviving kv sets -> w_procs w !! n = Some p ->
  entry_node (StableCluster := SB) (host_addr S (f_shardPort (p_flags p))) = Some (leader S) ->
  exists w', kvServer_Get n {| get_Key := k |} b = (w', Ret (Ok {| get_Value := v |})).
Proof.
  intros Hsc Hh Hf Hb Hserve Hs Hst Ho HS Hs' Hp Hent.
  destruct (read_moved kv newCh leader b n k v S Hh Hserve) as (w' & Hrun & _);
    [apply Hsc|apply Hsc| |done|by eapply Hb|by exists w'].
  intros p' Hp'. destruct (framed_proc _ _ _ Hf n p Hp) as (p1 & Hp1 & (Hfl & _)).
  pose proof (eq_trans (eq_sym Hp1) Hp') as [= ->]. by rewrite Hfl.
Qed.

(** C2: a scaling operation comes to an end, at the controller and at the shards.
    The resource is about to scale from one positive number of shards to another, every
    shard has a leader, and the API server and the network keep working. Then after the
    runs of the controller of [scaling_turns], in which the goroutines that it has started at
    the shards run and the configuration that it has written is mounted, the resource is
    back to normal with the target as its current number of shards, the surplus stateful
    sets are gone, every entry that was where the old ring locates it is stored by the
    leader of the shard where the new one does, every replica of a remaining shard uses the new
    ring, and a [Get] of the key at such a replica yields the value. *)
Theorem joint_scaling_completes fuel rounds kv sets lead leader oldCh newCh c m e' :
  fuel <> 0%nat -> rounds <> 0%nat ->
  let w := j_world (c_env c) in
  scalable kv sets lead leader oldCh newCh w -> coop m kv sets (j_kube (c_env c)) ->
  st_Phase (ks_Status kv) = PhasePreparingScale -> stable (StableCluster := SB) e' ->
  let j := c_env (joint_run fuel (scaling_turns rounds kv
    (something_moves sets lead newCh w) (length sets) e') c) in
  (exists kv', coop m kv' (surviving kv sets) (j_kube j) /\
     st_Phase (ks_Status kv') = PhaseNormal /\
     st_CurrentShards (ks_Status kv') = st_TargetShards (ks_Status kv)) /\
  healthy (StableCluster0 := SB) (j_world j) /\
  (forall s k v S, s ∈ sets -> stored w (lead s) k v ->
     LocateKey oldCh k = Some (node_shard (lead s)) -> LocateKey newCh k = Some S ->
     stored (j_world j) (leader S) k v /\
     forall s' n p, s' ∈ surviving kv sets -> replica_of (StableCluster0 := SB) w (lead s') n ->
       w_procs w !! n = Some p ->
       entry_node (StableCluster := SB) (host_addr S (f_shardPort (p_flags p))) =
         Some (leader S) ->
       exists w', kvServer_Get n {| get_Key := k |} (j_world j) =
         (w', Ret (Ok {| get_Value := v |}))) /\
  forall s n, s ∈ surviving kv sets -> replica_of (StableCluster0 := SB) w (lead s) n ->
    serving (build_config (at_target kv)) newCh (j_world j) n.
Proof.
  intros Hfuel Hrounds w Hsc Hk Hph He' j.
  destruct (until_final fuel rounds Hfuel Hrounds kv sets lead leader oldCh newCh w Hsc m c
    eq_refl Hk Hph) as (b & Hin & Hinv & Hcr & Hf & Hb).
  pose proof (final_turns fuel rounds Hfuel Hrounds kv sets lead leader oldCh newCh w Hsc m
    _ b _ e' He' Hin Hf Hb) as Hfin. cbv zeta in Hfin. unfold joint_run in Hfin.
  rewrite <- foldl_app in Hfin. fold (joint_run (K := K) fuel) in Hfin.
  fold j in Hfin. destruct Hfin as ((kv' & Hk' & Hph' & Hop) & Hh & Hf' & Hb' & Hserve).
  split_and!; [|done| |done].
  - exists kv'. split; [done|]. split; [done|]. by destruct Hop as (-> & _).
  - intros s k v S Hs Hst Ho HS. split; [by apply (Hb' s k v S)|]. intros s' n p Hs' Hn Hp Hent.
    eapply read_brought; eauto.
Qed.

End scale.

(** ** From one shard to two *)

Definition ex_one : ring := ["kvs-shard-0"].
Definition ex_two : ring := ["kvs-shard-0"; "kvs-shard-1"].
Definition ex_preparing : Kube.KVStore := ex_resource PhasePreparingScale 1 2.
Definition ex_sets : list StatefulSet :=
  [started (build_shard ex_preparing 0); started (build_shard ex_preparing 1)].
Definition ex_ready : Ctl (Joint SimEnv SimKube) :=
  {| c_env := {|
       j_kube := {| sk_store := Some ex_preparing; sk_sets := ex_sets;
                    sk_config := Some {| cm_meta := config_map_meta ex_preparing; cm_Data := ∅ |};
                    sk_list_fails := false; sk_time := 0 |};
       j_world := sim_world "scaling" {[ "a" := "1" ]}; j_asked := [] |};
     c_log := [] |}.
Definition ex_lead (s : StatefulSet) : string :=
  if decide (om_Name (sts_meta s) = "kvs-shard-0-replica") then "n0" else "n1".
Definition ex_leader (S : string) : string := if decide (S = "kvs-shard-0") then "n0" else "n1".
Abbreviation ex_scaled_to_two := (j_world (c_env (joint_run 1 (scaling_turns 1 ex_preparing
  (something_moves ex_sets ex_lead ex_two
    (sim_world "scaling" {[ "a" := "1" ]})) 2 (sim_world_env "two")) ex_ready))).

Lemma ex_sound : sound (StableCluster0 := sim_stable_at "scaling") (build_config ex_preparing)
  ex_one (map ex_lead ex_sets) ex_leader (sim_world "scaling" {[ "a" := "1" ]}).
Proof.
  split; [apply sim_world_healthy|]. intros l Hl. change (l ∈ ["n0"; "n1"]) in Hl.
  apply elem_of_cons in Hl as [->|Hl]; [|apply list_elem_of_singleton in Hl as ->];
    eexists _, _; (split; [reflexivity|]); (split; [apply sim_mem_ok|]); split_and!; try done;
    [intros name t; simpl; by intros [<- <-]%lookup_singleton_Some| |
     intros name t; simpl; by intros [<- <-]%lookup_singleton_Some|];
    intros d Hd; repeat (apply elem_of_cons in Hd as [->|Hd]; [done|]); by apply elem_of_nil in Hd.
Qed.

Lemma ex_leader_at file s : s ∈ ex_sets ->
  leader_at (StableCluster0 := sim_stable_at file) (sim_world "scaling" {[ "a" := "1" ]})
    (shard_target s) (ex_lead s).
Proof.
  intros Hs. repeat (apply elem_of_cons in Hs as [->|Hs];
    [by eexists _, _, _, _; split_and!|]). by apply elem_of_nil in Hs.
Qed.

Lemma ex_linked : linked (StableCluster0 := sim_stable_at "two")
  (sim_world "scaling" {[ "a" := "1" ]}).
Proof.
  intros n p. simpl. rewrite lookup_insert.
  case_decide; [intros [= <-]|intros [_ <-]%lookup_singleton_Some];
    (split; [intros name t; simpl; by intros [<- <-]%lookup_singleton_Some|]);
    intros key t; simpl; intros [_ <-]%lookup_singleton_Some; by eexists.
Qed.

Lemma ex_scalable : scalable (sim_stable_at "scaling") (sim_stable_at "two") ex_preparing
  ex_sets ex_lead ex_leader ex_one ex_two
  (sim_world "scaling" {[ "a" := "1" ]}).
Proof.
  split; try done.
  - intros k. apply lookup_lt_is_Some. apply Nat.mod_upper_bound. done.
  - exact ex_sound.
  - apply ex_leader_at.
  - apply ex_leader_at.
  - exact ex_linked.
  - by apply (bool_decide_unpack _); vm_compute.
  - intros s Hs _. repeat (apply elem_of_cons in Hs as [->|Hs]; [done|]).
    by apply elem_of_nil in Hs.
  - intros s Hs. repeat (apply elem_of_cons in Hs as [->|Hs]; [vm_compute; done|]).
    by apply elem_of_nil in Hs.
Qed.

Lemma joint_scaling_completes_witness :
  exists w', kvServer_Get "n0" {| get_Key := "a" |} ex_scaled_to_two =
    (w', Ret (Ok {| get_Value := "1" |})).
Proof.
  destruct (joint_scaling_completes (CooperativeServer0 := sim_cooperative_server)
    (sim_stable_at "scaling") (sim_stable_at "two") 1 1
    ex_preparing ex_sets ex_lead ex_leader ex_one ex_two
    ex_ready tt (sim_world_env "two")) as (_ & _ & Hent & _).
  - lia.
  - lia.
  - exact ex_scalable.
  - split_and!; try done. by repeat constructor.
  - reflexivity.
  - done.
  - destruct (Hent (started (build_shard ex_preparing 0)) "a" "1" "kvs-shard-1") as [_ Hget].
    + left.
    + exists {| sp_map := {[ "a" := "1" ]}; sp_writes := true |}. split; [|done].
      exists (sim_proc "0" ["kvs-shard-0"] {[ "a" := "1" ]}). split; [done|]. apply sim_mem_ok.
    + reflexivity.
    + reflexivity.
    + apply (Hget (started (build_shard ex_preparing 0)) "n0"
        (sim_proc "0" ["kvs-shard-0"] {[ "a" := "1" ]})).
      * vm_compute. left.
      * exists (sim_proc "0" ex_one {[ "a" := "1" ]}), (sim_id "0"),
          (replica_addr "kvs-shard-0-replica-0" "kvs-shard-0" 8083). by split_and!.
      * reflexivity.
      * reflexivity.
Defined.
