(* ===== verification/JointLate.v ===== *)
(** * A client writes while the number of shards changes

    The phase that stops writes does not stop them (SystemProps). This
    file follows such a write to its end: once the shards have reported that no key is
    pending, nothing moves keys any more, but clients are still routed by the old ring
    until the new configuration is adopted. A write that comes in between is
    acknowledged by the old shard of its key, and read from the new one never. *)

From S2P Require Import Prelude Protos RaftCommon KVStore KVStoreSpec.
From S2P Require Import Shard ShardWorld Redistribution Pending Stable StableCalls Completion Serving.
From S2P Require Import System Sweep.
From S2P Require Import Kube Controller ControllerTrace ControllerSpec ControllerProgress.
From S2P Require Import ControllerInv Joint JointProps JointLive JointScale Sim SimNet SimKube.

Section late.
Context `{!Proto, !ConsistentHash} {E : Type} `{!Raft E, !RaftSetup E, !Net E, !OS E}.
Context `{!Topology E, !ProtoLaws, !OSLaws E, !ConfigLabels E, !ConsistentLaws}.
Context `{!KubeTypes} {K : Type} `{!Kube K, !CooperativeServer K}.
Implicit Types (w b : World E) (c : Ctl (Joint E K)) (kv : Kube.KVStore) (s : StatefulSet).
Context (SA SB : StableCluster E).

(** The request of a client at an address that leads to the process [n]. *)
Lemma client_Put t n k v l w :
  encodable (set_entry k v) -> healthy (StableCluster0 := SA) w ->
  entry_node (StableCluster := SA) t = Some n ->
  routes (StableCluster0 := SA) w n k l -> leading (StableCluster0 := SA) w l = true ->
  exists w', rpc t (fun node => kvServer_Put node {| put_Key := k; put_Value := v |}) w =
      (w', Ret (Ok mkPutResponse)) /\
    wrote (StableCluster0 := SA) l (spec_set k v) w w'.
Proof.
  intros Henc Hh Hn Hr Hl. destruct (Hr) as (p & _ & _ & Hp & _).
  eapply (rpc_stable (StableCluster0 := SA)); [done|exact Hn|exact Hp|]. intros e' He'.
  exact (kvServer_Put_run (StableCluster0 := SA) n l k v
    {| w_procs := w_procs w; w_env := e'; w_go := w_go w |} Henc
    (with_env_procs (StableCluster0 := SA) w e' He' Hh) Hr Hl).
Qed.

(** ** The write *)

Section write.
Context (fuel rounds : nat) (Hfuel : fuel <> 0%nat) (Hrounds : rounds <> 0%nat).
Context kv (sets : list StatefulSet) (lead : StatefulSet -> string) (leader : string -> string).
Context (oldCh newCh : ring) w (Hsc : scalable SA SB kv sets lead leader oldCh newCh w).
Context (m : mode (K := K)).

(** The leader of the new shard of a key that moves is not the one of its old shard. *)
Lemma new_leader_differs s k S :
  s ∈ sets -> LocateKey newCh k = Some S -> S <> node_shard (lead s) -> leader S <> lead s.
Proof.
  intros Hs HS Hne Heq. apply Hne. rewrite <- Heq. symmetry.
  exact (new_shard_led SA SB fuel Hfuel kv sets lead leader oldCh newCh w Hsc s k S Hs HS).
Qed.

(** A write at the old shard of a key that moved touches nothing that was brought. *)
Lemma brought_wrote b b' s k v S :
  s ∈ sets -> LocateKey newCh k = Some S -> S <> node_shard (lead s) ->
  wrote (StableCluster0 := SA) (lead s) (spec_set k v) b b' ->
  brought sets lead leader oldCh newCh w b -> brought sets lead leader oldCh newCh w b'.
Proof.
  intros Hs HS Hne Hw Hb s2 k2 v2 S2 Hs2 Hst Ho HS2. specialize (Hb s2 k2 v2 S2 Hs2 Hst Ho HS2).
  destruct (decide (k2 = k)) as [->|Hk].
  - rewrite HS in HS2. injection HS2 as <-.
    eapply (wrote_stored_other (StableCluster0 := SA)); [exact Hw| |exact Hb].
    by eapply new_leader_differs.
  - eapply (wrote_stored_key (StableCluster0 := SA)); [exact Hw| |exact Hb].
    intros t. unfold spec_set. simpl. by rewrite lookup_insert_ne.
Qed.

Lemma brought_calm b b' :
  calm (StableCluster0 := SA) eq b b' -> brought sets lead leader oldCh newCh w b ->
  brought sets lead leader oldCh newCh w b'.
Proof.
  intros (_ & _ & Hm) Hb s k v S Hs Hst Ho HS. destruct (Hb s k v S Hs Hst Ho HS) as (t & Ht & Hv).
  destruct (Hm _ _ Ht) as (t' & Ht' & Heq). exists t'. by rewrite Heq.
Qed.

(** The client writes when the controller is about to delete shards. *)
Lemma write_turn c b g s n t k v S :
  in_phase PhaseFinalizingScale kv (m, stay (StableCluster0 := SA) b g) sets (c_env c) ->
  framed eq w b -> brought sets lead leader oldCh newCh w b ->
  s ∈ sets -> LocateKey newCh k = Some S -> S <> node_shard (lead s) ->
  entry_node (StableCluster := SA) t = Some n -> routes (StableCluster0 := SA) w n k (lead s) ->
  encodable (set_entry k v) ->
  let put := {| put_Key := k; put_Value := v |} in
  let c' := joint_act fuel (JAct (ARequest t (KvPut put))) c in
  (rpc t (fun node => kvServer_Put node put) (j_world (c_env c))).2 = Ret (Ok mkPutResponse) /\
  exists b', in_phase PhaseFinalizingScale kv (m, stay (StableCluster0 := SA) b' g) sets (c_env c') /\
    framed eq w b' /\ brought sets lead leader oldCh newCh w b'.
Proof.
  intros (kv1 & (Hk & _ & Hcalm & Hg) & Hph & Hop) Hf Hb Hs HS Hne Hn Hr Henc put c'.
  cbn [snd] in Hcalm, Hg. set (w1 := j_world (c_env c)) in *.
  assert (Hf1 : framed eq w w1) by (etrans; [exact Hf|apply Hcalm]).
  destruct (sc_sound _ _ _ _ _ _ _ _ _ Hsc) as [_ Hsl].
  destruct (Hsl (lead s)) as (_ & _ & _ & _ & Hl & _); [apply list_elem_of_fmap; by exists s|].
  destruct (client_Put t n k v (lead s) w1) as (w2 & Hput & Hw2);
    [done|apply Hcalm|done|by eapply (routes_framed (StableCluster0 := SA))| |].
  { by rewrite (framed_leading (StableCluster0 := SA) _ _ _ Hf1). }
  fold put in Hput. split; [by rewrite Hput|]. exists w2. split_and!.
  - exists kv1. split; [|done]. split; [exact Hk|]. split; [apply dials_stay|].
    assert (Hj : j_world (c_env c') = w2).
    { unfold c'. cbn [joint_act c_env j_world].
      rewrite (act_request fuel t (fun node => kvServer_Put node put)); [|done].
      fold w1. by rewrite Hput. }
    rewrite Hj. cbn [snd]. split; [|destruct Hw2 as (_ & -> & _); exact Hg].
    apply calm_refl; [apply _|]. eapply (wrote_healthy (StableCluster0 := SA)); [exact Hw2|apply Hcalm].
  - etrans; [exact Hf1|]. by eapply (wrote_framed (StableCluster0 := SA)).
  - eapply brought_wrote; [exact Hs|exact HS|exact Hne|exact Hw2|]. by eapply brought_calm.
Qed.

End write.

(** C8: a write can be lost while the number of shards changes. In a scaling operation of a
    cluster that keeps working ([scalable]), let a key move to another shard, and let a client
    put another value for it when the shards have reported that no key is pending, at a process
    that still uses the old ring. The put is acknowledged, the operation comes to an end, and
    from then on the replicas answer a [Get] of the key with the value it had before. *)
Theorem late_write_lost fuel rounds kv sets lead leader oldCh newCh c m e' s n t k v v' S :
  fuel <> 0%nat -> rounds <> 0%nat ->
  let w := j_world (c_env c) in
  scalable SA SB kv sets lead leader oldCh newCh w -> coop m kv sets (j_kube (c_env c)) ->
  st_Phase (ks_Status kv) = PhasePreparingScale -> stable (StableCluster := SB) e' ->
  s ∈ sets -> stored w (lead s) k v -> LocateKey oldCh k = Some (node_shard (lead s)) ->
  LocateKey newCh k = Some S -> S <> node_shard (lead s) ->
  entry_node (StableCluster := SA) t = Some n -> routes (StableCluster0 := SA) w n k (lead s) ->
  encodable (set_entry k v') ->
  let put := {| put_Key := k; put_Value := v' |} in
  let c1 := joint_run fuel (turns_before rounds kv (something_moves sets lead newCh w)
    (length sets)) c in
  let j := c_env (joint_run fuel (JAct (ARequest t (KvPut put)) :: turns_after rounds kv e') c1) in
  (rpc t (fun node => kvServer_Put node put) (j_world (c_env c1))).2 = Ret (Ok mkPutResponse) /\
  (exists kv', coop m kv' (surviving kv sets) (j_kube j) /\
     st_Phase (ks_Status kv') = PhaseNormal /\
     st_CurrentShards (ks_Status kv') = st_TargetShards (ks_Status kv)) /\
  forall s' n' p, s' ∈ surviving kv sets -> replica_of (StableCluster0 := SB) w (lead s') n' ->
    w_procs w !! n' = Some p ->
    entry_node (StableCluster := SB) (host_addr S (f_shardPort (p_flags p))) = Some (leader S) ->
    exists w', kvServer_Get n' {| get_Key := k |} (j_world j) = (w', Ret (Ok {| get_Value := v |})).
Proof.
  intros Hfuel Hrounds w Hsc Hk Hph He' Hs Hst Ho HS Hne Hn Hr Henc put c1 j.
  destruct (until_final SA SB fuel rounds Hfuel Hrounds kv sets lead leader oldCh newCh w Hsc m c
    eq_refl Hk Hph) as (b & Hin & _ & _ & Hf & Hb).
  destruct (write_turn fuel Hfuel kv sets lead leader oldCh newCh w Hsc m c1 b _ s n t k v' S
    Hin Hf Hb Hs HS Hne Hn Hr Henc) as (Hput & b' & Hin' & Hf' & Hb').
  destruct (final_turns SA SB fuel rounds Hfuel Hrounds kv sets lead leader oldCh newCh w Hsc m
    _ b' _ e' He' Hin' Hf' Hb') as ((kv' & Hk' & Hph' & Hop) & Hh & Hfj & Hbj & Hserve).
  split_and!; [exact Hput| |].
  - exists kv'. split; [exact Hk'|]. split; [done|]. by destruct Hop as (-> & _).
  - intros s' n' p Hs' Hn' Hp Hent.
    eapply (read_brought SA SB kv sets lead leader oldCh newCh w _ s k v S s' n' p); eauto.
Qed.

End late.

(** ** From one shard to two *)

(** The client puts another value for the key that has moved. *)
Definition ex_put : PutRequest := {| put_Key := "a"; put_Value := "2" |}.
Definition ex_reported : Ctl (Joint SimEnv SimKube) :=
  joint_run 1 (turns_before 1 ex_preparing (something_moves ex_sets ex_lead ex_two
    (sim_world "scaling" {[ "a" := "1" ]})) 2) ex_ready.
Definition ex_late : Joint SimEnv SimKube :=
  c_env (joint_run 1 (JAct (ARequest (host_addr "kvs-shard-0" 8080) (KvPut ex_put)) ::
    turns_after 1 ex_preparing (sim_world_env "two")) ex_reported).

Lemma late_write_lost_witness :
  (rpc (host_addr "kvs-shard-0" 8080) (fun node => kvServer_Put node ex_put)
     (j_world (c_env ex_reported))).2 = Ret (Ok mkPutResponse) /\
  exists w', kvServer_Get "n0" {| get_Key := "a" |} (j_world ex_late) =
    (w', Ret (Ok {| get_Value := "1" |})).
Proof.
  destruct (late_write_lost (CooperativeServer0 := sim_cooperative_server)
    (sim_stable_at "scaling") (sim_stable_at "two") 1 1 ex_preparing ex_sets ex_lead ex_leader
    ex_one ex_two ex_ready tt (sim_world_env "two") (started (build_shard ex_preparing 0))
    "n0" (host_addr "kvs-shard-0" 8080) "a" "1" "2" "kvs-shard-1") as (Hput & _ & Hget).
  - lia.
  - lia.
  - exact ex_scalable.
  - split_and!; try done. by repeat constructor.
  - reflexivity.
  - done.
  - left.
  - exists {| sp_map := {[ "a" := "1" ]}; sp_writes := true |}. split; [|done].
    exists (sim_proc "0" ["kvs-shard-0"] {[ "a" := "1" ]}). split; [done|]. apply sim_mem_ok.
  - reflexivity.
  - reflexivity.
  - vm_compute. discriminate.
  - reflexivity.
  - exists (sim_proc "0" ex_one {[ "a" := "1" ]}), "kvs-shard-0", (host_addr "kvs-shard-0" 8081).
    by split_and!.
  - done.
  - split; [exact Hput|]. apply (Hget (started (build_shard ex_preparing 0)) "n0"
      (sim_proc "0" ["kvs-shard-0"] {[ "a" := "1" ]})).
    + vm_compute. left.
    + exists (sim_proc "0" ex_one {[ "a" := "1" ]}), (sim_id "0"),
        (replica_addr "kvs-shard-0-replica-0" "kvs-shard-0" 8083). by split_and!.
    + reflexivity.
    + reflexivity.
Defined.
