(* ===== verification/JointCollect.v ===== *)
(** * Deleted shards

    When the controller has deleted the stateful sets of the surplus shards, the cluster
    removes their pods and, by the retention policy of the sets, their volumes: what is stored
    there is lost. This file shows that nothing that clients can ask for is among it after a
    scaling operation, with a run that scales from two shards to one. *)

From S2P Require Import Prelude Protos RaftCommon KVStore KVStoreSpec.
From S2P Require Import Shard ShardWorld Redistribution Pending Stable StableCalls Completion Serving.
From S2P Require Import System Sweep.
From S2P Require Import Kube Controller ControllerTrace ControllerSpec ControllerProgress.
From S2P Require Import ControllerProps ControllerInv Joint JointProps JointLive JointScale.
From S2P Require Import Sim SimNet SimKube.

Section collect.
Context `{!Proto, !ConsistentHash} {E : Type} `{!Raft E, !RaftSetup E, !Net E, !OS E}.
Context `{!Topology E, !ProtoLaws, !OSLaws E, !ConfigLabels E, !ConsistentLaws}.
Context `{!KubeTypes} {K : Type} `{!Kube K, !CooperativeServer K}.
Implicit Types (w b : World E) (c : Ctl (Joint E K)) (kv : Kube.KVStore) (s : StatefulSet).

(** ** Removing shards that have no stateful set *)

(** The processes after the shards [l] of the resource have been collected, where the
    stateful sets [sets] are left. *)
Fixpoint without kv (sets : list StatefulSet) (l : list Z) w : World E :=
  match l with
  | [] => w
  | i :: l =>
      without kv sets l
        (if decide (shard_name (ks_name kv) i ∈ map sts_ServiceName sets) then w
         else gone (shard_name (ks_name kv) i) w)
  end.

Lemma collect_coop m kv sets i (j : Joint E K) :
  coop m kv sets (j_kube j) ->
  let j' := collect (ks_namespace kv) (ks_name kv) i j in
  coop m kv sets (j_kube j') /\ j_world j' = without kv sets [i] (j_world j).
Proof.
  intros Hk. unfold collect. destruct (coop_list m kv sets _ Hk) as (k' & -> & Hk'). by split.
Qed.

(** Turns that collect shards. *)
Lemma collects_coop fuel m kv sets l c :
  coop m kv sets (j_kube (c_env c)) ->
  j_world (c_env (joint_run fuel (map (JCollect (ks_namespace kv) (ks_name kv)) l) c)) =
  without kv sets l (j_world (c_env c)).
Proof.
  revert c. induction l as [|i l IH]; intros c Hk; [done|].
  destruct (collect_coop m kv sets i (c_env c) Hk) as [Hk' Hw].
  cbn [map joint_run foldl]. rewrite (IH (joint_act fuel (JCollect _ _ i) c) Hk').
  cbn [joint_act c_env]. by rewrite Hw.
Qed.

(** A process is left exactly if its shard was not collected. *)
Lemma without_lookup kv sets l w n p :
  w_procs (without kv sets l w) !! n = Some p <->
  w_procs w !! n = Some p /\
  forall i, i ∈ l -> shard_name (ks_name kv) i ∉ map sts_ServiceName sets ->
    f_shard (p_flags p) <> shard_name (ks_name kv) i.
Proof.
  revert w. induction l as [|i l IH]; intros w; cbn [without].
  { split; [|by intros [? _]]. intros Hp. split; [done|]. by intros i []%elem_of_nil. }
  rewrite IH. case_decide as Hi; [|rewrite gone_lookup]; split.
  - intros [Hp Hall]. split; [done|]. intros i' [->|Hi']%elem_of_cons; [done|by apply Hall].
  - intros [Hp Hall]. split; [done|]. intros i' Hi'. apply Hall. by right.
  - intros [[Hp Hne] Hall]. split; [done|]. intros i' [->|Hi']%elem_of_cons; [done|by apply Hall].
  - intros [Hp Hall]. split; [split; [done|apply Hall; [left|done]]|].
    intros i' Hi'. apply Hall. by right.
Qed.

Lemma without_env kv sets l w : w_env (without kv sets l w) = w_env w.
Proof. revert w. induction l as [|i l IH]; intros w; simpl; [done|]. rewrite IH. by case_decide. Qed.

(** A process of a shard that has a stateful set is left. *)
Lemma without_stays kv sets l w n p :
  world_inv w -> w_procs w !! n = Some p -> node_shard n ∈ map sts_ServiceName sets ->
  w_procs (without kv sets l w) !! n = Some p.
Proof.
  intros Hinv Hp Hin. apply without_lookup. split; [done|]. intros i _ Hno Heq.
  destruct (Hinv n p Hp) as [[Hsh _] _]. apply Hno. by rewrite <- Heq, Hsh.
Qed.

Lemma without_healthy `{!StableCluster E} kv sets l w :
  healthy w -> healthy (without kv sets l w).
Proof.
  intros (Hinv & Hst & Hcr). split_and!.
  - intros n p [Hp _]%without_lookup. by apply Hinv.
  - by rewrite without_env.
  - intros n p [Hp _]%without_lookup. by apply (Hcr n).
Qed.

(** ** The operation and the deletions *)

(** Stateful sets as the controller creates them, for a resource without a label named
    "group": the set of each shard up to the target is there, under the name of its
    service and in the group of its shard, and is led by one of its own processes. *)
Record own_sets kv (sets : list StatefulSet) (lead : StatefulSet -> string) : Prop := {
  ow_names : NoDup (map (fun s => om_Name (sts_meta s)) sets);
  ow_group : forall s, s ∈ sets -> group_of (sts_meta s) = sts_ServiceName s;
  ow_shards : forall i, (0 <= i < st_TargetShards (ks_Status kv))%Z ->
    shard_name (ks_name kv) i ∈ map sts_ServiceName sets;
  ow_lead : forall s, s ∈ sets -> node_shard (lead s) = sts_ServiceName s
}.

Lemma groupsToBeDeleted_elem kv i :
  shard_name (ks_name kv) i ∈ groupsToBeDeleted kv <->
  (0 <= i < st_CurrentShards (ks_Status kv) /\ st_TargetShards (ks_Status kv) <= i)%Z.
Proof.
  unfold groupsToBeDeleted. rewrite list_elem_of_fmap. split.
  - intros (x & Hx & [Hle Hr]%list_elem_of_filter). apply shard_name_inj in Hx as ->.
    apply elem_of_zrange in Hr. lia.
  - intros [Hr Hle]. exists i. split; [done|]. apply list_elem_of_filter. split; [done|].
    by apply elem_of_zrange.
Qed.

(** The sets of the shards up to the target survive, those of surplus shards do not. *)
Lemma surviving_shard kv sets lead i :
  own_sets kv sets lead -> (0 <= i < st_TargetShards (ks_Status kv))%Z ->
  shard_name (ks_name kv) i ∈ map sts_ServiceName (surviving kv sets).
Proof.
  intros Ho Hi. pose proof (ow_shards _ _ _ Ho i Hi) as (s & Hs & Hin)%list_elem_of_fmap.
  apply list_elem_of_fmap. exists s. split; [done|].
  apply surviving_stays; [apply Ho|done|]. rewrite (ow_group _ _ _ Ho s Hin), <- Hs.
  rewrite groupsToBeDeleted_elem. lia.
Qed.

Lemma surviving_surplus kv sets lead i :
  own_sets kv sets lead -> (0 <= i)%Z ->
  (st_TargetShards (ks_Status kv) <= i < st_CurrentShards (ks_Status kv))%Z ->
  shard_name (ks_name kv) i ∉ map sts_ServiceName (surviving kv sets).
Proof.
  intros Ho Hpos Hi (s & Hs & Hin)%list_elem_of_fmap. pose proof (surviving_sub _ _ _ Hin) as Hsets.
  unfold surviving in Hin. rewrite decide_False in Hin by lia.
  apply list_elem_of_filter in Hin as [Hno _]. apply Hno.
  apply list_elem_of_fmap. exists s. split; [done|]. apply list_elem_of_filter. split; [|done].
  rewrite (ow_group _ _ _ Ho s Hsets), <- Hs. apply groupsToBeDeleted_elem. lia.
Qed.

Context (SA SB : StableCluster E).

Lemma replica_of_shard w l n :
  world_inv w -> (exists e, stable (StableCluster := SB) e) ->
  replica_of (StableCluster0 := SB) w l n -> node_shard n = node_shard l.
Proof.
  intros Hinv [e He] (p & key & t & Hp & Ht & Hn).
  destruct (stable_route (StableCluster := SB) t n e He Hn) as (e' & Hroute & _).
  by eapply replica_client_route.
Qed.

(** C1: entries survive the deletion of shards. Take a scaling operation of a cluster that
    keeps working ([scalable]), up or down, whose stateful sets are the controller's own.
    After the operation, let the cluster remove the pods and the volumes of any shards of
    the resource that have no stateful set any more, in any order. Then no process of a surplus
    shard that was removed is left, and yet every entry that was where the old ring
    locates it is stored by the leader of the shard where the new one does, and a [Get] of its
    key at any replica of a remaining shard yields its value. *)
Theorem entries_survive_deletion fuel rounds kv sets lead leader oldCh newCh c m e' l :
  fuel <> 0%nat -> rounds <> 0%nat ->
  let w := j_world (c_env c) in
  scalable SA SB kv sets lead leader oldCh newCh w -> own_sets kv sets lead ->
  coop m kv sets (j_kube (c_env c)) ->
  st_Phase (ks_Status kv) = PhasePreparingScale -> stable (StableCluster := SB) e' ->
  let w' := j_world (c_env (joint_run fuel (scaling_turns rounds kv
    (something_moves sets lead newCh w) (length sets) e' ++
    map (JCollect (ks_namespace kv) (ks_name kv)) l) c)) in
  (forall i n p, i ∈ l ->
     (st_TargetShards (ks_Status kv) <= i < st_CurrentShards (ks_Status kv))%Z ->
     w_procs w' !! n = Some p -> f_shard (p_flags p) <> shard_name (ks_name kv) i) /\
  forall s k v S, s ∈ sets -> stored w (lead s) k v ->
    LocateKey oldCh k = Some (node_shard (lead s)) -> LocateKey newCh k = Some S ->
    stored w' (leader S) k v /\
    forall s' n p, s' ∈ surviving kv sets -> replica_of (StableCluster0 := SB) w (lead s') n ->
      w_procs w !! n = Some p ->
      entry_node (StableCluster := SB) (host_addr S (f_shardPort (p_flags p))) =
        Some (leader S) ->
      exists w'', kvServer_Get n {| get_Key := k |} w' = (w'', Ret (Ok {| get_Value := v |})).
Proof.
  intros Hfuel Hrounds w Hsc Hown Hk Hph He' w'.
  destruct (until_final SA SB fuel rounds Hfuel Hrounds kv sets lead leader oldCh newCh w Hsc m c
    eq_refl Hk Hph) as (b & Hin & _ & _ & Hf & Hb).
  pose proof (final_turns SA SB fuel rounds Hfuel Hrounds kv sets lead leader oldCh newCh w Hsc m
    _ b _ e' He' Hin Hf Hb) as Hfin. cbv zeta in Hfin. unfold joint_run in Hfin.
  rewrite <- foldl_app in Hfin. fold (joint_run (E := E) (K := K) fuel) in Hfin.
  set (c1 := joint_run fuel (scaling_turns rounds kv (something_moves sets lead newCh w)
    (length sets) e') c).
  change (foldl _ c _) with c1 in Hfin.
  destruct Hfin as ((kv' & Hk' & _ & (_ & _ & Hn & Hns)) & Hh & Hfj & Hbj & Hserve).
  assert (Hw' : w' = without kv' (surviving kv sets) l (j_world (c_env c1))).
  { unfold w', joint_run. rewrite foldl_app.
    fold (joint_run (E := E) (K := K) fuel (scaling_turns rounds kv
      (something_moves sets lead newCh w) (length sets) e') c). fold c1.
    replace (ks_namespace kv) with (ks_namespace kv') by exact Hns.
    replace (ks_name kv) with (ks_name kv') by exact Hn.
    exact (collects_coop fuel m kv' _ l c1 Hk'). }
  split.
  - intros i n p Hi Hrange Hp. rewrite Hw' in Hp. apply without_lookup in Hp as [_ Hall].
    replace (ks_name kv) with (ks_name kv') by exact Hn. apply (Hall i Hi).
    replace (ks_name kv') with (ks_name kv) by exact (eq_sym Hn).
    pose proof (sc_target _ _ _ _ _ _ _ _ _ Hsc). eapply surviving_surplus; [done|lia|done].
  - intros s k v S Hs Hst Ho HS. pose proof (Hbj s k v S Hs Hst Ho HS) as (t & (q & Hq & Hqt) & Hv).
    pose proof Hh as (Hinv & _).
    assert (HSl : node_shard (leader S) ∈ map sts_ServiceName (surviving kv sets)).
    { rewrite (new_shard_led SA SB fuel Hfuel kv sets lead leader oldCh newCh w Hsc s k S Hs HS).
      pose proof (LocateKey_member _ _ _ _ _ (sc_ring _ _ _ _ _ _ _ _ _ Hsc) HS) as Hmem.
      unfold config_shards in Hmem. rewrite map_map in Hmem.
      apply list_elem_of_fmap in Hmem as (i & -> & Hi%elem_of_zrange).
      eapply surviving_shard; [done|lia]. }
    assert (Hst' : stored w' (leader S) k v).
    { exists t. split; [|done]. exists q. split; [|done]. rewrite Hw'. by apply without_stays. }
    split; [done|]. intros s' n p Hs' Hrep Hp Hent.
    assert (Hnode : node_shard n ∈ map sts_ServiceName (surviving kv sets)).
    { rewrite (replica_of_shard w (lead s') n); [|apply Hsc|by exists e'|done].
      rewrite (ow_lead _ _ _ Hown s') by (by eapply surviving_sub).
      apply list_elem_of_fmap. by exists s'. }
    destruct (Hserve s' n Hs' Hrep) as (p1 & Hp1 & Hs1).
    pose proof (without_stays kv' _ l _ n p1 Hinv Hp1 Hnode) as Hp1'. rewrite <- Hw' in Hp1'.
    destruct (read_moved SB kv newCh leader w' n k v S) as (w'' & Hrun & _);
      [rewrite Hw'; by apply without_healthy|by exists p1|apply Hsc|apply Hsc| |done|done|by exists w''].
    intros p' Hp'. rewrite Hp1' in Hp'. injection Hp' as <-.
    destruct (framed_proc _ _ _ Hfj n p Hp) as (p2 & Hp2 & (Hfl & _)).
    rewrite Hp1 in Hp2. injection Hp2 as <-. by rewrite Hfl.
Qed.

End collect.

(** ** From two shards to one *)

Definition ex_shrinking : Kube.KVStore :=
  let kv := ex_resource PhasePreparingScale 2 1 in
  {| ks_meta := ks_meta kv;
     ks_Spec := {| spec_Shards := 1; spec_Replicas := 1;
                   spec_IngressDomain := "example.org"; spec_PodSpec := tt |};
     ks_Status := ks_Status kv |}.
Definition ex_two_sets : list StatefulSet :=
  [started (build_shard ex_shrinking 0); started (build_shard ex_shrinking 1)].

(** The second shard has the one entry. *)
Definition ex_two_world : World SimEnv :=
  {| w_procs := {[ "n0" := sim_proc "0" ex_two ∅;
                   "n1" := sim_proc "1" ex_two {[ "a" := "1" ]} ]};
     w_env := sim_world_env "shrinking"; w_go := [] |}.
Definition ex_before : Ctl (Joint SimEnv SimKube) :=
  {| c_env := {|
       j_kube := {| sk_store := Some ex_shrinking; sk_sets := ex_two_sets;
                    sk_config := Some {| cm_meta := config_map_meta ex_shrinking; cm_Data := ∅ |};
                    sk_list_fails := false; sk_time := 0 |};
       j_world := ex_two_world; j_asked := [] |};
     c_log := [] |}.
Definition ex_shrunk : World SimEnv :=
  j_world (c_env (joint_run 1 (scaling_turns 1 ex_shrinking
    (something_moves ex_two_sets ex_lead ex_one ex_two_world) 2 (sim_world_env "one") ++
    map (JCollect "default" "kvs") [0; 1]%Z) ex_before)).

(** The process of the second shard is gone, and the first one has the entry. *)
Example ex_shrunk_entries :
  (fun p => map_entries (m_heap (p_mem p)) (k_store (m_kv (p_mem p)))) <$> w_procs ex_shrunk =
  {[ "n0" := {[ "a" := "1" ]} ]}.
Proof. vm_compute. reflexivity. Qed.

Lemma ex_two_proc (P : string -> Proc -> Prop) :
  P "n0" (sim_proc "0" ex_two ∅) -> P "n1" (sim_proc "1" ex_two {[ "a" := "1" ]}) ->
  forall n p, w_procs ex_two_world !! n = Some p -> P n p.
Proof.
  intros Hp0 Hp1 n p. simpl. rewrite lookup_insert.
  case_decide; [subst; by intros [= <-]|by intros [<- <-]%lookup_singleton_Some].
Qed.

Lemma ex_two_healthy : healthy (StableCluster0 := sim_stable_at "shrinking") ex_two_world.
Proof.
  split; [|split; [done|]].
  - refine (ex_two_proc (fun n p => clients_ok n p /\ store_ok p) _ _); by apply sim_proc_ok.
  - by refine (ex_two_proc (fun _ p => p_crashed p = false) _ _).
Qed.

Lemma ex_shrinking_scalable : scalable (sim_stable_at "shrinking") (sim_stable_at "one")
  ex_shrinking ex_two_sets ex_lead ex_leader ex_two ex_one ex_two_world.
Proof.
  split; try done.
  - intros k. apply lookup_lt_is_Some. apply Nat.mod_upper_bound. done.
  - split; [apply ex_two_healthy|]. intros l Hl. change (l ∈ ["n0"; "n1"]) in Hl.
    apply elem_of_cons in Hl as [->|Hl]; [|apply list_elem_of_singleton in Hl as ->];
      eexists _, _; (split; [reflexivity|]); (split; [apply sim_mem_ok|]); split_and!; try done;
      [intros name t; simpl; by intros [<- <-]%lookup_singleton_Some| |
       intros name t; simpl; by intros [<- <-]%lookup_singleton_Some|];
      intros d Hd; repeat (apply elem_of_cons in Hd as [->|Hd]; [done|]); by apply elem_of_nil in Hd.
  - intros s Hs. repeat (apply elem_of_cons in Hs as [->|Hs];
      [by eexists _, _, _, _; split_and!|]). by apply elem_of_nil in Hs.
  - intros s Hs. repeat (apply elem_of_cons in Hs as [->|Hs];
      [by eexists _, _, _, _; split_and!|]). by apply elem_of_nil in Hs.
  - refine (ex_two_proc _ _ _); (split; [intros name t; simpl; by intros [<- <-]%lookup_singleton_Some|]);
      intros key t; simpl; intros [_ <-]%lookup_singleton_Some; by eexists.
  - by apply (bool_decide_unpack _); vm_compute.
  - intros s Hs _. repeat (apply elem_of_cons in Hs as [->|Hs]; [done|]).
    by apply elem_of_nil in Hs.
  - intros s Hs. repeat (apply elem_of_cons in Hs as [->|Hs]; [vm_compute; done|]).
    by apply elem_of_nil in Hs.
Qed.

Lemma ex_own_sets : own_sets ex_shrinking ex_two_sets ex_lead.
Proof.
  split.
  - by apply (bool_decide_unpack _); vm_compute.
  - intros s Hs. repeat (apply elem_of_cons in Hs as [->|Hs]; [by vm_compute|]).
    by apply elem_of_nil in Hs.
  - intros i Hi. assert (i = 0%Z) as -> by (simpl in Hi; lia). left.
  - intros s Hs. repeat (apply elem_of_cons in Hs as [->|Hs]; [by vm_compute|]).
    by apply elem_of_nil in Hs.
Qed.

Lemma entries_survive_deletion_witness :
  (forall n p, w_procs ex_shrunk !! n = Some p -> f_shard (p_flags p) <> "kvs-shard-1") /\
  stored ex_shrunk "n0" "a" "1" /\
  exists w', kvServer_Get "n0" {| get_Key := "a" |} ex_shrunk =
    (w', Ret (Ok {| get_Value := "1" |})).
Proof.
  destruct (entries_survive_deletion (CooperativeServer0 := sim_cooperative_server)
    (sim_stable_at "shrinking") (sim_stable_at "one") 1 1
    ex_shrinking ex_two_sets ex_lead ex_leader ex_two ex_one
    ex_before tt (sim_world_env "one") [0; 1]%Z) as (Hgone & Hent).
  - lia.
  - lia.
  - exact ex_shrinking_scalable.
  - exact ex_own_sets.
  - split_and!; try done. by repeat constructor.
  - reflexivity.
  - done.
  - split; [intros n p; apply (Hgone 1%Z); [right; left|done]|].
    destruct (Hent (started (build_shard ex_shrinking 1)) "a" "1" "kvs-shard-0") as [Hst Hget].
    + right. left.
    + exists {| sp_map := {[ "a" := "1" ]}; sp_writes := true |}. split; [|done].
      exists (sim_proc "1" ex_two {[ "a" := "1" ]}). split; [done|]. apply sim_mem_ok.
    + reflexivity.
    + reflexivity.
    + split; [exact Hst|]. apply (Hget (started (build_shard ex_shrinking 0)) "n0"
        (sim_proc "0" ex_two ∅)).
      * vm_compute. left.
      * exists (sim_proc "0" ex_two ∅), (sim_id "0"),
          (replica_addr "kvs-shard-0-replica-0" "kvs-shard-0" 8083). by split_and!.
      * reflexivity.
      * reflexivity.
Defined.
