(* ===== verification/Grpc.v ===== *)
(** * gRPC: stubs, handlers and service tables

    The generated files src/internal/protos/kv_grpc.pb.go, shard_grpc.pb.go and
    replica_grpc.pb.go. A client stub sends a request to a path; the server looks
    the path up in the table of the service and runs the handler that it finds
    there, which decodes the request, calls the method of the server object and
    hands back the response. The gRPC library in between is a parameter: the connection
    that a stub is given ([Conn]), with what its documentation says of connections to a
    server ([connected]). *)

From S2P Require Import Prelude Protos RaftCommon KVStore Shard.

(** ** Messages of the services *)

Inductive mtype :=
| T_GetRequest
| T_GetResponse
| T_PutRequest
| T_PutResponse
| T_DeleteRequest
| T_DeleteResponse
| T_InternalPutRequest
| T_PauseWritesRequest
| T_PauseWritesResponse
| T_RedistributeKeysRequest
| T_RedistributeKeysResponse
| T_ResumeWritesRequest
| T_ResumeWritesResponse
| T_JoinRequest
| T_JoinResponse
| T_LeaderRequest
| T_LeaderResponse
| T_DemoteVoterRequest
| T_DemoteVoterResponse
| T_ReloadConfigRequest
| T_ReloadConfigResponse.

#[export] Instance mtype_eq_dec : EqDecision mtype.
Proof. solve_decision. Defined.

Definition denote (t : mtype) : Type :=
  match t with
  | T_GetRequest => GetRequest
  | T_GetResponse => GetResponse
  | T_PutRequest => PutRequest
  | T_PutResponse => PutResponse
  | T_DeleteRequest => DeleteRequest
  | T_DeleteResponse => DeleteResponse
  | T_InternalPutRequest => InternalPutRequest
  | T_PauseWritesRequest => PauseWritesRequest
  | T_PauseWritesResponse => PauseWritesResponse
  | T_RedistributeKeysRequest => RedistributeKeysRequest
  | T_RedistributeKeysResponse => RedistributeKeysResponse
  | T_ResumeWritesRequest => ResumeWritesRequest
  | T_ResumeWritesResponse => ResumeWritesResponse
  | T_JoinRequest => JoinRequest
  | T_JoinResponse => JoinResponse
  | T_LeaderRequest => LeaderRequest
  | T_LeaderResponse => LeaderResponse
  | T_DemoteVoterRequest => DemoteVoterRequest
  | T_DemoteVoterResponse => DemoteVoterResponse
  | T_ReloadConfigRequest => ReloadConfigRequest
  | T_ReloadConfigResponse => ReloadConfigResponse
  end.

(** A value of type [interface{}] that holds a message. *)
Definition any : Type := {t : mtype & denote t}.

(** The type assertion [x.( *T)] with the [ok] flag. *)
Definition cast (t : mtype) (x : any) : option (denote t) :=
  match decide (projT1 x = t) with
  | left H => Some (eq_rect _ denote (projT2 x) _ H)
  | right _ => None
  end.

Section grpc.
Context {W : Type}.

(** ** The client's side of the library *)

(** [grpc.ClientConnInterface]: a unary call sends a request of type [tin] to a path, and
    fills in a response of type [tout] or fails. What it does is up to the library. *)
Record Conn := {
  Invoke : string -> forall tin tout, denote tin -> M W (res (denote tout))
}.

(** [grpc.UnaryServerInterceptor]: the request, the full method and the handler. *)
Definition Interceptor : Type :=
  any -> string -> (any -> M W (res any)) -> M W (res any).

Definition to_any (t : mtype) (r : res (denote t)) : res any :=
  match r with Ok a => Ok (existT t a) | Err e => Err e end.

(** A handler of the table: the server object, [dec] and the interceptor. *)
Definition Handler (Srv : Type) : Type :=
  Srv -> (forall t, res (denote t)) -> option Interceptor -> M W (res any).

(** The shape that every generated handler has. *)
Definition unary_handler {Srv} (tin tout : mtype) (fullMethod : string)
    (method : Srv -> denote tin -> M W (res (denote tout))) : Handler Srv :=
  fun srv dec interceptor =>
    match dec tin with
    | Err err => ret (Err err)
    | Ok in_ =>
        match interceptor with
        | None => r <- method srv in_ ;; ret (to_any tout r)
        | Some interceptor =>
            interceptor (existT tin in_) fullMethod (fun req =>
              match cast tin req with
              | Some req => r <- method srv req ;; ret (to_any tout r)
              | None => crash "interface conversion"
              end)
        end
    end.

(** [grpc.ServiceDesc] *)
Record ServiceDesc (Srv : Type) := {
  sd_ServiceName : string;
  sd_Methods : list (string * Handler Srv);
  sd_Metadata : string
}.
Arguments sd_ServiceName {Srv} _.
Arguments sd_Methods {Srv} _.
Arguments sd_Metadata {Srv} _.

(** [status.Errorf(codes.Unimplemented, ...)] *)
Definition unimplemented {A} (name : string) : M W (res A) :=
  ret (Err (StatusErr "Unimplemented" ("method " +:+ name +:+ " not implemented"))).

(** ** The service KV *)

(** The interface [KVServer]. *)
Record KVServer := {
  KVServer_Get : GetRequest -> M W (res GetResponse);
  KVServer_Put : PutRequest -> M W (res PutResponse);
  KVServer_Delete : DeleteRequest -> M W (res DeleteResponse)
}.

Definition UnimplementedKVServer : KVServer := {|
  KVServer_Get _ := unimplemented "Get";
  KVServer_Put _ := unimplemented "Put";
  KVServer_Delete _ := unimplemented "Delete"
|}.

Definition kVClient_Get (cc : Conn) (in_ : GetRequest) : M W (res GetResponse) :=
  Invoke cc "/protos.KV/Get" T_GetRequest T_GetResponse in_.
Definition kVClient_Put (cc : Conn) (in_ : PutRequest) : M W (res PutResponse) :=
  Invoke cc "/protos.KV/Put" T_PutRequest T_PutResponse in_.
Definition kVClient_Delete (cc : Conn) (in_ : DeleteRequest) : M W (res DeleteResponse) :=
  Invoke cc "/protos.KV/Delete" T_DeleteRequest T_DeleteResponse in_.

Definition KV_Get_Handler : Handler KVServer :=
  unary_handler T_GetRequest T_GetResponse "/protos.KV/Get" KVServer_Get.
Definition KV_Put_Handler : Handler KVServer :=
  unary_handler T_PutRequest T_PutResponse "/protos.KV/Put" KVServer_Put.
Definition KV_Delete_Handler : Handler KVServer :=
  unary_handler T_DeleteRequest T_DeleteResponse "/protos.KV/Delete" KVServer_Delete.

Definition KV_ServiceDesc : ServiceDesc KVServer := {|
  sd_ServiceName := "protos.KV";
  sd_Methods := [
    ("Get", KV_Get_Handler);
    ("Put", KV_Put_Handler);
    ("Delete", KV_Delete_Handler)
  ];
  sd_Metadata := "protos/kv.proto"
|}.

(** ** The service ShardRPC *)

(** The interface [ShardRPCServer]. *)
Record ShardRPCServer := {
  ShardRPCServer_Get : GetRequest -> M W (res GetResponse);
  ShardRPCServer_Put : InternalPutRequest -> M W (res PutResponse);
  ShardRPCServer_Delete : DeleteRequest -> M W (res DeleteResponse);
  ShardRPCServer_PauseWrites : PauseWritesRequest -> M W (res PauseWritesResponse);
  ShardRPCServer_RedistributeKeys : RedistributeKeysRequest -> M W (res RedistributeKeysResponse);
  ShardRPCServer_ResumeWrites : ResumeWritesRequest -> M W (res ResumeWritesResponse)
}.

Definition UnimplementedShardRPCServer : ShardRPCServer := {|
  ShardRPCServer_Get _ := unimplemented "Get";
  ShardRPCServer_Put _ := unimplemented "Put";
  ShardRPCServer_Delete _ := unimplemented "Delete";
  ShardRPCServer_PauseWrites _ := unimplemented "PauseWrites";
  ShardRPCServer_RedistributeKeys _ := unimplemented "RedistributeKeys";
  ShardRPCServer_ResumeWrites _ := unimplemented "ResumeWrites"
|}.

Definition shardRPCClient_Get (cc : Conn) (in_ : GetRequest) : M W (res GetResponse) :=
  Invoke cc "/protos.ShardRPC/Get" T_GetRequest T_GetResponse in_.
Definition shardRPCClient_Put (cc : Conn) (in_ : InternalPutRequest) : M W (res PutResponse) :=
  Invoke cc "/protos.ShardRPC/Put" T_InternalPutRequest T_PutResponse in_.
Definition shardRPCClient_Delete (cc : Conn) (in_ : DeleteRequest) : M W (res DeleteResponse) :=
  Invoke cc "/protos.ShardRPC/Delete" T_DeleteRequest T_DeleteResponse in_.
Definition shardRPCClient_PauseWrites (cc : Conn) (in_ : PauseWritesRequest) : M W (res PauseWritesResponse) :=
  Invoke cc "/protos.ShardRPC/PauseWrites" T_PauseWritesRequest T_PauseWritesResponse in_.
Definition shardRPCClient_RedistributeKeys (cc : Conn) (in_ : RedistributeKeysRequest) : M W (res RedistributeKeysResponse) :=
  Invoke cc "/protos.ShardRPC/RedistributeKeys" T_RedistributeKeysRequest T_RedistributeKeysResponse in_.
Definition shardRPCClient_ResumeWrites (cc : Conn) (in_ : ResumeWritesRequest) : M W (res ResumeWritesResponse) :=
  Invoke cc "/protos.ShardRPC/ResumeWrites" T_ResumeWritesRequest T_ResumeWritesResponse in_.

Definition ShardRPC_Get_Handler : Handler ShardRPCServer :=
  unary_handler T_GetRequest T_GetResponse "/protos.ShardRPC/Get" ShardRPCServer_Get.
Definition ShardRPC_Put_Handler : Handler ShardRPCServer :=
  unary_handler T_InternalPutRequest T_PutResponse "/protos.ShardRPC/Put" ShardRPCServer_Put.
Definition ShardRPC_Delete_Handler : Handler ShardRPCServer :=
  unary_handler T_DeleteRequest T_DeleteResponse "/protos.ShardRPC/Delete" ShardRPCServer_Delete.
Definition ShardRPC_PauseWrites_Handler : Handler ShardRPCServer :=
  unary_handler T_PauseWritesRequest T_PauseWritesResponse "/protos.ShardRPC/PauseWrites" ShardRPCServer_PauseWrites.
Definition ShardRPC_RedistributeKeys_Handler : Handler ShardRPCServer :=
  unary_handler T_RedistributeKeysRequest T_RedistributeKeysResponse "/protos.ShardRPC/RedistributeKeys" ShardRPCServer_RedistributeKeys.
Definition ShardRPC_ResumeWrites_Handler : Handler ShardRPCServer :=
  unary_handler T_ResumeWritesRequest T_ResumeWritesResponse "/protos.ShardRPC/ResumeWrites" ShardRPCServer_ResumeWrites.

Definition ShardRPC_ServiceDesc : ServiceDesc ShardRPCServer := {|
  sd_ServiceName := "protos.ShardRPC";
  sd_Methods := [
    ("Get", ShardRPC_Get_Handler);
    ("Put", ShardRPC_Put_Handler);
    ("Delete", ShardRPC_Delete_Handler);
    ("PauseWrites", ShardRPC_PauseWrites_Handler);
    ("RedistributeKeys", ShardRPC_RedistributeKeys_Handler);
    ("ResumeWrites", ShardRPC_ResumeWrites_Handler)
  ];
  sd_Metadata := "protos/shard.proto"
|}.

(** ** The service ReplicaRPC *)

(** The interface [ReplicaRPCServer]. *)
Record ReplicaRPCServer := {
  ReplicaRPCServer_Put : InternalPutRequest -> M W (res PutResponse);
  ReplicaRPCServer_Delete : DeleteRequest -> M W (res DeleteResponse);
  ReplicaRPCServer_Join : JoinRequest -> M W (res JoinResponse);
  ReplicaRPCServer_Leader : LeaderRequest -> M W (res LeaderResponse);
  ReplicaRPCServer_DemoteVoter : DemoteVoterRequest -> M W (res DemoteVoterResponse);
  ReplicaRPCServer_PauseWrites : PauseWritesRequest -> M W (res PauseWritesResponse);
  ReplicaRPCServer_RedistributeKeys : RedistributeKeysRequest -> M W (res RedistributeKeysResponse);
  ReplicaRPCServer_ResumeWrites : ResumeWritesRequest -> M W (res ResumeWritesResponse);
  ReplicaRPCServer_ReloadConfig : ReloadConfigRequest -> M W (res ReloadConfigResponse)
}.

Definition UnimplementedReplicaRPCServer : ReplicaRPCServer := {|
  ReplicaRPCServer_Put _ := unimplemented "Put";
  ReplicaRPCServer_Delete _ := unimplemented "Delete";
  ReplicaRPCServer_Join _ := unimplemented "Join";
  ReplicaRPCServer_Leader _ := unimplemented "Leader";
  ReplicaRPCServer_DemoteVoter _ := unimplemented "DemoteVoter";
  ReplicaRPCServer_PauseWrites _ := unimplemented "PauseWrites";
  ReplicaRPCServer_RedistributeKeys _ := unimplemented "RedistributeKeys";
  ReplicaRPCServer_ResumeWrites _ := unimplemented "ResumeWrites";
  ReplicaRPCServer_ReloadConfig _ := unimplemented "ReloadConfig"
|}.

Definition replicaRPCClient_Put (cc : Conn) (in_ : InternalPutRequest) : M W (res PutResponse) :=
  Invoke cc "/protos.ReplicaRPC/Put" T_InternalPutRequest T_PutResponse in_.
Definition replicaRPCClient_Delete (cc : Conn) (in_ : DeleteRequest) : M W (res DeleteResponse) :=
  Invoke cc "/protos.ReplicaRPC/Delete" T_DeleteRequest T_DeleteResponse in_.
Definition replicaRPCClient_Join (cc : Conn) (in_ : JoinRequest) : M W (res JoinResponse) :=
  Invoke cc "/protos.ReplicaRPC/Join" T_JoinRequest T_JoinResponse in_.
Definition replicaRPCClient_Leader (cc : Conn) (in_ : LeaderRequest) : M W (res LeaderResponse) :=
  Invoke cc "/protos.ReplicaRPC/Leader" T_LeaderRequest T_LeaderResponse in_.
Definition replicaRPCClient_DemoteVoter (cc : Conn) (in_ : DemoteVoterRequest) : M W (res DemoteVoterResponse) :=
  Invoke cc "/protos.ReplicaRPC/DemoteVoter" T_DemoteVoterRequest T_DemoteVoterResponse in_.
Definition replicaRPCClient_PauseWrites (cc : Conn) (in_ : PauseWritesRequest) : M W (res PauseWritesResponse) :=
  Invoke cc "/protos.ReplicaRPC/PauseWrites" T_PauseWritesRequest T_PauseWritesResponse in_.
Definition replicaRPCClient_RedistributeKeys (cc : Conn) (in_ : RedistributeKeysRequest) : M W (res RedistributeKeysResponse) :=
  Invoke cc "/protos.ReplicaRPC/RedistributeKeys" T_RedistributeKeysRequest T_RedistributeKeysResponse in_.
Definition replicaRPCClient_ResumeWrites (cc : Conn) (in_ : ResumeWritesRequest) : M W (res ResumeWritesResponse) :=
  Invoke cc "/protos.ReplicaRPC/ResumeWrites" T_ResumeWritesRequest T_ResumeWritesResponse in_.
Definition replicaRPCClient_ReloadConfig (cc : Conn) (in_ : ReloadConfigRequest) : M W (res ReloadConfigResponse) :=
  Invoke cc "/protos.ReplicaRPC/ReloadConfig" T_ReloadConfigRequest T_ReloadConfigResponse in_.

Definition ReplicaRPC_Put_Handler : Handler ReplicaRPCServer :=
  unary_handler T_InternalPutRequest T_PutResponse "/protos.ReplicaRPC/Put" ReplicaRPCServer_Put.
Definition ReplicaRPC_Delete_Handler : Handler ReplicaRPCServer :=
  unary_handler T_DeleteRequest T_DeleteResponse "/protos.ReplicaRPC/Delete" ReplicaRPCServer_Delete.
Definition ReplicaRPC_Join_Handler : Handler ReplicaRPCServer :=
  unary_handler T_JoinRequest T_JoinResponse "/protos.ReplicaRPC/Join" ReplicaRPCServer_Join.
Definition ReplicaRPC_Leader_Handler : Handler ReplicaRPCServer :=
  unary_handler T_LeaderRequest T_LeaderResponse "/protos.ReplicaRPC/Leader" ReplicaRPCServer_Leader.
Definition ReplicaRPC_DemoteVoter_Handler : Handler ReplicaRPCServer :=
  unary_handler T_DemoteVoterRequest T_DemoteVoterResponse "/protos.ReplicaRPC/DemoteVoter" ReplicaRPCServer_DemoteVoter.
Definition ReplicaRPC_PauseWrites_Handler : Handler ReplicaRPCServer :=
  unary_handler T_PauseWritesRequest T_PauseWritesResponse "/protos.ReplicaRPC/PauseWrites" ReplicaRPCServer_PauseWrites.
Definition ReplicaRPC_RedistributeKeys_Handler : Handler ReplicaRPCServer :=
  unary_handler T_RedistributeKeysRequest T_RedistributeKeysResponse "/protos.ReplicaRPC/RedistributeKeys" ReplicaRPCServer_RedistributeKeys.
Definition ReplicaRPC_ResumeWrites_Handler : Handler ReplicaRPCServer :=
  unary_handler T_ResumeWritesRequest T_ResumeWritesResponse "/protos.ReplicaRPC/ResumeWrites" ReplicaRPCServer_ResumeWrites.
Definition ReplicaRPC_ReloadConfig_Handler : Handler ReplicaRPCServer :=
  unary_handler T_ReloadConfigRequest T_ReloadConfigResponse "/protos.ReplicaRPC/ReloadConfig" ReplicaRPCServer_ReloadConfig.

Definition ReplicaRPC_ServiceDesc : ServiceDesc ReplicaRPCServer := {|
  sd_ServiceName := "protos.ReplicaRPC";
  sd_Methods := [
    ("Put", ReplicaRPC_Put_Handler);
    ("Delete", ReplicaRPC_Delete_Handler);
    ("Join", ReplicaRPC_Join_Handler);
    ("Leader", ReplicaRPC_Leader_Handler);
    ("DemoteVoter", ReplicaRPC_DemoteVoter_Handler);
    ("PauseWrites", ReplicaRPC_PauseWrites_Handler);
    ("RedistributeKeys", ReplicaRPC_RedistributeKeys_Handler);
    ("ResumeWrites", ReplicaRPC_ResumeWrites_Handler);
    ("ReloadConfig", ReplicaRPC_ReloadConfig_Handler)
  ];
  sd_Metadata := "protos/replica.proto"
|}.

(** ** A connection to a server *)

(** The path of a method of a service. *)
Definition method_path {Srv} (desc : ServiceDesc Srv) (name : string) : string :=
  "/" +:+ sd_ServiceName desc +:+ "/" +:+ name.

(** What comes of a message that is sent, if it can be sent: a message with a string that is
    no valid UTF-8, or one that is too long, is refused. *)
Class Sending := {
  sendable : forall t, denote t -> bool;
  refusal : forall t, denote t -> error
}.

Definition delivered `{!Sending} (t : mtype) (r : res (denote t)) : res (denote t) :=
  match r with
  | Ok a => if sendable t a then Ok a else Err (refusal t a)
  | Err _ => to_status r
  end.

(** What the documentation of the library says of a connection to a server on which [srv] is
    registered with the table [desc], while the network works. A request that cannot be
    sent is refused at the client. Any other one that is invoked under the path of a method of
    the table makes the server run the handler of that method, which decodes the request that was
    sent; the response that the handler returns, or its error as a status, is
    what the client gets. *)
Record connected `{!Sending} {Srv} (cc : Conn) (desc : ServiceDesc Srv) (srv : Srv) : Prop := {
  co_refused : forall name handler tin tout in_ w,
    (name, handler) ∈ sd_Methods desc -> sendable tin in_ = false ->
    Invoke cc (method_path desc name) tin tout in_ w = (w, Ret (Err (refusal tin in_)));
  co_served : forall name handler tin tout in_ w,
    (name, handler) ∈ sd_Methods desc -> sendable tin in_ = true ->
    exists dec, dec tin = Ok in_ /\
      forall w' r, handler srv dec None w = (w', Ret r) ->
        match r with
        | Ok x =>
            forall a, cast tout x = Some a ->
              Invoke cc (method_path desc name) tin tout in_ w = (w', Ret (delivered tout (Ok a)))
        | Err e =>
            Invoke cc (method_path desc name) tin tout in_ w =
              (w', Ret (delivered tout (Err e)))
        end
}.

(** A stub is a call of a method: what can be sent reaches it, and its result comes back. *)
Definition reaches `{!Sending} (tin tout : mtype) (stub method : denote tin -> M W (res (denote tout)))
    : Prop := forall in_ w,
  if sendable tin in_
  then forall w' r, method in_ w = (w', Ret r) -> stub in_ w = (w', Ret (delivered tout r))
  else stub in_ w = (w, Ret (Err (refusal tin in_))).

Lemma cast_same t (a : denote t) : cast t (existT t a) = Some a.
Proof. unfold cast. simpl. by destruct t. Qed.

(** A stub that invokes the path of a method whose handler has the generated shape. *)
Lemma stub_reaches `{!Sending} {Srv} (cc : Conn) (desc : ServiceDesc Srv) srv name tin tout fm
    (method : Srv -> denote tin -> M W (res (denote tout))) :
  connected cc desc srv -> (name, unary_handler tin tout fm method) ∈ sd_Methods desc ->
  reaches tin tout (Invoke cc (method_path desc name) tin tout) (method srv).
Proof.
  intros Hcc Hin in_ w. destruct (sendable tin in_) eqn:Hs; [|by eapply co_refused].
  intros w' r Hm. destruct (co_served _ _ _ Hcc _ _ tin tout in_ w Hin Hs) as (dec & Hdec & Hrun).
  specialize (Hrun w' (to_any tout r)). unfold unary_handler in Hrun. rewrite Hdec in Hrun.
  unfold bind, ret in Hrun. rewrite Hm in Hrun. specialize (Hrun eq_refl).
  destruct r as [a|e]; simpl in Hrun; [|exact Hrun]. apply Hrun, cast_same.
Qed.

(** A table that the server can use: no two methods have the same name, and each handler
    names the path it is registered under to interceptors. *)
Definition well_named {Srv} (desc : ServiceDesc Srv) : Prop :=
  NoDup (map fst (sd_Methods desc)) /\
  Forall (fun m => forall srv dec interceptor, forall w,
    (forall t, exists a, dec t = Ok a) ->
    exists req handler,
      m.2 srv dec (Some interceptor) w = interceptor req (method_path desc m.1) handler w)
    (sd_Methods desc).

Lemma unary_handler_named {Srv} tin tout path (method : Srv -> denote tin -> M W (res (denote tout)))
    srv dec interceptor w :
  (forall t, exists a, dec t = Ok a) ->
  exists req handler,
    unary_handler tin tout path method srv dec (Some interceptor) w =
      interceptor req path handler w.
Proof. intros Hdec. unfold unary_handler. destruct (Hdec tin) as [a ->]. by eexists _, _. Qed.

End grpc.

Arguments sd_ServiceName {W Srv} _.
Arguments sd_Methods {W Srv} _.
Arguments sd_Metadata {W Srv} _.
Arguments Conn W : clear implicits.
Arguments KVServer W : clear implicits.
Arguments ShardRPCServer W : clear implicits.
Arguments ReplicaRPCServer W : clear implicits.

(** ** The server objects of shard.go *)

Section servers.
Context `{!Proto, !ConsistentHash} {E : Type} `{!Raft E, !RaftSetup E, !Net E, !OS E}.
Context (fuel : nat) (self : string).

Definition kvServer : KVServer (World E) := {|
  KVServer_Get := kvServer_Get self;
  KVServer_Put := kvServer_Put self;
  KVServer_Delete := kvServer_Delete self
|}.

Definition shardRpcServer : ShardRPCServer (World E) := {|
  ShardRPCServer_Get := shardRpcServer_Get self;
  ShardRPCServer_Put := shardRpcServer_Put self;
  ShardRPCServer_Delete := shardRpcServer_Delete self;
  ShardRPCServer_PauseWrites := shardRpcServer_PauseWrites self;
  ShardRPCServer_RedistributeKeys := shardRpcServer_RedistributeKeys self;
  ShardRPCServer_ResumeWrites := shardRpcServer_ResumeWrites fuel self
|}.

Definition replicaRpcServer : ReplicaRPCServer (World E) := {|
  ReplicaRPCServer_Put := replicaRpcServer_Put self;
  ReplicaRPCServer_Delete := replicaRpcServer_Delete self;
  ReplicaRPCServer_Join := replicaRpcServer_Join self;
  ReplicaRPCServer_Leader := replicaRpcServer_Leader self;
  ReplicaRPCServer_DemoteVoter := replicaRpcServer_DemoteVoter self;
  ReplicaRPCServer_PauseWrites := replicaRpcServer_PauseWrites self;
  ReplicaRPCServer_RedistributeKeys := replicaRpcServer_RedistributeKeys self;
  ReplicaRPCServer_ResumeWrites := replicaRpcServer_ResumeWrites fuel self;
  ReplicaRPCServer_ReloadConfig := replicaRpcServer_ReloadConfig fuel self
|}.

End servers.
