(* ===== verification/GrpcProps.v ===== *)
(** * Properties of the gRPC layer

    The stubs, the handlers and the tables of the three services fit together. *)

From S2P Require Import Prelude Protos RaftCommon KVStore Sim Shard Grpc.

(** The stub of a method that the table has. *)
Ltac by_table :=
  match goal with
  | Hcc : connected ?cc ?desc ?srv |- reaches _ _ (?stub ?cc) _ =>
      refine (stub_reaches cc desc srv _ _ _ _ _ Hcc _); simpl; rewrite !elem_of_cons; tauto
  end.

Section props.
Context {W : Type} `{!Sending}.

Lemma tables_well_named :
  well_named (KV_ServiceDesc (W := W)) /\ well_named (ShardRPC_ServiceDesc (W := W)) /\
  well_named (ReplicaRPC_ServiceDesc (W := W)).
Proof.
  split_and!; (split; [by apply (bool_decide_unpack _); vm_compute|]);
    repeat (apply Forall_cons_2; [intros srv dec interceptor w Hdec;
      by apply (unary_handler_named _ _ _ _ srv dec interceptor w)|]); constructor.
Qed.

(** C26: every stub reaches the method of its name. The generated tables have no two methods
    of the same name, and their handlers tell interceptors the path that they are registered
    under. Over connections to servers with these tables, a call of a client stub of any
    of the three services with a request that can be sent is, whenever the method of the
    same name returns, a call of that method with the same request; the client gets its
    response, if it can be sent, or its error as a status. A request that cannot be sent does
    not reach the server. *)
Theorem stubs_reach_methods ck cs cr (kvs : KVServer W) (ss : ShardRPCServer W)
    (rs : ReplicaRPCServer W) :
  connected ck KV_ServiceDesc kvs -> connected cs ShardRPC_ServiceDesc ss ->
  connected cr ReplicaRPC_ServiceDesc rs ->
  well_named (KV_ServiceDesc (W := W)) /\ well_named (ShardRPC_ServiceDesc (W := W)) /\
  well_named (ReplicaRPC_ServiceDesc (W := W)) /\
  reaches T_GetRequest T_GetResponse (kVClient_Get ck) (KVServer_Get kvs) /\
  reaches T_PutRequest T_PutResponse (kVClient_Put ck) (KVServer_Put kvs) /\
  reaches T_DeleteRequest T_DeleteResponse (kVClient_Delete ck) (KVServer_Delete kvs) /\
  reaches T_GetRequest T_GetResponse (shardRPCClient_Get cs) (ShardRPCServer_Get ss) /\
  reaches T_InternalPutRequest T_PutResponse (shardRPCClient_Put cs) (ShardRPCServer_Put ss) /\
  reaches T_DeleteRequest T_DeleteResponse (shardRPCClient_Delete cs) (ShardRPCServer_Delete ss) /\
  reaches T_PauseWritesRequest T_PauseWritesResponse (shardRPCClient_PauseWrites cs) (ShardRPCServer_PauseWrites ss) /\
  reaches T_RedistributeKeysRequest T_RedistributeKeysResponse (shardRPCClient_RedistributeKeys cs) (ShardRPCServer_RedistributeKeys ss) /\
  reaches T_ResumeWritesRequest T_ResumeWritesResponse (shardRPCClient_ResumeWrites cs) (ShardRPCServer_ResumeWrites ss) /\
  reaches T_InternalPutRequest T_PutResponse (replicaRPCClient_Put cr) (ReplicaRPCServer_Put rs) /\
  reaches T_DeleteRequest T_DeleteResponse (replicaRPCClient_Delete cr) (ReplicaRPCServer_Delete rs) /\
  reaches T_JoinRequest T_JoinResponse (replicaRPCClient_Join cr) (ReplicaRPCServer_Join rs) /\
  reaches T_LeaderRequest T_LeaderResponse (replicaRPCClient_Leader cr) (ReplicaRPCServer_Leader rs) /\
  reaches T_DemoteVoterRequest T_DemoteVoterResponse (replicaRPCClient_DemoteVoter cr) (ReplicaRPCServer_DemoteVoter rs) /\
  reaches T_PauseWritesRequest T_PauseWritesResponse (replicaRPCClient_PauseWrites cr) (ReplicaRPCServer_PauseWrites rs) /\
  reaches T_RedistributeKeysRequest T_RedistributeKeysResponse (replicaRPCClient_RedistributeKeys cr) (ReplicaRPCServer_RedistributeKeys rs) /\
  reaches T_ResumeWritesRequest T_ResumeWritesResponse (replicaRPCClient_ResumeWrites cr) (ReplicaRPCServer_ResumeWrites rs) /\
  reaches T_ReloadConfigRequest T_ReloadConfigResponse (replicaRPCClient_ReloadConfig cr) (ReplicaRPCServer_ReloadConfig rs).
Proof.
  intros Hk Hs Hr. destruct tables_well_named as (Nk & Ns & Nr).
  split_and!; [exact Nk|exact Ns|exact Nr|by_table..].
Qed.

End props.

(** ** A connection

    Every message can be sent but a [PutRequest] whose key is "bad"; methods are found by
    their paths. *)

#[local] Instance ex_sending : Sending := {|
  sendable t := match t with
    | T_PutRequest => fun i : PutRequest => bool_decide (put_Key i <> "bad")
    | _ => fun _ => true end;
  refusal t a := StatusErr "Internal" "string field contains invalid UTF-8"
|}.

Definition ex_connection {W Srv} (desc : ServiceDesc (W := W) Srv) (srv : Srv) : Conn W := {|
  Invoke path tin tout in_ :=
    if sendable tin in_ then
      match find (fun m => bool_decide (path = method_path desc m.1)) (sd_Methods desc) with
      | None => ret (Err (StatusErr "Unimplemented" "unknown method"))
      | Some m =>
          r <- m.2 srv (fun t => match cast t (existT tin in_) with
                 | Some a => Ok a | None => Err (LibErr "cannot decode") end) None ;;
          match r with
          | Err err => ret (delivered tout (Err err))
          | Ok x =>
              match cast tout x with
              | Some a => ret (delivered tout (Ok a))
              | None => ret (Err (LibErr "cannot decode"))
              end
          end
      end
    else ret (Err (refusal tin in_))
|}.

Lemma method_path_inj {W Srv} (desc : ServiceDesc (W := W) Srv) a b :
  method_path desc a = method_path desc b -> a = b.
Proof. unfold method_path. by intros H%string_app_inj_l%string_app_inj_l%string_app_inj_l. Qed.

Lemma ex_found {W Srv} (desc : ServiceDesc (W := W) Srv) name handler :
  NoDup (map fst (sd_Methods desc)) -> (name, handler) ∈ sd_Methods desc ->
  find (fun m => bool_decide (method_path desc name = method_path desc m.1)) (sd_Methods desc) =
    Some (name, handler).
Proof.
  induction (sd_Methods desc) as [|[n h] l IH]; intros Hnd Hin; [by apply elem_of_nil in Hin|].
  cbn [map fst] in Hnd. apply NoDup_cons in Hnd as [Hn Hnd]. cbn [find fst].
  apply elem_of_cons in Hin as [[= -> ->]|Hin]; [by rewrite bool_decide_eq_true_2|].
  rewrite bool_decide_eq_false_2; [by apply IH|].
  intros ->%method_path_inj. apply Hn, list_elem_of_fmap. by exists (n, handler).
Qed.

Lemma ex_connected {W Srv} (desc : ServiceDesc (W := W) Srv) srv :
  NoDup (map fst (sd_Methods desc)) -> connected (ex_connection desc srv) desc srv.
Proof.
  intros Hnd. split; intros name handler tin tout in_ w Hin Hs; cbn [Invoke ex_connection];
    rewrite Hs; [done|].
  exists (fun t => match cast t (existT tin in_) with
    | Some a => Ok a | None => Err (LibErr "cannot decode") end).
  split; [by rewrite cast_same|]. intros w' r Hrun.
  rewrite (ex_found desc name handler Hnd Hin). cbn [snd].
  destruct r as [x|e]; [intros a Ha|]; rewrite (bind_Ret _ _ _ _ _ Hrun); [by rewrite Ha|done].
Qed.

Definition ex_kv_server : KVServer unit := {|
  KVServer_Get i := ret (Ok {| get_Value := get_Key i |});
  KVServer_Put i := ret (Err KeyNotFound);
  KVServer_Delete i := ret (Ok mkDeleteResponse)
|}.

(** An error of the method comes back as a status; the other request is refused. *)
Lemma stubs_reach_methods_witness :
  kVClient_Put (ex_connection KV_ServiceDesc ex_kv_server) {| put_Key := "k"; put_Value := "v" |} tt =
    (tt, Ret (Err (StatusErr "Unknown" "Key not found"))) /\
  kVClient_Put (ex_connection KV_ServiceDesc ex_kv_server) {| put_Key := "bad"; put_Value := "v" |} tt =
    (tt, Ret (Err (StatusErr "Internal" "string field contains invalid UTF-8"))).
Proof.
  destruct (stubs_reach_methods (W := unit) (ex_connection KV_ServiceDesc ex_kv_server)
    (ex_connection ShardRPC_ServiceDesc UnimplementedShardRPCServer)
    (ex_connection ReplicaRPC_ServiceDesc UnimplementedReplicaRPCServer)
    ex_kv_server UnimplementedShardRPCServer UnimplementedReplicaRPCServer)
    as (_ & _ & _ & _ & Hput & _); try apply ex_connected, tables_well_named.
  split.
  - exact (Hput {| put_Key := "k"; put_Value := "v" |} tt tt (Err KeyNotFound) eq_refl).
  - exact (Hput {| put_Key := "bad"; put_Value := "v" |} tt).
Defined.
