(* ===== verification/Client.v ===== *)
(** * The command line client: src/cmd/client/client.go

    The state is the world outside the client together with what the user has
    entered and the requests that the client has sent, both in order. *)

From S2P Require Import Prelude Protos KVStore Shard Kube Controller ControllerTrace.
From S2P Require Import ControllerSpec ControllerProgress SimKube Webhook.

(** The configuration file: the manifest of a resource. [spec_Pod] is a map of
    arbitrary values, which the client does not look at. *)
Record KvctlSpec (Pod : Type) := {
  kc_SpecShards : Z;
  kc_SpecReplicas : Z;
  kc_IngressDomain : string;
  kc_PodSpec : Pod
}.
Arguments kc_SpecShards {Pod} _.
Arguments kc_IngressDomain {Pod} _.

Record KvctlMetadata := {
  km_Name : string;
  km_Namespace : string;
  km_Labels : gmap string string
}.

Record KvctlConfig (Pod : Type) := {
  kg_ApiVersion : string;
  kg_Kind : string;
  kg_Metadata : KvctlMetadata;
  kg_Spec : KvctlSpec Pod
}.
Arguments kg_ApiVersion {Pod} _.
Arguments kg_Metadata {Pod} _.
Arguments kg_Spec {Pod} _.

(** Files, the terminal and gRPC. [fmt.Scanln] leaves the variable as it is when
    the input is not a number: [scan_int] is given its value. *)
Class Terminal (Pod T : Type) := {
  read_file : string -> T -> T * res string;
  unmarshal_config : string -> res (KvctlConfig Pod);
  scan_int : Z -> T -> T * Z;
  scan_string : T -> T * string;
  print_line : string -> T -> T * unit;
  dial : string -> T -> T * gerror;
  call_Get : string -> GetRequest -> T -> T * res GetResponse;
  call_Put : string -> PutRequest -> T -> T * res PutResponse;
  call_Delete : string -> DeleteRequest -> T -> T * res DeleteResponse
}.

Inductive request :=
| ReqGet (target : string) (i : GetRequest)
| ReqPut (target : string) (i : PutRequest)
| ReqDelete (target : string) (i : DeleteRequest).

(** What [fmt.Scanln] yielded. *)
Inductive input := Num (n : Z) | Str (x : string).

Section client.
Context {Pod T : Type} `{!Terminal Pod T}.

Record Session := { s_term : T; s_typed : list input; s_sent : list request }.

(** The session after a step of the world, a further input and a further request. *)
Definition on (s : Session) (t : T) : Session :=
  {| s_term := t; s_typed := s_typed s; s_sent := s_sent s |}.
Definition typed (x : input) (s : Session) : Session :=
  {| s_term := s_term s; s_typed := s_typed s ++ [x]; s_sent := s_sent s |}.
Definition sent (r : request) (s : Session) : Session :=
  {| s_term := s_term s; s_typed := s_typed s; s_sent := s_sent s ++ [r] |}.

Definition io {A} (f : T -> T * A) : M Session A := fun s =>
  let (t', a) := f (s_term s) in (on s t', Ret a).
Definition scan {A} (inp : A -> input) (f : T -> T * A) : M Session A := fun s =>
  let (t', a) := f (s_term s) in (typed (inp a) (on s t'), Ret a).
Definition send {A} (r : request) (f : T -> T * A) : M Session A := fun s =>
  let (t', a) := f (s_term s) in (sent r (on s t'), Ret a).

Definition println (line : string) : M Session unit := io (print_line line).

(** The address of a shard behind the ingress. *)
Definition shard_address (kvctlConfig : KvctlConfig Pod) (i : Z) : string :=
  shard_name (km_Name (kg_Metadata kvctlConfig)) i +:+ "." +:+
  kc_IngressDomain (kg_Spec kvctlConfig) +:+ ":80".

Definition connect (address : string) : M Session string :=
  err <- io (dial address) ;;
  match err with
  | Some err => crash (Error err)
  | None => ret address
  end.

(** The first part of [main]. *)
Definition load_config (kvctlConfigPath : string) : M Session (KvctlConfig Pod) :=
  buf <- io (read_file kvctlConfigPath) ;;
  match buf with
  | Err err => crash ("Unable to read config file at " +:+ kvctlConfigPath +:+ ": " +:+ Error err)
  | Ok buf =>
      match unmarshal_config buf with
      | Err err => crash ("Unable to parse config file at " +:+ kvctlConfigPath +:+ ": " +:+ Error err)
      | Ok kvctlConfig => ret kvctlConfig
      end
  end.

(** The branch for [dummyData]. *)
Definition insert_dummy_data (kvctlConfig : KvctlConfig Pod) : M Session unit :=
  client <- connect (shard_address kvctlConfig 0) ;;
  for_each (zrange 0 100) (fun i =>
    println ("Setting key " +:+ itoa i) ;;;
    let req := {| put_Key := itoa i; put_Value := itoa (100 - i) |} in
    r <- send (ReqPut client req) (call_Put client req) ;;
    match r with
    | Err err => println (Error err)
    | Ok _ => ret tt
    end).

(** One round of the menu: [Some tt] ends the program; the number entered is kept
    for the next round. *)
Definition menu_round (client : string) (choice : Z) : M Session (Z * option unit) :=
  for_each ["Menu:"; "1. Get"; "2. Put"; "3. Delete"; "4. Quit"; "Enter your choice: "] println ;;;
  choice <- scan Num (scan_int choice) ;;
  if decide (choice = 1%Z) then
    println "Enter key to get: " ;;;
    key <- scan Str scan_string ;;
    let req := {| get_Key := key |} in
    r <- send (ReqGet client req) (call_Get client req) ;;
    match r with
    | Err err => println (Error err)
    | Ok resp => println (get_Value resp)
    end ;;;
    ret (choice, None)
  else if decide (choice = 2%Z) then
    println "Enter key to put: " ;;;
    key <- scan Str scan_string ;;
    println "Enter value to put: " ;;;
    value <- scan Str scan_string ;;
    let req := {| put_Key := key; put_Value := value |} in
    r <- send (ReqPut client req) (call_Put client req) ;;
    match r with Err err => println (Error err) | Ok _ => ret tt end ;;;
    ret (choice, None)
  else if decide (choice = 3%Z) then
    println "Enter key to delete: " ;;;
    key <- scan Str scan_string ;;
    let req := {| del_Key := key |} in
    r <- send (ReqDelete client req) (call_Delete client req) ;;
    match r with Err err => println (Error err) | Ok _ => ret tt end ;;;
    ret (choice, None)
  else if decide (choice = 4%Z) then
    println "Quitting..." ;;; ret (choice, Some tt)
  else
    println "Invalid choice. Please enter a valid option." ;;; ret (choice, None).

(** [for { ... }] around the menu, for at most [fuel] rounds. *)
Fixpoint menu (fuel : nat) (client : string) (choice : Z) : M Session unit :=
  match fuel with
  | O => hang
  | S fuel' =>
      r <- menu_round client choice ;;
      match r.2 with
      | Some _ => ret tt
      | None => menu fuel' client r.1
      end
  end.

Definition client_main (fuel : nat) (kvctlConfigPath : string) (dummyData : bool)
    : M Session unit :=
  kvctlConfig <- load_config kvctlConfigPath ;;
  if dummyData then insert_dummy_data kvctlConfig
  else
    println (kg_ApiVersion kvctlConfig) ;;;
    println "Select shard to communicate: " ;;;
    for_each (zrange 0 (kc_SpecShards (kg_Spec kvctlConfig))) (fun i =>
      println (itoa i +:+ ". " +:+ shard_name (km_Name (kg_Metadata kvctlConfig)) i)) ;;;
    println "Choice: " ;;;
    choice <- scan Num (scan_int 0) ;;
    client <- connect (shard_address kvctlConfig choice) ;;
    menu fuel client choice.

(** ** What is sent *)

(** A step of the world does not show in what was entered and sent. *)
Definition same_io (s s' : Session) : Prop := s_typed s' = s_typed s /\ s_sent s' = s_sent s.

(** A loop that sends one request per element, whatever the answers are. *)
Lemma sends_each {A} (l : list A) (body : A -> M Session unit) (req : A -> request) s :
  (forall x s, exists t', body x s = (sent (req x) (on s t'), Ret tt)) ->
  exists t', for_each l body s =
    ({| s_term := t'; s_typed := s_typed s; s_sent := s_sent s ++ map req l |}, Ret tt).
Proof.
  intros Hb. revert s. induction l as [|x l IH]; intros s; simpl.
  - exists (s_term s). rewrite app_nil_r. by destruct s.
  - destruct (Hb x s) as [t1 Hx]. destruct (IH (sent (req x) (on s t1))) as [t2 Hl].
    exists t2. rewrite (bind_Ret _ _ _ _ _ Hx), Hl. simpl. by rewrite <- app_assoc.
Qed.

(** Dummy data is one hundred puts. Whatever the server answers, the client
    sends for each number below 100 one put of the number's digits with those of
    its distance from 100, in order, all to the first shard, and then ends. *)
Theorem dummy_data_puts (kvctlConfig : KvctlConfig Pod) s t1 :
  dial (shard_address kvctlConfig 0) (s_term s) = (t1, None) ->
  exists t', insert_dummy_data kvctlConfig s =
    ({| s_term := t'; s_typed := s_typed s;
        s_sent := s_sent s ++ map (fun i => ReqPut (shard_address kvctlConfig 0)
          {| put_Key := itoa i; put_Value := itoa (100 - i) |}) (zrange 0 100) |}, Ret tt).
Proof.
  intros Hd. unfold insert_dummy_data, connect.
  rewrite (bind_Ret _ _ s (on s t1) (shard_address kvctlConfig 0)).
  2:{ unfold bind, io. by rewrite Hd. }
  apply (sends_each (zrange 0 100) _ (fun i => ReqPut (shard_address kvctlConfig 0)
    {| put_Key := itoa i; put_Value := itoa (100 - i) |}) (on s t1)).
  intros i s'. unfold println, bind, io, send, ret.
  destruct (print_line _ (s_term s')) as [t2 []]. simpl.
  destruct (call_Put _ _ t2) as [t3 [resp|err]]; simpl; [by exists t3|].
  destruct (print_line _ t3) as [t4 []]. by exists t4.
Qed.

(** What the inputs of a round of the menu ask the server for. *)
Definition asked (client : string) (inputs : list input) : list request :=
  match inputs with
  | [Num 1; Str key] => [ReqGet client {| get_Key := key |}]
  | [Num 2; Str key; Str value] => [ReqPut client {| put_Key := key; put_Value := value |}]
  | [Num 3; Str key] => [ReqDelete client {| del_Key := key |}]
  | _ => []
  end%Z.

Lemma println_run line s : exists s', println line s = (s', Ret tt) /\ same_io s s'.
Proof. unfold println, io. destruct (print_line line (s_term s)) as [t' []]. by exists (on s t'). Qed.

Lemma printlns_run lines s : exists s', for_each lines println s = (s', Ret tt) /\ same_io s s'.
Proof.
  revert s. induction lines as [|l lines IH]; intros s; simpl; [by exists s|].
  destruct (println_run l s) as (s1 & Hl & Ht1 & Hs1).
  destruct (IH s1) as (s2 & Hr & Ht2 & Hs2). exists s2.
  rewrite (bind_Ret _ _ _ _ _ Hl), Hr. split; [done|]. split; congruence.
Qed.

Lemma scan_run {A} (inp : A -> input) (f : T -> T * A) s :
  exists s' a, scan inp f s = (s', Ret a) /\ s_typed s' = s_typed s ++ [inp a] /\
    s_sent s' = s_sent s.
Proof. unfold scan. destruct (f (s_term s)) as [t' a]. by eexists _, a. Qed.

(** The end of a round that sends a request and prints something of the answer. *)
Lemma exchange_run {A B} req (f : T -> T * res A) (shown : res A -> M Session unit) (b : B) s :
  (forall r s, exists s', shown r s = (s', Ret tt) /\ same_io s s') ->
  exists s', (r <- send req f ;; shown r ;;; ret b) s = (s', Ret b) /\
    s_typed s' = s_typed s /\ s_sent s' = s_sent s ++ [req].
Proof.
  intros Hs. unfold bind at 1, send. destruct (f (s_term s)) as [t1 r].
  destruct (Hs r (sent req (on s t1))) as (s' & H2 & Ht & Hr).
  exists s'. by rewrite (bind_Ret _ _ _ _ _ H2).
Qed.

(** Runs one statement that sends nothing, and the end of a round that does. *)
Ltac step_io :=
  match goal with
  | |- context [bind (println ?l) _ ?s] =>
      let s' := fresh "s" in let H := fresh "Hp" in let Ht := fresh "Ht" in let Hs := fresh "Hs" in
      destruct (println_run l s) as (s' & H & Ht & Hs); rewrite (bind_Ret _ _ _ _ _ H); clear H
  | |- context [bind (scan ?inp ?f) _ ?s] =>
      let s' := fresh "s" in let a := fresh "a" in let H := fresh "Hi" in
      let Ht := fresh "Ht" in let Hs := fresh "Hs" in
      destruct (scan_run inp f s) as (s' & a & H & Ht & Hs);
      rewrite (bind_Ret _ _ _ _ _ H); clear H
  end.
Ltac exchange :=
  match goal with
  | |- context [bind (send ?req ?f) (fun r => bind (@?shown r) (fun _ => ret ?b)) ?s] =>
      let s' := fresh "s" in let H := fresh "Hr" in let Ht := fresh "Ht" in let Hs := fresh "Hs" in
      destruct (exchange_run req f shown b s) as (s' & H & Ht & Hs)
  end.
(** Collects what was entered and sent along a run. *)
Ltac collect := repeat match goal with
  | H : s_typed _ = _ |- _ => rewrite H; clear H
  | H : s_sent _ = _ |- _ => rewrite H; clear H
  end; rewrite <- ?app_assoc; cbn [app map].

(** A round of the menu. Whatever the user enters and whatever the server
    answers, a round of the menu returns (a failed request never ends the client).
    It sends exactly the request that the inputs ask for, the number first and
    then the key and the value, to the server that was dialled, and nothing for
    a number other than 1, 2 and 3; and the client ends exactly when the number
    is 4. *)
Theorem menu_round_sends client choice s :
  exists s' c texts fin, menu_round client choice s = (s', Ret (c, fin)) /\
    s_typed s' = s_typed s ++ Num c :: map Str texts /\
    s_sent s' = s_sent s ++ asked client (Num c :: map Str texts) /\
    (s_sent s' = s_sent s -> c <> 1 /\ c <> 2 /\ c <> 3)%Z /\
    (fin = Some tt <-> c = 4%Z).
Proof.
  unfold menu_round.
  destruct (printlns_run ["Menu:"; "1. Get"; "2. Put"; "3. Delete"; "4. Quit";
    "Enter your choice: "] s) as (s0 & H0 & Ht0 & Hs0).
  rewrite (bind_Ret _ _ _ _ _ H0). step_io.
  assert (skips : forall A (r : res A) s, exists s',
    match r with Err err => println (Error err) | Ok _ => ret tt end s = (s', Ret tt) /\ same_io s s')
    by (intros A [x|err] s'; [by exists s' | apply println_run]).
  assert (Hne : forall (l : list request) r, l ++ [r] = l -> False)
    by (intros l r Hl%(f_equal length); rewrite length_app in Hl; simpl in Hl; lia).
  repeat case_decide; subst; repeat step_io.
  - exchange; [intros [x|err] s'; apply println_run|].
    eexists _, 1%Z, [_], None. split; [eassumption|]. collect.
    do 2 (split; [reflexivity|]). split; [by intros ?%Hne|done].
  - exchange; [apply skips|].
    eexists _, 2%Z, [_; _], None. split; [eassumption|]. collect.
    do 2 (split; [reflexivity|]). split; [by intros ?%Hne|done].
  - exchange; [apply skips|].
    eexists _, 3%Z, [_], None. split; [eassumption|]. collect.
    do 2 (split; [reflexivity|]). split; [by intros ?%Hne|done].
  - eexists _, 4%Z, [], (Some tt). split; [reflexivity|]. collect. by rewrite app_nil_r.
  - eexists _, a, [], None. split; [reflexivity|]. collect.
    assert (Ha : asked client [Num a] = []) by (destruct a as [|[[]|[]|]|]; done).
    rewrite Ha, app_nil_r. done.
Qed.

(** The client speaks to the address that the controller opens. For the same
    name and domain, the address that the client dials for shard [i] is the host of
    the ingress rule that the controller creates for shard [i], at port 80; and the
    service behind it listens at the port that the ingress forwards to. *)
Theorem client_address_is_ingress_host `{!KubeTypes} (kvctlConfig : KvctlConfig Pod)
    (kv : Kube.KVStore) i :
  km_Name (kg_Metadata kvctlConfig) = ks_name kv ->
  kc_IngressDomain (kg_Spec kvctlConfig) = spec_IngressDomain (ks_Spec kv) ->
  exists host path, ing_Rules (build_ingress kv i) = [(host, [path])] /\
    shard_address kvctlConfig i = host +:+ ":80" /\
    ip_Service path = om_Name (svc_meta (build_service kv i)) /\
    ip_Port path ∈ map sp_Port (svc_Ports (build_service kv i)).
Proof.
  intros Hn Hd. eexists _, _. split; [reflexivity|]. split; [|split; [done|left]].
  unfold shard_address. rewrite Hn, Hd. by rewrite !string_app_assoc.
Qed.

End client.

(** ** A concrete terminal *)

(** Input is a list of lines; every put is answered and every other request is
    refused. *)
#[export] Instance sim_terminal : Terminal unit (list string) := {|
  read_file path t := (t, Err (LibErr "no such file"));
  unmarshal_config buf := Err (LibErr "not yaml");
  scan_int v t := match t with
                  | "1" :: t' => (t', 1%Z)
                  | "2" :: t' => (t', 2%Z)
                  | "3" :: t' => (t', 3%Z)
                  | "4" :: t' => (t', 4%Z)
                  | _ :: t' => (t', v)
                  | [] => ([], v)
                  end;
  scan_string t := match t with [] => (t, "") | x :: t' => (t', x) end;
  print_line line t := (t, tt);
  dial address t := (t, None);
  call_Get target i t := (t, Err (LibErr "unavailable"));
  call_Put target i t := (t, Ok mkPutResponse);
  call_Delete target i t := (t, Err (LibErr "unavailable"))
|}.

Definition sim_config : KvctlConfig unit :=
  {| kg_ApiVersion := "kvctl.captainirs.dev/v1"; kg_Kind := "KVStore";
     kg_Metadata := {| km_Name := "kv"; km_Namespace := "default"; km_Labels := ∅ |};
     kg_Spec := {| kc_SpecShards := 2; kc_SpecReplicas := 3;
                   kc_IngressDomain := "kv.local"; kc_PodSpec := tt |} |}.

Lemma dummy_data_puts_witness :
  exists t', insert_dummy_data sim_config {| s_term := []; s_typed := []; s_sent := [] |} =
    ({| s_term := t'; s_typed := [];
        s_sent := map (fun i => ReqPut "kv-shard-0.kv.local:80"
          {| put_Key := itoa i; put_Value := itoa (100 - i) |}) (zrange 0 100) |}, Ret tt).
Proof.
  exact (dummy_data_puts sim_config {| s_term := []; s_typed := []; s_sent := [] |} [] eq_refl).
Defined.

(** A session that puts, gets and quits. *)
Example put_get_quit :
  (menu 3 "kv-shard-0.kv.local:80" 0
     {| s_term := ["2"; "a"; "x"; "1"; "a"; "4"]; s_typed := []; s_sent := [] |}) =
  ({| s_term := []; s_typed := [Num 2; Str "a"; Str "x"; Num 1; Str "a"; Num 4];
      s_sent := [ReqPut "kv-shard-0.kv.local:80" {| put_Key := "a"; put_Value := "x" |};
                 ReqGet "kv-shard-0.kv.local:80" {| get_Key := "a" |}] |}, Ret tt).
Proof. reflexivity. Qed.

Definition sim_resource : Kube.KVStore :=
  {| ks_meta := {| om_Name := "kv"; om_Namespace := "default"; om_Labels := ∅;
                   om_Annotations := ∅; om_Controller := None; om_ResourceVersion := "1" |};
     ks_Spec := {| spec_Shards := 2; spec_Replicas := 3; spec_IngressDomain := "kv.local";
                   spec_PodSpec := tt |};
     ks_Status := zero_status |}.

Lemma client_address_is_ingress_host_witness :
  exists host path, ing_Rules (build_ingress sim_resource 1) = [(host, [path])] /\
    shard_address sim_config 1 = host +:+ ":80" /\
    ip_Service path = om_Name (svc_meta (build_service sim_resource 1)) /\
    ip_Port path ∈ map sp_Port (svc_Ports (build_service sim_resource 1)).
Proof. exact (client_address_is_ingress_host sim_config sim_resource 1 eq_refl eq_refl). Defined.
