(* ===== verification/ClientLive.v ===== *)
(** * Clients and shards together

    What the clients of a cluster that keeps working see: a map. The processes that a
    client may ask, the rings by which they find the shard of a key and the leaders that store
    it do not show in the answers. The command line client runs against such a cluster. *)

From S2P Require Import Prelude Protos RaftCommon KVStore KVStoreSpec Shard ShardWorld.
From S2P Require Import Redistribution Pending Stable Completion Serving.
From S2P Require Import Client Sim SimNet ShardProps.

(** ** The map that clients see *)

(** A request of a client, and what it is told: the value for a [Get]. *)
Inductive kv_op := OpGet (k : string) | OpPut (k v : string) | OpDelete (k : string).
Definition reply : Type := res (option string).

Definition op_key (op : kv_op) : string :=
  match op with OpGet k | OpPut k _ | OpDelete k => k end.

Definition map_op (op : kv_op) (m : gmap string string) : gmap string string * reply :=
  match op with
  | OpGet k =>
      (m, match m !! k with
          | Some v => Ok (Some v)
          | None => Err (StatusErr "Unknown" "Key not found")
          end)
  | OpPut k v => (<[k := v]> m, Ok None)
  | OpDelete k => (delete k m, Ok None)
  end.

Fixpoint map_ops (ops : list kv_op) (m : gmap string string) : gmap string string * list reply :=
  match ops with
  | [] => (m, [])
  | op :: ops =>
      let (m1, r) := map_op op m in
      let (m2, rs) := map_ops ops m1 in (m2, r :: rs)
  end.

Definition op_encodable `{!Proto} (op : kv_op) : Prop :=
  match op with
  | OpGet _ => True
  | OpPut k v => encodable (set_entry k v)
  | OpDelete k => encodable (delete_entry k)
  end.

Section clients.
Context `{!Proto, !ConsistentHash} {E : Type} `{!Raft E, !RaftSetup E, !Net E, !OS E}.
Context `{!Topology E, !ProtoLaws, !StableCluster E}.
Implicit Types (w : World E) (self n k v : string) (m : gmap string string).

Definition told {A} (f : A -> option string) (r : res A) : reply :=
  match r with Ok a => Ok (f a) | Err e => Err e end.

(** A request that process [self] handles. *)
Definition serve (self : string) (op : kv_op) : M (World E) reply :=
  match op with
  | OpGet k => r <- kvServer_Get self {| get_Key := k |} ;; ret (told (Some ∘ get_Value) r)
  | OpPut k v =>
      r <- kvServer_Put self {| put_Key := k; put_Value := v |} ;; ret (told (fun _ => None) r)
  | OpDelete k => r <- kvServer_Delete self {| del_Key := k |} ;; ret (told (fun _ => None) r)
  end.

(** Requests that arrive at several processes, one after the other. *)
Fixpoint serve_all (ops : list (string * kv_op)) : M (World E) (list reply) :=
  match ops with
  | [] => ret []
  | (self, op) :: ops => r <- serve self op ;; rs <- serve_all ops ;; ret (r :: rs)
  end.

(** [owner k] is the leader of the shard of key [k]. *)
Context (owner : string -> string).

(** What clients see of the processes is [m]. *)
Definition represents w m : Prop :=
  forall k s, holds w (owner k) s -> sp_map s !! k = m !! k.

(** The request is sent on to the leader of the key's shard. *)
Definition well_routed w (x : string * kv_op) : Prop :=
  routes w x.1 (op_key x.2) (owner (op_key x.2)) /\
  leading w (owner (op_key x.2)) = true /\ op_encodable x.2.

Lemma well_routed_framed w w' x : framed eq w w' -> well_routed w x -> well_routed w' x.
Proof.
  intros Hf (Hr & Hl & He). split; [by eapply routes_framed|]. split; [|done].
  by rewrite (framed_leading _ _ _ Hf).
Qed.

(** The store of a process after a write, by the one before. *)
Lemma wrote_holds_back w w' n0 f n s' :
  healthy w -> wrote n0 f w w' -> holds w' n s' ->
  exists s, holds w n s /\ s' = if decide (n = n0) then f s else s.
Proof.
  intros Hh Hw (p' & Hp' & Hs').
  destruct (framed_back_proc _ _ _ (wrote_framed _ _ _ _ Hw) _ _ Hp') as (p & Hp & _).
  destruct (proj1 Hh n p Hp) as (_ & (s & Hs) & _). exists s. split; [by exists p|].
  destruct (wrote_holds _ _ _ _ Hw n s) as (p1 & Hp1 & Hs1); [by exists p|].
  assert (p1 = p') as -> by congruence. exact (node_ok_fun _ _ _ Hs' Hs1).
Qed.

(** Changing one key at its owner changes the map at this key. *)
Lemma wrote_represents w w' k f m o :
  healthy w -> wrote (owner k) f w w' -> represents w m ->
  (forall s, sp_map (f s) = partial_alter (fun _ => o) k (sp_map s)) ->
  represents w' (partial_alter (fun _ => o) k m).
Proof.
  intros Hh Hw Hr Hf k' s' Hs'.
  destruct (wrote_holds_back _ _ _ _ _ _ Hh Hw Hs') as (s & Hs & ->).
  specialize (Hr k' s Hs). destruct (decide (k' = k)) as [->|Hne].
  - by rewrite decide_True, Hf, !lookup_partial_alter_eq.
  - rewrite lookup_partial_alter_ne by done. case_decide; [|done].
    by rewrite Hf, lookup_partial_alter_ne.
Qed.

(** One request. *)
Lemma serve_refines w m x :
  healthy w -> represents w m -> well_routed w x ->
  exists w', serve x.1 x.2 w = (w', Ret (map_op x.2 m).2) /\
    healthy w' /\ framed eq w w' /\ represents w' (map_op x.2 m).1.
Proof.
  intros Hh Hr (Hroute & Hlead & Henc). destruct x as [self op]. simpl in *.
  destruct op as [k|k v|k]; simpl in *.
  - destruct (leading_proc _ _ Hlead) as [p Hp].
    destruct (proj1 Hh _ p Hp) as (_ & (s & Hs) & _).
    assert (Hhold : holds w (owner k) s) by (by exists p).
    destruct (kvServer_Get_run self (owner k) k w s Hh Hroute Hhold) as (w' & Hrun & Hps & He').
    exists w'. rewrite (bind_Ret _ _ _ _ _ Hrun). unfold get_answer.
    rewrite (Hr k s Hhold). split; [by destruct (m !! k)|].
    destruct (Hh) as (Hinv & _ & Hc). unfold healthy, world_inv, represents, holds, framed.
    rewrite Hps. split_and!; try done. intros n. destruct (w_procs w !! n); [reflexivity|done].
  - destruct (kvServer_Put_run self (owner k) k v w Henc Hh Hroute Hlead) as (w' & Hrun & Hw).
    exists w'. rewrite (bind_Ret _ _ _ _ _ Hrun). split; [done|].
    split; [by eapply wrote_healthy|]. split; [by eapply wrote_framed|].
    by apply (wrote_represents w w' k _ m (Some v) Hh Hw Hr).
  - destruct (kvServer_Delete_run self (owner k) k w Henc Hh Hroute Hlead) as (w' & Hrun & Hw).
    exists w'. rewrite (bind_Ret _ _ _ _ _ Hrun). split; [done|].
    split; [by eapply wrote_healthy|]. split; [by eapply wrote_framed|].
    by apply (wrote_represents w w' k _ m None Hh Hw Hr).
Qed.

(** C7: the key-value store is a map to its clients. In a cluster that keeps working, let
    every request arrive at a process that sends it on to the leader of the key's shard.
    Whatever the requests, in whatever order and at whichever processes they arrive, each of
    them is answered, and the answers are those of a map that holds what the leaders
    store: a [Get] yields the value of the last [Put] of the key, or that the key is not
    found when it was deleted or never put. The leaders store the map that results. *)
Theorem serving_refines_map ops w m :
  healthy w -> represents w m -> Forall (well_routed w) ops ->
  exists w', serve_all ops w = (w', Ret (map_ops ops.*2 m).2) /\
    healthy w' /\ framed eq w w' /\ represents w' (map_ops ops.*2 m).1.
Proof.
  revert w m. induction ops as [|x ops IH]; intros w m Hh Hr Hops.
  { by exists w. }
  apply Forall_cons in Hops as [Hx Hops].
  destruct (serve_refines w m x Hh Hr Hx) as (w1 & Hrun & Hh1 & Hf1 & Hr1).
  destruct (IH w1 (map_op x.2 m).1 Hh1 Hr1) as (w' & Hrun' & Hh' & Hf' & Hr').
  { eapply Forall_impl; [exact Hops|]. intros y. by apply well_routed_framed. }
  exists w'. destruct x as [self op]. rewrite fmap_cons. cbn [fst snd map_ops serve_all] in *.
  rewrite (bind_Ret _ _ _ _ _ Hrun), (bind_Ret _ _ _ _ _ Hrun'). clear Hrun Hrun' IH.
  destruct (map_op op m) as [m1 r]. cbn [fst snd] in *.
  destruct (map_ops ops.*2 m1) as [m2 rs]. cbn [fst snd] in *.
  split; [done|]. split; [done|]. split; [by etrans|done].
Qed.

(** ** The command line client at such a cluster *)

Context {Pod U : Type} `{!Terminal Pod U}.

(** The files and the terminal of the user, and the processes. *)
Record Desk := { d_user : U; d_world : World E }.

Definition at_user {A} (f : U -> U * A) (d : Desk) : Desk * A :=
  let (u, a) := f (d_user d) in ({| d_user := u; d_world := d_world d |}, a).

(** What the client gets: the answer, or that it gave up when none came. *)
Definition got {A} (o : outcome (res A)) : res A :=
  match o with Ret r => r | _ => Err (StatusErr "Canceled" "context canceled") end.

Definition at_server {A} (target : string) (handler : string -> M (World E) (res A)) (d : Desk)
    : Desk * res A :=
  let (w', o) := rpc target handler (d_world d) in
  ({| d_user := d_user d; d_world := w' |}, got o).

#[local] Instance desk_terminal : Terminal Pod Desk := {|
  read_file path := at_user (read_file path);
  unmarshal_config := unmarshal_config (T := U);
  scan_int x := at_user (scan_int x);
  scan_string := at_user scan_string;
  print_line line := at_user (print_line line);
  dial t d :=
    let (e', a) := grpc_Dial t (w_env (d_world d)) in
    ({| d_user := d_user d;
        d_world := {| w_procs := w_procs (d_world d); w_env := e'; w_go := w_go (d_world d) |} |}, a);
  call_Get t i := at_server t (fun node => kvServer_Get node i);
  call_Put t i := at_server t (fun node => kvServer_Put node i);
  call_Delete t i := at_server t (fun node => kvServer_Delete node i)
|}.

Implicit Types s : Session (T := Desk).
Abbreviation world s := (d_world (s_term s)).

Lemma println_world line s : exists s', println line s = (s', Ret tt) /\ world s' = world s.
Proof.
  unfold println, io. simpl. unfold at_user.
  destruct (print_line line (d_user (s_term s))) as [u []]. by eexists.
Qed.

(** A put of the client. *)
Lemma send_Put_world client self k v m s :
  healthy (world s) -> represents (world s) m -> entry_node client = Some self ->
  well_routed (world s) (self, OpPut k v) ->
  let req := {| put_Key := k; put_Value := v |} in
  exists s', send (ReqPut client req) (call_Put client req) s = (s', Ret (Ok mkPutResponse)) /\
    healthy (world s') /\ framed eq (world s) (world s') /\ represents (world s') (<[k := v]> m).
Proof.
  intros Hh Hr Hent (Hroute & Hlead & Henc) req. cbn [fst snd op_key op_encodable] in *.
  assert (Hself : exists p, w_procs (world s) !! self = Some p)
    by (destruct Hroute as (p & ? & ? & Hp & _); by exists p).
  destruct Hself as [p Hp].
  destruct (rpc_stable client self (fun node => kvServer_Put node req) (world s) p mkPutResponse
    (wrote (owner k) (spec_set k v) (world s))) as (w' & Hrun & Hw); [done..| |].
  { intros e' He'. apply (kvServer_Put_run self (owner k) k v
      {| w_procs := w_procs (world s); w_env := e'; w_go := w_go (world s) |});
      [done|by apply with_env_procs|done|done]. }
  eexists. split.
  { unfold send. simpl. unfold at_server. by rewrite Hrun. }
  simpl. split; [by eapply wrote_healthy|]. split; [by eapply wrote_framed|].
  by apply (wrote_represents (world s) w' k _ m (Some v) Hh Hw Hr).
Qed.

Definition dummy_entries (l : list Z) (m : gmap string string) : gmap string string :=
  foldl (fun m i => <[itoa i := itoa (100 - i)]> m) m l.

Lemma dummy_entries_lookup l m i :
  NoDup l -> i ∈ l -> dummy_entries l m !! itoa i = Some (itoa (100 - i)).
Proof.
  assert (Hout : forall l m i, i ∉ l -> dummy_entries l m !! itoa i = m !! itoa i).
  { clear. intros l. induction l as [|j l IH]; intros m i Hi; [done|].
    apply not_elem_of_cons in Hi as [Hne Hi]. simpl.
    fold (dummy_entries l (<[itoa j := itoa (100 - j)]> m)).
    rewrite IH by done. apply lookup_insert_ne. by intros ->%itoa_inj. }
  intros Hnd. revert m. induction Hnd as [|j l Hj Hnd IH]; intros m Hi; [by apply elem_of_nil in Hi|].
  simpl. fold (dummy_entries l (<[itoa j := itoa (100 - j)]> m)).
  apply elem_of_cons in Hi as [->|Hi]; [|by apply IH].
  rewrite Hout by done. apply lookup_insert_eq.
Qed.

(** The loop over the numbers of [l]. *)
Lemma dummy_loop client self l m s :
  healthy (world s) -> represents (world s) m -> entry_node client = Some self ->
  (forall i, i ∈ l -> well_routed (world s) (self, OpPut (itoa i) (itoa (100 - i)))) ->
  exists s', for_each l (fun i =>
      println ("Setting key " +:+ itoa i) ;;;
      let req := {| put_Key := itoa i; put_Value := itoa (100 - i) |} in
      r <- send (ReqPut client req) (call_Put client req) ;;
      match r with Err err => println (Error err) | Ok _ => ret tt end) s = (s', Ret tt) /\
    healthy (world s') /\ framed eq (world s) (world s') /\
    represents (world s') (dummy_entries l m).
Proof.
  revert m s. induction l as [|i l IH]; intros m s Hh Hr Hent Hl; simpl.
  { by exists s. }
  destruct (println_world ("Setting key " +:+ itoa i) s) as (s1 & Hp & Hw1).
  rewrite <- Hw1 in Hh, Hr.
  destruct (send_Put_world client self (itoa i) (itoa (100 - i)) m s1 Hh Hr Hent)
    as (s2 & Hsend & Hh2 & Hf2 & Hr2); [rewrite Hw1; apply Hl; by left|].
  destruct (IH (<[itoa i := itoa (100 - i)]> m) s2 Hh2 Hr2 Hent) as (s' & Hrun & Hh' & Hf' & Hr').
  { intros j Hj. eapply well_routed_framed; [exact Hf2|]. rewrite Hw1. apply Hl. by right. }
  exists s'. split_and!; [|done|rewrite <- Hw1; by etrans|exact Hr'].
  erewrite bind_Ret; [exact Hrun|]. rewrite (bind_Ret _ _ _ _ _ Hp).
  by rewrite (bind_Ret _ _ _ _ _ Hsend).
Qed.

(** C17: dummy data can be read back. When the configuration file can be read and the
    first shard's address leads to a process of a cluster that keeps working, which sends
    the puts on to leaders, the client started with the flag dummyData ends normally; then
    for every number below 100 a [Get] of its digits, at any process that sends it
    on to the same leader, yields those of its distance from 100, and everything
    else that clients see is as before. *)
Theorem dummy_data_readable fuel path buf u kvctlConfig self m s :
  healthy (world s) -> represents (world s) m ->
  read_file path (d_user (s_term s)) = (u, Ok buf) ->
  unmarshal_config (T := U) buf = Ok kvctlConfig ->
  entry_node (shard_address kvctlConfig 0) = Some self ->
  (forall i, (0 <= i < 100)%Z ->
     well_routed (world s) (self, OpPut (itoa i) (itoa (100 - i)))) ->
  exists s', client_main fuel path true s = (s', Ret tt) /\
    healthy (world s') /\ represents (world s') (dummy_entries (zrange 0 100) m) /\
    forall i reader, (0 <= i < 100)%Z -> routes (world s) reader (itoa i) (owner (itoa i)) ->
      exists w', kvServer_Get reader {| get_Key := itoa i |} (world s') =
        (w', Ret (Ok {| get_Value := itoa (100 - i) |})).
Proof.
  intros Hh Hr Hread Hcfg Hent Hall.
  destruct (stable_Dial (shard_address kvctlConfig 0) (w_env (world s)) (proj1 (proj2 Hh)))
    as (e' & Hdial & He').
  set (s1 := on (on s {| d_user := u; d_world := world s |}) {| d_user := u;
    d_world := {| w_procs := w_procs (world s); w_env := e'; w_go := w_go (world s) |} |}).
  destruct (dummy_loop (shard_address kvctlConfig 0) self (zrange 0 100) m s1)
    as (s' & Hrun & Hh' & Hf' & Hr'); [by apply with_env_procs|done|done| |].
  { intros i Hi%elem_of_zrange. by apply Hall. }
  exists s'. split_and!; [|done|done|].
  - unfold client_main, load_config, insert_dummy_data, connect, bind at 1 2, io at 1. simpl.
    unfold at_user. rewrite Hread, Hcfg. simpl. unfold bind at 1 2, io at 1. simpl.
    rewrite Hdial. exact Hrun.
  - intros i reader Hi Hroute. destruct (Hall i Hi) as (_ & Hlead & _).
    destruct (leading_proc (world s') (owner (itoa i))) as [p Hp].
    { rewrite (framed_leading _ _ _ Hf'). exact Hlead. }
    destruct (proj1 Hh' _ p Hp) as (_ & (t & Ht) & _).
    assert (Hhold : holds (world s') (owner (itoa i)) t) by (by exists p).
    destruct (kvServer_Get_run reader (owner (itoa i)) (itoa i) (world s') t Hh')
      as (w' & Hget & _); [by eapply routes_framed; [exact Hf'|]|done|].
    exists w'. rewrite Hget. unfold get_answer. rewrite (Hr' _ t Hhold).
    rewrite dummy_entries_lookup; [done|apply NoDup_zrange|by apply elem_of_zrange].
Qed.

End clients.

(** ** Both at the concrete deployment *)

Definition ex_owner (k : string) : string := "n0".

Lemma ex_represents : represents ex_owner ex_world ex_entries.
Proof.
  intros k s (p & Hp & Hs). injection Hp as <-. by rewrite (node_ok_fun _ _ _ Hs (sim_mem_ok _ _)).
Qed.

Lemma ex_well_routed self op : self = "n0" \/ self = "n1" -> well_routed ex_owner ex_world (self, op).
Proof. intros Hs. split; [by apply ex_routes|]. split; [done|]. by destruct op. Qed.

Lemma serving_refines_map_witness :
  exists w', serve_all [("n1", OpPut "c" "3"); ("n0", OpGet "c"); ("n1", OpDelete "a");
      ("n0", OpGet "a")] ex_world =
    (w', Ret [Ok None; Ok (Some "3"); Ok None; Err (StatusErr "Unknown" "Key not found")]).
Proof.
  destruct (serving_refines_map ex_owner [("n1", OpPut "c" "3"); ("n0", OpGet "c");
    ("n1", OpDelete "a"); ("n0", OpGet "a")] ex_world ex_entries) as (w' & Hrun & _).
  - apply sim_world_healthy.
  - apply ex_represents.
  - repeat constructor; apply ex_well_routed; auto.
  - exists w'. exact Hrun.
Defined.

Definition ex_manifest : KvctlConfig unit :=
  {| kg_ApiVersion := "kvctl.captainirs.dev/v1"; kg_Kind := "KVStore";
     kg_Metadata := {| km_Name := "kvs"; km_Namespace := "default"; km_Labels := ∅ |};
     kg_Spec := {| kc_SpecShards := 2; kc_SpecReplicas := 1;
                   kc_IngressDomain := "default"; kc_PodSpec := tt |} |}.

(** A user with a configuration file, who enters nothing. *)
#[local] Instance sim_user : Terminal unit unit := {|
  read_file path u := (u, Ok "manifest");
  unmarshal_config buf := Ok ex_manifest;
  scan_int x u := (u, x);
  scan_string u := (u, "");
  print_line line u := (u, tt);
  dial address u := (u, None);
  call_Get target i u := (u, Err (LibErr "unavailable"));
  call_Put target i u := (u, Err (LibErr "unavailable"));
  call_Delete target i u := (u, Err (LibErr "unavailable"))
|}.

Definition ex_session : Session (T := Desk (U := unit)) :=
  {| s_term := {| d_user := tt; d_world := ex_world |}; s_typed := []; s_sent := [] |}.

Lemma dummy_data_readable_witness :
  exists s' w', client_main (Terminal0 := desk_terminal) 0 "kvs.yaml" true ex_session = (s', Ret tt) /\
    kvServer_Get "n1" {| get_Key := "42" |} (d_world (s_term s')) =
      (w', Ret (Ok {| get_Value := "58" |})).
Proof.
  destruct (dummy_data_readable ex_owner 0 "kvs.yaml" "manifest" tt ex_manifest "n0"
    ex_entries ex_session)
    as (s' & Hrun & _ & _ & Hget).
  - apply sim_world_healthy.
  - apply ex_represents.
  - reflexivity.
  - reflexivity.
  - reflexivity.
  - intros i Hi. apply ex_well_routed. by left.
  - destruct (Hget 42%Z "n1") as (w' & Hg); [lia|apply ex_routes; by right|].
    exists s', w'. split; [exact Hrun|exact Hg].
Defined.
