(* ===== verification/Manager.v ===== *)
(** * The controller's process: src/kvctl/cmd/main.go

    The command line, the TLS options of the two servers, and the start of the
    manager as a sequence of calls of the controller runtime, each of which may
    fail and end the process. The state is the controller's, together with the
    calls that have been made, in order, with what they returned. *)

From S2P Require Import Prelude Protos RaftCommon KVStore Shard Kube Controller Webhook SimKube.

(** ** The command line *)

Record Flags := {
  metricsAddr : string;
  metricsCertPath : string; metricsCertName : string; metricsCertKey : string;
  webhookCertPath : string; webhookCertName : string; webhookCertKey : string;
  enableLeaderElection : bool;
  probeAddr : string;
  secureMetrics : bool;
  enableHTTP2 : bool
}.

(** The values of flags that are not given. *)
Definition default_flags : Flags :=
  {| metricsAddr := "0";
     metricsCertPath := ""; metricsCertName := "tls.crt"; metricsCertKey := "tls.key";
     webhookCertPath := ""; webhookCertName := "tls.crt"; webhookCertKey := "tls.key";
     enableLeaderElection := false; probeAddr := ":8081"; secureMetrics := true;
     enableHTTP2 := false |}.

(** ** TLS *)

(** A certificate watcher is known by its two files. *)
Record CertWatcher := { cw_cert : string; cw_key : string }.

(** The fields of [tls.Config] that the options set. *)
Record tls_Config := {
  NextProtos : list string;
  GetCertificate : option CertWatcher
}.

(** The functions that are put into [tlsOpts]. *)
Inductive tls_opt := DisableHTTP2 | WatchCertificate (w : CertWatcher).

Definition apply_opt (c : tls_Config) (o : tls_opt) : tls_Config :=
  match o with
  | DisableHTTP2 => {| NextProtos := ["http/1.1"]; GetCertificate := GetCertificate c |}
  | WatchCertificate w => {| NextProtos := NextProtos c; GetCertificate := Some w |}
  end.

(** A server applies its options in order, to a configuration of its own. *)
Definition tls_of (base : tls_Config) (opts : list tls_opt) : tls_Config :=
  foldl apply_opt base opts.

Record MetricsOptions := {
  mo_BindAddress : string;
  mo_SecureServing : bool;
  mo_TLSOpts : list tls_opt;
  mo_Filtered : bool
}.

Record ManagerOptions := {
  mg_Metrics : MetricsOptions;
  mg_WebhookTLSOpts : list tls_opt;
  mg_HealthProbeBindAddress : string;
  mg_LeaderElection : bool;
  mg_LeaderElectionID : string
}.

(** ** The calls *)

Inductive boot_step :=
| NewCertWatcher (w : CertWatcher)
| NewManager (o : ManagerOptions)
| SetupController
| SetupWebhook (b : WebhookBuilder)
| AddWatcher (w : CertWatcher)
| AddHealthzCheck
| AddReadyzCheck
| StartManager.

(** The controller runtime. [NewManager] stands for reading the cluster's configuration,
    the webhook server and the manager itself, and [SetupWebhook] for completing the builder
    of a webhook. [boot_call] is the answer of each call but [SetupController], which is code
    of the controller. *)
Class Runtime (K : Type) := { boot_call : boot_step -> K -> K * gerror }.

Section manager.
Context `{!KubeTypes} {K : Type} `{!Kube K} `{!Runtime K}.

Record Boot := { b_ctl : Ctl K; b_steps : list (boot_step * gerror) }.

(** The answer to a step. *)
Definition perform (st : boot_step) : M Boot gerror := fun b =>
  match st with
  | SetupController =>
      match SetupWithManager (b_ctl b) with
      | (c, Ret e) => ({| b_ctl := c; b_steps := b_steps b ++ [(st, e)] |}, Ret e)
      | (c, o) => ({| b_ctl := c; b_steps := b_steps b |}, o)
      end
  | _ =>
      let (k, e) := boot_call st (c_env (b_ctl b)) in
      ({| b_ctl := {| c_env := k; c_log := c_log (b_ctl b) |};
          b_steps := b_steps b ++ [(st, e)] |}, Ret e)
  end.

(** [if err := ...; err != nil { setupLog.Error(err, what); os.Exit(1) }] *)
Definition must (st : boot_step) (what : string) : M Boot unit :=
  err <- perform st ;;
  match err with
  | Some err => crash (what +:+ ": " +:+ Error err)
  | None => ret tt
  end.

(** The certificate watcher of one of the servers, when a directory is given. *)
Definition watcher_for (certPath certName certKey what : string)
    : M Boot (option CertWatcher) :=
  if decide (certPath = "") then ret None
  else
    let w := {| cw_cert := path_Join certPath certName; cw_key := path_Join certPath certKey |} in
    must (NewCertWatcher w) what ;;;
    ret (Some w).

Definition watch_opts (w : option CertWatcher) : list tls_opt :=
  match w with Some w => [WatchCertificate w] | None => [] end.

Definition add_watcher (w : option CertWatcher) (what : string) : M Boot unit :=
  match w with Some w => must (AddWatcher w) what | None => ret tt end.

(** [webhookv1.SetupKVStoreWebhookWithManager(mgr)], the one call that it makes. *)
Definition webhook_step : boot_step :=
  (SetupKVStoreWebhookWithManager (fun b _ => (SetupWebhook b, None)) StartManager).1.

(** The manager, with the watchers of the certificates of the metrics and of the webhooks. *)
Definition new_manager (f : Flags) : M Boot (option CertWatcher * option CertWatcher) :=
  let tlsOpts := if enableHTTP2 f then [] else [DisableHTTP2] in
  webhookCertWatcher <- watcher_for (webhookCertPath f) (webhookCertName f) (webhookCertKey f)
    "Failed to initialize webhook certificate watcher" ;;
  let webhookTLSOpts := tlsOpts ++ watch_opts webhookCertWatcher in
  metricsCertWatcher <- watcher_for (metricsCertPath f) (metricsCertName f) (metricsCertKey f)
    "to initialize metrics certificate watcher" ;;
  let metricsServerOptions :=
    {| mo_BindAddress := metricsAddr f; mo_SecureServing := secureMetrics f;
       mo_TLSOpts := tlsOpts ++ watch_opts metricsCertWatcher;
       mo_Filtered := secureMetrics f |} in
  must (NewManager
    {| mg_Metrics := metricsServerOptions; mg_WebhookTLSOpts := webhookTLSOpts;
       mg_HealthProbeBindAddress := probeAddr f; mg_LeaderElection := enableLeaderElection f;
       mg_LeaderElectionID := "093d25fb.captainirs.dev" |}) "unable to start manager" ;;;
  ret (metricsCertWatcher, webhookCertWatcher).

(** What is registered with the manager, and its start. [ENABLE_WEBHOOKS] is the value of
    the environment variable, empty when it is not set. *)
Definition run_manager (ENABLE_WEBHOOKS : string)
    (metricsCertWatcher webhookCertWatcher : option CertWatcher) : M Boot unit :=
  must SetupController "unable to create controller" ;;;
  (if decide (ENABLE_WEBHOOKS <> "false") then must webhook_step "unable to create webhook"
   else ret tt) ;;;
  add_watcher metricsCertWatcher "unable to add metrics certificate watcher to manager" ;;;
  add_watcher webhookCertWatcher "unable to add webhook certificate watcher to manager" ;;;
  must AddHealthzCheck "unable to set up health check" ;;;
  must AddReadyzCheck "unable to set up ready check" ;;;
  must StartManager "problem running manager".

Definition manager_main (f : Flags) (ENABLE_WEBHOOKS : string) : M Boot unit :=
  watchers <- new_manager f ;;
  run_manager ENABLE_WEBHOOKS watchers.1 watchers.2.

(** ** The plan of a start *)

Definition watcher_of (certPath certName certKey : string) : option CertWatcher :=
  if decide (certPath = "") then None
  else Some {| cw_cert := path_Join certPath certName; cw_key := path_Join certPath certKey |}.

Definition webhook_watcher (f : Flags) : option CertWatcher :=
  watcher_of (webhookCertPath f) (webhookCertName f) (webhookCertKey f).
Definition metrics_watcher (f : Flags) : option CertWatcher :=
  watcher_of (metricsCertPath f) (metricsCertName f) (metricsCertKey f).

Definition options_of (f : Flags) : ManagerOptions :=
  let tlsOpts := if enableHTTP2 f then [] else [DisableHTTP2] in
  {| mg_Metrics :=
       {| mo_BindAddress := metricsAddr f; mo_SecureServing := secureMetrics f;
          mo_TLSOpts := tlsOpts ++ watch_opts (metrics_watcher f);
          mo_Filtered := secureMetrics f |};
     mg_WebhookTLSOpts := tlsOpts ++ watch_opts (webhook_watcher f);
     mg_HealthProbeBindAddress := probeAddr f; mg_LeaderElection := enableLeaderElection f;
     mg_LeaderElectionID := "093d25fb.captainirs.dev" |}.

Definition plan_new (f : Flags) : list boot_step :=
  map NewCertWatcher (option_list (webhook_watcher f)) ++
  map NewCertWatcher (option_list (metrics_watcher f)) ++ [NewManager (options_of f)].

Definition plan_setup (f : Flags) (ENABLE_WEBHOOKS : string) : list boot_step :=
  plan_new f ++ [SetupController] ++
  (if decide (ENABLE_WEBHOOKS = "false") then []
   else [SetupWebhook {| wb_For := Some "KVStore";
                         wb_Validator := Some mkKVStoreCustomValidator |}]) ++
  map AddWatcher (option_list (metrics_watcher f)) ++
  map AddWatcher (option_list (webhook_watcher f)) ++
  [AddHealthzCheck; AddReadyzCheck].

Definition plan (f : Flags) (ENABLE_WEBHOOKS : string) : list boot_step :=
  plan_setup f ENABLE_WEBHOOKS ++ [StartManager].

(** ** Following a plan *)

(** A call that succeeded. *)
Definition succeeded (x : boot_step * gerror) : Prop := x.2 = None.

(** [m] makes a prefix of the calls of [steps]; it returns [a] after all of them, if they
    succeed, and otherwise the first call that fails is the last one, and its error ends the
    process. *)
Definition follows {A} (m : M Boot A) (steps : list boot_step) (a : A) : Prop :=
  forall b, exists made rest, steps = map fst made ++ rest /\
    b_steps (m b).1 = b_steps b ++ made /\
    match (m b).2 with
    | Ret x => x = a /\ rest = [] /\ Forall succeeded made
    | Crash why => exists init st err what, made = init ++ [(st, Some err)] /\
        Forall succeeded init /\ why = what +:+ ": " +:+ Error err
    | Hang => False
    end.

Lemma query_returns {A} (f : K -> K * A) (c : Ctl K) : exists c' a, query f c = (c', Ret a).
Proof. unfold query. destruct (f (c_env c)). by eauto. Qed.

Lemma for_return_returns {W A R} (l : list A) (body : A -> M W (option R)) w :
  (forall x w, exists w' r, body x w = (w', Ret r)) -> exists w' r, for_return l body w = (w', Ret r).
Proof.
  intros Hb. revert w. induction l as [|x l IH]; intros w; simpl; [by eexists _, _|].
  destruct (Hb x w) as (w1 & r & Hx). rewrite (bind_Ret _ _ _ _ _ Hx).
  destruct r; [by eexists _, _|apply IH].
Qed.

Lemma SetupWithManager_returns (c : Ctl K) : exists c' e, SetupWithManager c = (c', Ret e).
Proof.
  unfold SetupWithManager.
  destruct (for_return_returns ["StatefulSet"; "Ingress"; "Service"]
    (fun kind => query (IndexField kind shardOwnerKey index_owner)) c) as (c1 & r & Hr);
    [intros kind c1; apply query_returns|].
  rewrite (bind_Ret _ _ _ _ _ Hr). destruct r; [by eexists _, _|apply query_returns].
Qed.

Lemma perform_run st b :
  exists c e, perform st b = ({| b_ctl := c; b_steps := b_steps b ++ [(st, e)] |}, Ret e).
Proof.
  destruct (SetupWithManager_returns (b_ctl b)) as (c & e & Hs).
  destruct st; simpl; rewrite ?Hs;
    lazymatch goal with |- context [boot_call ?st ?k] => destruct (boot_call st k) | _ => idtac end;
    by eexists _, _.
Qed.

Lemma follows_ret {A} (a : A) : follows (ret a) [] a.
Proof. intros b. exists [], []. simpl. by rewrite app_nil_r. Qed.

Lemma follows_must st what : follows (must st what) [st] tt.
Proof.
  intros b. destruct (perform_run st b) as (c & e & Hp). exists [(st, e)], [].
  unfold must. rewrite (bind_Ret _ _ _ _ _ Hp). split; [done|].
  destruct e as [err|]; simpl; split; try done.
  - by exists [], st, err, what.
  - split_and!; [done|done|]. by constructor.
Qed.

Lemma follows_bind {A B} (m : M Boot A) (k : A -> M Boot B) l1 l2 a b :
  follows m l1 a -> follows (k a) l2 b -> follows (bind m k) (l1 ++ l2) b.
Proof.
  intros Hm Hk w. unfold bind. destruct (Hm w) as (d1 & r1 & -> & Hs1 & Ho1).
  destruct (m w) as [w1 [x|why|]]; simpl in *; [|by exists d1, (r1 ++ l2); rewrite <- app_assoc|done].
  destruct Ho1 as (-> & -> & Hd1). destruct (Hk w1) as (d2 & r2 & -> & Hs2 & Ho2).
  exists (d1 ++ d2), r2. rewrite Hs2, Hs1, map_app, !app_assoc, app_nil_r.
  split; [done|]. split; [done|]. destruct (k a w1).2; [| |done].
  - destruct Ho2 as (? & ? & ?). split_and!; [done|done|]. by apply Forall_app.
  - destruct Ho2 as (init & st & err & what & -> & Hi & ->).
    exists (d1 ++ init), st, err, what. split_and!; [by rewrite app_assoc| |done].
    by apply Forall_app.
Qed.

Lemma follows_watcher p n k what :
  follows (watcher_for p n k what) (map NewCertWatcher (option_list (watcher_of p n k)))
    (watcher_of p n k).
Proof.
  unfold watcher_for, watcher_of. case_decide; [apply follows_ret|].
  apply (follows_bind _ _ [_] [] tt); [apply follows_must|apply follows_ret].
Qed.

Lemma follows_add w what : follows (add_watcher w what) (map AddWatcher (option_list w)) tt.
Proof. destruct w; [apply follows_must|apply follows_ret]. Qed.

Lemma follows_webhook e what :
  follows (if decide (e <> "false") then must webhook_step what else ret tt)
    (if decide (e = "false") then [] else [webhook_step]) tt.
Proof. repeat case_decide; try done; [apply follows_must|apply follows_ret]. Qed.

(** An element that is last and occurs once is reached only by the whole list. *)
Lemma last_reached {A} (l made rest : list A) x :
  l ++ [x] = made ++ rest -> x ∉ l -> x ∈ made -> rest = [].
Proof.
  intros He Hl Hm. destruct rest as [|y rest _] using rev_ind; [done|].
  rewrite app_assoc in He. apply app_inj_2 in He as [-> _]; [|done].
  destruct Hl. apply elem_of_app. by left.
Qed.

Lemma plan_start f e made rest :
  plan f e = made ++ rest -> StartManager ∈ made -> rest = [].
Proof.
  intros Hp. eapply last_reached; [exact Hp|].
  unfold plan_setup, plan_new, webhook_watcher, metrics_watcher, watcher_of.
  repeat case_decide; simpl; rewrite !elem_of_cons, elem_of_nil; intuition discriminate.
Qed.

Lemma new_manager_follows f :
  follows (new_manager f) (plan_new f) (metrics_watcher f, webhook_watcher f).
Proof.
  eapply follows_bind; [apply follows_watcher|].
  eapply follows_bind; [apply follows_watcher|].
  apply (follows_bind _ _ [_] [] tt); [apply follows_must|apply follows_ret].
Qed.

Lemma manager_main_follows f e : follows (manager_main f e) (plan f e) tt.
Proof.
  unfold plan, plan_setup. rewrite <- !app_assoc.
  eapply follows_bind; [apply new_manager_follows|].
  apply (follows_bind _ _ [_] _ tt); [apply follows_must|].
  eapply follows_bind; [apply follows_webhook|].
  eapply follows_bind; [apply follows_add|].
  eapply follows_bind; [apply follows_add|].
  apply (follows_bind _ _ [_] [_; _] tt); [apply follows_must|].
  apply (follows_bind _ _ [_] [_] tt); apply follows_must.
Qed.

(** What the results of a run say: a call that failed is the last one. *)
Lemma run_shape (made : list (boot_step * gerror)) (o : outcome unit) (P : Prop) :
  match o with
  | Ret x => x = tt /\ P /\ Forall succeeded made
  | Crash why => exists init st err what, made = init ++ [(st, Some err)] /\
      Forall succeeded init /\ why = what +:+ ": " +:+ Error err
  | Hang => False
  end ->
  (forall i st err, made !! i = Some (st, Some err) ->
     S i = length made /\ exists what, o = Crash (what +:+ ": " +:+ Error err)) /\
  (forall i x, made !! i = Some x -> Forall succeeded (take i made)) /\
  (o = Ret tt -> Forall succeeded made /\ P) /\
  (o = Ret tt \/ exists st err, last made = Some (st, Some err)).
Proof.
  destruct o as [[]|why|]; [| |done].
  - intros (_ & HP & Hall). split_and!; try done; [| |by left].
    + intros i st err Hi. rewrite Forall_lookup in Hall. by specialize (Hall i _ Hi).
    + intros i x _. by apply Forall_take.
  - intros (init & st & err & what & -> & Hinit & ->). split_and!; [| |done|].
    + intros i st' err' Hi. rewrite length_app. simpl.
      apply lookup_app_Some in Hi as [Hi|[Hle Hi]].
      * rewrite Forall_lookup in Hinit. by specialize (Hinit i _ Hi).
      * apply list_lookup_singleton_Some in Hi as [Hi [= <- <-]]. split; [lia|by exists what].
    + intros i x Hi. apply lookup_lt_Some in Hi. rewrite length_app in Hi. simpl in Hi.
      rewrite take_app_le by lia. by apply Forall_take.
    + right. exists st, err. by rewrite last_snoc.
Qed.

Lemma plan_has_start f e : StartManager ∈ plan f e.
Proof. unfold plan. apply elem_of_app. right. left. Qed.

(** The manager is started once, last. *)
Lemma plan_start_last f e (made : list (boot_step * gerror)) i r :
  plan f e = map fst made -> made !! i = Some (StartManager, r) -> S i = length made.
Proof.
  intros Hp Hi. destruct (decide (S i = length made)) as [|Hne]; [done|exfalso].
  pose proof (lookup_lt_Some _ _ _ Hi) as Hlt.
  assert (Hdrop : drop (S i) (map fst made) = []).
  { eapply (plan_start f e (take (S i) (map fst made))); [by rewrite take_drop|].
    apply list_elem_of_lookup_2 with (i := i). rewrite lookup_take_lt by lia.
    by rewrite list_lookup_fmap, Hi. }
  apply (f_equal length) in Hdrop. rewrite length_drop, length_map in Hdrop. simpl in Hdrop. lia.
Qed.

Lemma plan_start_once f e (made : list (boot_step * gerror)) :
  plan f e = map fst made -> forall i j r r',
  made !! i = Some (StartManager, r) -> made !! j = Some (StartManager, r') -> r = r'.
Proof.
  intros Hp i j r r' Hi Hj. pose proof (plan_start_last f e made i r Hp Hi).
  pose proof (plan_start_last f e made j r' Hp Hj). assert (i = j) as -> by lia. congruence.
Qed.

(** A call that registers something with the manager, or starts it. *)
Definition registers (st : boot_step) : bool :=
  match st with NewCertWatcher _ | NewManager _ => false | _ => true end.

(** A call of the plan that registers something comes after all of [plan_new]. *)
Lemma plan_registers f e i st :
  plan f e !! i = Some st -> registers st = true -> length (plan_new f) <= i.
Proof.
  intros Hi Hst. destruct (decide (i < length (plan_new f))) as [Hlt|]; [|lia].
  unfold plan, plan_setup in Hi. rewrite <- app_assoc, lookup_app_l in Hi by done.
  apply list_elem_of_lookup_2 in Hi. exfalso. revert Hi Hst. unfold plan_new.
  rewrite !elem_of_app, list_elem_of_singleton, !list_elem_of_fmap.
  by intros [(w & -> & _)|[(w & -> & _)| ->]].
Qed.

(** Only certificates that are watched are added. *)
Lemma plan_watchers f e w : AddWatcher w ∈ plan f e -> NewCertWatcher w ∈ plan_new f.
Proof.
  unfold plan, plan_setup, plan_new, webhook_watcher, metrics_watcher, watcher_of.
  repeat case_decide; simpl; rewrite !elem_of_cons, ?elem_of_nil; intuition congruence.
Qed.

(** The calls of the plan that succeed before the [i]-th one. *)
Lemma made_before f e (made : list (boot_step * gerror)) rest i st :
  plan f e = map fst made ++ rest -> i <= length made -> Forall succeeded (take i made) ->
  st ∈ take i (plan f e) -> (st, None) ∈ take i made.
Proof.
  intros Hp Hi Hok Hst. rewrite Hp, take_app_le in Hst by (by rewrite length_map).
  rewrite <- fmap_take in Hst. apply list_elem_of_fmap in Hst as ([st' r] & -> & Hin).
  rewrite Forall_forall in Hok. specialize (Hok _ Hin). unfold succeeded in Hok. simpl in *.
  by subst r.
Qed.

(** What is in the plan before the manager is started. *)
Lemma plan_setup_has f e :
  SetupController ∈ plan_setup f e /\
  (e <> "false" -> SetupWebhook {| wb_For := Some "KVStore";
     wb_Validator := Some mkKVStoreCustomValidator |} ∈ plan_setup f e) /\
  (forall w, webhook_watcher f = Some w -> AddWatcher w ∈ plan_setup f e) /\
  (forall w, metrics_watcher f = Some w -> AddWatcher w ∈ plan_setup f e) /\
  AddHealthzCheck ∈ plan_setup f e /\ AddReadyzCheck ∈ plan_setup f e.
Proof.
  unfold plan_setup. split_and!.
  - rewrite !elem_of_app. right. left. left.
  - intros He. rewrite decide_False, !elem_of_app by done. right. right. left. left.
  - intros w ->. rewrite !elem_of_app. do 4 right. left. left.
  - intros w ->. rewrite !elem_of_app. do 3 right. left. left.
  - rewrite !elem_of_app. do 5 right. left.
  - rewrite !elem_of_app. do 5 right. right. left.
Qed.

Section a_run.
Context (f : Flags) (e : string) (made : list (boot_step * gerror)) (rest : list boot_step).
Context (Hp : plan f e = map fst made ++ rest).
Context (Hinit : forall i x, made !! i = Some x -> Forall succeeded (take i made)).

Lemma started_all i r : made !! i = Some (StartManager, r) -> rest = [].
Proof.
  intros Hi. eapply plan_start; [exact Hp|]. apply list_elem_of_fmap. exists (StartManager, r).
  split; [done|]. by eapply list_elem_of_lookup_2.
Qed.

(** If the manager was started without an error, no call failed. *)
Lemma started_returns i st err :
  made !! i = Some (StartManager, None) -> last made <> Some (st, Some err).
Proof.
  intros Hi Hl. pose proof (started_all i None Hi) as Hrest.
  rewrite Hrest, app_nil_r in Hp. pose proof (f_equal last Hp) as Hlast.
  unfold plan in Hlast. rewrite last_snoc, fmap_last, Hl in Hlast. simpl in Hlast.
  injection Hlast as <-. rewrite last_lookup in Hl.
  by pose proof (plan_start_once f e made Hp _ _ _ _ Hi Hl).
Qed.

(** If all calls were made and succeeded, so did the start. *)
Lemma returned_started :
  rest = [] -> Forall succeeded made -> (StartManager, None) ∈ made.
Proof.
  intros Hrest Hall. rewrite Hrest, app_nil_r in Hp.
  assert (Hin : StartManager ∈ map fst made) by (rewrite <- Hp; apply plan_has_start).
  apply list_elem_of_fmap in Hin as ([st r] & Hst & Hin). simpl in Hst. subst st.
  rewrite Forall_forall in Hall. specialize (Hall _ Hin). unfold succeeded in Hall.
  simpl in Hall. by subst r.
Qed.

Lemma registered_after i st r x :
  made !! i = Some (st, r) -> registers st = true -> x ∈ plan_new f -> (x, None) ∈ take i made.
Proof.
  intros Hi Hst Hx. pose proof (lookup_lt_Some _ _ _ Hi) as Hlt.
  assert (Hpi : plan f e !! i = Some st).
  { rewrite Hp. apply lookup_app_l_Some. by rewrite list_lookup_fmap, Hi. }
  pose proof (plan_registers f e i st Hpi Hst) as Hle.
  eapply made_before; [exact Hp|lia|by eapply Hinit|].
  unfold plan, plan_setup. rewrite <- app_assoc, take_app_ge by lia. apply elem_of_app. by left.
Qed.

Lemma started_after i r x :
  made !! i = Some (StartManager, r) -> x ∈ plan_setup f e -> (x, None) ∈ made.
Proof.
  intros Hi Hx. pose proof (started_all i r Hi) as Hrest.
  pose proof Hp as Hp'. rewrite Hrest, app_nil_r in Hp'.
  pose proof (plan_start_last f e made i r Hp' Hi) as Hlen.
  rewrite <- (take_drop i made). apply elem_of_app. left.
  eapply made_before; [exact Hp|lia|by eapply Hinit|].
  unfold plan. assert (length (plan_setup f e) = i) as <-.
  { apply (f_equal length) in Hp'. unfold plan in Hp'. rewrite length_app, length_map in Hp'.
    simpl in Hp'. lia. }
  by rewrite take_app_length.
Qed.

End a_run.

(** C37: the start of the controller's process. A call that fails is the last one, and its
    error ends the process; the process returns exactly if the manager was started and
    returned without an error. Whatever is registered with the manager comes after the
    manager was made with the options of the flags, and a certificate is added only when its
    watcher was made. When the manager is started, the controller has been set up, the
    admission webhook has been registered with its validator, unless ENABLE_WEBHOOKS is
    "false", both certificates that are given are watched, and both checks are in place, each of
    them by a call that succeeded. *)
Theorem manager_starts_registered f e b :
  b_steps b = [] ->
  let calls := b_steps (manager_main f e b).1 in
  let o := (manager_main f e b).2 in
  (forall i st err, calls !! i = Some (st, Some err) ->
     S i = length calls /\ exists what, o = Crash (what +:+ ": " +:+ Error err)) /\
  (o = Ret tt <-> (StartManager, None) ∈ calls) /\
  (forall i st r, calls !! i = Some (st, r) -> registers st = true ->
     (NewManager (options_of f), None) ∈ take i calls /\
     forall w, st = AddWatcher w -> (NewCertWatcher w, None) ∈ take i calls) /\
  (forall i r, calls !! i = Some (StartManager, r) ->
     S i = length calls /\ (SetupController, None) ∈ calls /\
     (e <> "false" -> (SetupWebhook {| wb_For := Some "KVStore";
        wb_Validator := Some mkKVStoreCustomValidator |}, None) ∈ calls) /\
     (forall w, webhook_watcher f = Some w -> (AddWatcher w, None) ∈ calls) /\
     (forall w, metrics_watcher f = Some w -> (AddWatcher w, None) ∈ calls) /\
     (AddHealthzCheck, None) ∈ calls /\ (AddReadyzCheck, None) ∈ calls).
Proof.
  intros Hb calls o. destruct (manager_main_follows f e b) as (made & rest & Hp & Hs & Ho).
  rewrite Hb in Hs. simpl in Hs. fold calls in Hs. fold o in Ho.
  destruct (run_shape made o (rest = []) Ho) as (Hfail & Hinit & Hret & Hcrash).
  rewrite Hs. split_and!.
  - exact Hfail.
  - split.
    + intros [Hall Hrest]%Hret. by eapply returned_started.
    + intros (i & Hi)%list_elem_of_lookup_1. destruct Hcrash as [Hr|(st & err & Hl)]; [done|].
      by destruct (started_returns f e made rest Hp i st err Hi).
  - intros i st r Hi Hst.
    assert (Hnew : forall x, x ∈ plan_new f -> (x, None) ∈ take i made)
      by (intros x; by eapply registered_after).
    split; [apply Hnew; unfold plan_new; rewrite !elem_of_app; right; right; left|].
    intros w ->. apply Hnew, (plan_watchers f e). rewrite Hp. apply elem_of_app. left.
    apply list_elem_of_fmap. exists (AddWatcher w, r). split; [done|].
    by eapply list_elem_of_lookup_2.
  - intros i r Hi. pose proof (started_all f e made rest Hp i r Hi) as Hrest.
    pose proof (plan_setup_has f e) as (H1 & H2 & H3 & H4 & H5 & H6).
    assert (Hmade : forall x, x ∈ plan_setup f e -> (x, None) ∈ made)
      by (intros x; by eapply started_after).
    split; [|split_and!; eauto]. rewrite Hrest, app_nil_r in Hp. by eapply plan_start_last.
Qed.

(** The calls of a run are calls of the plan. *)
Lemma manager_main_planned f e b st r :
  b_steps b = [] -> (st, r) ∈ b_steps (manager_main f e b).1 -> st ∈ plan f e.
Proof.
  intros Hb. destruct (manager_main_follows f e b) as (made & rest & -> & -> & _).
  rewrite Hb. intros Hst. apply elem_of_app. left. apply list_elem_of_fmap. by exists (st, r).
Qed.

(** The only manager of a plan is made with the options of the flags. *)
Lemma plan_manager f e o : NewManager o ∈ plan f e -> o = options_of f.
Proof.
  unfold plan, plan_setup, plan_new, webhook_watcher, metrics_watcher, watcher_of.
  repeat case_decide; simpl; rewrite !elem_of_cons, elem_of_nil; intuition congruence.
Qed.

(** Watching a certificate leaves the protocols. *)
Lemma watch_keeps_protos c w : NextProtos (tls_of c (watch_opts w)) = NextProtos c.
Proof. by destruct w. Qed.

(** HTTP/2 is off unless it is asked for. Without the flag enable-http2, the
    manager that the process makes serves metrics and webhooks with HTTP/1.1 as
    the only protocol, whatever the servers start from and whether or not
    certificates are watched; with certificates given, these are the ones served. *)
Theorem http2_disabled f e b base o r :
  b_steps b = [] -> enableHTTP2 f = false ->
  (NewManager o, r) ∈ b_steps (manager_main f e b).1 ->
  NextProtos (tls_of base (mo_TLSOpts (mg_Metrics o))) = ["http/1.1"] /\
  NextProtos (tls_of base (mg_WebhookTLSOpts o)) = ["http/1.1"] /\
  GetCertificate (tls_of base (mg_WebhookTLSOpts o)) =
    match webhook_watcher f with Some w => Some w | None => GetCertificate base end.
Proof.
  intros Hb H2 Ho%manager_main_planned%plan_manager; [|done]. subst o.
  unfold options_of. rewrite H2. unfold tls_of. simpl.
  rewrite !(watch_keeps_protos (apply_opt base DisableHTTP2)).
  repeat split. by destruct (webhook_watcher f).
Qed.

End manager.

(** ** A run *)

(** A runtime in which every call succeeds but the start of the manager. *)
#[export] Instance sim_runtime : Runtime SimKube := {|
  boot_call st k := (k, match st with StartManager => Some (LibErr "cluster gone") | _ => None end)
|}.

Definition sim_boot : Boot (K := SimKube) :=
  {| b_ctl := {| c_env := {| sk_store := None; sk_sets := []; sk_config := None;
                             sk_list_fails := false; sk_time := 0 |}; c_log := [] |};
     b_steps := [] |}.

(** With the default flags and no certificates. *)
Example default_start :
  b_steps (manager_main default_flags "" sim_boot).1 =
    map (fun st => (st, None)) [NewManager (options_of default_flags); SetupController;
      webhook_step; AddHealthzCheck; AddReadyzCheck] ++
    [(StartManager, Some (LibErr "cluster gone"))] /\
  (manager_main default_flags "" sim_boot).2 = Crash "problem running manager: cluster gone".
Proof. split; reflexivity. Qed.

Lemma http2_disabled_witness :
  let o := options_of default_flags in
  let h2 := {| NextProtos := ["h2"]; GetCertificate := None |} in
  NextProtos (tls_of h2 (mo_TLSOpts (mg_Metrics o))) = ["http/1.1"] /\
  NextProtos (tls_of h2 (mg_WebhookTLSOpts o)) = ["http/1.1"] /\
  GetCertificate (tls_of h2 (mg_WebhookTLSOpts o)) = None.
Proof.
  apply (http2_disabled default_flags "" sim_boot {| NextProtos := ["h2"]; GetCertificate := None |}
    (options_of default_flags) None); [reflexivity|reflexivity|].
  vm_compute. left.
Defined.

(** The manager is started, and its error ends the process; the webhook was registered. *)
Lemma manager_starts_registered_witness :
  (SetupWebhook {| wb_For := Some "KVStore"; wb_Validator := Some mkKVStoreCustomValidator |}, None)
    ∈ b_steps (manager_main default_flags "" sim_boot).1 /\
  (manager_main default_flags "" sim_boot).2 <> Ret tt.
Proof.
  destruct (manager_starts_registered default_flags "" sim_boot) as (Hfail & _ & _ & Hstart).
  - reflexivity.
  - split.
    + destruct (Hstart 5%nat (Some (LibErr "cluster gone"))) as (_ & _ & Hweb & _);
        [reflexivity|]. apply Hweb. discriminate.
    + destruct (Hfail 5%nat StartManager (LibErr "cluster gone")) as (_ & what & Ho);
        [reflexivity|]. rewrite Ho. discriminate.
Defined.
