(* ===== verification/Scheme.v ===== *)
(** * The start of the controller's process, before [main]

    Go initialises the packages that a program imports before the program: package v1
    makes a builder of its group and registers its types with it, and package main adds the
    types of Kubernetes and those of the builder to the scheme that the manager uses. *)

From S2P Require Import Prelude Protos KVStore Shard Kube Controller Webhook SimKube Manager.

Record GroupVersion := { Group : string; Version : string }.

(** The group of the custom resource. *)
Definition v1_GroupVersion : GroupVersion :=
  {| Group := "kvctl.captainirs.dev"; Version := "v1" |}.

(** [schema.GroupVersion.String] *)
Definition GroupVersion_String (gv : GroupVersion) : string :=
  if decide (Group gv = "") then Version gv else Group gv +:+ "/" +:+ Version gv.

(** Schemes and their builders are those of the libraries. *)
Class SchemeLib (S B : Type) := {
  NewScheme : S;
  Builder : GroupVersion -> B;
  Register : list string -> B -> B;
  Builder_AddToScheme : B -> S -> S * gerror;
  clientgo_AddToScheme : S -> S * gerror;
  Recognizes : S -> GroupVersion -> string -> bool
}.

(** What their documentation says: [Register] adds objects to the builder so that they can
    be added to a scheme, and [AddToScheme] adds all registered types to a scheme. *)
Class SchemeLaws (S B : Type) `{!SchemeLib S B} : Prop := {
  AddToScheme_registered : forall gv kinds (s s' : S) k,
    Builder_AddToScheme (Register kinds (Builder gv)) s = (s', None) -> k ∈ kinds ->
    Recognizes s' gv k = true
}.

Section scheme.
Context `{!KubeTypes} {K : Type} `{!Kube K, !Runtime K} {S B : Type} `{!SchemeLib S B}.

(** The variables of the packages, and the state of [main]. [AddToScheme] is a method value
    of the pointer [SchemeBuilder]: it uses what the builder holds when it is called. *)
Record Process := { v_SchemeBuilder : option B; v_scheme : S; v_boot : Boot (K := K) }.

Definition set_builder (b : option B) (p : Process) : Process :=
  {| v_SchemeBuilder := b; v_scheme := v_scheme p; v_boot := v_boot p |}.
Definition set_scheme (s : S) (p : Process) : Process :=
  {| v_SchemeBuilder := v_SchemeBuilder p; v_scheme := s; v_boot := v_boot p |}.

Definition AddToScheme : M Process gerror := fun p =>
  match v_SchemeBuilder p with
  | None => (p, Crash "invalid memory address or nil pointer dereference")
  | Some b => let (s, err) := Builder_AddToScheme b (v_scheme p) in (set_scheme s p, Ret err)
  end.

(** [utilruntime.Must] *)
Definition Must (m : M Process gerror) : M Process unit :=
  err <- m ;;
  match err with Some err => crash (Error err) | None => ret tt end.

(** Package v1: its variables, then its function [init]. *)
Definition v1_vars : M Process unit := modify (set_builder (Some (Builder v1_GroupVersion))).
Definition v1_init : M Process unit :=
  modify (fun p => set_builder (Register ["KVStore"; "KVStoreList"] <$> v_SchemeBuilder p) p).

(** Package main. *)
Definition main_vars : M Process unit := modify (set_scheme NewScheme).
Definition main_init : M Process unit :=
  Must (fun p => let (s, err) := clientgo_AddToScheme (v_scheme p) in (set_scheme s p, Ret err)) ;;;
  Must AddToScheme.

Definition main (f : Flags) (ENABLE_WEBHOOKS : string) : M Process unit := fun p =>
  let (b, o) := manager_main f ENABLE_WEBHOOKS (v_boot p) in
  ({| v_SchemeBuilder := v_SchemeBuilder p; v_scheme := v_scheme p; v_boot := b |}, o).

Definition process (f : Flags) (ENABLE_WEBHOOKS : string) : M Process unit :=
  v1_vars ;;; v1_init ;;; main_vars ;;; main_init ;;; main f ENABLE_WEBHOOKS.

(** The versions that the controller compares owners with are those of the group. *)
Lemma apiGVStr_group : apiGVStr = GroupVersion_String v1_GroupVersion.
Proof. reflexivity. Qed.

(** Either the types are known and [main] runs, or the process panics before it. *)
Lemma process_run f e p :
  (exists s, Builder_AddToScheme (Register ["KVStore"; "KVStoreList"] (Builder v1_GroupVersion))
     (clientgo_AddToScheme NewScheme).1 = (s, None) /\
   process f e p = main f e {|
     v_SchemeBuilder := Some (Register ["KVStore"; "KVStoreList"] (Builder v1_GroupVersion));
     v_scheme := s; v_boot := v_boot p |}) \/
  exists q err, process f e p = (q, Crash (Error err)) /\ v_boot q = v_boot p.
Proof.
  unfold process, v1_vars, v1_init, main_vars, main_init, Must, bind, modify, AddToScheme. simpl.
  destruct (clientgo_AddToScheme NewScheme) as [s0 [err|]] eqn:Hc; simpl;
    [right; by eexists _, err|].
  destruct (Builder_AddToScheme _ s0) as [s [err|]] eqn:Ha; simpl; [right; by eexists _, err|].
  left. by exists s.
Qed.

(** The manager's calls are made only when the scheme knows the custom resource and its
    lists; when adding the types fails the process ends with that error before the first
    call. *)
Theorem manager_knows_kinds `{!SchemeLaws S B} f e p q o :
  process f e p = (q, o) ->
  (Recognizes (v_scheme q) v1_GroupVersion "KVStore" = true /\
   Recognizes (v_scheme q) v1_GroupVersion "KVStoreList" = true /\
   manager_main f e (v_boot p) = (v_boot q, o)) \/
  v_boot q = v_boot p /\ exists err, o = Crash (Error err).
Proof.
  intros Hrun. destruct (process_run f e p) as [(s & Hadd & Hmain)|(q' & err & Hp & Hb)].
  - left. rewrite Hrun in Hmain. unfold main in Hmain. simpl in Hmain.
    destruct (manager_main f e (v_boot p)) as [b o']. injection Hmain as -> ->.
    split_and!; [eapply AddToScheme_registered; [exact Hadd|set_solver]..|done].
  - right. rewrite Hrun in Hp. injection Hp as -> ->. eauto.
Qed.

End scheme.

(** A scheme as the list of what has been registered. *)
#[export] Instance sim_scheme :
  SchemeLib (list (GroupVersion * string)) (GroupVersion * list string) := {|
  NewScheme := [];
  Builder gv := (gv, []);
  Register kinds b := (b.1, b.2 ++ kinds);
  Builder_AddToScheme b s := (s ++ map (pair b.1) b.2, None);
  clientgo_AddToScheme s := (s ++ [({| Group := "apps"; Version := "v1" |}, "StatefulSet")], None);
  Recognizes s gv k := existsb (fun x =>
    (Group x.1 =? Group gv)%string && (Version x.1 =? Version gv)%string && (x.2 =? k)%string) s
|}.

#[export] Instance sim_scheme_laws :
  SchemeLaws (list (GroupVersion * string)) (GroupVersion * list string).
Proof.
  split. simpl. intros gv kinds s s' k [= <-] Hk. apply existsb_exists. exists (gv, k).
  split; [|by rewrite !String.eqb_refl]. apply in_app_iff. right. apply in_map.
  by apply list_elem_of_In.
Qed.

Lemma manager_knows_kinds_witness :
  Recognizes (v_scheme (process default_flags ""
    {| v_SchemeBuilder := None; v_scheme := NewScheme; v_boot := sim_boot |}).1)
    v1_GroupVersion "KVStore" = true.
Proof.
  destruct (manager_knows_kinds default_flags ""
    {| v_SchemeBuilder := None; v_scheme := NewScheme; v_boot := sim_boot |} _ _
    (surjective_pairing _)) as [[H _]|[H _]]; [exact H|].
  apply (f_equal b_steps) in H. vm_compute in H. discriminate H.
Defined.
