(* ===== verification/IpRegex.v ===== *)
(** * The pattern of src/internal/capture.go and the regexp package

    Go's regexp package, as far as the pattern of the packet capture needs it: a
    matcher that backtracks and takes the first match in the order of preference of a
    greedy pattern, and the scan of [ReplaceAllStringFunc]. [quad] says what a dotted
    address is without running anything; the matcher finds the longest one, and the scan
    cuts a text at the addresses that are found from left to right. A Go string is a
    sequence of bytes; no byte of a longer UTF-8 sequence is a digit or a dot, so that a
    match over runes is a match over bytes. *)

From Stdlib Require Import Ascii.
From S2P Require Import Prelude.

(** ** Patterns *)

(** [\d]: an ASCII digit. *)
Definition is_digit (c : ascii) : bool :=
  (48 <=? nat_of_ascii c)%nat && (nat_of_ascii c <=? 57)%nat.

(** The pieces of a pattern: [\d{lo,hi}] and a literal character. *)
Inductive item :=
| Digits (lo hi : nat)
| Char (c : ascii).

Definition ipRegex : list item :=
  [Digits 1 3; Char "."; Digits 1 3; Char "."; Digits 1 3; Char "."; Digits 1 3].

(** [\d{lo,hi}] followed by what [k] matches: one digit more is tried first. *)
Fixpoint match_digits (k : string -> option string) (lo hi : nat) (s : string)
    : option string :=
  let stop := if decide (lo = 0) then k s else None in
  match hi, s with
  | S hi', String c s' =>
      if is_digit c then
        match match_digits k (pred lo) hi' s' with
        | Some m => Some (String c m)
        | None => stop
        end
      else stop
  | _, _ => stop
  end.

(** The text that a pattern matches at the beginning of [s]. *)
Fixpoint match_here (r : list item) (s : string) : option string :=
  match r with
  | [] => Some ""
  | Char c :: r' =>
      match s with
      | String c' s' => if decide (c = c') then String c <$> match_here r' s' else None
      | EmptyString => None
      end
  | Digits lo hi :: r' => match_digits (match_here r') lo hi s
  end.

(** [regexp.ReplaceAllStringFunc] for a pattern that does not match the empty text:
    [skip] is the number of characters that belong to the match found last. *)
Fixpoint replace_all {W} (r : list item) (repl : string -> M W string) (skip : nat)
    (s : string) : M W string :=
  match s with
  | EmptyString => ret ""
  | String c s' =>
      match skip with
      | S skip' => replace_all r repl skip' s'
      | O =>
          match match_here r s with
          | Some m =>
              x <- repl m ;;
              rest <- replace_all r repl (pred (String.length m)) s' ;;
              ret (x +:+ rest)
          | None =>
              rest <- replace_all r repl O s' ;;
              ret (String c rest)
          end
      end
  end.

Definition ReplaceAllStringFunc {W} (r : list item) (s : string)
    (repl : string -> M W string) : M W string := replace_all r repl O s.

(** ** Dotted addresses *)

Fixpoint all_digits (s : string) : bool :=
  match s with
  | EmptyString => true
  | String c s' => is_digit c && all_digits s'
  end.

(** A group of an address: one to three digits. *)
Definition group (d : string) : Prop :=
  all_digits d = true /\ 1 <= String.length d <= 3.

Definition quad (m : string) : Prop :=
  exists a b c d, group a /\ group b /\ group c /\ group d /\
    m = a +:+ "." +:+ b +:+ "." +:+ c +:+ "." +:+ d.

(** [m] is the longest address that [s] begins with. *)
Definition longest_quad (m s : string) : Prop :=
  quad m /\ (exists t, s = m +:+ t) /\
  forall m' t', quad m' -> s = m' +:+ t' -> String.length m' <= String.length m.

(** [s] begins with no address. *)
Definition no_quad (s : string) : Prop :=
  forall m t, quad m -> s <> m +:+ t.

(** The cut of a text at the addresses found from left to right. *)
Inductive piece := Plain (c : ascii) | Addr (m : string).

Inductive cut : string -> list piece -> Prop :=
| cut_nil : cut "" []
| cut_addr m t ps : longest_quad m (m +:+ t) -> cut t ps -> cut (m +:+ t) (Addr m :: ps)
| cut_plain c t ps : no_quad (String c t) -> cut t ps -> cut (String c t) (Plain c :: ps).

(** The text of a cut, each address given by [name]. *)
Fixpoint render {W} (name : string -> M W string) (ps : list piece) : M W string :=
  match ps with
  | [] => ret ""
  | Plain c :: ps' => rest <- render name ps' ;; ret (String c rest)
  | Addr m :: ps' => x <- name m ;; rest <- render name ps' ;; ret (x +:+ rest)
  end.

(** ** The texts of a pattern *)

Fixpoint lang (r : list item) (m : string) : Prop :=
  match r with
  | [] => m = ""
  | Char c :: r' => exists m', m = String c m' /\ lang r' m'
  | Digits lo hi :: r' => exists d m', m = d +:+ m' /\ all_digits d = true /\
      lo <= String.length d <= hi /\ lang r' m'
  end.

(** A text that a digit cannot run into: the next item is no digit. *)
Definition no_digit_first (m : string) : Prop :=
  match m with EmptyString => True | String c _ => is_digit c = false end.

(** Each group of digits is followed by another character or by the end. *)
Fixpoint separated (r : list item) : bool :=
  match r with
  | [] => true
  | Char _ :: r' => separated r'
  | Digits _ _ :: r' =>
      separated r' &&
      match r' with [] => true | Char c :: _ => negb (is_digit c) | _ => false end
  end.

#[local] Arguments String.append !_ _ / : simpl nomatch.

Lemma length_append a b :
  String.length (a +:+ b) = String.length a + String.length b.
Proof. induction a as [|c a IH]; [done|]. simpl. by rewrite IH. Qed.

Lemma append_nil_r a : a +:+ "" = a.
Proof. induction a as [|c a IH]; [done|]. exact (f_equal (String c) IH). Qed.

(** Two beginnings of a text of the same length are the same. *)
Lemma append_eq_length a b t t' :
  a +:+ t = b +:+ t' -> String.length a = String.length b -> a = b /\ t = t'.
Proof.
  revert b. induction a as [|c a IH]; intros [|c' b] Heq Hlen; try done.
  simpl in *. simplify_eq. destruct (IH b) as [-> ->]; auto.
Qed.

Lemma match_digits_sound (k : string -> option string) (L : string -> Prop) lo hi s m :
  (forall s m, k s = Some m -> L m /\ exists t, s = m +:+ t) ->
  match_digits k lo hi s = Some m ->
  (exists d m', m = d +:+ m' /\ all_digits d = true /\
    lo <= String.length d <= hi /\ L m') /\
  exists t, s = m +:+ t.
Proof.
  intros Hk. revert lo s m. induction hi as [|hi IH]; intros lo s m.
  all: assert (Hstop : forall hi', (if decide (lo = 0) then k s else None) = Some m ->
    (exists d m', m = d +:+ m' /\ all_digits d = true /\
      lo <= String.length d <= hi' /\ L m') /\ exists t, s = m +:+ t).
  1,3: intros hi' Hm; case_decide as Hlo; [|done]; destruct (Hk _ _ Hm) as [HL Ht];
    split; [|done]; exists "", m; simpl; split_and!; auto; lia.
  - destruct s; apply Hstop.
  - destruct s as [|c s]; [apply Hstop|]. simpl.
    destruct (is_digit c) eqn:Hc; [|apply Hstop].
    destruct (match_digits k (pred lo) hi s) as [m1|] eqn:Hrec; [|apply Hstop].
    intros [= <-]. destruct (IH _ _ _ Hrec) as [(d & m' & -> & Hd & Hlen & HL) [t ->]].
    split; [|by exists t]. exists (String c d), m'. simpl. rewrite Hc, Hd.
    split_and!; auto; lia.
Qed.

(** What the matcher finds is a text of the pattern. *)
Lemma match_here_sound r s m :
  match_here r s = Some m -> lang r m /\ exists t, s = m +:+ t.
Proof.
  revert s m. induction r as [|[lo hi|c] r IH]; intros s m Hm; simpl in *.
  - simplify_eq. split; [done|by exists s].
  - by apply (match_digits_sound (match_here r) (lang r)) in Hm.
  - destruct s as [|c' s]; [done|]. case_decide; simplify_eq.
    apply fmap_Some in Hm as (m' & Hm & ->).
    destruct (IH _ _ Hm) as [HL [t ->]]. split; [by exists m'|by exists t].
Qed.

Lemma match_digits_best (k : string -> option string) (L : string -> Prop) lo hi d m t :
  (forall m t, L m -> exists m1, k (m +:+ t) = Some m1 /\
    String.length m <= String.length m1) ->
  (forall m, L m -> no_digit_first m) ->
  all_digits d = true -> lo <= String.length d <= hi -> L m ->
  exists m1, match_digits k lo hi (d +:+ (m +:+ t)) = Some m1 /\
    String.length d + String.length m <= String.length m1.
Proof.
  intros Hk Hfirst. revert lo hi. induction d as [|c d IH]; intros lo hi Hd Hlen HL.
  - simpl in *. replace lo with 0 by lia.
    destruct (Hk m t HL) as (m1 & Hm1 & Hle). specialize (Hfirst m HL).
    destruct hi as [|hi]; [by eauto|].
    destruct m as [|c m]; simpl in *; [|rewrite Hfirst; by eauto].
    destruct t as [|c t]; [by eauto|].
    destruct (is_digit c); [|by exists m1; split; [done|lia]].
    destruct (match_digits k 0 hi t); [|by exists m1; split; [done|lia]].
    eexists. split; [done|]. lia.
  - simpl in *. apply andb_prop in Hd as [Hc Hd].
    destruct hi as [|hi]; [lia|]. simpl. rewrite Hc.
    destruct (IH (pred lo) hi Hd) as (m1 & -> & Hle); [lia|done|].
    eexists. split; [done|]. simpl. lia.
Qed.

Lemma lang_no_digit_first r m :
  match r with [] => true | Char c :: _ => negb (is_digit c) | _ => false end = true ->
  lang r m -> no_digit_first m.
Proof.
  destruct r as [|[lo hi|c] r]; intros Hr HL; simpl in *; [by subst|done|].
  destruct HL as (m' & -> & HL). simpl. by destruct (is_digit c).
Qed.

(** Where a text of the pattern begins, the matcher finds one that is as long. *)
Lemma match_here_best r m t :
  separated r = true -> lang r m ->
  exists m1, match_here r (m +:+ t) = Some m1 /\ String.length m <= String.length m1.
Proof.
  revert m t. induction r as [|[lo hi|c] r IH]; intros m t Hr HL; simpl in *.
  - subst. by exists "".
  - apply andb_prop in Hr as [Hr Hnext].
    destruct HL as (d & m' & -> & Hd & Hlen & HL).
    rewrite string_app_assoc, length_append.
    apply (match_digits_best (match_here r) (lang r)); auto.
    intros m. by apply lang_no_digit_first.
  - destruct HL as (m' & -> & HL). simpl. rewrite decide_True by done.
    destruct (IH m' t Hr HL) as (m1 & -> & Hle). simpl.
    eexists. split; [done|]. simpl. lia.
Qed.

(** ** The matcher finds the longest address *)

Lemma quad_lang m : quad m <-> lang ipRegex m.
Proof.
  unfold quad, group. split.
  - intros (a & b & c & d & [] & [] & [] & [] & ->).
    exists a. eexists. split_and!; [done|done|lia|lia|].
    eexists. split; [done|]. exists b. eexists. split_and!; [done|done|lia|lia|].
    eexists. split; [done|]. exists c. eexists. split_and!; [done|done|lia|lia|].
    eexists. split; [done|]. exists d, "". rewrite append_nil_r.
    split_and!; done || lia.
  - intros (a & ? & -> & ? & ? & ? & -> & b & ? & -> & ? & ? & ? & -> &
      c & ? & -> & ? & ? & ? & -> & d & ? & -> & ? & ? & ->).
    exists a, b, c, d. rewrite append_nil_r. split_and!; done || lia.
Qed.

Lemma match_here_Some s m : match_here ipRegex s = Some m -> longest_quad m s.
Proof.
  intros Hm. destruct (match_here_sound _ _ _ Hm) as [HL Ht].
  split_and!; [by apply quad_lang|done|].
  intros m' t' HL'%quad_lang ->.
  destruct (match_here_best ipRegex m' t') as (m1 & Hm1 & Hle); [done|done|].
  congruence.
Qed.

Lemma match_here_None s : match_here ipRegex s = None -> no_quad s.
Proof.
  intros Hm m t HL%quad_lang ->.
  destruct (match_here_best ipRegex m t) as (m1 & Hm1 & _); [done|done|]. congruence.
Qed.

Lemma longest_quad_unique s m m' : longest_quad m s -> longest_quad m' s -> m = m'.
Proof.
  intros (Hq & [t Ht] & Hb) (Hq' & [t' Ht'] & Hb').
  pose proof (Hb _ _ Hq' Ht'). pose proof (Hb' _ _ Hq Ht).
  destruct (append_eq_length m m' t t'); [congruence|lia|done].
Qed.

Lemma longest_quad_match s m : longest_quad m s -> match_here ipRegex s = Some m.
Proof.
  intros Hm. destruct (match_here ipRegex s) as [m'|] eqn:Hrun.
  - f_equal. eapply longest_quad_unique; [by apply match_here_Some|done].
  - destruct Hm as (Hq & [t Ht] & _). by destruct (match_here_None _ Hrun m t).
Qed.

Lemma no_quad_match s : no_quad s -> match_here ipRegex s = None.
Proof.
  intros Hs. destruct (match_here ipRegex s) as [m|] eqn:Hrun; [|done].
  apply match_here_Some in Hrun as (Hq & [t Ht] & _). by destruct (Hs m t).
Qed.

Lemma quad_nonempty m : quad m -> m <> "".
Proof.
  intros (a & b & c & d & [_ Ha] & _ & _ & _ & ->). by destruct a.
Qed.

(** ** The scan follows the cut *)

Lemma replace_all_skip {W} r (repl : string -> M W string) m t :
  replace_all r repl (String.length m) (m +:+ t) = replace_all r repl 0 t.
Proof. induction m as [|c m IH]; [by destruct t|]. exact IH. Qed.

Lemma replace_all_cut {W} (repl : string -> M W string) s ps :
  cut s ps -> replace_all ipRegex repl 0 s = render repl ps.
Proof.
  induction 1 as [|m t ps Hm Hps IH|c t ps Hs Hps IH]; [done| |].
  - pose proof (longest_quad_match _ _ Hm) as Hrun.
    destruct m as [|c m]; [by destruct Hm as [?%quad_nonempty _]|].
    cbn [replace_all String.append render].
    change (String c (m +:+ t)) with (String c m +:+ t). rewrite Hrun.
    cbn [String.length pred]. by rewrite replace_all_skip, IH.
  - cbn [replace_all render]. by rewrite (no_quad_match _ Hs), IH.
Qed.

Lemma cut_exists s : exists ps, cut s ps.
Proof.
  remember (String.length s) as n eqn:Hn. revert s Hn.
  induction (lt_wf n) as [n _ IH]. intros [|c s] ->; [by exists []; constructor|].
  destruct (match_here ipRegex (String c s)) as [m|] eqn:Hrun.
  - apply match_here_Some in Hrun as Hm. destruct Hm as (Hq & [t Ht] & Hb).
    destruct (IH (String.length t)) with (s := t) as [ps Hps]; [|done|].
    { apply quad_nonempty in Hq. rewrite Ht, length_append.
      destruct m; simpl; [done|lia]. }
    rewrite Ht. exists (Addr m :: ps). constructor; [|done].
    rewrite <- Ht. by split_and!; eauto.
  - destruct (IH (String.length s)) with (s := s) as [ps Hps]; [simpl; lia|done|].
    exists (Plain c :: ps). constructor; [by apply match_here_None|done].
Qed.

Lemma cut_unique s ps ps' : cut s ps -> cut s ps' -> ps = ps'.
Proof.
  intros Hps. revert ps'. induction Hps as [|m t ps Hm Hps IH|c t ps Hs Hps IH].
  - intros ps' Hps'. inversion Hps' as [|m t ps Hm|]; [done|].
    destruct Hm as [Hm%quad_nonempty _]. by destruct m.
  - intros ps' Hps'. inversion Hps' as [Heq|m' t' ps1 Hm' Hps1 Heq|c t' ps1 Hs Hps1 Heq].
    + destruct Hm as [Hm%quad_nonempty _]. by destruct m.
    + rewrite Heq in Hm'. pose proof (longest_quad_unique _ _ _ Hm Hm') as ->.
      apply string_app_inj_l in Heq as ->. f_equal. by apply IH.
    + destruct Hm as [Hq _]. rewrite Heq in Hs. by destruct (Hs m t Hq).
  - intros ps' Hps'. inversion Hps' as [|m' t' ps1 Hm' Hps1 Heq|c' t' ps1 Hs1 Hps1 Heq].
    + destruct Hm' as [Hq _]. by destruct (Hs m' t' Hq).
    + f_equal. by apply IH.
Qed.
