(* ===== verification/Capture.v ===== *)
(** * Packet capture: src/internal/capture.go

    A diagnostic that listens on the network interface of a replica, puts together the
    TCP streams that it sends to other replicas, and prints the Raft requests on them,
    with host names in place of addresses. libpcap, gopacket, the resolver, msgpack and
    the types of hashicorp/raft are the class [Capture]. The package keeps one cache of
    host names; what it prints is part of the state, and so is the list of questions that
    the resolver was asked. A stream is read by a goroutine of its own, which is
    queued when it is started. *)

From Stdlib Require Import Ascii.
From S2P Require Import Prelude Protos IpRegex.

(** ** Data of the libraries *)

(** What [ReadByte] yields. *)
Inductive read_result := Byte (b : Z) | EOF | ReadErr (e : error).

(** [raft.Log], the fields that are printed; [Data] is decoded according to [Type]. *)
Record RaftLog (LogType bytes : Type) := {
  log_Index : Z; log_Term : Z; log_Type : LogType; log_Data : bytes
}.
Arguments log_Index {_ _} _.
Arguments log_Term {_ _} _.
Arguments log_Type {_ _} _.
Arguments log_Data {_ _} _.

(** The entries are pointers. *)
Record AppendEntriesRequest (LogType bytes : Type) := {
  ae_Term : Z; ae_Leader : string; ae_PrevLogEntry : Z; ae_PrevLogTerm : Z;
  ae_Entries : list (option (RaftLog LogType bytes)); ae_LeaderCommitIndex : Z
}.
Arguments ae_Term {_ _} _.
Arguments ae_Leader {_ _} _.
Arguments ae_PrevLogEntry {_ _} _.
Arguments ae_PrevLogTerm {_ _} _.
Arguments ae_Entries {_ _} _.
Arguments ae_LeaderCommitIndex {_ _} _.

Record RequestVoteRequest := {
  rv_Term : Z; rv_Candidate : string; rv_LastLogIndex : Z; rv_LastLogTerm : Z;
  rv_LeadershipTransfer : bool
}.

Record InstallSnapshotRequest (bytes : Type) := {
  is_SnapshotVersion : Z; is_Term : Z; is_Leader : string; is_LastLogIndex : Z;
  is_LastLogTerm : Z; is_Configuration : bytes; is_ConfigurationIndex : Z; is_Size : Z
}.
Arguments is_SnapshotVersion {_} _.
Arguments is_Term {_} _.
Arguments is_Leader {_} _.
Arguments is_LastLogIndex {_} _.
Arguments is_LastLogTerm {_} _.
Arguments is_Configuration {_} _.
Arguments is_ConfigurationIndex {_} _.
Arguments is_Size {_} _.

(** [raft.Server] with its suffrage, in the order of the fields of the struct. *)
Record ConfServer (Suffrage : Type) := {
  cs_Suffrage : Suffrage; cs_ID : string; cs_Address : string
}.
Arguments cs_Suffrage {_} _.
Arguments cs_ID {_} _.
Arguments cs_Address {_} _.

(** What [select] picks: the context is done, a packet ([None] from a closed channel),
    or a tick. *)
Inductive capture_event (Packet : Type) := Done | Received (p : option Packet) | Tick.
Arguments Done {_}.
Arguments Received {_} p.
Arguments Tick {_}.

Class Capture `{!Proto} (E : Type) := {
  (** raft *)
  LogType : Type;
  LogType_eq_dec :: EqDecision LogType;
  LogCommand : LogType;
  LogConfiguration : LogType;
  LogType_String : LogType -> string;
  Suffrage : Type;
  Suffrage_String : Suffrage -> string;
  (** [raft.DecodeConfiguration]; it panics where this yields [None]. *)
  DecodeConfiguration : bytes -> option (list (ConfServer Suffrage));
  (** protobuf: the text of a message, and what a failed [Unmarshal] leaves in it *)
  KVFSMLogEntry_String : KVFSMLogEntry -> string;
  Unmarshal_leaves : bytes -> KVFSMLogEntry;
  (** the resolver *)
  LookupAddr : string -> E -> E * res (list string);
  (** gopacket *)
  Flow : Type;
  Flow_Dst_String : Flow -> string;
  Reader : Type;
  NewReaderStream : E -> E * Reader;
  ReadByte : Reader -> E -> E * read_result;
  (** msgpack, reading on from the stream *)
  Decode_AppendEntries : Reader -> E -> E * res (AppendEntriesRequest LogType bytes);
  Decode_RequestVote : Reader -> E -> E * res RequestVoteRequest;
  Decode_InstallSnapshot : Reader -> E -> E * res (InstallSnapshotRequest bytes);
  Decode_TimeoutNow : Reader -> E -> E * gerror;
  (** libpcap and the assembly of TCP streams *)
  Handle : Type;
  OpenLive : string -> Z -> bool -> E -> E * res Handle;
  SetBPFFilter : Handle -> string -> E -> E * gerror;
  Handle_Close : Handle -> E -> E;
  Packet : Type;
  TCP : Type;
  Packet_TCP : Packet -> option TCP;
  (** [NetworkLayer().NetworkFlow()], or [None] without a network layer *)
  Packet_NetworkFlow : Packet -> option Flow;
  select : Handle -> E -> E * capture_event Packet;
  (** yields the streams, by their network and transport flows, that were not known
      before, for each of which the pool calls the factory *)
  AssembleWithTimestamp : Flow -> TCP -> E -> E * list (Flow * Flow);
  FlushOlderThan : Z -> E -> E
}.

(** ** State *)

(** [log.Printf] writes to the standard error, [fmt.Printf] to the standard output. *)
Inductive printed := Stderr (line : string) | Stdout (text : string).

Section capture.
Context `{!Proto} {E : Type} `{!Capture E}.

Record tcpStream := { ts_net : Flow; ts_transport : Flow; ts_r : Reader }.

(** [c_asked]: the addresses that the resolver was asked for; [c_go]: the goroutines
    that were started. *)
Record Cap := {
  c_env : E;
  hostnameCache : gmap string string;
  c_asked : list string;
  c_out : list printed;
  c_go : list tcpStream
}.

Definition set_c_env (e : E) (c : Cap) : Cap :=
  {| c_env := e; hostnameCache := hostnameCache c; c_asked := c_asked c;
     c_out := c_out c; c_go := c_go c |}.
Definition set_cache (h : gmap string string) (c : Cap) : Cap :=
  {| c_env := c_env c; hostnameCache := h; c_asked := c_asked c;
     c_out := c_out c; c_go := c_go c |}.
Definition asked (ip : string) (c : Cap) : Cap :=
  {| c_env := c_env c; hostnameCache := hostnameCache c; c_asked := c_asked c ++ [ip];
     c_out := c_out c; c_go := c_go c |}.
Definition print (x : printed) (c : Cap) : Cap :=
  {| c_env := c_env c; hostnameCache := hostnameCache c; c_asked := c_asked c;
     c_out := c_out c ++ [x]; c_go := c_go c |}.
Definition spawn (t : tcpStream) (c : Cap) : Cap :=
  {| c_env := c_env c; hostnameCache := hostnameCache c; c_asked := c_asked c;
     c_out := c_out c; c_go := c_go c ++ [t] |}.

(** A call of a library. *)
Definition lib {A} (f : E -> E * A) : M Cap A := fun c =>
  let (e', a) := f (c_env c) in (set_c_env e' c, Ret a).

Definition log_Printf (line : string) : M Cap unit := modify (print (Stderr line)).

(** ** Host names *)

Definition getHostFromIp (ip : string) : M Cap string :=
  modify (asked ip) ;;;
  host <- lib (LookupAddr ip) ;;
  match host with
  | Err _ => ret ip
  | Ok (h :: _) => ret h
  | Ok [] => crash "index out of range"
  end.

(** [strings.HasSuffix]. *)
Fixpoint HasSuffix (s suffix : string) : bool :=
  if decide (s = suffix) then true
  else match s with EmptyString => false | String _ s' => HasSuffix s' suffix end.

(** [strings.Replace(s, old, "", 1)] for an [old] that is not empty: the first
    occurrence is left out. *)
Fixpoint remove_first (s old : string) : string :=
  if String.prefix old s then
    String.substring (String.length old) (String.length s - String.length old) s
  else match s with EmptyString => "" | String c s' => String c (remove_first s' old) end.

Definition service_suffix : string := ".kvs.svc.localho.st.".

(** The function that is handed to [ReplaceAllStringFunc]. *)
Definition hostname_of (ip : string) : M Cap string :=
  c <- get ;;
  match hostnameCache c !! ip with
  | Some hostname => ret hostname
  | None =>
      hostname <- getHostFromIp ip ;;
      let hostname := if HasSuffix hostname service_suffix
                      then remove_first hostname service_suffix else hostname in
      modify (fun c => set_cache (<[ip := hostname]> (hostnameCache c)) c) ;;;
      ret hostname
  end.

Definition replaceIpsWithHostnames (s : string) : M Cap string :=
  ReplaceAllStringFunc ipRegex s hostname_of.

(** ** Printing requests *)

Definition nl : string := String "010" "".

(** [fmt.Sprintf("%d\n", n)], with what is put in front of it. *)
Definition dec (label : string) (n : Z) : string := label +:+ itoa n +:+ nl.
Definition str (label x : string) : string := label +:+ x +:+ nl.

Definition print_server (i : nat) (server : ConfServer Suffrage) : string :=
  "        Server " +:+ itoa (Z.of_nat i) +:+ ":" +:+ nl +:+
  str "          ID: " (cs_ID server) +:+
  str "          Address: " (cs_Address server) +:+
  str "          Suffrage: " (Suffrage_String (cs_Suffrage server)).

(** The entry number [i]; a [nil] entry is dereferenced. *)
Definition print_entry (i : nat) (entry : option (RaftLog LogType bytes)) : M Cap string :=
  match entry with
  | None => crash "nil pointer dereference"
  | Some entry =>
      let logString :=
        "    Entry " +:+ itoa (Z.of_nat i) +:+ ":" +:+ nl +:+
        dec "      Index: " (log_Index entry) +:+
        dec "      Term: " (log_Term entry) +:+
        str "      Type: " (LogType_String (log_Type entry)) in
      if decide (log_Type entry = LogCommand) then
        kvLogEntry <-
          match Unmarshal_KVFSMLogEntry (log_Data entry) with
          | Ok kvLogEntry => ret kvLogEntry
          | Err err =>
              modify (print (Stdout
                ("Failed to unmarshal KVFSMLogEntry: " +:+ Error err))) ;;;
              ret (Unmarshal_leaves (log_Data entry))
          end ;;
        ret (logString +:+ str "      Data: " (KVFSMLogEntry_String kvLogEntry))
      else if decide (log_Type entry = LogConfiguration) then
        match DecodeConfiguration (log_Data entry) with
        | None => crash "failed to decode configuration"
        | Some servers =>
            ret (logString +:+ "      Data:" +:+ nl +:+
                 String.concat "" (imap print_server servers))
        end
      else ret logString
  end.

(** The loop over the entries, [i] being the number of the next one. *)
Fixpoint print_entries (i : nat) (entries : list (option (RaftLog LogType bytes)))
    : M Cap string :=
  match entries with
  | [] => ret ""
  | entry :: entries' =>
      a <- print_entry i entry ;;
      b <- print_entries (S i) entries' ;;
      ret (a +:+ b)
  end.

Definition appendEntriesToString (r : AppendEntriesRequest LogType bytes) : M Cap string :=
  leader <- replaceIpsWithHostnames (ae_Leader r) ;;
  entries <- print_entries 0 (ae_Entries r) ;;
  ret (dec "  Term: " (ae_Term r) +:+
       str "  Leader: " leader +:+
       dec "  PrevLogEntry: " (ae_PrevLogEntry r) +:+
       dec "  PrevLogTerm: " (ae_PrevLogTerm r) +:+
       dec "  LeaderCommitIndex: " (ae_LeaderCommitIndex r) +:+
       "  Entries:" +:+ nl +:+ entries).

Definition requestVoteToString (r : RequestVoteRequest) : M Cap string :=
  candidate <- replaceIpsWithHostnames (rv_Candidate r) ;;
  ret (dec "  Term: " (rv_Term r) +:+
       str "  Candidate: " candidate +:+
       dec "  LastLogIndex: " (rv_LastLogIndex r) +:+
       dec "  LastLogTerm: " (rv_LastLogTerm r) +:+
       str "  LeadershipTransfer: " (if rv_LeadershipTransfer r then "true" else "false")).

(** The verb [%v] at a configuration, a struct with a slice of structs. *)
Definition show_configuration (servers : list (ConfServer Suffrage)) : string :=
  "{[" +:+
  String.concat " " (map (fun s =>
    "{" +:+ Suffrage_String (cs_Suffrage s) +:+ " " +:+ cs_ID s +:+ " " +:+
    cs_Address s +:+ "}") servers) +:+
  "]}".

Definition installSnapshotToString (r : InstallSnapshotRequest bytes) : M Cap string :=
  match DecodeConfiguration (is_Configuration r) with
  | None => crash "failed to decode configuration"
  | Some config =>
      leader <- replaceIpsWithHostnames (is_Leader r) ;;
      ret (dec "  Term: " (is_Term r) +:+
           str "  Leader: " leader +:+
           dec "  SnapshotVersion: " (is_SnapshotVersion r) +:+
           dec "  LastLogIndex: " (is_LastLogIndex r) +:+
           dec "  LastLogTerm: " (is_LastLogTerm r) +:+
           str "  Configuration: " (show_configuration config) +:+
           dec "  ConfigurationIndex: " (is_ConfigurationIndex r) +:+
           dec "  Size: " (is_Size r))
  end.

(** ** Reading a stream *)

Definition rpcAppendEntries : Z := 0.
Definition rpcRequestVote : Z := 1.
Definition rpcInstallSnapshot : Z := 2.
Definition rpcTimeoutNow : Z := 3.

(** The receiver of the stream, as it is printed. *)
Definition dst (t : tcpStream) : M Cap string :=
  replaceIpsWithHostnames (Flow_Dst_String (ts_net t)).

(** The request that follows its type. *)
Definition run_request (t : tcpStream) (rpcType : Z) : M Cap unit :=
  if decide (rpcType = rpcAppendEntries) then
    req <- lib (Decode_AppendEntries (ts_r t)) ;;
    match req with
    | Err err => log_Printf ("Failed to decode AppendEntriesRequest: " +:+ Error err)
    | Ok req =>
        match ae_Entries req with
        | [] => d <- dst t ;; log_Printf ("Sending heartbeat to " +:+ d)
        | _ =>
            d <- dst t ;;
            text <- appendEntriesToString req ;;
            log_Printf ("Sending AppendEntriesRequest to " +:+ d +:+ ":" +:+ nl +:+ text)
        end
    end
  else if decide (rpcType = rpcRequestVote) then
    req <- lib (Decode_RequestVote (ts_r t)) ;;
    match req with
    | Err err => log_Printf ("Failed to decode RequestVoteRequest: " +:+ Error err)
    | Ok req =>
        d <- dst t ;;
        text <- requestVoteToString req ;;
        log_Printf ("Sending RequestVoteRequest to " +:+ d +:+ ":" +:+ nl +:+ text)
    end
  else if decide (rpcType = rpcInstallSnapshot) then
    req <- lib (Decode_InstallSnapshot (ts_r t)) ;;
    match req with
    | Err err => log_Printf ("Failed to decode InstallSnapshotRequest: " +:+ Error err)
    | Ok req =>
        d <- dst t ;;
        text <- installSnapshotToString req ;;
        log_Printf ("Sending InstallSnapshotRequest to " +:+ d +:+ ":" +:+ nl +:+ text)
    end
  else if decide (rpcType = rpcTimeoutNow) then
    err <- lib (Decode_TimeoutNow (ts_r t)) ;;
    match err with
    | Some err => log_Printf ("Failed to decode TimeoutNowRequest: " +:+ Error err)
    | None => d <- dst t ;; log_Printf ("Sending TimeoutNowRequest " +:+ d)
    end
  else log_Printf ("Unknown RPC type: " +:+ itoa rpcType).

(** One round of the loop; [Some tt] leaves it. *)
Definition run_round (t : tcpStream) : M Cap (option unit) :=
  rpcType <- lib (ReadByte (ts_r t)) ;;
  match rpcType with
  | EOF => ret (Some tt)
  | ReadErr err => log_Printf ("Failed to read RPC type: " +:+ Error err) ;;; ret None
  | Byte rpcType => run_request t rpcType ;;; ret None
  end.

Definition tcpStream_run (fuel : nat) (t : tcpStream) : M Cap unit :=
  loop fuel (run_round t).

(** ** Capturing packets *)

Definition tcpStreamFactory_New (net transport : Flow) : M Cap Reader :=
  r <- lib NewReaderStream ;;
  modify (spawn {| ts_net := net; ts_transport := transport; ts_r := r |}) ;;;
  ret r.

(** One round of the [select]; times are in minutes. *)
Definition capture_round (handle : Handle) : M Cap (option unit) :=
  ev <- lib (select handle) ;;
  match ev with
  | Done => log_Printf "Packet capture context cancelled, exiting" ;;; ret (Some tt)
  | Received None => crash "nil pointer dereference"
  | Received (Some p) =>
      match Packet_TCP p with
      | None => ret None
      | Some tcp =>
          match Packet_NetworkFlow p with
          | None => crash "nil pointer dereference"
          | Some flow =>
              streams <- lib (AssembleWithTimestamp flow tcp) ;;
              for_each streams (fun nt => tcpStreamFactory_New nt.1 nt.2 ;;; ret tt) ;;;
              ret None
          end
      end
  | Tick => lib (fun e => (FlushOlderThan (-2) e, tt)) ;;; ret None
  end.

(** [log.Fatal] ends the process without running what was deferred. *)
Definition RunPacketCapture (fuel : nat) (srcIp dstPort : string) : M Cap unit :=
  handle <- lib (OpenLive "eth0" 1600 true) ;;
  match handle with
  | Err _ => log_Printf "Failed to create packet capture handle" ;;; crash "os.Exit(1)"
  | Ok sourceHandle =>
      err <- lib (SetBPFFilter sourceHandle
        ("src host " +:+ srcIp +:+ " and tcp dst port " +:+ dstPort)) ;;
      match err with
      | Some _ => log_Printf "Failed to set BPF filter" ;;; crash "os.Exit(1)"
      | None =>
          deferred (fun c => set_c_env (Handle_Close sourceHandle (c_env c)) c)
            (loop fuel (capture_round sourceHandle))
      end
  end.

End capture.
Arguments Cap {_} E {_}.
Arguments tcpStream {_} E {_}.
