(* ===== verification/CaptureProps.v ===== *)
(** * The packet capture: theorems

    Addresses are found and replaced as the pattern says; the resolver is asked at most
    once for an address, in whatever order the goroutines of the streams take turns; the
    goroutine of a stream ends with the stream. *)

From Stdlib Require Import Ascii.
From S2P Require Import Prelude Protos Sim IpRegex Capture.

(** ** The state of the cache *)

Section cache.
Context `{!Proto} {E : Type} `{!Capture E}.
Implicit Types (c : Cap E) (P : Cap E -> Prop).

(** The cache holds what the resolver was asked for, and nothing was asked twice. *)
Definition cache_inv c : Prop :=
  NoDup (c_asked c) /\ forall ip, ip ∈ c_asked c <-> is_Some (hostnameCache c !! ip).

Definition asked_once c : Prop := NoDup (c_asked c).

(** [P] speaks of the cache and of the questions only. *)
Definition about_cache P : Prop := forall c c',
  hostnameCache c = hostnameCache c' -> c_asked c = c_asked c' -> P c -> P c'.

(** A computation that keeps [P], and [C] if it is cut short. *)
Definition keeps {A} P (C : Cap E -> Prop) (m : M (Cap E) A) : Prop :=
  triple P m (fun _ => P) C.

Lemma keeps_bind {A B} P C (m : M (Cap E) A) (f : A -> M (Cap E) B) :
  keeps P C m -> (forall a, keeps P C (f a)) -> keeps P C (bind m f).
Proof. apply triple_bind. Qed.

Lemma keeps_ret {A} P C (a : A) : keeps P C (ret a).
Proof. by intros c Hc. Qed.

Lemma keeps_crash {A} P (C : Cap E -> Prop) why :
  (forall c, P c -> C c) -> keeps P C (crash (A := A) why).
Proof. intros HC c Hc. by apply HC. Qed.

Lemma keeps_lib {A} P C (f : E -> E * A) : about_cache P -> keeps P C (lib f).
Proof.
  intros HP c Hc. unfold lib. destruct (f (c_env c)). by eapply HP, Hc.
Qed.

Lemma keeps_print P C x : about_cache P -> keeps P C (modify (print x)).
Proof. intros HP c Hc. by eapply HP, Hc. Qed.

Lemma keeps_spawn P C t : about_cache P -> keeps P C (modify (spawn t)).
Proof. intros HP c Hc. by eapply HP, Hc. Qed.

Lemma keeps_for_each {A} P C (l : list A) body :
  (forall x, keeps P C (body x)) -> keeps P C (for_each l body).
Proof.
  intros Hb. induction l as [|x l IH]; simpl; [apply keeps_ret|].
  apply keeps_bind; [apply Hb|]. intros _. apply IH.
Qed.

Lemma keeps_loop {A} P (C : Cap E -> Prop) n (body : M (Cap E) (option A)) :
  (forall c, P c -> C c) -> keeps P C body -> keeps P C (loop n body).
Proof.
  intros HC Hb. induction n as [|n IH]; simpl; [intros c Hc; by apply HC|].
  apply keeps_bind; [done|]. intros [a|]; [apply keeps_ret|done].
Qed.

End cache.

Create HintDb capture.
#[export] Hint Resolve keeps_bind keeps_ret keeps_crash keeps_lib keeps_print : capture.
#[export] Hint Resolve keeps_spawn keeps_for_each keeps_loop : capture.

(** Runs through the code of the capture with the hints. *)
Ltac cap_keeps :=
  repeat first
    [ match goal with
      | |- keeps _ _ (match ?x with _ => _ end) => destruct x
      | |- keeps _ _ (bind _ _) => apply keeps_bind; [|intros ?]
      end
    | solve [eauto with capture] ].

(** Everything but the naming of an address leaves the cache alone: what the naming
    keeps, the whole capture keeps. *)
Section naming.
Context `{!Proto} {E : Type} `{!Capture E}.
Context (P C : Cap E -> Prop) (HP : about_cache P) (HC : forall c, P c -> C c).
Context (Hname : forall ip, keeps P C (hostname_of ip)).

Lemma keeps_replace s : keeps P C (replaceIpsWithHostnames s).
Proof.
  destruct (cut_exists s) as [ps Hps].
  unfold replaceIpsWithHostnames, ReplaceAllStringFunc.
  rewrite (replace_all_cut _ _ _ Hps). clear s Hps.
  induction ps as [|[a|m] ps IH]; simpl; cap_keeps.
Qed.
#[local] Hint Resolve keeps_replace : capture.

Lemma keeps_print_entries i es : keeps P C (print_entries i es).
Proof.
  revert i. induction es as [|x es IH]; intros i; simpl; [apply keeps_ret|].
  unfold print_entry. cap_keeps.
Qed.
#[local] Hint Resolve keeps_print_entries : capture.

Lemma keeps_run_request t n : keeps P C (run_request t n).
Proof.
  unfold run_request, log_Printf, dst, appendEntriesToString, requestVoteToString,
    installSnapshotToString. cap_keeps.
Qed.
#[local] Hint Resolve keeps_run_request : capture.

Lemma keeps_run_round t : keeps P C (run_round t).
Proof. unfold run_round, log_Printf. cap_keeps. Qed.

Lemma keeps_capture_round h : keeps P C (capture_round h).
Proof.
  unfold capture_round, tcpStreamFactory_New, log_Printf. cap_keeps.
  apply keeps_for_each. intros nt. cap_keeps.
Qed.

End naming.

(** ** Turns of goroutines *)

Section turns.
Context `{!Proto} {E : Type} `{!Capture E}.
Implicit Types (c : Cap E).

(** A round of the goroutine that reads a stream, or of the loop over packets. *)
Inductive turn := StreamTurn (t : tcpStream E) | PacketTurn (h : Handle).

Definition take_turn (x : turn) : M (Cap E) unit :=
  match x with
  | StreamTurn t => run_round t ;;; ret tt
  | PacketTurn h => capture_round h ;;; ret tt
  end.

Definition take_turns (l : list turn) : M (Cap E) unit := for_each l take_turn.

Lemma keeps_take_turns (P C : Cap E -> Prop) l :
  about_cache P -> (forall c, P c -> C c) -> (forall ip, keeps P C (hostname_of ip)) ->
  keeps P C (take_turns l).
Proof.
  intros HP HC Hname. apply keeps_for_each. intros [t|h]; simpl.
  - apply keeps_bind; [by apply keeps_run_round|intros _; apply keeps_ret].
  - apply keeps_bind; [by apply keeps_capture_round|intros _; apply keeps_ret].
Qed.

Lemma about_cache_inv : about_cache cache_inv.
Proof. intros c c' Hh Ha. unfold cache_inv. by rewrite Hh, Ha. Qed.

(** What naming an address that is not in the cache does. *)
Lemma hostname_of_fresh ip c : hostnameCache c !! ip = None ->
  exists e', hostname_of ip c = (set_c_env e' (asked ip c), Crash "index out of range") \/
  exists h, hostname_of ip c =
    (set_cache (<[ip := h]> (hostnameCache c)) (set_c_env e' (asked ip c)), Ret h).
Proof.
  intros Hip. unfold hostname_of, getHostFromIp, bind, get, modify, lib, ret.
  rewrite Hip. simpl. destruct (LookupAddr ip (c_env c)) as [e' [[|h l]|err]];
    exists e'; [by left|right..]; simpl.
  - exists (if HasSuffix h service_suffix then remove_first h service_suffix else h).
    by destruct (HasSuffix h service_suffix).
  - exists (if HasSuffix ip service_suffix then remove_first ip service_suffix else ip).
    by destruct (HasSuffix ip service_suffix).
Qed.

Lemma hostname_of_cached ip h c :
  hostnameCache c !! ip = Some h -> hostname_of ip c = (c, Ret h).
Proof. intros Hip. unfold hostname_of, bind, get. by rewrite Hip. Qed.

Lemma hostname_of_inv ip : keeps cache_inv asked_once (hostname_of ip).
Proof.
  intros c [Hnd Hin]. destruct (hostnameCache c !! ip) as [h|] eqn:Hip.
  { rewrite (hostname_of_cached _ _ _ Hip). by split. }
  assert (Hnd' : NoDup (c_asked c ++ [ip])).
  { apply NoDup_app. split_and!; [done| |apply NoDup_singleton].
    intros x Hx ->%list_elem_of_singleton. apply Hin in Hx as [? ?]. congruence. }
  destruct (hostname_of_fresh ip c Hip) as [e' [->|[h ->]]]; [done|].
  split; [done|]. intros ip'. simpl.
  rewrite elem_of_app, list_elem_of_singleton, Hin.
  destruct (decide (ip' = ip)) as [->|Hne].
  - rewrite lookup_insert_eq. split; [by eauto|by right].
  - rewrite lookup_insert_ne by done. split; [by intros [|]|by left].
Qed.

(** The cache holds [ip], named [h]. *)
Definition named (ip h : string) c : Prop := hostnameCache c !! ip = Some h.

Lemma hostname_of_named ip h ip' : keeps (named ip h) (named ip h) (hostname_of ip').
Proof.
  intros c Hip. destruct (hostnameCache c !! ip') as [h'|] eqn:Hip'.
  { by rewrite (hostname_of_cached _ _ _ Hip'). }
  destruct (hostname_of_fresh ip' c Hip') as [e' [->|[h' ->]]]; [done|].
  unfold named in *. simpl. rewrite lookup_insert_ne by congruence. done.
Qed.

Lemma hostname_of_names ip c c' h : hostname_of ip c = (c', Ret h) -> named ip h c'.
Proof.
  intros Hrun. destruct (hostnameCache c !! ip) as [h'|] eqn:Hip.
  - rewrite (hostname_of_cached _ _ _ Hip) in Hrun. by simplify_eq.
  - destruct (hostname_of_fresh ip c Hip) as [e' [Hr|[h' Hr]]];
      rewrite Hr in Hrun; simplify_eq. apply lookup_insert_eq.
Qed.

(** C36: The addresses in a text are replaced as the pattern says: there is exactly
    one way to cut the text at the longest dotted addresses from left to right, and the
    result, with every effect on the cache and the resolver, is that of naming the
    addresses of this cut in their order and keeping the characters between them. *)
Theorem replacement_follows_cut s :
  exists ps, cut s ps /\ (forall ps', cut s ps' -> ps' = ps) /\
    forall c, replaceIpsWithHostnames s c = render hostname_of ps c.
Proof.
  destruct (cut_exists s) as [ps Hps]. exists ps. split_and!; [done| |].
  - intros ps' Hps'. by eapply cut_unique.
  - intros c. unfold replaceIpsWithHostnames, ReplaceAllStringFunc.
    by rewrite (replace_all_cut _ _ _ Hps).
Qed.

(** The cache works: from a start with an empty cache, in whatever order the
    goroutines of the streams and the loop over packets take their rounds, and
    whether or not one of them panics, the resolver is asked at most once for an address;
    and an address that was given a name keeps it, without a further question. *)
Theorem resolver_asked_once l c c1 o :
  hostnameCache c = ∅ -> c_asked c = [] -> take_turns l c = (c1, o) ->
  NoDup (c_asked c1) /\
  forall ip c2 h l' c3, hostname_of ip c1 = (c2, Ret h) ->
    (take_turns l' c2).1 = c3 -> hostname_of ip c3 = (c3, Ret h).
Proof.
  intros Hh Ha Hrun.
  assert (Hinv : cache_inv c).
  { split; [rewrite Ha; constructor|]. intros ip. rewrite Hh, Ha, lookup_empty.
    rewrite elem_of_nil. split; [done|by intros []]. }
  split.
  - pose proof (triple_run _ _ _ _ _ _ _ (keeps_take_turns cache_inv asked_once l
      about_cache_inv (fun c Hc => proj1 Hc) hostname_of_inv) Hinv Hrun) as Hc1.
    destruct o; [apply Hc1|done|done].
  - intros ip c2 h l' c3 Hname <-. apply hostname_of_cached.
    destruct (take_turns l' c2) as [c3 o3] eqn:Hrun'.
    assert (Hk : keeps (named ip h) (named ip h) (take_turns l')).
    { apply keeps_take_turns; [|done|apply hostname_of_named].
      intros x y Hxy _. unfold named. by rewrite Hxy. }
    apply (preserves_run _ _ _ _ _ Hk (hostname_of_names _ _ _ _ Hname) Hrun').
Qed.

End turns.

(** ** Streams end *)

(** What tcpreader documents of [Read], for a stream that its sender closes: it copies
    bytes or reports the end, and no other error; [unread] is the number of bytes
    still to come. Decoding and asking the resolver do not put bytes back. *)
Class ClosedStreams `{!Proto} (E : Type) `{!Capture E} := {
  unread : Reader -> E -> nat;
  ReadByte_unread : forall r e,
    match ReadByte r e with
    | (e', Byte _) => unread r e' < unread r e
    | (_, EOF) => True
    | (_, ReadErr _) => False
    end;
  AppendEntries_unread : forall r e, unread r (Decode_AppendEntries r e).1 <= unread r e;
  RequestVote_unread : forall r e, unread r (Decode_RequestVote r e).1 <= unread r e;
  InstallSnapshot_unread : forall r e,
    unread r (Decode_InstallSnapshot r e).1 <= unread r e;
  TimeoutNow_unread : forall r e, unread r (Decode_TimeoutNow r e).1 <= unread r e;
  LookupAddr_unread : forall r ip e, unread r (LookupAddr ip e).1 <= unread r e
}.

(** Traffic at which nothing panics: configurations decode, entries are not [nil], and
    the resolver does not answer with an empty list. *)
Class SoundTraffic `{!Proto} (E : Type) `{!Capture E} : Prop := {
  DecodeConfiguration_total : forall b, is_Some (DecodeConfiguration b);
  entries_present : forall r e e' req,
    Decode_AppendEntries r e = (e', Ok req) -> Forall is_Some (ae_Entries req);
  names_present : forall ip e, (LookupAddr ip e).2 <> Ok []
}.

Section streams.
Context `{!Proto} {E : Type} `{!Capture E, !ClosedStreams E, !SoundTraffic E}.
Implicit Types (c : Cap E) (t : tcpStream E).

(** At most [n] bytes of [r] are to come. *)
Definition left_at_most (r : Reader) (n : nat) c : Prop := unread r (c_env c) <= n.

(** A computation that returns and puts no bytes back. *)
Definition returns (r : Reader) {A} (m : M (Cap E) A) : Prop :=
  forall n, keeps (left_at_most r n) (fun _ => False) m.

Lemma returns_bind r {A B} (m : M (Cap E) A) (f : A -> M (Cap E) B) :
  returns r m -> (forall a, returns r (f a)) -> returns r (bind m f).
Proof. intros Hm Hf n. apply keeps_bind; [done|]. intros a. apply Hf. Qed.

Lemma returns_ret r {A} (a : A) : returns r (ret a).
Proof. intros n. apply keeps_ret. Qed.

Lemma returns_lib r {A} (f : E -> E * A) :
  (forall e, unread r (f e).1 <= unread r e) -> returns r (lib f).
Proof.
  intros Hf n c Hc. specialize (Hf (c_env c)). unfold lib.
  destruct (f (c_env c)). unfold left_at_most in *. simpl in *. lia.
Qed.

Lemma returns_modify r (f : Cap E -> Cap E) :
  (forall c, c_env (f c) = c_env c) -> returns r (modify f).
Proof. intros Hf n c Hc. unfold left_at_most. simpl. by rewrite Hf. Qed.

Lemma returns_print r x : returns r (modify (print x)).
Proof. by apply returns_modify. Qed.

Lemma returns_hostname_of r ip : returns r (hostname_of ip).
Proof.
  intros n c Hc. unfold hostname_of, getHostFromIp, bind, get, modify, lib, ret.
  destruct (hostnameCache c !! ip) as [h|]; [done|].
  pose proof (LookupAddr_unread r ip (c_env (asked ip c))) as Hle.
  pose proof (names_present ip (c_env (asked ip c))) as Hne.
  unfold left_at_most in *.
  destruct (LookupAddr ip (c_env (asked ip c))) as [e' [[|h l]|err]]; simpl in *;
    [done|lia|lia].
Qed.

Lemma returns_replace r s : returns r (replaceIpsWithHostnames s).
Proof.
  destruct (cut_exists s) as [ps Hps].
  unfold replaceIpsWithHostnames, ReplaceAllStringFunc.
  rewrite (replace_all_cut _ _ _ Hps). clear s Hps.
  induction ps as [|[a|m] ps IH]; simpl;
    eauto using returns_bind, returns_ret, returns_hostname_of.
Qed.

#[local] Hint Resolve returns_ret returns_print returns_replace : capture.

#[local] Ltac cap_returns :=
  repeat first
    [ match goal with
      | |- returns _ (match ?x with _ => _ end) => destruct x
      | |- returns _ (bind _ _) => apply returns_bind; [|intros ?]
      end
    | solve [eauto with capture] ].

Lemma returns_print_entries r i es :
  Forall is_Some es -> returns r (print_entries i es).
Proof.
  intros Hes. revert i. induction Hes as [|x es [y ->] Hes IH]; intros i; simpl;
    [apply returns_ret|].
  unfold print_entry. destruct (DecodeConfiguration_total (log_Data y)) as [servers ->].
  cap_returns.
Qed.

Lemma returns_appendEntriesToString r req :
  Forall is_Some (ae_Entries req) -> returns r (appendEntriesToString req).
Proof.
  intros Hes. unfold appendEntriesToString.
  apply returns_bind; [apply returns_replace|intros leader].
  apply returns_bind; [by apply returns_print_entries|intros es]. apply returns_ret.
Qed.

Lemma returns_installSnapshotToString r req : returns r (installSnapshotToString req).
Proof.
  unfold installSnapshotToString.
  destruct (DecodeConfiguration_total (is_Configuration req)) as [servers ->].
  cap_returns.
Qed.
#[local] Hint Resolve returns_installSnapshotToString : capture.

(** The request that was decoded, with what is known of its entries. *)
Lemma returns_append_entries r r' {B} (f : res (AppendEntriesRequest LogType bytes) ->
    M (Cap E) B) :
  (forall e, unread r (Decode_AppendEntries r' e).1 <= unread r e) ->
  (forall err, returns r (f (Err err))) ->
  (forall req, Forall is_Some (ae_Entries req) -> returns r (f (Ok req))) ->
  returns r (bind (lib (Decode_AppendEntries r')) f).
Proof.
  intros Hle Herr Hok n c Hc. unfold bind, lib. specialize (Hle (c_env c)).
  destruct (Decode_AppendEntries r' (c_env c)) as [e' [req|err]] eqn:Hdec.
  - apply Hok; [by eapply entries_present|]. unfold left_at_most in *. simpl in *. lia.
  - apply Herr. unfold left_at_most in *. simpl in *. lia.
Qed.

Lemma returns_run_request t rpcType : returns (ts_r t) (run_request t rpcType).
Proof.
  pose proof (RequestVote_unread (ts_r t)) as Hrv.
  pose proof (InstallSnapshot_unread (ts_r t)) as His.
  pose proof (TimeoutNow_unread (ts_r t)) as Htn.
  unfold run_request, log_Printf, dst, requestVoteToString.
  case_decide; [|cap_returns; by apply returns_lib].
  apply returns_append_entries;
    [apply AppendEntries_unread|intros err; apply returns_print|].
  intros req Hes. destruct (ae_Entries req) as [|x es] eqn:Heq; [cap_returns|].
  rewrite <- Heq in Hes. pose proof (returns_appendEntriesToString (ts_r t) req Hes).
  cap_returns.
Qed.

(** A round leaves the loop, or has taken a byte. *)
Lemma run_round_takes t n c :
  unread (ts_r t) (c_env c) <= n ->
  exists c' o, run_round t c = (c', Ret o) /\
    (o = None -> unread (ts_r t) (c_env c') < n).
Proof.
  intros Hn. unfold run_round, bind at 1, lib.
  pose proof (ReadByte_unread (ts_r t) (c_env c)) as Hrd.
  destruct (ReadByte (ts_r t) (c_env c)) as [e' [b| |err]];
    [|by exists (set_c_env e' c), (Some tt)|done].
  pose proof (returns_run_request t b (pred n) (set_c_env e' c)) as Hreq.
  unfold left_at_most, bind in *. simpl in *.
  destruct (run_request t b (set_c_env e' c)) as [c' [[]|why|]]; [|lia..].
  exists c', None. split; [done|]. lia.
Qed.

(** The goroutine that reads a stream ends: for a stream that its sender closes,
    and traffic on which the decoders do not panic, the loop returns, within as many
    rounds as there are bytes to come, and one. *)
Theorem stream_run_returns t c fuel :
  unread (ts_r t) (c_env c) < fuel ->
  exists c', tcpStream_run fuel t c = (c', Ret tt).
Proof.
  unfold tcpStream_run. revert c. induction fuel as [|fuel IH]; intros c Hlt; [lia|].
  destruct (run_round_takes t fuel c) as (c' & o & Hrun & Ho); [lia|].
  simpl. rewrite (bind_Ret _ _ _ _ _ Hrun).
  destruct o as [[]|]; [by exists c'|]. apply IH. by apply Ho.
Qed.

End streams.

(** ** A concrete capture *)

(** What is on the wire: the type of a request, or its body. *)
Inductive sim_wire :=
| WType (b : Z)
| WAppend (req : AppendEntriesRequest Z (KVFSMLogEntry + KVFSMSnapshot))
| WVote (req : RequestVoteRequest)
| WSnapshot (req : InstallSnapshotRequest (KVFSMLogEntry + KVFSMSnapshot))
| WTimeout.

Record SimCap := { sc_wire : list sim_wire; sc_events : list (capture_event unit) }.

(** Takes a body off the wire. *)
Definition sim_decode {A} (body : sim_wire -> option A) (e : SimCap) : SimCap * res A :=
  match sc_wire e with
  | [] => (e, Err (LibErr "EOF"))
  | x :: l =>
      ({| sc_wire := l; sc_events := sc_events e |},
       match body x with Some a => Ok a | None => Err (LibErr "unexpected byte") end)
  end.

#[export] Instance sim_capture : Capture SimCap := {|
  LogType := Z;
  LogCommand := 0%Z;
  LogConfiguration := 5%Z;
  LogType_String n := if decide (n = 0%Z) then "LogCommand" else "LogNoop";
  Suffrage := bool;
  Suffrage_String b := if b then "Voter" else "Nonvoter";
  DecodeConfiguration _ :=
    Some [{| cs_Suffrage := true; cs_ID := "kvs-shard-0-replica-0";
             cs_Address := "10.0.0.1:8080" |}];
  KVFSMLogEntry_String x := default "" (le_Key x);
  Unmarshal_leaves _ :=
    {| le_Operation := 0%Z; le_Key := None; le_Value := None; le_WritesEnabled := None |};
  LookupAddr ip e :=
    (e, if decide (ip = "10.0.0.1") then Ok ["replica-0.kvs.svc.localho.st."]
        else Err (LibErr "no such host"));
  Flow := string;
  Flow_Dst_String f := f;
  Reader := unit;
  NewReaderStream e := (e, tt);
  ReadByte _ e :=
    match sc_wire e with
    | [] => (e, EOF)
    | x :: l => ({| sc_wire := l; sc_events := sc_events e |},
                 Byte match x with WType b => b | _ => 255%Z end)
    end;
  Decode_AppendEntries _ := sim_decode (fun x => match x with
    | WAppend req => if decide (Forall is_Some (ae_Entries req)) then Some req else None
    | _ => None end);
  Decode_RequestVote _ :=
    sim_decode (fun x => match x with WVote req => Some req | _ => None end);
  Decode_InstallSnapshot _ :=
    sim_decode (fun x => match x with WSnapshot req => Some req | _ => None end);
  Decode_TimeoutNow _ e :=
    let (e', r) := sim_decode (fun x => match x with WTimeout => Some tt | _ => None end) e in
    (e', match r with Ok _ => None | Err err => Some err end);
  Handle := unit;
  OpenLive _ _ _ e := (e, Ok tt);
  SetBPFFilter _ _ e := (e, None);
  Handle_Close _ e := e;
  Packet := unit;
  TCP := unit;
  Packet_TCP p := Some tt;
  Packet_NetworkFlow p := Some "10.0.0.1";
  select _ e :=
    match sc_events e with
    | [] => (e, Done)
    | ev :: l => ({| sc_wire := sc_wire e; sc_events := l |}, ev)
    end;
  AssembleWithTimestamp f _ e := (e, [(f, "8080")]);
  FlushOlderThan _ e := e
|}.

Lemma sim_decode_unread {A} (body : sim_wire -> option A) e :
  length (sc_wire (sim_decode body e).1) <= length (sc_wire e).
Proof. unfold sim_decode. destruct (sc_wire e) as [|x l] eqn:Hw; simpl; [by rewrite Hw|lia]. Qed.

#[export] Instance sim_closed_streams : ClosedStreams SimCap.
Proof.
  refine {| unread := fun _ e => length (sc_wire e) |}; intros; try apply sim_decode_unread.
  - simpl. destruct (sc_wire e) as [|x l] eqn:Hw; simpl; [done|lia].
  - pose proof (sim_decode_unread (fun x => match x with WTimeout => Some tt | _ => None end) e).
    cbn. by destruct (sim_decode _ e).
  - done.
Defined.

#[export] Instance sim_sound_traffic : SoundTraffic SimCap.
Proof.
  split.
  - intros b. by eexists.
  - intros r e e' req. cbn. unfold sim_decode. destruct (sc_wire e) as [|x l]; [done|].
    destruct x as [| req' | | |]; intros H; simplify_eq. case_decide; by simplify_eq.
  - intros ip e. simpl. by case_decide.
Qed.

(** A candidate asks the replica at 10.0.0.1 for its vote; then come a heartbeat and the
    half of a request. *)
Definition sim_vote : RequestVoteRequest :=
  {| rv_Term := 2; rv_Candidate := "10.0.0.2:8080"; rv_LastLogIndex := 7;
     rv_LastLogTerm := 1; rv_LeadershipTransfer := false |}.
Definition sim_beat : AppendEntriesRequest Z (KVFSMLogEntry + KVFSMSnapshot) :=
  {| ae_Term := 2; ae_Leader := "10.0.0.2:8080"; ae_PrevLogEntry := 7;
     ae_PrevLogTerm := 1; ae_Entries := []; ae_LeaderCommitIndex := 7 |}.

Definition sim_captured : Cap SimCap :=
  {| c_env := {| sc_wire := [WType 1; WVote sim_vote; WType 0; WAppend sim_beat; WType 2];
                 sc_events := [Received (Some tt); Tick] |};
     hostnameCache := ∅; c_asked := []; c_out := []; c_go := [] |}.
Definition sim_stream : tcpStream SimCap :=
  {| ts_net := ("10.0.0.1" : @Flow _ SimCap _); ts_transport := ("8080" : @Flow _ SimCap _);
     ts_r := (tt : @Reader _ SimCap _) |}.

(** What is printed for the three requests. *)
Definition sim_printed : list printed :=
  [Stderr ("Sending RequestVoteRequest to replica-0:" +:+ nl +:+
     "  Term: 2" +:+ nl +:+ "  Candidate: 10.0.0.2:8080" +:+ nl +:+
     "  LastLogIndex: 7" +:+ nl +:+ "  LastLogTerm: 1" +:+ nl +:+
     "  LeadershipTransfer: false" +:+ nl);
   Stderr "Sending heartbeat to replica-0";
   Stderr "Failed to decode InstallSnapshotRequest: EOF"].

Example ex_captured :
  c_out (tcpStream_run 6 sim_stream sim_captured).1 = sim_printed.
Proof. vm_compute. reflexivity. Qed.

(** A capture of one packet starts one goroutine, and ends when it is told to. *)
Example ex_packets :
  let '(c, o) := RunPacketCapture 3 "10.0.0.2" "8080" sim_captured in
  (map (fun t => Flow_Dst_String (ts_net t)) (c_go c), o) = (["10.0.0.1"], Ret tt).
Proof. vm_compute. reflexivity. Qed.

Lemma resolver_asked_once_witness :
  let l := [StreamTurn sim_stream; PacketTurn (tt : @Handle _ SimCap _);
            StreamTurn sim_stream] in
  c_asked (take_turns l sim_captured).1 = ["10.0.0.1"; "10.0.0.2"] /\
  NoDup (c_asked (take_turns l sim_captured).1).
Proof.
  intros l. split; [vm_compute; reflexivity|].
  apply (resolver_asked_once l sim_captured _ (take_turns l sim_captured).2);
    [reflexivity|reflexivity|by destruct (take_turns l sim_captured)].
Defined.

Lemma stream_run_returns_witness :
  exists c', tcpStream_run 6 sim_stream sim_captured = (c', Ret tt).
Proof. apply (stream_run_returns sim_stream sim_captured 6). vm_compute. lia. Defined.
