(* ===== verification/DeepCopy.v ===== *)
(** * Deep copies: src/kvctl/api/v1/zz_generated.deepcopy.go

    A Go struct holds references: assigning it, as in [*out = *in], makes two structs that
    share what they refer to. Here references are made explicit. A heap maps
    locations to cells; the types of the Kubernetes libraries refer to cells of their
    own, and what the generated code asks of them, a copy that shares nothing, is the
    interface [DeepCopier] with the laws [DeepCopyLaws]. The copies of the four types of the
    package are then shown to keep the same laws.

    [DeepCopyInto(out)] is a function of [*in] to what it leaves in [*out]. A cell is
    allocated when what goes into it is complete; nothing reads it before. *)

From S2P Require Import Prelude.

Abbreviation loc := positive (only parsing).

(** ** The types of kvstore_types.go, with references *)

Record TypeMeta := { tm_Kind : string; tm_APIVersion : string }.

Section deepcopy.
Context {ObjectMeta ListMeta PodSpec Time LibCell : Type}.

Record KVStoreSpec := {
  Shards : Z; Replicas : Z; IngressDomain : string; spec_PodSpec : PodSpec
}.

Record KVStoreStatus := {
  Phase : string; CurrentShards : Z; TargetShards : Z; Message : string;
  LastTransition : Time
}.

Record KVStore := {
  ks_TypeMeta : TypeMeta; ks_ObjectMeta : ObjectMeta;
  Spec : KVStoreSpec; Status : KVStoreStatus
}.

(** A slice of resources is [nil] or refers to an array. *)
Record KVStoreList := {
  kl_TypeMeta : TypeMeta; kl_ListMeta : ListMeta; Items : option loc
}.

Inductive cell :=
| StoreCell (x : KVStore)
| ListCell (x : KVStoreList)
| ItemsCell (l : list KVStore)
| SpecCell (x : KVStoreSpec)
| StatusCell (x : KVStoreStatus)
| LibraryCell (x : LibCell).

Abbreviation heap := (gmap loc cell).

Definition new (c : cell) : M heap loc := fun h =>
  let l := fresh (dom h) in (<[l := c]> h, Ret l).

(** [*p], for a type of cells. *)
Definition deref {T} (as_T : cell -> option T) (p : loc) : M heap T := fun h =>
  match h !! p ≫= as_T with
  | Some x => (h, Ret x)
  | None => (h, Crash "invalid memory address")
  end.

Definition as_store (c : cell) := match c with StoreCell x => Some x | _ => None end.
Definition as_list (c : cell) := match c with ListCell x => Some x | _ => None end.
Definition as_items (c : cell) := match c with ItemsCell x => Some x | _ => None end.
Definition as_spec (c : cell) := match c with SpecCell x => Some x | _ => None end.
Definition as_status (c : cell) := match c with StatusCell x => Some x | _ => None end.

(** ** Copying *)

(** What a value stands for in a heap, the cells that this depends on, whether its
    references lead to cells of their types, and the method [DeepCopyInto]. *)
Class DeepCopier (T : Type) := {
  content : Type;
  view : heap -> T -> content;
  reach : heap -> T -> gset loc;
  valid : heap -> T -> Prop;
  deep : T -> M heap T
}.

(** [x'] in [h'] is a copy of [x] in [h]: nothing but allocation has happened; it stands
    for the same; it reaches only cells that were not there before. *)
Record copied {T} `{!DeepCopier T} (x : T) (h : heap) (x' : T) (h' : heap) : Prop := {
  copied_extends : h ⊆ h';
  copied_view : view h' x' = view h x;
  copied_fresh : reach h' x' ## dom h;
  copied_valid : valid h' x'
}.

(** Copying a valid value returns a copy of it; a value depends on the cells that it
    reaches. *)
Class DeepCopyLaws (T : Type) `{!DeepCopier T} : Prop := {
  deep_run x h : valid h x -> exists h' x', deep x h = (h', Ret x') /\ copied x h x' h';
  valid_reach h x : valid h x -> reach h x ⊆ dom h;
  reach_frame h h' x : valid h x -> (forall l, l ∈ reach h x -> h' !! l = h !! l) ->
    view h' x = view h x /\ reach h' x = reach h x /\ valid h' x
}.

Context `{!DeepCopier ObjectMeta, !DeepCopier ListMeta, !DeepCopier PodSpec}.
Context `{!DeepCopier Time}.

(** ** zz_generated.deepcopy.go *)

Definition set_PodSpec (p : PodSpec) (x : KVStoreSpec) : KVStoreSpec :=
  {| Shards := Shards x; Replicas := Replicas x; IngressDomain := IngressDomain x;
     spec_PodSpec := p |}.
Definition set_LastTransition (t : Time) (x : KVStoreStatus) : KVStoreStatus :=
  {| Phase := Phase x; CurrentShards := CurrentShards x; TargetShards := TargetShards x;
     Message := Message x; LastTransition := t |}.
Definition set_TypeMeta (m : TypeMeta) (x : KVStore) : KVStore :=
  {| ks_TypeMeta := m; ks_ObjectMeta := ks_ObjectMeta x; Spec := Spec x;
     Status := Status x |}.
Definition set_ObjectMeta (m : ObjectMeta) (x : KVStore) : KVStore :=
  {| ks_TypeMeta := ks_TypeMeta x; ks_ObjectMeta := m; Spec := Spec x;
     Status := Status x |}.
Definition set_Spec (s : KVStoreSpec) (x : KVStore) : KVStore :=
  {| ks_TypeMeta := ks_TypeMeta x; ks_ObjectMeta := ks_ObjectMeta x; Spec := s;
     Status := Status x |}.
Definition set_Status (s : KVStoreStatus) (x : KVStore) : KVStore :=
  {| ks_TypeMeta := ks_TypeMeta x; ks_ObjectMeta := ks_ObjectMeta x; Spec := Spec x;
     Status := s |}.
Definition set_list_TypeMeta (m : TypeMeta) (x : KVStoreList) : KVStoreList :=
  {| kl_TypeMeta := m; kl_ListMeta := kl_ListMeta x; Items := Items x |}.
Definition set_ListMeta (m : ListMeta) (x : KVStoreList) : KVStoreList :=
  {| kl_TypeMeta := kl_TypeMeta x; kl_ListMeta := m; Items := Items x |}.
Definition set_Items (i : option loc) (x : KVStoreList) : KVStoreList :=
  {| kl_TypeMeta := kl_TypeMeta x; kl_ListMeta := kl_ListMeta x; Items := i |}.

Definition KVStoreSpec_DeepCopyInto (input : KVStoreSpec) : M heap KVStoreSpec :=
  let out := input in
  p <- deep (spec_PodSpec input) ;;
  ret (set_PodSpec p out).

Definition KVStoreStatus_DeepCopyInto (input : KVStoreStatus) : M heap KVStoreStatus :=
  let out := input in
  t <- deep (LastTransition input) ;;
  ret (set_LastTransition t out).

Definition KVStore_DeepCopyInto (input : KVStore) : M heap KVStore :=
  let out := input in
  let out := set_TypeMeta (ks_TypeMeta input) out in
  m <- deep (ks_ObjectMeta input) ;;
  let out := set_ObjectMeta m out in
  s <- KVStoreSpec_DeepCopyInto (Spec input) ;;
  let out := set_Spec s out in
  s <- KVStoreStatus_DeepCopyInto (Status input) ;;
  ret (set_Status s out).

(** The loop over the items. *)
Fixpoint copy_items (l : list KVStore) : M heap (list KVStore) :=
  match l with
  | [] => ret []
  | x :: l' =>
      x' <- KVStore_DeepCopyInto x ;;
      l'' <- copy_items l' ;;
      ret (x' :: l'')
  end.

Definition KVStoreList_DeepCopyInto (input : KVStoreList) : M heap KVStoreList :=
  let out := input in
  let out := set_list_TypeMeta (kl_TypeMeta input) out in
  m <- deep (kl_ListMeta input) ;;
  let out := set_ListMeta m out in
  match Items input with
  | None => ret out
  | Some items =>
      l <- deref as_items items ;;
      l' <- copy_items l ;;
      items' <- new (ItemsCell l') ;;
      ret (set_Items (Some items') out)
  end.

(** [DeepCopy] of a pointer, which may be [nil]. *)
Definition DeepCopy {T} (as_T : cell -> option T) (of_T : T -> cell)
    (DeepCopyInto : T -> M heap T) (input : option loc) : M heap (option loc) :=
  match input with
  | None => ret None
  | Some p =>
      x <- deref as_T p ;;
      x' <- DeepCopyInto x ;;
      out <- new (of_T x') ;;
      ret (Some out)
  end.

Definition KVStore_DeepCopy := DeepCopy as_store StoreCell KVStore_DeepCopyInto.
Definition KVStoreList_DeepCopy := DeepCopy as_list ListCell KVStoreList_DeepCopyInto.
Definition KVStoreSpec_DeepCopy := DeepCopy as_spec SpecCell KVStoreSpec_DeepCopyInto.
Definition KVStoreStatus_DeepCopy :=
  DeepCopy as_status StatusCell KVStoreStatus_DeepCopyInto.

(** [runtime.Object], as far as the package implements it. *)
Inductive Object := AKVStore (p : loc) | AKVStoreList (p : loc).

(** A [nil] pointer yields a [nil] interface. *)
Definition KVStore_DeepCopyObject (input : option loc) : M heap (option Object) :=
  c <- KVStore_DeepCopy input ;;
  match c with
  | Some c => ret (Some (AKVStore c))
  | None => ret None
  end.

Definition KVStoreList_DeepCopyObject (input : option loc) : M heap (option Object) :=
  c <- KVStoreList_DeepCopy input ;;
  match c with
  | Some c => ret (Some (AKVStoreList c))
  | None => ret None
  end.

(** The method of the interface. *)
Definition DeepCopyObject (o : Object) : M heap (option Object) :=
  match o with
  | AKVStore p => KVStore_DeepCopyObject (Some p)
  | AKVStoreList p => KVStoreList_DeepCopyObject (Some p)
  end.

(** ** The four types keep the interface *)

#[export] Instance spec_copier : DeepCopier KVStoreSpec := {|
  content := (Z * Z * string) * content (T := PodSpec);
  view h x := (Shards x, Replicas x, IngressDomain x, view h (spec_PodSpec x));
  reach h x := reach h (spec_PodSpec x);
  valid h x := valid h (spec_PodSpec x);
  deep := KVStoreSpec_DeepCopyInto
|}.

#[export] Instance status_copier : DeepCopier KVStoreStatus := {|
  content := (string * Z * Z * string) * content (T := Time);
  view h x := (Phase x, CurrentShards x, TargetShards x, Message x,
    view h (LastTransition x));
  reach h x := reach h (LastTransition x);
  valid h x := valid h (LastTransition x);
  deep := KVStoreStatus_DeepCopyInto
|}.

#[export] Instance store_copier : DeepCopier KVStore := {|
  content := TypeMeta * content (T := ObjectMeta) * content (T := KVStoreSpec) *
    content (T := KVStoreStatus);
  view h x := (ks_TypeMeta x, view h (ks_ObjectMeta x), view h (Spec x), view h (Status x));
  reach h x := reach h (ks_ObjectMeta x) ∪ reach h (Spec x) ∪ reach h (Status x);
  valid h x := valid h (ks_ObjectMeta x) /\ valid h (Spec x) /\ valid h (Status x);
  deep := KVStore_DeepCopyInto
|}.

#[export] Instance items_copier : DeepCopier (list KVStore) := {|
  content := list (content (T := KVStore));
  view h l := map (view h) l;
  reach h l := ⋃ map (reach h) l;
  valid h l := Forall (valid h) l;
  deep := copy_items
|}.

#[export] Instance list_copier : DeepCopier KVStoreList := {|
  content := TypeMeta * content (T := ListMeta) *
    option (content (T := list KVStore));
  view h x := (kl_TypeMeta x, view h (kl_ListMeta x),
    p ← Items x; l ← h !! p ≫= as_items; Some (view h l));
  reach h x := reach h (kl_ListMeta x) ∪
    match Items x with
    | None => ∅
    | Some p => {[p]} ∪
        match h !! p ≫= as_items with Some l => reach h l | None => ∅ end
    end;
  valid h x := valid h (kl_ListMeta x) /\
    match Items x with
    | None => True
    | Some p => match h !! p ≫= as_items with Some l => valid h l | None => False end
    end;
  deep := KVStoreList_DeepCopyInto
|}.

(** A value stays what it is when cells are allocated. *)
Lemma valid_extends {T} `{!DeepCopier T, !DeepCopyLaws T} (x : T) (h h' : heap) :
  valid h x -> h ⊆ h' ->
  view h' x = view h x /\ reach h' x = reach h x /\ valid h' x.
Proof.
  intros Hx Hle. apply reach_frame; [done|]. intros l Hl.
  apply (valid_reach h x Hx), elem_of_dom in Hl as [c Hc].
  rewrite Hc. by eapply lookup_weaken.
Qed.

(** A copy is still one after further allocation, and a copy that is made later is one
    of what was there earlier. *)
Lemma copied_later {T} `{!DeepCopier T, !DeepCopyLaws T} (x x' : T) (h h1 h2 : heap) :
  copied x h x' h1 -> h1 ⊆ h2 -> copied x h x' h2.
Proof.
  intros [Hle Hview Hfresh Hval] Hle'.
  destruct (valid_extends x' h1 h2 Hval Hle') as (Hv & Hr & Hval').
  split; [by etrans|congruence|by rewrite Hr|done].
Qed.

Lemma copied_earlier {T} `{!DeepCopier T, !DeepCopyLaws T} (x x' : T) (h h1 h2 : heap) :
  valid h x -> h ⊆ h1 -> copied x h1 x' h2 -> copied x h x' h2.
Proof.
  intros Hx Hle [Hle' Hview Hfresh Hval].
  destruct (valid_extends x h h1 Hx Hle) as (Hv & _ & _).
  split; [by etrans|congruence| |done].
  apply subseteq_dom in Hle. set_solver.
Qed.

(** Copying in a heap that has grown since [x] was valid. *)
Lemma deep_run_later {T} `{!DeepCopier T, !DeepCopyLaws T} (x : T) (h h1 : heap) :
  valid h x -> h ⊆ h1 ->
  exists h2 x', deep x h1 = (h2, Ret x') /\ h1 ⊆ h2 /\ copied x h x' h2.
Proof.
  intros Hx Hle. destruct (valid_extends x h h1 Hx Hle) as (_ & _ & Hx1).
  destruct (deep_run x h1 Hx1) as (h2 & x' & Hrun & Hcp).
  exists h2, x'. split_and!; [done|apply Hcp|by eapply copied_earlier].
Qed.

Lemma new_run c (h : heap) :
  exists p, new c h = (<[p := c]> h, Ret p) /\ (p ∉ dom h) /\ h ⊆ (<[p := c]> h).
Proof.
  exists (fresh (dom h)). assert (Hp : fresh (dom h) ∉ dom h) by apply is_fresh.
  split_and!; [done|done|]. apply insert_subseteq. by apply not_elem_of_dom.
Qed.

Lemma deref_run {T} (as_T : cell -> option T) p x (h : heap) :
  (h !! p ≫= as_T) = Some x -> deref as_T p h = (h, Ret x).
Proof. unfold deref. by intros ->. Qed.

Context `{!DeepCopyLaws ObjectMeta, !DeepCopyLaws ListMeta, !DeepCopyLaws PodSpec}.
Context `{!DeepCopyLaws Time}.

#[export] Instance spec_laws : DeepCopyLaws KVStoreSpec.
Proof.
  split; simpl.
  - intros x h Hx. destruct (deep_run (spec_PodSpec x) h Hx) as (h' & p & Hrun & []).
    unfold KVStoreSpec_DeepCopyInto. rewrite (bind_Ret _ _ _ _ _ Hrun).
    do 2 eexists. split; [done|]. split; simpl; congruence || done.
  - intros h x. apply valid_reach.
  - intros h h' x Hx Hl. destruct (reach_frame h h' (spec_PodSpec x)) as (-> & ? & ?);
      auto.
Qed.

#[export] Instance status_laws : DeepCopyLaws KVStoreStatus.
Proof.
  split; simpl.
  - intros x h Hx. destruct (deep_run (LastTransition x) h Hx) as (h' & p & Hrun & []).
    unfold KVStoreStatus_DeepCopyInto. rewrite (bind_Ret _ _ _ _ _ Hrun).
    do 2 eexists. split; [done|]. split; simpl; congruence || done.
  - intros h x. apply valid_reach.
  - intros h h' x Hx Hl. destruct (reach_frame h h' (LastTransition x)) as (-> & ? & ?);
      auto.
Qed.

#[export] Instance store_laws : DeepCopyLaws KVStore.
Proof.
  split.
  - intros x h (Hm & Hs & Ht). simpl. unfold KVStore_DeepCopyInto.
    destruct (deep_run (ks_ObjectMeta x) h Hm) as (h1 & m & Hrun1 & Cm).
    destruct (deep_run_later (Spec x) h h1) as (h2 & s & Hrun2 & Hle2 & Cs);
      [done|apply Cm|].
    destruct (deep_run_later (Status x) h h2) as (h3 & t & Hrun3 & Hle3 & Ct);
      [done|apply Cs|].
    rewrite (bind_Ret _ _ _ _ _ Hrun1).
    change (KVStoreSpec_DeepCopyInto (Spec x) h1 = (h2, Ret s)) in Hrun2.
    rewrite (bind_Ret _ _ _ _ _ Hrun2).
    change (KVStoreStatus_DeepCopyInto (Status x) h2 = (h3, Ret t)) in Hrun3.
    rewrite (bind_Ret _ _ _ _ _ Hrun3).
    do 2 eexists. split; [done|].
    assert (Cm3 : copied (ks_ObjectMeta x) h m h3) by (eapply copied_later; [|etrans]; done).
    assert (Cs3 : copied (Spec x) h s h3) by (by eapply copied_later).
    destruct Cm3 as [? Vm Fm ?], Cs3 as [_ Vs Fs ?], Ct as [_ Vt Ft ?].
    split; [done|..]; cbn [view reach valid store_copier ks_TypeMeta ks_ObjectMeta Spec
      Status set_Status set_Spec set_ObjectMeta set_TypeMeta].
    + by rewrite Vm, Vs, Vt.
    + apply disjoint_union_l. split; [by apply disjoint_union_l|done].
    + done.
  - intros h x (Hm & Hs & Ht). apply valid_reach in Hm, Hs, Ht.
    cbn [reach store_copier]. set_solver.
  - intros h h' x (Hm & Hs & Ht) Hl. cbn [view reach valid store_copier] in *.
    destruct (reach_frame h h' (ks_ObjectMeta x)) as (-> & -> & ?); [done|set_solver|].
    destruct (reach_frame h h' (Spec x)) as (-> & -> & ?); [done|set_solver|].
    destruct (reach_frame h h' (Status x)) as (-> & -> & ?); [done|set_solver|].
    done.
Qed.

#[export] Instance items_laws : DeepCopyLaws (list KVStore).
Proof.
  split.
  - intros l h Hl. revert h Hl. induction l as [|x l IH]; intros h Hl.
    { exists h, []. split; [done|]. by split. }
    inversion Hl as [|? ? Hx Hl']. subst.
    destruct (deep_run x h Hx) as (h1 & x' & Hrun1 & Cx).
    assert (Hl1 : Forall (valid h1) l).
    { eapply Forall_impl; [done|]. intros y Hy.
      by apply (valid_extends y h h1 Hy (copied_extends _ _ _ _ Cx)). }
    destruct (IH h1 Hl1) as (h2 & l' & Hrun2 & Cl).
    exists h2, (x' :: l'). split.
    { cbn [deep items_copier copy_items]. rewrite (bind_Ret _ _ _ _ _ Hrun1).
      by rewrite (bind_Ret _ _ _ _ _ Hrun2). }
    pose proof (copied_later _ _ _ _ _ Cx (copied_extends _ _ _ _ Cl)) as Cx2.
    destruct Cx as [Hle1 _ _ _], Cx2 as [Hle2 Vx Fx ?], Cl as [_ Vl Fl ?].
    split; [done|..]; cbn [view reach valid items_copier map] in *.
    + rewrite Vx, Vl. f_equal. apply map_ext_Forall, (Forall_impl _ _ _ Hl').
      intros y Hy. by destruct (valid_extends y h h1 Hy Hle1) as (-> & _).
    + simpl. apply disjoint_union_l. split; [done|].
      apply subseteq_dom in Hle1. set_solver.
    + by constructor.
  - intros h l Hl. cbn [reach items_copier]. induction Hl as [|x l Hx Hl IH]; simpl;
      [set_solver|]. apply valid_reach in Hx. set_solver.
  - intros h h' l Hl Hag. cbn [view reach valid items_copier] in *.
    induction Hl as [|x l Hx Hl IH]; cbn [map] in *; [done|].
    rewrite !union_list_cons in *. destruct (reach_frame h h' x Hx) as (-> & -> & ?); [set_solver|].
    destruct IH as (-> & -> & ?); [set_solver|]. split_and!; [done|done|].
    by constructor.
Qed.

#[export] Instance list_laws : DeepCopyLaws KVStoreList.
Proof.
  split.
  - intros x h [Hm Hi]. cbn [deep list_copier].
    destruct (deep_run (kl_ListMeta x) h Hm) as (h1 & m & Hrun1 & Cm).
    unfold KVStoreList_DeepCopyInto. rewrite (bind_Ret _ _ _ _ _ Hrun1).
    destruct (Items x) as [p|] eqn:Hitems.
    2:{ do 2 eexists. split; [done|]. destruct Cm as [? Vm Fm ?].
        split; [done|..]; cbn; rewrite Hitems; [by rewrite Vm|set_solver|done]. }
    destruct (h !! p ≫= as_items) as [l|] eqn:Hl; [|done].
    assert (Hl1 : (h1 !! p ≫= as_items) = Some l).
    { apply bind_Some in Hl as (c & Hc & Hl). apply bind_Some. exists c.
      split; [|done]. eapply lookup_weaken; [done|apply Cm]. }
    rewrite (bind_Ret _ _ _ _ _ (deref_run _ _ _ _ Hl1)).
    destruct (deep_run_later l h h1 Hi) as (h2 & l' & Hrun2 & Hle2 & Cl); [apply Cm|].
    change (copy_items l h1 = (h2, Ret l')) in Hrun2.
    rewrite (bind_Ret _ _ _ _ _ Hrun2).
    destruct (new_run (ItemsCell l') h2) as (q & Hrun3 & Hq & Hle3).
    rewrite (bind_Ret _ _ _ _ _ Hrun3). do 2 eexists. split; [done|].
    assert (Cm3 : copied (kl_ListMeta x) h m (<[q := ItemsCell l']> h2))
      by (eapply copied_later; [|etrans]; done).
    assert (Cl3 : copied l h l' (<[q := ItemsCell l']> h2)) by (by eapply copied_later).
    destruct Cm3 as [Hle Vm Fm ?], Cl3 as [_ Vl Fl ?].
    split; [done|..]; cbn [view reach valid list_copier kl_TypeMeta kl_ListMeta Items
      set_Items set_ListMeta set_list_TypeMeta mbind option_bind];
      rewrite lookup_insert_eq; cbn [as_items].
    + rewrite Hitems, Vm. cbn [mbind option_bind]. rewrite Hl.
      cbn [as_items mbind option_bind]. by rewrite Vl.
    + apply disjoint_union_l. split; [done|]. apply disjoint_union_l. split; [|done].
      assert (dom h ⊆ dom h2) by (apply subseteq_dom; etrans; [apply Cm|done]).
      set_solver.
    + done.
  - intros h x [Hm Hi]. cbn [reach list_copier]. apply valid_reach in Hm.
    destruct (Items x) as [p|]; [|set_solver].
    destruct (h !! p ≫= as_items) as [l|] eqn:Hl; [|done]. apply valid_reach in Hi.
    apply bind_Some in Hl as (c & Hc%elem_of_dom_2 & _). set_solver.
  - intros h h' x [Hm Hi] Hag. cbn [view reach valid list_copier] in *.
    destruct (reach_frame h h' (kl_ListMeta x)) as (-> & -> & ?); [done|set_solver|].
    destruct (Items x) as [p|]; cbn [mbind option_bind] in *; [|done].
    destruct (h !! p ≫= as_items) as [l|] eqn:Hl; [|done].
    rewrite Hag by set_solver. rewrite Hl. cbn [mbind option_bind].
    by destruct (reach_frame h h' l) as (-> & -> & ?); [done|set_solver|].
Qed.

(** ** Copies of objects behind pointers *)

Section pointers.
Context {T : Type} `{!DeepCopier T, !DeepCopyLaws T}.
Context (as_T : cell -> option T).

Definition pointer_view (h : heap) (p : loc) : option content :=
  view h <$> (h !! p ≫= as_T).
Definition pointer_reach (h : heap) (p : loc) : gset loc :=
  {[p]} ∪ match h !! p ≫= as_T with Some x => reach h x | None => ∅ end.
Definition pointer_valid (h : heap) (p : loc) : Prop :=
  match h !! p ≫= as_T with Some x => valid h x | None => False end.

(** Only writes to the cells that an object reaches can change it. *)
Lemma pointer_frame (h h' : heap) p :
  pointer_valid h p -> (forall l, l ∈ pointer_reach h p -> h' !! l = h !! l) ->
  pointer_view h' p = pointer_view h p.
Proof.
  unfold pointer_valid, pointer_reach, pointer_view. intros Hp Hag.
  rewrite Hag by set_solver. destruct (h !! p ≫= as_T) as [x|]; [|done].
  simpl. f_equal. apply reach_frame; [done|]. intros l Hl. apply Hag. set_solver.
Qed.

Lemma pointer_valid_reach (h : heap) p : pointer_valid h p -> pointer_reach h p ⊆ dom h.
Proof.
  unfold pointer_valid, pointer_reach.
  destruct (h !! p ≫= as_T) as [x|] eqn:Hx; [|done].
  apply bind_Some in Hx as (c & Hc%elem_of_dom_2 & _). intros Hv%valid_reach. set_solver.
Qed.

Lemma DeepCopy_run (of_T : T -> cell) (as_of : forall x, as_T (of_T x) = Some x)
    (h : heap) p : pointer_valid h p ->
  exists h' q, DeepCopy as_T of_T deep (Some p) h = (h', Ret (Some q)) /\
    h ⊆ h' /\ pointer_view h' q = pointer_view h p /\
    pointer_reach h' q ## dom h /\ pointer_valid h' q.
Proof.
  intros Hp. unfold pointer_valid in Hp.
  destruct (h !! p ≫= as_T) as [x|] eqn:Hx; [|done].
  destruct (deep_run x h Hp) as (h1 & x' & Hrun1 & Cx).
  destruct (new_run (of_T x') h1) as (q & Hrun2 & Hq & Hle2).
  pose proof (copied_later _ _ _ _ _ Cx Hle2) as [Hle Vx Fx Hval].
  exists (<[q := of_T x']> h1), q. unfold DeepCopy.
  rewrite (bind_Ret _ _ _ _ _ (deref_run _ _ _ _ Hx)), (bind_Ret _ _ _ _ _ Hrun1),
    (bind_Ret _ _ _ _ _ Hrun2).
  assert (dom h ⊆ dom h1) by (apply subseteq_dom, Cx).
  unfold pointer_view, pointer_reach, pointer_valid.
  rewrite lookup_insert_eq. cbn [mbind option_bind]. rewrite as_of, Hx. simpl.
  split_and!; [done|done|by rewrite Vx| |done].
  apply disjoint_union_l. split; [set_solver|done].
Qed.

(** Writing to the copy leaves the original as it is, and the other way round. *)
Lemma copy_independent (h h' : heap) p q :
  pointer_valid h p -> h ⊆ h' -> pointer_view h' q = pointer_view h p ->
  pointer_reach h' q ## dom h -> pointer_valid h' q ->
  (forall h2, (forall l, l ∉ pointer_reach h' q -> h2 !! l = h' !! l) ->
    pointer_view h2 p = pointer_view h p) /\
  (forall h2, (forall l, l ∉ pointer_reach h p -> h2 !! l = h' !! l) ->
    pointer_view h2 q = pointer_view h p).
Proof.
  intros Hp Hle Hview Hfresh Hq. pose proof (pointer_valid_reach h p Hp) as Hin.
  split; intros h2 Hag.
  - apply pointer_frame; [done|]. intros l Hl. apply Hin in Hl as Hd.
    rewrite Hag by set_solver. apply elem_of_dom in Hd as [c Hc].
    rewrite Hc. by eapply lookup_weaken.
  - rewrite <- Hview. apply pointer_frame; [done|]. intros l Hl. apply Hag. set_solver.
Qed.

End pointers.

(** ** Copies of API objects *)

(** What an object stands for, the cells it depends on, and that its references lead to
    cells of their types. *)
Definition object_view (h : heap) (o : Object)
    : option (content (T := KVStore) + content (T := KVStoreList)) :=
  match o with
  | AKVStore p => inl <$> pointer_view as_store h p
  | AKVStoreList p => inr <$> pointer_view as_list h p
  end.
Definition object_reach (h : heap) (o : Object) : gset loc :=
  match o with
  | AKVStore p => pointer_reach as_store h p
  | AKVStoreList p => pointer_reach as_list h p
  end.
Definition object_valid (h : heap) (o : Object) : Prop :=
  match o with
  | AKVStore p => pointer_valid as_store h p
  | AKVStoreList p => pointer_valid as_list h p
  end.

(** C35: A generated deep copy is a copy, and deep: for a resource or a list of resources
    whose references are sound, [DeepCopyObject] returns a new object that stands for the
    same, changes no cell that was there, and shares none with the original. Hence
    whatever is then written to cells of the copy, the original stays what it was,
    and whatever is written to cells of the original, the copy does. *)
Theorem deep_copies_independent (h : heap) (o : Object) :
  object_valid h o ->
  exists h' o', DeepCopyObject o h = (h', Ret (Some o')) /\
    h ⊆ h' /\ object_view h' o' = object_view h o /\
    object_reach h' o' ## dom h /\
    (forall h2, (forall l, l ∉ object_reach h' o' -> h2 !! l = h' !! l) ->
      object_view h2 o = object_view h o) /\
    (forall h2, (forall l, l ∉ object_reach h o -> h2 !! l = h' !! l) ->
      object_view h2 o' = object_view h o).
Proof.
  destruct o as [p|p]; simpl; intros Hp.
  - destruct (DeepCopy_run as_store StoreCell (fun x => eq_refl) h p Hp)
      as (h' & q & Hrun & Hle & Hview & Hfresh & Hq).
    destruct (copy_independent as_store h h' p q) as [Ho Hc]; try done.
    exists h', (AKVStore q). simpl. rewrite Hview.
    split_and!; [by unfold KVStore_DeepCopyObject; rewrite (bind_Ret _ _ _ _ _ Hrun)|
      done|done|done| |]; intros h2 Hag; [by rewrite Ho|by rewrite Hc].
  - destruct (DeepCopy_run as_list ListCell (fun x => eq_refl) h p Hp)
      as (h' & q & Hrun & Hle & Hview & Hfresh & Hq).
    destruct (copy_independent as_list h h' p q) as [Ho Hc]; try done.
    exists h', (AKVStoreList q). simpl. rewrite Hview.
    split_and!; [by unfold KVStoreList_DeepCopyObject; rewrite (bind_Ret _ _ _ _ _ Hrun)|
      done|done|done| |]; intros h2 Hag; [by rewrite Ho|by rewrite Hc].
Qed.

End deepcopy.

(** ** A concrete library *)

(** Metadata and pods that refer to a map of labels; times without references. *)
Record sim_ref := { sr_map : positive }.
Abbreviation sim_cell := (cell (ObjectMeta := sim_ref) (ListMeta := string)
  (PodSpec := sim_ref) (Time := Z) (LibCell := gmap string string)).
Abbreviation sim_heap := (gmap positive sim_cell).

Definition sim_labels (c : sim_cell) : option (gmap string string) :=
  match c with LibraryCell m => Some m | _ => None end.

(** A type without references copies itself. *)
#[export] Instance plain_copier T : DeepCopier (ObjectMeta := sim_ref)
    (ListMeta := string) (PodSpec := sim_ref) (Time := Z)
    (LibCell := gmap string string) T | 10 := {|
  content := T; view h x := x; reach h x := ∅; valid h x := True; deep x := ret x
|}.

#[export] Instance plain_laws T : DeepCopyLaws T.
Proof.
  split; simpl; [|set_solver|done].
  intros x h _. exists h, x. split; [done|]. split; simpl; [done|done|set_solver|done].
Qed.

#[export] Instance ref_copier : DeepCopier (ObjectMeta := sim_ref)
    (ListMeta := string) (PodSpec := sim_ref) (Time := Z)
    (LibCell := gmap string string) sim_ref := {|
  content := option (gmap string string);
  view h x := h !! sr_map x ≫= sim_labels;
  reach h x := {[sr_map x]};
  valid h x := is_Some (h !! sr_map x ≫= sim_labels);
  deep x :=
    m <- deref sim_labels (sr_map x) ;;
    p <- new (LibraryCell m) ;;
    ret {| sr_map := p |}
|}.

#[export] Instance ref_laws : DeepCopyLaws sim_ref.
Proof.
  split; simpl.
  - intros x h [m Hm]. destruct (new_run (LibraryCell m) h) as (p & Hrun & Hp & Hle).
    rewrite (bind_Ret _ _ _ _ _ (deref_run _ _ _ _ Hm)), (bind_Ret _ _ _ _ _ Hrun).
    do 2 eexists. split; [done|]. split; simpl; [done|..].
    + by rewrite lookup_insert_eq, Hm.
    + set_solver.
    + rewrite lookup_insert_eq. by eexists.
  - intros h x [m (c & Hc%elem_of_dom_2 & _)%bind_Some]. set_solver.
  - intros h h' x Hx Hag. rewrite Hag by set_solver. done.
Qed.

(** A list with one resource, behind the pointer 1. *)
Definition sim_store : KVStore (ObjectMeta := sim_ref) (PodSpec := sim_ref) (Time := Z) :=
  {| ks_TypeMeta := {| tm_Kind := "KVStore"; tm_APIVersion := "v1" |};
     ks_ObjectMeta := {| sr_map := 3 |};
     Spec := {| Shards := 2; Replicas := 3; IngressDomain := "localho.st";
                spec_PodSpec := {| sr_map := 4 |} |};
     Status := {| Phase := ""; CurrentShards := 2; TargetShards := 2; Message := "";
                  LastTransition := 0%Z |} |}.
Definition sim_objects : sim_heap :=
  {[ 1%positive := ListCell {| kl_TypeMeta := {| tm_Kind := "KVStoreList";
                                                 tm_APIVersion := "v1" |};
                               kl_ListMeta := "7"; Items := Some 2%positive |};
     2%positive := ItemsCell [sim_store];
     3%positive := LibraryCell {[ "group" := "a" ]};
     4%positive := LibraryCell ∅ ]}.

Lemma deep_copies_independent_witness :
  exists h' o', DeepCopyObject (AKVStoreList 1) sim_objects = (h', Ret (Some o')) /\
    object_reach h' o' ## dom sim_objects.
Proof.
  destruct (deep_copies_independent sim_objects (AKVStoreList 1))
    as (h' & o' & Hrun & _ & _ & Hd & _).
  - split; [exact I|]. apply Forall_singleton.
    split; [|split]; [by eexists|by eexists|exact I].
  - by exists h', o'.
Defined.
